(* ===== verification/_CoqProject ===== *)
-Q . S2P
Prelude.v
GoStrings.v
GoBinary.v
Identifiers.v
PersistentStore.v
ScriptNesting.v
FileSystem.v
BundleStore.v
ConfigTypes.v
Json.v
JsonDecode.v
BundleManager.v
BundleSpec.v
BundleWithdrawal.v
ControlAPI.v
ControlSocket.v
GoNet.v
HostPatterns.v
ScriptConfig.v
Certificates.v
TransportProjection.v
RoutingRules.v
Settings.v
ConfigValidate.v
ConfigDecode.v
ConfigSpec.v
Socks.v
ProxyServers.v
UpstreamDial.v
EngineLogHub.v
ScriptHost.v
WebSocket.v
EngineLogService.v
EngineLogStream.v
EngineLogSocket.v
ConfigStore.v
ConfigFile.v
CommandLine.v
ProcessStart.v
HttpHeaders.v
Templates.v
DeclarativeActions.v
ScriptResults.v
JqActions.v
ModuleNetwork.v
AsyncLoop.v
SharedSettings.v
WebAPI.v
ScriptSurface.v
Dom.v
RequestPipeline.v
Replies.v
BodyBudget.v
HttpExchange.v
TransportPool.v
TransportContents.v
ProxyServe.v
UpstreamHTTP3.v
