(* ===== verification/Prelude.v ===== *)
(** * 5gpn-intercept: a verification library

    The program is a sidecar that decrypts, transforms and forwards the traffic
    of an allowlist of hosts.  A coordinator pushes it bundles, configuration
    documents, over a control API; it validates, stores and serves one of them
    at a time; a request that reaches it is matched against the actions of the
    served document, transformed, sent upstream through the gateway's SOCKS
    listener, and its response is transformed on the way back.

    ** Parts and files

    Go's own libraries, as far as the program uses them:
    [GoStrings] ([strings], [utf8], [strconv]), [GoBinary] ([binary], [hex],
    [sha256], computed), [GoNet] ([net], [netip]), [Json] and [JsonDecode]
    ([encoding/json]).

    The durable state:
    [FileSystem] is a disk on which every system call may fail and every disk
    a crash between two calls could leave is recorded; [BundleStore] is [bundle_store.go];
    [BundleManager] is [bundle_manager.go] (stage, commit, abort, purge,
    recover); [BundleSpec] states what a coordinator may rely on, and
    [BundleWithdrawal] what is left of the served bundles by an operation that
    was cut short.
    [ConfigStore] is [configStore] of [config.go], which serves the manager's
    bundle or the configuration file, and [ConfigFile] the read of that file.
    [ControlAPI] is [control_api.go] and
    [control_peer_identity.go], the coordinator's way in, [ControlSocket] the
    creation of its socket; [Certificates] is
    [cert.go], the leaf the listeners present; [PersistentStore] the storage of
    the extensions in [module_runtime.go].

    The document ([config.go]):
    [ConfigTypes] its records; [Identifiers], [HostPatterns], [RoutingRules],
    [Settings] and [ConfigValidate] everything [Validate] checks (with the
    declarative actions of [module_mock.go] and [module_rewrite.go]);
    [ScriptNesting] is [script_nesting.go]; [ScriptConfig] the compiled
    snapshot and the choice of actions for a request ([module_runtime.go]);
    [ConfigDecode] is [decodeConfig]; [ConfigSpec] says what an accepted
    document is.

    The traffic:
    [TransportProjection] is [transport_projection.go], what an upstream leg
    may reach; [TransportPool] the shared generations of transports of
    [proxy.go], [TransportContents] the transports of one, [UpstreamDial] what they dial and [UpstreamHTTP3] the HTTP/3
    legs; [Socks] is [socks.go];
    [ProxyServers] what [proxy.go] does with a connection before a server has
    it; [HttpHeaders] the header rules of
    [proxy.go], [module_network.go] and [module_runtime.go]; [Templates] and
    [DeclarativeActions] the actions without a script; [RequestPipeline] the
    request and response pipelines of [module_proxy.go]; [BodyBudget] the
    budget of resident bodies; [HttpExchange] is [ServeHTTP], which composes
    them.  [ProxyServe] is the accept loop and its end.  [CommandLine] is the
    reading of flags ([flag], [strconv]) and [ProcessStart] is
    [main.go]: what its arguments ask for, its modes, the start and the end.

    The scripts: [ScriptSurface] is what an action finds in its interpreter
    ([execute] of [module_runtime.go], [module_compat.go]); [ScriptResults] what
    comes back; [ModuleNetwork] is [module_network.go], [AsyncLoop]
    [module_async.go] with the completion of a bundle, [WebAPI]
    [module_webapi.go], [JqActions] [module_jq.go], [Dom] [module_dom.go];
    [SharedSettings] is what scripts share and what they are handed a copy of;
    [Replies] what the network and the helpers answer them; [ScriptHost] the
    console and the report of an action, and the watchdog of [main.go].

    The console stream ([engine_logs.go]): [EngineLogHub] the ring of events and
    its readers, [WebSocket] the framing, [EngineLogService] the handlers and
    the writers of a stream, [EngineLogStream] its reader, pinger and sender,
    [EngineLogSocket] the claim of the socket path.

    A definition has the name of the function it models where Rocq allows it; a
    method has its own name, a field the prefix of its record.  Strings and
    byte slices are lists of integers, one per byte; machine integers are
    integers, with their wrap-around written ([u64]) where a counter can reach
    it; a function that returns an error returns [res].

    ** State and steps

    The bundle manager and the store are actions on a state of manager and
    world; a method runs under the manager's mutex and is one action, and the
    trace of the world has the disks in between.  [step] of [BundleManager] is one
    call of the coordinator or a restart.  A handler of the API is a method and
    what it does after it: the answer of a commit reads the generation when
    others may have had the manager, so what they do meanwhile is an argument
    ([handleCommit]).  [api_reach] adds the requests that fail, and the process
    dying during one.  A crash keeps the completed system calls;
    which files were not synced is recorded ([dirty]) and
    [Put_crash_atomic] shows that a bundle's file never is one, but their loss is not represented.  The log hub, the transport pool and
    the body budget are shared by goroutines: a critical section is a step of
    a relation ([hub_step], [pool_step]) and the theorems quantify over its
    interleavings.  So are the timers of an action ([loop_step]), the calls of
    its network client ([net_step]), the writers of a log stream
    ([frame_step]), the slots of HTTP/3 connections ([h3_step]); the processes
    that claim the socket of the log interleave by system calls ([sock_step]),
    the sessions of the proxy with its end ([serve_step]).  The nodes of a
    document and the settings that scripts share are addresses in a store
    ([heap], [share_step]), because a script holds and changes several at once.
    The process is a trace of events with an exit status ([main]).

    ** What the theorems show

    - bundles: a crash at any point of a commit restarts with the old bundle or
      the new one; in every history of calls, faults and restarts the manager
      serves what the disk says; a commit is a compare-and-swap; staging and
      aborting leave the active bundle alone; pruning keeps the newest
      superseded bundles; a record written is read back, whole or not at all;
    - documents: what is accepted has an execution order that is a permutation
      of its extensions, reaches only hosts its extensions capture and a
      certificate covers, asks for a certificate that validation of the
      certificate request accepts, and always compiles; the compiled snapshot,
      the matchers and the transport projection agree with the documents they
      were made from;
    - serving: a generation number names one snapshot; once a bundle was served
      the file never is again; the caches of the file do not show;
    - exchanges: every reservation of body bytes is returned exactly once; an
      action gets no more of a body than its limit; a request leaves only for
      its own URL or one a matched extension may move it to; hop-by-hop fields
      do not leave; a matched response is not relayed untransformed by
      mistake; a transport generation in use is never closed;
    - dials: a transport asks the proxy for a connection to the target of an
      authorized address, or for a relay whose datagrams all carry that target,
      and says nothing for another, by the configuration of its generation;
    - connections: a server gets a connection only from a client with the
      credentials and, over TCP, for a target the extensions allow (over UDP
      that is asked of every datagram); a ticket key outlives
      its tickets; a slow client's write is whole or an error; a leaf is vetted
      before it is served; a request over HTTP/3 falls back once and with its
      whole body;
    - scripts: a script reaches exactly the functions it was granted and the body
      its phase owns; what it returns is typed and bounded, a bundle's result
      is its first completion unless its program throws; the storage keeps its limits and survives a
      restart, and one extension never touches another's; a network request is
      bound to one origin that is not local and leaves no connection behind; a
      timer runs at most once and never after it was cleared; a jq program never
      lets a body through because it was cut off; an object of a document is
      its node's for good, and the walks of a document are its tree; scripts
      share no map and never change the settings of the snapshot;
    - control: the API keeps what is served on the disk whatever fails or is cut
      short, and the manager's invariant while no purge is, and an answer says
      what happened; only the permitted peer is accepted; the process starts
      when its gate says so, starts and stops its parts in order, stops itself
      exactly when there is nothing left to intercept, and its proxy returns
      once told to, after its sessions; a configuration file is read whole from
      the file its path named;
    - data: values substituted in a template stand for themselves where no
      reference is open; what a script writes to a query is in its text, and
      what the parser refuses is lost; header edits
      do what they say; a SOCKS datagram delivered comes from the relay and is
      allowed; WebSocket frames read are exactly those well formed; a reader of
      the log gets the events in order, no wakeup is lost, a client is answered
      and closed once whatever it sends, a close frame is the last of its
      stream, and a socket in use keeps its name.

    Some theorems state where the code departs from its comments; they are
    named for what happens: [postfix_division_uncounted],
    [fingerprint_collision], [double_dot_unmapped], [duplicate_key_escapes],
    [failed_recovery_serves_file], [value_joins_reference],
    [header_edits_follow_order], [action_body_unreserved],
    [undeclared_body_underreserved], [long_delay_fires_now],
    [refused_query_lost], [crash_locks_out], [append_exact],
    [text_hides_children], [invalid_value_lost], [commit_reply_raced],
    [cut_purge_revives],
    [process_ordered] with [log_service_abandoned], [deaf_until_idle],
    [window_hides_directory].

    ** Parameters

    Code outside the repository is a class, and a class of laws holds what the
    program relies on.  [Codec] and [CodecLaws]: the JSON of the store's own
    records reads back.  [UnicodeCase], [UnicodeWords]: the tables of [unicode]
    outside ASCII.  [Engines], [Regexps], [Programs]: regular expressions, goja
    and gojq, of which nothing is assumed.  [TextParsers], [Web]: [net/url],
    time stamps and decompressors, likewise.  [StoreJSON] and its laws: the JSON
    of the extensions' storage.  [X509]: what the program asks of a
    certificate.  [Users]: the accounts of the system.  [Floats]: the text of a
    [float64].  [Gojq]: the run of a jq program and the encoding of its output.
    [NetURL]: the parser and the printer of whole URLs.  The writer under a
    slow client and the round trip of quic-go are arguments.  [LogEncoding]: the
    JSON of an event.  [Html] and [HtmlLaws]: the parser, the printer, the
    selectors and the linking of nodes of the HTML libraries.  [FileIdentity]:
    what the platform tells of the identity of a file.  [MapOrder]: the order in which a map is ranged over, a
    permutation of its entries.  Files that have theorems under such a parameter end with a
    concrete instance and a witness.

    ** Fuel

    Fuel is the length of the text that is read wherever a loop consumes at
    least one byte per round ([runes], [ValidString], the JSON reader, the
    template reader); it is the eight groups of an IPv6 address, and the four
    digits of one group.  The JSON reader bounds nesting as [encoding/json]
    does.  The write to a slow client has one round per byte at most and one
    more to stop ([transfer_loop]).  A walk of a document and a copy of settings
    have as much fuel as they are deep, and no result with less: a document's
    nodes can be linked into a circle, and then no fuel is enough; the reader of
    a log stream takes two bytes per round at least; a path leads through forty
    links at most.  A timer's number is assumed not to reach
    2^63, and the events of the log 2^64; both are stated where they are used.

    ** Not modelled

    The interpreters, goja and gojq, and what a program does with its globals:
    the state it changes is reached through the functions that are modelled.
    The HTTP, TLS and QUIC servers and clients, and the dials under a transport,
    which are libraries; that a session of the proxy ends once its connection is
    closed is a rule of [serve_step], for its servers are theirs.  Deadlines, the text of errors and the operator's log
    lines are left out of the parts that are modelled; an error is the place
    that raises it. *)
From Stdlib Require Export Ascii.
From stdpp Require Export base numbers list gmap strings sorting.
#[export] Set Default Goal Selector "!".

(** ** Byte strings

    A Go [string] or [[]byte] is a list of integers, one per byte.  The
    literal [& "abc"] is the byte list of an ASCII literal. *)
Abbreviation bytes := (list Z).

Fixpoint lit (s : string) : bytes :=
  match s with
  | EmptyString => []
  | String a rest => Z.of_N (Ascii.N_of_ascii a) :: lit rest
  end.

Declare Scope go_scope.
Delimit Scope go_scope with go.
Notation "& s" := (lit s%string) (at level 1, format "& s") : go_scope.
(** The character literal [# "a"] is its code, computed when it is read. *)
Notation "# a" :=
  (ltac:(let v := eval cbv in (Z.of_N (Ascii.N_of_ascii a%char)) in exact v))
  (at level 1, only parsing) : go_scope.
Open Scope go_scope.
Open Scope Z_scope.

(** [len] is Go's [len], an [int]; lists in a process never reach 2^63. *)
Abbreviation len l := (Z.of_nat (length l)).

(** A value is one byte. *)
Definition is_byte (c : Z) : Prop := 0 <= c < 256.
Definition is_bytes (s : bytes) : Prop := Forall is_byte s.

(** ** Results

    A Go function that returns [(T, error)] returns [res E T]. *)
Inductive res (E A : Type) : Type :=
| Ok (a : A)
| Err (e : E).
Arguments Ok {E A} _.
Arguments Err {E A} _.

#[export] Instance res_ret E : MRet (res E) := λ A a, Ok a.
#[export] Instance res_bind E : MBind (res E) := λ A B f m,
  match m with Ok a => f a | Err e => Err e end.

Definition is_ok {E A} (r : res E A) : bool :=
  match r with Ok _ => true | Err _ => false end.

(** The guard of an early [return err]. *)
Definition reject_if {E} (c : bool) (e : E) : res E unit :=
  if c then Err e else Ok tt.

Lemma bind_Ok_inv {E A B} (m : res E A) (f : A → res E B) b :
  m ≫= f = Ok b → ∃ a, m = Ok a ∧ f a = Ok b.
Proof. destruct m; simpl; naive_solver. Qed.

Lemma reject_if_Ok {E} c (e : E) u : reject_if c e = Ok u → c = false.
Proof. destruct c; simpl; congruence. Qed.

(** Splits the hypotheses of a run that returned a value. *)
Ltac inv_res :=
  repeat match goal with
  | H : _ ≫= _ = Ok _ |- _ => apply bind_Ok_inv in H as (? & ? & ?)
  | H : reject_if _ _ = Ok _ |- _ => apply reject_if_Ok in H
  | H : Ok _ = Ok _ |- _ => injection H as H; subst
  | H : mret _ = Ok _ |- _ => injection H as H; subst
  | H : Err _ = Ok _ |- _ => discriminate H
  end.

(** ** Booleans and integers *)
Create HintDb go.

Lemma andb_true_split a b : a && b = true → a = true ∧ b = true.
Proof. by destruct a, b. Qed.

(** Turns boolean tests of the code into the propositions they decide. *)
Ltac bools :=
  repeat match goal with
  | H : _ && _ = true |- _ => apply andb_true_split in H as [? ?]
  | H : _ || _ = false |- _ => apply orb_false_elim in H as [? ?]
  | H : negb _ = true |- _ => apply negb_true_iff in H
  | H : negb _ = false |- _ => apply negb_false_iff in H
  | H : bool_decide _ = true |- _ => apply bool_decide_eq_true in H
  | H : bool_decide _ = false |- _ => apply bool_decide_eq_false in H
  | H : (_ =? _) = true |- _ => apply Z.eqb_eq in H
  | H : (_ =? _) = false |- _ => apply Z.eqb_neq in H
  | H : (_ <? _) = true |- _ => apply Z.ltb_lt in H
  | H : (_ <? _) = false |- _ => apply Z.ltb_ge in H
  | H : (_ <=? _) = true |- _ => apply Z.leb_le in H
  | H : (_ <=? _) = false |- _ => apply Z.leb_gt in H
  end.

(** Go's unsigned wrap-around at width [w]. *)
Definition wrap (w : Z) (x : Z) : Z := x mod 2 ^ w.
Abbreviation u8 := (wrap 8).
Abbreviation u16 := (wrap 16).
Abbreviation u64 := (wrap 64).

Lemma wrap_id w x : 0 <= x < 2 ^ w → wrap w x = x.
Proof. apply Z.mod_small. Qed.

Lemma wrap_range w x : 0 <= w → 0 <= wrap w x < 2 ^ w.
Proof. intros. apply Z.mod_pos_bound, Z.pow_pos_nonneg; lia. Qed.
#[export] Hint Resolve wrap_range : go.

(** A boolean fact about every byte, checked byte by byte. *)
Lemma byte_forall (f : Z → bool) :
  forallb f (map Z.of_nat (seq 0 256)) = true → ∀ b, is_byte b → f b = true.
Proof.
  intros H b Hb. rewrite forallb_forall in H. apply H, in_map_iff. exists (Z.to_nat b).
  unfold is_byte in Hb. split; [lia|]. apply in_seq. lia.
Qed.

(** ** Lists *)
Lemma drop_length_le {A} n (l : list A) : (length (drop n l) <= length l)%nat.
Proof. rewrite length_drop. lia. Qed.

Lemma suffix_drop {A} n (l : list A) : drop n l `suffix_of` l.
Proof. exists (take n l). by rewrite take_drop. Qed.

Lemma elem_of_drop_in {A} (x : A) n l : x ∈ drop n l → x ∈ l.
Proof. intros Hin. rewrite <- (take_drop n l). apply elem_of_app. by right. Qed.

Lemma NoDup_map_on {A B} (f : A → B) l :
  (∀ x y, x ∈ l → y ∈ l → f x = f y → x = y) → NoDup l → NoDup (map f l).
Proof.
  intros Hf. induction 1 as [|x l Hx _ IH]; simpl; constructor.
  - intros (y & E & Hy)%list_elem_of_In%in_map_iff. apply list_elem_of_In in Hy.
    apply Hx. rewrite (Hf x y); [done | left | by right | done].
  - apply IH. intros. apply Hf; [by right..|done].
Qed.

(** ** Stateful actions

    A method that reads and writes a state [S] and returns [(T, error)]. *)
Definition action (S E A : Type) : Type := S → res E A * S.

#[export] Instance action_ret S E : MRet (action S E) := λ A a s, (Ok a, s).
#[export] Instance action_bind S E : MBind (action S E) := λ A B f m s,
  match m s with
  | (Ok a, s') => f a s'
  | (Err e, s') => (Err e, s')
  end.

Definition fail {S E A} (e : E) : action S E A := λ s, (Err e, s).

(** The result of a call whose error the caller inspects. *)
Definition attempt {S E E' A} (m : action S E A) : action S E' (res E A) :=
  λ s, let '(r, s') := m s in (Ok r, s').

(** Wraps the error of a call, as [fmt.Errorf("...: %w", err)]. *)
Definition wrap_err {S E E' A} (f : E → E') (m : action S E A) : action S E' A :=
  λ s, let '(r, s') := m s in
       (match r with Ok a => Ok a | Err e => Err (f e) end, s').

Definition lift_res {S E A} (r : res E A) : action S E A := λ s, (r, s).

Fixpoint iter_list {S E A} (f : A → action S E unit) (l : list A) : action S E unit :=
  match l with
  | [] => mret tt
  | x :: l' => f x ≫= λ _, iter_list f l'
  end.
