(* ===== verification/GoStrings.v ===== *)
(** * Go's [strings], [unicode/utf8] and [strconv], as far as the program uses them

    Strings are byte lists.  UTF-8 decoding follows [utf8.DecodeRune]: an
    ill-formed sequence decodes to U+FFFD with width one.  The only tables
    left abstract are the case mappings of [unicode] outside ASCII. *)
From S2P Require Import Prelude.

(** ** Prefixes, suffixes, searching *)
Definition HasPrefix (s p : bytes) : bool :=
  (len p <=? len s) && bool_decide (take (length p) s = p).

Definition HasSuffix (s p : bytes) : bool :=
  (len p <=? len s) && bool_decide (drop (length s - length p) s = p).

Definition TrimPrefix (s p : bytes) : bytes :=
  if HasPrefix s p then drop (length p) s else s.

Definition TrimSuffix (s p : bytes) : bytes :=
  if HasSuffix s p then take (length s - length p) s else s.

Definition CutPrefix (s p : bytes) : option bytes :=
  if HasPrefix s p then Some (drop (length p) s) else None.

Fixpoint Contains (s sub : bytes) : bool :=
  HasPrefix s sub || match s with [] => false | _ :: s' => Contains s' sub end.

(** [strings.IndexByte]; [None] is Go's -1. *)
Fixpoint IndexByte (s : bytes) (c : Z) : option nat :=
  match s with
  | [] => None
  | x :: s' => if x =? c then Some O else S <$> IndexByte s' c
  end.

Fixpoint LastIndexByte (s : bytes) (c : Z) : option nat :=
  match s with
  | [] => None
  | x :: s' =>
      match LastIndexByte s' c with
      | Some i => Some (S i)
      | None => if x =? c then Some O else None
      end
  end.

Definition ContainsByte (s : bytes) (c : Z) : bool :=
  existsb (λ x, x =? c) s.

(** [strings.Split] at a one-byte separator: never empty. *)
Fixpoint Split (s : bytes) (sep : Z) : list bytes :=
  match s with
  | [] => [[]]
  | x :: s' =>
      if x =? sep then [] :: Split s' sep
      else match Split s' sep with
           | [] => [[x]]
           | part :: parts => (x :: part) :: parts
           end
  end.

Fixpoint Join (parts : list bytes) (sep : bytes) : bytes :=
  match parts with
  | [] => []
  | [p] => p
  | p :: rest => p ++ sep ++ Join rest sep
  end.

Definition containsString (values : list bytes) (want : bytes) : bool :=
  existsb (λ v, bool_decide (v = want)) values.

(** ** Byte-wise order, as [sort.Strings] uses it *)
Fixpoint str_leb (a b : bytes) : bool :=
  match a, b with
  | [], _ => true
  | _ :: _, [] => false
  | x :: a', y :: b' => if x <? y then true else if y <? x then false else str_leb a' b'
  end.
Definition str_le (a b : bytes) : Prop := str_leb a b = true.

#[export] Instance str_le_dec : RelDecision str_le.
Proof. intros a b. unfold str_le. apply _. Defined.

Definition sort_Strings (l : list bytes) : list bytes := merge_sort str_le l.

Fixpoint StringsAreSorted (l : list bytes) : bool :=
  match l with
  | [] => true
  | x :: l' => match l' with [] => true | y :: _ => str_leb x y end && StringsAreSorted l'
  end.

(** ** UTF-8 *)
Definition RuneError : Z := 0xFFFD.
Definition RuneSelf : Z := 0x80.

Definition is_cont (c : Z) : bool := (0x80 <=? c) && (c <=? 0xBF).
Definition RuneStart (c : Z) : bool := negb (Z.land c 0xC0 =? 0x80).

(** The accepted range of the second byte, by the first one. *)
Definition accept_range (c : Z) : Z * Z :=
  if c =? 0xE0 then (0xA0, 0xBF)
  else if c =? 0xED then (0x80, 0x9F)
  else if c =? 0xF0 then (0x90, 0xBF)
  else if c =? 0xF4 then (0x80, 0x8F)
  else (0x80, 0xBF).

Definition in_accept (c d : Z) : bool :=
  (fst (accept_range c) <=? d) && (d <=? snd (accept_range c)).

(** [utf8.DecodeRune]: the rune and the bytes it takes. *)
Definition DecodeRune (s : bytes) : Z * nat :=
  match s with
  | [] => (RuneError, 0%nat)
  | c0 :: s1 =>
      if c0 <? 0x80 then (c0, 1%nat)
      else if (0xC2 <=? c0) && (c0 <=? 0xDF) then
        match s1 with
        | c1 :: _ => if is_cont c1
                     then (Z.lor (Z.shiftl (Z.land c0 0x1F) 6) (Z.land c1 0x3F), 2%nat)
                     else (RuneError, 1%nat)
        | _ => (RuneError, 1%nat)
        end
      else if (0xE0 <=? c0) && (c0 <=? 0xEF) then
        match s1 with
        | c1 :: c2 :: _ =>
            if in_accept c0 c1 && is_cont c2
            then (Z.lor (Z.shiftl (Z.land c0 0x0F) 12)
                    (Z.lor (Z.shiftl (Z.land c1 0x3F) 6) (Z.land c2 0x3F)), 3%nat)
            else (RuneError, 1%nat)
        | _ => (RuneError, 1%nat)
        end
      else if (0xF0 <=? c0) && (c0 <=? 0xF4) then
        match s1 with
        | c1 :: c2 :: c3 :: _ =>
            if in_accept c0 c1 && is_cont c2 && is_cont c3
            then (Z.lor (Z.shiftl (Z.land c0 0x07) 18)
                    (Z.lor (Z.shiftl (Z.land c1 0x3F) 12)
                       (Z.lor (Z.shiftl (Z.land c2 0x3F) 6) (Z.land c3 0x3F))), 4%nat)
            else (RuneError, 1%nat)
        | _ => (RuneError, 1%nat)
        end
      else (RuneError, 1%nat)
  end.

(** [utf8.AppendRune]: surrogates and out-of-range runes become U+FFFD. *)
Definition EncodeRune (r : Z) : bytes :=
  if (0 <=? r) && (r <=? 0x7F) then [r]
  else if (0 <=? r) && (r <=? 0x7FF) then
    [Z.lor 0xC0 (Z.shiftr r 6); Z.lor 0x80 (Z.land r 0x3F)]
  else if ((0 <=? r) && (r <? 0xD800)) || ((0xDFFF <? r) && (r <=? 0xFFFF)) then
    [Z.lor 0xE0 (Z.shiftr r 12); Z.lor 0x80 (Z.land (Z.shiftr r 6) 0x3F);
     Z.lor 0x80 (Z.land r 0x3F)]
  else if (0xFFFF <? r) && (r <=? 0x10FFFF) then
    [Z.lor 0xF0 (Z.shiftr r 18); Z.lor 0x80 (Z.land (Z.shiftr r 12) 0x3F);
     Z.lor 0x80 (Z.land (Z.shiftr r 6) 0x3F); Z.lor 0x80 (Z.land r 0x3F)]
  else [0xEF; 0xBF; 0xBD].

(** The decoding at the head of [s] is an encoding error. *)
Definition invalid_head (s : bytes) : bool :=
  match s with
  | [] => false
  | c :: _ => (RuneSelf <=? c) && bool_decide (snd (DecodeRune s) = 1%nat)
  end.

(** The runes of a [for range] loop; the fuel is the number of bytes. *)
Fixpoint runes_fuel (fuel : nat) (s : bytes) : list Z :=
  match fuel, s with
  | S fuel', _ :: _ =>
      let '(r, w) := DecodeRune s in r :: runes_fuel fuel' (drop w s)
  | _, _ => []
  end.
Definition runes (s : bytes) : list Z := runes_fuel (length s) s.

Fixpoint valid_utf8_fuel (fuel : nat) (s : bytes) : bool :=
  match fuel, s with
  | S fuel', _ :: _ =>
      negb (invalid_head s) && valid_utf8_fuel fuel' (drop (snd (DecodeRune s)) s)
  | _, _ => true
  end.
Definition ValidString (s : bytes) : bool := valid_utf8_fuel (length s) s.

(** [strings.ToValidUTF8]: each run of invalid bytes becomes one replacement. *)
Fixpoint to_valid_fuel (fuel : nat) (replacement s : bytes) (in_run : bool) : bytes :=
  match fuel, s with
  | S fuel', c :: s' =>
      if invalid_head s then
        (if in_run then [] else replacement) ++ to_valid_fuel fuel' replacement s' true
      else
        let w := snd (DecodeRune s) in
        take w s ++ to_valid_fuel fuel' replacement (drop w s) false
  | _, _ => []
  end.
Definition ToValidUTF8 (s replacement : bytes) : bytes :=
  to_valid_fuel (length s) replacement s false.

(** [utf8.DecodeLastRune], on the reversed string: the nearest rune start among
    the three bytes before the last one opens the candidate. *)
Definition DecodeLastRune (rev_s : bytes) : Z * nat :=
  match rev_s with
  | [] => (RuneError, 0%nat)
  | c :: before =>
      if c <? RuneSelf then (c, 1%nat)
      else
        let n := match list_find (λ x, RuneStart x = true) (take 3 before) with
                 | Some (j, _) => (j + 2)%nat
                 | None => 5%nat
                 end in
        let piece := rev (take n rev_s) in
        let '(r, size) := DecodeRune piece in
        if bool_decide (size = length piece) then (r, size) else (RuneError, 1%nat)
  end.

(** [unicode.IsSpace]. *)
Definition IsSpace (r : Z) : bool :=
  ((0x09 <=? r) && (r <=? 0x0D)) || (r =? 0x20) || (r =? 0x85) || (r =? 0xA0)
  || (r =? 0x1680) || ((0x2000 <=? r) && (r <=? 0x200A))
  || (r =? 0x2028) || (r =? 0x2029) || (r =? 0x202F) || (r =? 0x205F) || (r =? 0x3000).

(** [unicode.IsControl]. *)
Definition IsControl (r : Z) : bool :=
  ((0 <=? r) && (r <? 0x20)) || ((0x7F <=? r) && (r <? 0xA0)).

Fixpoint trim_left_fuel (fuel : nat) (s : bytes) : bytes :=
  match fuel, s with
  | S fuel', _ :: _ =>
      let '(r, w) := DecodeRune s in
      if IsSpace r then trim_left_fuel fuel' (drop w s) else s
  | _, _ => s
  end.

Fixpoint trim_right_fuel (fuel : nat) (rev_s : bytes) : bytes :=
  match fuel, rev_s with
  | S fuel', _ :: _ =>
      let '(r, w) := DecodeLastRune rev_s in
      if IsSpace r then trim_right_fuel fuel' (drop w rev_s) else rev_s
  | _, _ => rev_s
  end.

Definition TrimSpace (s : bytes) : bytes :=
  let l := trim_left_fuel (length s) s in
  rev (trim_right_fuel (length l) (rev l)).

(** ** Case mapping

    ASCII is mapped exactly; beyond it the tables of [unicode] are abstract.
    Two letters outside ASCII map into it (U+0130 and U+212A), so a lowered
    text may be shorter than the text. *)
Class UnicodeCase := {
  unicode_ToLower : Z → Z;
  unicode_ToUpper : Z → Z;
}.

Definition is_ascii (s : bytes) : bool := forallb (λ c, c <? RuneSelf) s.
Definition lower_byte (c : Z) : Z := if (#"A" <=? c) && (c <=? #"Z") then c + 32 else c.
Definition upper_byte (c : Z) : Z := if (#"a" <=? c) && (c <=? #"z") then c - 32 else c.

Section case_mapping.
Context {U : UnicodeCase}.

Definition ToLower (s : bytes) : bytes :=
  if is_ascii s then map lower_byte s
  else concat (map (λ r, EncodeRune (if r <? RuneSelf then lower_byte r else unicode_ToLower r)) (runes s)).

Definition ToUpper (s : bytes) : bytes :=
  if is_ascii s then map upper_byte s
  else concat (map (λ r, EncodeRune (if r <? RuneSelf then upper_byte r else unicode_ToUpper r)) (runes s)).
End case_mapping.

(** [strings.EqualFold] against ASCII text: besides the two cases of a letter,
    only U+017F (long s) and U+212A (Kelvin sign) fold into ASCII. *)
Definition fold_rune (r : Z) : Z :=
  if r =? 0x17F then #"s" else if r =? 0x212A then #"k" else lower_byte r.
Definition EqualFold (s t : bytes) : bool :=
  bool_decide (map fold_rune (runes s) = map lower_byte t).

(** ** [strconv] *)
Definition is_digit (c : Z) : bool := (#"0" <=? c) && (c <=? #"9").

Definition digits_value (s : bytes) : Z := fold_left (λ acc c, acc * 10 + (c - #"0")) s 0.

(** [strconv.Atoi]: an optional sign, decimal digits, the range of [int64]. *)
Definition Atoi (s : bytes) : option Z :=
  let '(neg, body) :=
    match s with
    | c :: s' => if c =? #"-" then (true, s') else if c =? #"+" then (false, s') else (false, s)
    | [] => (false, [])
    end in
  if bool_decide (body = []) || negb (forallb is_digit body) then None
  else
    let v := (if neg : bool then -1 else 1) * digits_value body in
    if (- 2 ^ 63 <=? v) && (v <? 2 ^ 63) then Some v else None.

(** [strconv.Itoa]; the fuel bounds the digits of an [int64]. *)
Fixpoint itoa_fuel (fuel : nat) (n : Z) (acc : bytes) : bytes :=
  match fuel with
  | O => acc
  | S fuel' =>
      let acc' := (#"0" + n mod 10) :: acc in
      if n <? 10 then acc' else itoa_fuel fuel' (n / 10) acc'
  end.
Definition Itoa (n : Z) : bytes :=
  if n <? 0 then #"-" :: itoa_fuel 20 (- n) [] else itoa_fuel 20 n [].

(** ** Facts *)
Lemma HasPrefix_true s p : HasPrefix s p = true ↔ p `prefix_of` s.
Proof.
  unfold HasPrefix. rewrite andb_true_iff, Z.leb_le, bool_decide_eq_true. split.
  - intros [_ H]. exists (drop (length p) s). rewrite <- H at 1. by rewrite take_drop.
  - intros [k ->]. rewrite length_app, take_app_length. split; [lia | done].
Qed.

Lemma HasSuffix_true s p : HasSuffix s p = true ↔ p `suffix_of` s.
Proof.
  unfold HasSuffix. rewrite andb_true_iff, Z.leb_le, bool_decide_eq_true. split.
  - intros [_ H]. exists (take (length s - length p) s). rewrite <- H at 2. by rewrite take_drop.
  - intros [k ->]. rewrite length_app.
    replace (length k + length p - length p)%nat with (length k) by lia.
    rewrite drop_app_length. split; [lia | done].
Qed.

Lemma HasPrefix_false s p : HasPrefix s p = false ↔ ¬ p `prefix_of` s.
Proof. rewrite <- HasPrefix_true. by destruct (HasPrefix s p). Qed.

Lemma HasPrefix_app s k : HasPrefix (s ++ k) s = true.
Proof. apply HasPrefix_true. by exists k. Qed.

Lemma TrimPrefix_app p s : TrimPrefix (p ++ s) p = s.
Proof. unfold TrimPrefix. by rewrite HasPrefix_app, drop_app_length. Qed.

Lemma containsString_true l x : containsString l x = true ↔ x ∈ l.
Proof.
  unfold containsString. rewrite existsb_exists. setoid_rewrite bool_decide_eq_true.
  setoid_rewrite <- list_elem_of_In. naive_solver.
Qed.

Lemma ContainsByte_true s c : ContainsByte s c = true ↔ c ∈ s.
Proof.
  unfold ContainsByte. rewrite existsb_exists. setoid_rewrite Z.eqb_eq.
  setoid_rewrite <- list_elem_of_In. naive_solver.
Qed.

Lemma ContainsByte_false s c : ContainsByte s c = false ↔ c ∉ s.
Proof. rewrite <- ContainsByte_true. by destruct (ContainsByte s c). Qed.

Lemma str_leb_refl a : str_leb a a = true.
Proof. induction a as [|x a IH]; simpl; [done|]. by rewrite Z.ltb_irrefl. Qed.

Lemma str_leb_total a b : str_leb a b = true ∨ str_leb b a = true.
Proof.
  revert b. induction a as [|x a IH]; intros [|y b]; simpl; auto.
  destruct (Z.ltb_spec x y), (Z.ltb_spec y x); auto; lia.
Qed.

Lemma str_leb_trans a b c : str_leb a b = true → str_leb b c = true → str_leb a c = true.
Proof.
  revert b c. induction a as [|x a IH]; intros [|y b] [|z c]; simpl; try done.
  destruct (Z.ltb_spec x y), (Z.ltb_spec y x), (Z.ltb_spec y z), (Z.ltb_spec z y),
    (Z.ltb_spec x z), (Z.ltb_spec z x); try done; try lia; eauto.
Qed.

Lemma str_leb_antisym a b : str_leb a b = true → str_leb b a = true → a = b.
Proof.
  revert b. induction a as [|x a IH]; intros [|y b]; simpl; try done.
  destruct (Z.ltb_spec x y), (Z.ltb_spec y x); try done; try lia.
  intros. f_equal; [lia | auto].
Qed.

#[export] Instance str_le_total : Total str_le.
Proof. intros a b. apply str_leb_total. Qed.
#[export] Instance str_le_trans : Transitive str_le.
Proof. intros a b c. apply str_leb_trans. Qed.
#[export] Instance str_le_antisym : AntiSymm (=) str_le.
Proof. intros a b. apply str_leb_antisym. Qed.

Lemma sort_Strings_perm l : sort_Strings l ≡ₚ l.
Proof. apply merge_sort_Permutation. Qed.

Lemma sort_Strings_sorted l : StronglySorted str_le (sort_Strings l).
Proof. apply StronglySorted_merge_sort; apply _. Qed.

Lemma elem_of_sort_Strings x l : x ∈ sort_Strings l ↔ x ∈ l.
Proof. by rewrite sort_Strings_perm. Qed.
#[export] Hint Resolve sort_Strings_perm sort_Strings_sorted : go.

Lemma StringsAreSorted_Sorted l : StringsAreSorted l = true ↔ Sorted str_le l.
Proof.
  induction l as [|x l IH]; simpl; [by split; auto|].
  rewrite andb_true_iff, IH. split.
  - intros [H1 H2]. constructor; [done|]. destruct l; constructor. done.
  - intros H. inversion H as [|? ? ? Hd]; subst. split; [|done].
    destruct l; [done|]. by inversion Hd.
Qed.

Lemma DecodeRune_width s : s ≠ [] → (1 <= snd (DecodeRune s) <= length s)%nat.
Proof.
  destruct s as [|c0 s1]; [done|]. intros _. unfold DecodeRune.
  repeat case_match; simpl; lia.
Qed.

Lemma TrimSuffix_app s k : TrimSuffix (s ++ k) k = s.
Proof.
  unfold TrimSuffix. rewrite (proj2 (HasSuffix_true _ _)) by (by exists s).
  rewrite length_app. replace (length s + length k - length k)%nat with (length s) by lia.
  apply take_app_length.
Qed.

Lemma HasSuffix_TrimSuffix n k : HasSuffix n k = true → n = TrimSuffix n k ++ k.
Proof. intros [s ->]%HasSuffix_true. by rewrite TrimSuffix_app. Qed.

(** ** Decimal text *)
Lemma itoa_fuel_app f n acc : itoa_fuel f n acc = itoa_fuel f n [] ++ acc.
Proof.
  revert n acc. induction f as [|f IH]; intros n acc; [done|]. simpl.
  case_match; [done|]. rewrite (IH _ (_ :: acc)), (IH _ [_]), <- app_assoc. done.
Qed.

Lemma digits_value_app a b :
  digits_value (a ++ b) = fold_left (λ acc c, acc * 10 + (c - #"0")) b (digits_value a).
Proof. unfold digits_value. apply fold_left_app. Qed.

Lemma itoa_fuel_value f n :
  0 <= n < 10 ^ Z.of_nat f → (0 < f)%nat → digits_value (itoa_fuel f n []) = n.
Proof.
  revert n. induction f as [|f IH]; intros n Hn Hf; [lia|]. simpl itoa_fuel.
  destruct (Z.ltb_spec n 10) as [Hlt|Hge].
  - unfold digits_value. simpl fold_left. rewrite Z.mod_small by lia. lia.
  - rewrite itoa_fuel_app, digits_value_app, IH.
    + simpl fold_left. pose proof (Z.div_mod n 10). lia.
    + replace (Z.of_nat (S f)) with (1 + Z.of_nat f) in Hn by lia.
      rewrite Z.pow_add_r in Hn by lia. split; [apply Z.div_pos; lia|].
      apply Z.div_lt_upper_bound; lia.
    + destruct f; [|lia]. change (10 ^ Z.of_nat 1) with 10 in Hn. lia.
Qed.

Lemma itoa_fuel_digits f n : 0 <= n → forallb is_digit (itoa_fuel f n []) = true.
Proof.
  revert n. induction f as [|f IH]; intros n Hn; [done|]. simpl.
  pose proof (Z.mod_pos_bound n 10 ltac:(lia)).
  assert (is_digit (#"0" + n mod 10) = true) as Hd by (unfold is_digit; lia).
  case_match; [simpl; by rewrite Hd|].
  rewrite itoa_fuel_app, forallb_app, IH by (apply Z.div_pos; lia). simpl. by rewrite Hd.
Qed.

Lemma itoa_fuel_nonempty f n : (0 < f)%nat → itoa_fuel f n [] ≠ [].
Proof.
  destruct f as [|f]; [lia|]. intros _. simpl. case_match; [done|]. rewrite itoa_fuel_app.
  by destruct (itoa_fuel f _ []).
Qed.

Lemma is_digit_range c : is_digit c = true ↔ #"0" <= c <= #"9".
Proof. unfold is_digit. lia. Qed.

Lemma Atoi_Itoa n : - 2 ^ 63 <= n < 2 ^ 63 → Atoi (Itoa n) = Some n.
Proof.
  intros Hn. unfold Itoa.
  assert (∀ m, 0 <= m <= 2 ^ 63 → digits_value (itoa_fuel 20 m []) = m) as Hv.
  { intros m Hm. apply itoa_fuel_value; [|lia]. change (10 ^ Z.of_nat 20) with 100000000000000000000. lia. }
  destruct (Z.ltb_spec n 0) as [Hneg|Hpos].
  - unfold Atoi. simpl (#"-" =? #"-"). cbv iota beta.
    rewrite bool_decide_eq_false_2 by (apply itoa_fuel_nonempty; lia).
    rewrite itoa_fuel_digits, Hv by lia. simpl negb. cbn [orb].
    replace (-1 * - n) with n by lia.
    by rewrite (proj2 (Z.leb_le _ _)), (proj2 (Z.ltb_lt _ _)) by lia.
  - pose proof (itoa_fuel_digits 20 n Hpos) as Hd.
    pose proof (itoa_fuel_nonempty 20 n ltac:(lia)) as Hne.
    specialize (Hv n ltac:(lia)). unfold Atoi.
    destruct (itoa_fuel 20 n []) as [|c body] eqn:E; [done|].
    pose proof Hd as Hd'. simpl in Hd'. apply andb_true_split in Hd' as [Hc _].
    apply is_digit_range in Hc.
    rewrite (proj2 (Z.eqb_neq c #"-")), (proj2 (Z.eqb_neq c #"+")) by lia.
    rewrite bool_decide_eq_false_2, Hd, Hv by done. simpl negb. cbn [orb]. rewrite Z.mul_1_l.
    by rewrite (proj2 (Z.leb_le _ _)), (proj2 (Z.ltb_lt _ _)) by lia.
Qed.

Lemma Itoa_inj a b : - 2 ^ 63 <= a < 2 ^ 63 → - 2 ^ 63 <= b < 2 ^ 63 → Itoa a = Itoa b → a = b.
Proof.
  intros Ha Hb E. apply (f_equal Atoi) in E. rewrite !Atoi_Itoa in E by done. congruence.
Qed.

Lemma Itoa_no_nul n : 0 ∉ Itoa n.
Proof.
  assert (∀ m, 0 <= m → 0 ∉ itoa_fuel 20 m []) as H.
  { intros m Hm Hin. pose proof (itoa_fuel_digits 20 m Hm) as Hd.
    rewrite forallb_forall in Hd. apply list_elem_of_In, Hd in Hin. done. }
  unfold Itoa. destruct (Z.ltb_spec n 0); [|by apply H].
  rewrite elem_of_cons. intros [?|Hin]; [done|]. by eapply H; [|exact Hin]; lia.
Qed.

(** Text up to the first separator is determined. *)
Lemma split_first {A} (c : A) a b x y :
  c ∉ a → c ∉ b → a ++ c :: x = b ++ c :: y → a = b ∧ x = y.
Proof.
  revert b. induction a as [|u a IH]; intros [|v b] Ha Hb E; simpl in *.
  - by injection E.
  - injection E as -> _. exfalso. apply Hb. by left.
  - injection E as -> _. exfalso. apply Ha. by left.
  - injection E as -> E. rewrite elem_of_cons in Ha, Hb.
    destruct (IH b) as [-> ->]; naive_solver.
Qed.

(** ASCII text is valid UTF-8. *)
Lemma ascii_valid_fuel n s : Forall (λ c, 0 <= c < 128) s → valid_utf8_fuel n s = true.
Proof.
  revert s. induction n as [|n IH]; intros s Hs; [done|]. destruct Hs as [|c s Hc Hs]; [done|].
  simpl. unfold invalid_head, RuneSelf, DecodeRune.
  rewrite (proj2 (Z.leb_gt 128 c)), (proj2 (Z.ltb_lt c 128)) by lia. simpl. by apply IH.
Qed.
Lemma ascii_ValidString s : Forall (λ c, 0 <= c < 128) s → ValidString s = true.
Proof. apply ascii_valid_fuel. Qed.

(** A well-formed head is decoded alike whatever follows it. *)
Lemma DecodeRune_app s t :
  s ≠ [] → invalid_head s = false → DecodeRune (s ++ t) = DecodeRune s.
Proof.
  destruct s as [|c s1]; [done|]. intros _. unfold invalid_head, RuneSelf.
  destruct (Z.leb_spec 128 c) as [Hc|Hc]; simpl.
  - intros Hw. bools. revert Hw. unfold DecodeRune. simpl app.
    destruct (c <? 128); [done|].
    destruct ((194 <=? c) && (c <=? 223)); [destruct s1; simpl; [done|]; by case_match|].
    destruct ((224 <=? c) && (c <=? 239)); [destruct s1 as [|? [|? ?]]; simpl; try done; by case_match|].
    destruct ((240 <=? c) && (c <=? 244)); [|done].
    destruct s1 as [|? [|? [|? ?]]]; simpl; try done; by case_match.
  - intros _. by rewrite (proj2 (Z.ltb_lt c 128)) by lia.
Qed.

Lemma valid_fuel_enough n s : (length s <= n)%nat → valid_utf8_fuel n s = ValidString s.
Proof.
  unfold ValidString. generalize (Nat.le_refl (length s)).
  generalize (length s) at 2 4 as m. revert s.
  induction n as [|n IH]; intros s m Hm Hn; destruct s as [|c s]; try (simpl in *; lia); try (by destruct m).
  destruct m as [|m]; [simpl in *; lia|]. cbn [valid_utf8_fuel]. f_equal.
  pose proof (DecodeRune_width (c :: s) ltac:(done)) as Hw.
  apply IH; rewrite length_drop; simpl in *; lia.
Qed.

Lemma ValidString_app a b : ValidString a = true → ValidString b = true → ValidString (a ++ b) = true.
Proof.
  intros Ha Hb. remember (length a) as n eqn:En. revert a En Ha.
  induction (lt_wf n) as [n _ IH]. intros [|c a] En Ha; [done|].
  pose proof (DecodeRune_width (c :: a) ltac:(done)) as Hw. unfold ValidString in Ha.
  cbn [length valid_utf8_fuel] in Ha. apply andb_true_split in Ha as [Hh Ha]. apply negb_true_iff in Hh.
  rewrite valid_fuel_enough in Ha by (rewrite length_drop; simpl in *; lia).
  pose proof (DecodeRune_app (c :: a) b ltac:(done) Hh) as Ed.
  unfold ValidString. simpl app. cbn [length valid_utf8_fuel]. change (c :: a ++ b) with ((c :: a) ++ b).
  rewrite valid_fuel_enough by (rewrite length_drop, Ed, !length_app; simpl in *; lia).
  rewrite Ed, drop_app_le by lia. rewrite (IH (length (drop (DecodeRune (c :: a)).2 (c :: a)))); try done.
  - rewrite andb_true_r. apply negb_true_iff. revert Hh. unfold invalid_head. simpl app. by rewrite <- Ed.
  - rewrite length_drop. simpl in *. lia.
Qed.

(** Valid text is left alone. *)
Lemma to_valid_fuel_id n s r b :
  (length s <= n)%nat → ValidString s = true → to_valid_fuel n r s b = s.
Proof.
  revert s b. induction n as [|n IH]; intros [|c s] b Hn Hv; try done; [simpl in *; lia|].
  unfold ValidString in Hv. cbn [length valid_utf8_fuel] in Hv. apply andb_true_split in Hv as [Hh Hv].
  apply negb_true_iff in Hh. pose proof (DecodeRune_width (c :: s) ltac:(done)) as Hw.
  rewrite valid_fuel_enough in Hv by (rewrite length_drop; simpl in *; lia).
  cbn [to_valid_fuel]. rewrite Hh, IH, take_drop; [done| |done]. rewrite length_drop. simpl in *. lia.
Qed.

Lemma ToValidUTF8_id s r : ValidString s = true → ToValidUTF8 s r = s.
Proof. intros. by apply to_valid_fuel_id. Qed.

(** An ASCII byte of a text is one of its runes. *)
Lemma DecodeRune_wide_ascii s c :
  c ∈ take (DecodeRune s).2 s → c < 128 → (DecodeRune s).1 = c.
Proof.
  destruct s as [|c0 s1]; [intros Hin; by apply elem_of_nil in Hin|]. unfold DecodeRune, is_cont, in_accept, accept_range.
  destruct (Z.ltb_spec c0 128) as [|Hc0]; [intros Hin _; by apply list_elem_of_singleton in Hin|].
  intros Hin Hc. exfalso. revert Hin.
  repeat case_match; cbn [snd fst take]; rewrite ?elem_of_cons, ?elem_of_nil; intros Hin; bools; simpl in *; lia.
Qed.

Lemma runes_fuel_ascii n s c : (length s <= n)%nat → c ∈ s → c < 128 → c ∈ runes_fuel n s.
Proof.
  revert s. induction n as [|n IH]; intros s Hn Hin Hc.
  { destruct s; [by apply elem_of_nil in Hin | simpl in Hn; lia]. }
  destruct s as [|c0 s1]; [by apply elem_of_nil in Hin|].
  pose proof (DecodeRune_width (c0 :: s1) ltac:(done)) as Hw.
  pose proof (DecodeRune_wide_ascii (c0 :: s1) c) as Ha.
  rewrite <- (take_drop (DecodeRune (c0 :: s1)).2 (c0 :: s1)) in Hin. cbn [runes_fuel].
  destruct (DecodeRune (c0 :: s1)) as [r w]. cbn [fst snd] in *. apply elem_of_cons.
  apply elem_of_app in Hin as [Hin|Hin]; [left; symmetry; auto|]. right.
  apply IH; [rewrite length_drop; simpl in *; lia | done | done].
Qed.

Lemma runes_ascii s c : c ∈ s → c < 128 → c ∈ runes s.
Proof. by apply runes_fuel_ascii. Qed.

(** *** The parts of a split text *)
Lemma Split_elem s sep c : c ∈ s → c ≠ sep → ∃ part, part ∈ Split s sep ∧ c ∈ part.
Proof.
  intros Hin Hc. induction s as [|x s IH]; [by apply elem_of_nil in Hin|]. cbn [Split].
  destruct (Z.eqb_spec x sep) as [->|Hx].
  - apply elem_of_cons in Hin as [->|Hin]; [done|]. destruct (IH Hin) as (p & Hp & Hcp).
    exists p. split; [by right | done].
  - apply elem_of_cons in Hin as [->|Hin].
    + destruct (Split s sep) as [|p ps]; [exists [x] | exists (x :: p)]; (split; left).
    + destruct (IH Hin) as (p & Hp & Hcp). destruct (Split s sep) as [|q ps]; [by apply elem_of_nil in Hp|].
      apply elem_of_cons in Hp as [->|Hp]; [exists (x :: q); split; [left | by right]|].
      exists p. split; [by right | done].
Qed.

Lemma Split_trailing s sep : [] ∈ Split (s ++ [sep]) sep.
Proof.
  induction s as [|x s IH]; cbn [Split app].
  - rewrite Z.eqb_refl. left.
  - destruct (x =? sep) eqn:Ex; [by right|].
    assert (∀ t, Split (t ++ [sep]) sep ≠ [] ∧ tail (Split (t ++ [sep]) sep) ≠ []
                 ∧ [] ∈ tail (Split (t ++ [sep]) sep)) as Ht.
    { clear. induction t as [|y t (H1 & H2 & H3)]; cbn [Split app].
      - rewrite Z.eqb_refl. cbn. split; [done|]. split; [done | left].
      - destruct (Split (t ++ [sep]) sep) as [|p ps]; [done|]. destruct (y =? sep); cbn in *; split; try done; split; try done.
        by right. }
    destruct (Ht s) as (_ & _ & H3). destruct (Split (s ++ [sep]) sep); [by apply elem_of_nil in H3|]. by right.
Qed.
