(* ===== verification/GoBinary.v ===== *)
(** * Go's [encoding/binary], [encoding/hex] and [crypto/sha256], as the program uses them *)
From S2P Require Import Prelude GoStrings.

(** ** Big-endian integers *)
Fixpoint be_split (n : nat) (z : Z) : bytes :=
  match n with
  | O => []
  | S n' => (z / 256 ^ Z.of_nat n') mod 256 :: be_split n' z
  end.

Definition be_combine (l : bytes) : Z := fold_left (λ acc b, acc * 256 + b) l 0.

Lemma length_be_split n z : length (be_split n z) = n.
Proof. induction n; simpl; congruence. Qed.

Lemma be_combine_acc n z acc :
  fold_left (λ acc b, acc * 256 + b) (be_split n z) acc
  = acc * 256 ^ Z.of_nat n + z mod 256 ^ Z.of_nat n.
Proof.
  revert acc. induction n as [|n IH]; intros acc.
  - simpl. rewrite Z.mod_1_r. lia.
  - simpl be_split. simpl fold_left. rewrite IH.
    replace (Z.of_nat (S n)) with (Z.of_nat n + 1) by lia.
    rewrite Z.pow_add_r, Z.pow_1_r by lia.
    rewrite Z.rem_mul_r by (try apply Z.pow_nonzero; lia). lia.
Qed.

Lemma be_combine_split n z : be_combine (be_split n z) = z mod 256 ^ Z.of_nat n.
Proof. unfold be_combine. rewrite be_combine_acc. lia. Qed.

Lemma be_split_inj n x y :
  0 <= x < 256 ^ Z.of_nat n → 0 <= y < 256 ^ Z.of_nat n → be_split n x = be_split n y → x = y.
Proof.
  intros Hx Hy E. apply (f_equal be_combine) in E.
  rewrite 2!be_combine_split, !Z.mod_small in E; done.
Qed.

Lemma be_split_bytes n z : is_bytes (be_split n z).
Proof.
  induction n as [|n IH]; constructor; [|done]. unfold is_byte. apply Z.mod_pos_bound. lia.
Qed.

Lemma be_split_high n k b c :
  (n <= k)%nat → be_split n (b * 256 ^ Z.of_nat k + c) = be_split n c.
Proof.
  induction n as [|n IH]; intros Hk; [done|]. cbn [be_split]. rewrite IH by lia. f_equal.
  replace (Z.of_nat k) with (Z.of_nat n + (1 + Z.of_nat (k - S n))) by lia.
  rewrite Z.pow_add_r, (Z.pow_add_r _ 1) by lia.
  replace (b * (256 ^ Z.of_nat n * (256 ^ 1 * 256 ^ Z.of_nat (k - S n))) + c)
    with (b * 256 ^ Z.of_nat (k - S n) * 256 * 256 ^ Z.of_nat n + c) by lia.
  rewrite Z.div_add_l by (apply Z.pow_nonzero; lia). by rewrite Z.add_comm, Z.mod_add.
Qed.

Lemma be_combine_shift l a :
  fold_left (λ acc b, acc * 256 + b) l a = a * 256 ^ len l + be_combine l.
Proof.
  unfold be_combine. revert a. induction l as [|x l IH]; intros a; cbn [fold_left length]; [simpl; lia|].
  rewrite IH, (IH (0 * 256 + x)), Nat2Z.inj_succ, Z.pow_succ_r by lia. lia.
Qed.

Lemma be_combine_cons b l : be_combine (b :: l) = b * 256 ^ len l + be_combine l.
Proof. unfold be_combine at 1. simpl. apply be_combine_shift. Qed.

Lemma be_combine_range l : is_bytes l → 0 <= be_combine l < 256 ^ len l.
Proof.
  induction 1 as [|b l Hb Hl IH]; [done|]. rewrite be_combine_cons. cbn [length].
  rewrite Nat2Z.inj_succ, Z.pow_succ_r by lia. unfold is_byte in Hb. nia.
Qed.

Lemma be_split_combine l : is_bytes l → be_split (length l) (be_combine l) = l.
Proof.
  induction 1 as [|b l Hb Hl IH]; [done|]. rewrite be_combine_cons. cbn [length be_split].
  rewrite be_split_high, IH by lia. pose proof (be_combine_range l Hl).
  rewrite Z.div_add_l, Z.div_small, Z.add_0_r by (try apply Z.pow_nonzero; lia).
  by rewrite Z.mod_small.
Qed.

(** Two-byte network order, the SOCKS port and the WebSocket length. *)
Definition PutUint16 (z : Z) : bytes := be_split 2 z.
Definition Uint16 (l : bytes) : Z := be_combine l.

Lemma Uint16_PutUint16 z : 0 <= z < 65536 → Uint16 (PutUint16 z) = z.
Proof. intros. unfold Uint16, PutUint16. rewrite be_combine_split, Z.mod_small; done. Qed.

Definition PutUint64 (z : Z) : bytes := be_split 8 z.
Definition Uint64 (l : bytes) : Z := be_combine l.

(** ** Hexadecimal *)
Definition hex_digit (n : Z) : Z := if n <? 10 then #"0" + n else #"a" + (n - 10).
Definition EncodeToString (l : bytes) : bytes :=
  concat (map (λ b, [hex_digit (b / 16); hex_digit (b mod 16)]) l).

(** ** SHA-256 *)
Definition w32 (x : Z) : Z := x mod 2 ^ 32.
Definition rotr (n x : Z) : Z := w32 (Z.lor (Z.shiftr x n) (Z.shiftl x (32 - n))).

(** The constants of FIPS 180-4: the first 32 fractional bits of the cube roots
    of the first 64 primes and of the square roots of the first 8. *)
Definition is_prime (n : nat) : bool :=
  (2 <=? n)%nat && forallb (λ d, negb (n mod d =? 0)%nat) (seq 2 (n - 2)).
Definition first_primes : list Z :=
  map Z.of_nat (List.filter is_prime (seq 2 310)).

(** The greatest [r] below [2 ^ bits + acc] with [r ^ k <= x], bit by bit. *)
Fixpoint root_bits (bits : nat) (k x acc : Z) : Z :=
  match bits with
  | O => acc
  | S bits' =>
      let r := acc + 2 ^ Z.of_nat bits' in
      root_bits bits' k x (if r ^ k <=? x then r else acc)
  end.
Definition fraction_bits (k p : Z) : Z := w32 (root_bits 40 k (p * 2 ^ (32 * k)) 0).

Definition sha256_k : list Z := Eval vm_compute in map (fraction_bits 3) first_primes.
Definition sha256_iv : list Z := Eval vm_compute in map (fraction_bits 2) (take 8 first_primes).

(** The message schedule, newest word first. *)
Fixpoint sha256_schedule (n : nat) (ws : list Z) : list Z :=
  match n with
  | O => ws
  | S n' =>
      let s x := nth x ws 0 in
      let w15 := s 14%nat in let w2 := s 1%nat in
      let s0 := Z.lxor (rotr 7 w15) (Z.lxor (rotr 18 w15) (Z.shiftr w15 3)) in
      let s1 := Z.lxor (rotr 17 w2) (Z.lxor (rotr 19 w2) (Z.shiftr w2 10)) in
      sha256_schedule n' (w32 (s 15%nat + s0 + s 6%nat + s1) :: ws)
  end.

Definition sha256_round (st : list Z) (kw : Z * Z) : list Z :=
  match st with
  | [a; b; c; d; e; f; g; h] =>
      let S1 := Z.lxor (rotr 6 e) (Z.lxor (rotr 11 e) (rotr 25 e)) in
      let ch := Z.lxor (Z.land e f) (Z.land (2 ^ 32 - 1 - e) g) in
      let t1 := w32 (h + S1 + ch + fst kw + snd kw) in
      let S0 := Z.lxor (rotr 2 a) (Z.lxor (rotr 13 a) (rotr 22 a)) in
      let maj := Z.lxor (Z.land a b) (Z.lxor (Z.land a c) (Z.land b c)) in
      let t2 := w32 (S0 + maj) in
      [w32 (t1 + t2); a; b; c; w32 (d + t1); e; f; g]
  | _ => st
  end.

Fixpoint words_of (n : nat) (l : bytes) : list Z :=
  match n with
  | O => []
  | S n' => be_combine (take 4 l) :: words_of n' (drop 4 l)
  end.

Definition sha256_block (st : list Z) (block : bytes) : list Z :=
  let ws := rev (sha256_schedule 48 (rev (words_of 16 block))) in
  zip_with (λ x y, w32 (x + y)) st (fold_left sha256_round (zip sha256_k ws) st).

Fixpoint sha256_blocks (n : nat) (st : list Z) (l : bytes) : list Z :=
  match n with
  | O => st
  | S n' => sha256_blocks n' (sha256_block st (take 64 l)) (drop 64 l)
  end.

Definition sha256_pad (msg : bytes) : bytes :=
  msg ++ [0x80] ++ replicate (Z.to_nat ((55 - len msg) mod 64)) 0 ++ be_split 8 (8 * len msg).

Definition Sum256 (msg : bytes) : bytes :=
  let padded := sha256_pad msg in
  concat (map (be_split 4) (sha256_blocks (length padded / 64) sha256_iv padded)).

(** [digestText] of config.go and the digest of [bundleManager.Stage]. *)
Definition digestText (value : bytes) : bytes := EncodeToString (Sum256 value).

(** Published test vectors. *)
Example sha256_abc :
  digestText (&"abc") = &"ba7816bf8f01cfea414140de5dae2223b00361a396177a9cb410ff61f20015ad".
Proof. by vm_compute. Qed.

Example sha256_empty :
  digestText [] = &"e3b0c44298fc1c149afbf4c8996fb92427ae41e4649b934ca495991b7852b855".
Proof. by vm_compute. Qed.

Example sha256_two_blocks :
  digestText (&"abcdbcdecdefdefgefghfghighijhijkijkljklmklmnlmnomnopnopq")
  = &"248d6a61d20638b8e5c026930c3e6039a33ce45964ff2167f6ecedd419db06c1".
Proof. by vm_compute. Qed.

(** Hexadecimal text of bytes is ASCII. *)
Lemma EncodeToString_ascii l : is_bytes l → Forall (λ c, 0 <= c < 128) (EncodeToString l).
Proof.
  unfold EncodeToString. induction 1 as [|b l Hb Hl IH]; simpl; [constructor|].
  unfold is_byte in Hb.
  assert (∀ n, 0 <= n < 16 → 0 <= hex_digit n < 128) as Hh.
  { intros n Hn. unfold hex_digit. destruct (n <? 10) eqn:E; bools; lia. }
  constructor; [|constructor; [|done]]; apply Hh; [|apply Z.mod_pos_bound; lia].
  split; [apply Z.div_pos | apply Z.div_lt_upper_bound]; lia.
Qed.

Lemma Sum256_bytes msg : is_bytes (Sum256 msg).
Proof.
  unfold Sum256. generalize (sha256_blocks (length (sha256_pad msg) / 64) sha256_iv (sha256_pad msg)).
  intros l. induction l as [|x l IH]; [constructor|]. cbn [map concat].
  apply Forall_app. split; [apply be_split_bytes | exact IH].
Qed.

Lemma Sum256_text_valid msg : ValidString (EncodeToString (Sum256 msg)) = true.
Proof. apply ascii_ValidString, EncodeToString_ascii, Sum256_bytes. Qed.
Lemma digestText_valid value : ValidString (digestText value) = true.
Proof. apply Sum256_text_valid. Qed.

(** ** SHA-1

    The round constants are the roots of 2, 3, 5 and 10 scaled by 2^30. *)
Definition rotl (n x : Z) : Z := rotr (32 - n) x.

Definition sha1_iv : list Z :=
  [be_combine [0x67; 0x45; 0x23; 0x01]; be_combine [0xEF; 0xCD; 0xAB; 0x89];
   be_combine [0x98; 0xBA; 0xDC; 0xFE]; be_combine [0x10; 0x32; 0x54; 0x76];
   be_combine [0xC3; 0xD2; 0xE1; 0xF0]].

Definition sha1_k (t : Z) : Z :=
  Z.sqrt ((if t <? 20 then 2 else if t <? 40 then 3 else if t <? 60 then 5 else 10) * 2 ^ 60).

Definition sha1_f (t b c d : Z) : Z :=
  if t <? 20 then Z.lor (Z.land b c) (Z.land (Z.lxor b (2 ^ 32 - 1)) d)
  else if (40 <=? t) && (t <? 60) then Z.lor (Z.land b c) (Z.lor (Z.land b d) (Z.land c d))
  else Z.lxor b (Z.lxor c d).

(** [ws] holds the last sixteen words of the schedule, oldest first. *)
Fixpoint sha1_rounds (n : nat) (t : Z) (ws st : list Z) : list Z :=
  match n, ws, st with
  | S n', w :: rest, [a; b; c; d; e] =>
      let a' := w32 (rotl 5 a + sha1_f t b c d + e + sha1_k t + w) in
      let w' := rotl 1 (Z.lxor (nth 13 ws 0) (Z.lxor (nth 8 ws 0) (Z.lxor (nth 2 ws 0) w))) in
      sha1_rounds n' (t + 1) (rest ++ [w']) [a'; a; rotl 30 b; c; d]
  | _, _, _ => st
  end.

Definition sha1_block (st : list Z) (block : bytes) : list Z :=
  zip_with (λ x y, w32 (x + y)) st (sha1_rounds 80 0 (words_of 16 block) st).

Fixpoint sha1_blocks (n : nat) (st : list Z) (l : bytes) : list Z :=
  match n with
  | O => st
  | S n' => sha1_blocks n' (sha1_block st (take 64 l)) (drop 64 l)
  end.

(** The padding is the one of SHA-256. *)
Definition SHA1 (msg : bytes) : bytes :=
  let padded := sha256_pad msg in
  concat (map (be_split 4) (sha1_blocks (length padded / 64) sha1_iv padded)).

(** ** [base64.StdEncoding] *)
Definition base64_char (n : Z) : Z :=
  if n <? 26 then #"A" + n
  else if n <? 52 then #"a" + (n - 26)
  else if n <? 62 then #"0" + (n - 52)
  else if n =? 62 then #"+" else #"/".

Definition base64_value (c : Z) : option Z :=
  if (#"A" <=? c) && (c <=? #"Z") then Some (c - #"A")
  else if (#"a" <=? c) && (c <=? #"z") then Some (c - #"a" + 26)
  else if (#"0" <=? c) && (c <=? #"9") then Some (c - #"0" + 52)
  else if c =? #"+" then Some 62
  else if c =? #"/" then Some 63
  else None.

Fixpoint base64_EncodeToString (l : bytes) : bytes :=
  match l with
  | a :: b :: c :: rest =>
      base64_char (Z.shiftr a 2) :: base64_char (Z.lor (Z.shiftl (Z.land a 3) 4) (Z.shiftr b 4))
      :: base64_char (Z.lor (Z.shiftl (Z.land b 15) 2) (Z.shiftr c 6)) :: base64_char (Z.land c 63)
      :: base64_EncodeToString rest
  | [a; b] =>
      [base64_char (Z.shiftr a 2); base64_char (Z.lor (Z.shiftl (Z.land a 3) 4) (Z.shiftr b 4));
       base64_char (Z.shiftl (Z.land b 15) 2); #"="]
  | [a] => [base64_char (Z.shiftr a 2); base64_char (Z.shiftl (Z.land a 3) 4); #"="; #"="]
  | [] => []
  end.

(** Quads of letters; padding only in the last one.  Unused low bits are not checked. *)
Fixpoint base64_quads (s : bytes) : option bytes :=
  match s with
  | [] => Some []
  | a :: b :: c :: d :: rest =>
      x ← base64_value a;
      y ← base64_value b;
      let o1 := u8 (Z.lor (Z.shiftl x 2) (Z.shiftr y 4)) in
      if (c =? #"=") && (d =? #"=") && bool_decide (rest = []) then Some [o1]
      else
        z ← base64_value c;
        let o2 := u8 (Z.lor (Z.shiftl y 4) (Z.shiftr z 2)) in
        if (d =? #"=") && bool_decide (rest = []) then Some [o1; o2]
        else
          t ← base64_value d;
          let o3 := u8 (Z.lor (Z.shiftl z 6) t) in
          more ← base64_quads rest;
          Some (o1 :: o2 :: o3 :: more)
  | _ => None
  end.

(** Line breaks are skipped. *)
Definition base64_DecodeString (s : bytes) : option bytes :=
  base64_quads (filter (λ c, c ≠ 13 ∧ c ≠ 10) s).
