(* ===== verification/Identifiers.v ===== *)
(** * Identifiers and names the documents carry ([config.go])

    The three regular expressions of the validator are fixed, so each is the
    predicate it denotes. *)
From S2P Require Import Prelude GoStrings.

Definition is_lower_alnum (c : Z) : bool := ((#"a" <=? c) && (c <=? #"z")) || is_digit c.

(** [^[a-z0-9](?:[a-z0-9.-]{1,126}[a-z0-9])$]. *)
Definition nativeExtensionIDPattern (id : bytes) : bool :=
  (3 <=? len id) && (len id <=? 128)
  && match head id with Some c => is_lower_alnum c | None => false end
  && match last id with Some c => is_lower_alnum c | None => false end
  && forallb (λ c, is_lower_alnum c || (c =? #".") || (c =? #"-")) id.

Definition validModuleID (id : bytes) : bool :=
  (3 <=? len id) && (len id <=? 40) && nativeExtensionIDPattern id.

Definition setting_key_rune (r : Z) : bool :=
  ((#"a" <=? r) && (r <=? #"z")) || ((#"A" <=? r) && (r <=? #"Z")) || is_digit r
  || (r =? #"_") || (r =? #"-") || (r =? #".").

Definition validSettingKey (value : bytes) : bool :=
  if bool_decide (value = []) || (64 <? len value) then false
  else forallb setting_key_rune (runes value).

(** [^[a-z0-9._-]+$]. *)
Definition nativeExtensionRouteKeywordPattern (keyword : bytes) : bool :=
  negb (bool_decide (keyword = []))
  && forallb (λ c, is_lower_alnum c || (c =? #".") || (c =? #"_") || (c =? #"-")) keyword.

(** One label [[a-z0-9](?:[a-z0-9-]{0,61}[a-z0-9])?]. *)
Definition routing_label (label : bytes) : bool :=
  (1 <=? len label) && (len label <=? 63)
  && match head label with Some c => is_lower_alnum c | None => false end
  && match last label with Some c => is_lower_alnum c | None => false end
  && forallb (λ c, is_lower_alnum c || (c =? #"-")) label.

Definition routing_tld (label : bytes) : bool :=
  (2 <=? len label) && (len label <=? 63) && forallb (λ c, (#"a" <=? c) && (c <=? #"z")) label.

(** Labels, each followed by a dot, at least one; then letters. *)
Definition canonicalRoutingDomainPattern (value : bytes) : bool :=
  match rev (Split value #".") with
  | tld :: ((_ :: _) as labels) => routing_tld tld && forallb routing_label labels
  | _ => false
  end.

Section case.
Context {U : UnicodeCase}.

Definition validCanonicalRoutingDomain (value : bytes) : bool :=
  (1 <=? len value) && (len value <=? 253)
  && bool_decide (value = TrimSpace value) && bool_decide (value = ToLower value)
  && negb (HasSuffix value (&".")) && canonicalRoutingDomainPattern value.
End case.
