(* ===== verification/PersistentStore.v ===== *)
(** * The persistent storage of extensions ([module_runtime.go])

    One snapshot of every extension's bucket is published in memory and kept
    in [store.json].  A writer holds [persistentWriteMu] from its check to its
    publication, and a published snapshot is immutable, so an operation is one
    step on the runtime.  The outcome of every system call of a save is an
    argument.  [encoding/json] is a parameter. *)
From stdpp Require Import gmap.
From S2P Require Import Prelude GoStrings Identifiers.

Abbreviation bucket := (gmap bytes bytes).
Abbreviation store_modules := (gmap bytes bucket).

(** [json.Marshal] and [json.Unmarshal] of the two maps; a member may be [null]. *)
Class StoreJSON := {
  store_Marshal : store_modules → bytes;
  store_Unmarshal : bytes → option (option (gmap bytes (option bucket)));
}.

Definition bucket_texts (b : bucket) : Prop := map_Forall (λ k v, ValidString k = true ∧ ValidString v = true) b.
Definition store_texts (m : store_modules) : Prop := map_Forall (λ id b, ValidString id = true ∧ bucket_texts b) m.

(** Maps of valid UTF-8 read back; and what is written and what is read is valid UTF-8, whatever bytes a
    map holds. *)
Class StoreJSONLaws {J : StoreJSON} := {
  store_roundtrip m : store_texts m → store_Unmarshal (store_Marshal m) = Some (Some (Some <$> m));
  store_Marshal_utf8 m : ValidString (store_Marshal m) = true;
  store_Unmarshal_utf8 raw m id b : store_Unmarshal raw = Some (Some m) → m !! id = Some (Some b) → bucket_texts b;
}.

Definition maxPersistentStoreBytes : Z := Z.shiftl 4 20.
Definition maxPersistentModuleBytes : Z := Z.shiftl 1 20.
Definition maxPersistentKeys : Z := 256.
Definition maxPersistentKeyBytes : Z := 256.
Definition maxPersistentValueBytes : Z := Z.shiftl 64 10.
Definition maxPersistentCommitsPerAction : Z := 32.

Record scriptRuntime := mkRuntime {
  rt_persistent : store_modules;
  (** [persistentLoadErr] is set. *)
  rt_loadErr : bool;
  (** [statePath] is not empty. *)
  rt_hasPath : bool;
  (** The contents of [store.json]. *)
  rt_file : option bytes;
}.

(** What each system call of one save answers. *)
Record save_calls := mkSaveCalls {
  sc_MkdirAll : bool; sc_CreateTemp : bool; sc_Chmod : bool; sc_Write : bool;
  sc_Sync : bool; sc_Close : bool; sc_Rename : bool; sc_syncDir : bool;
}.

Section store.
Context {J : StoreJSON}.

(** ** Loading *)
Definition entry_ok (key value : bytes) : bool :=
  negb ((len key =? 0) || (maxPersistentKeyBytes <? len key) || (maxPersistentValueBytes <? len value)).

Definition loaded_bucket_ok (id : bytes) (values : option bucket) : bool :=
  match values with
  | None => false
  | Some b => validModuleID id && negb (maxPersistentKeys <? Z.of_nat (size b))
              && forallb (λ kv, entry_ok kv.1 kv.2) (map_to_list b)
  end.

(** [None] is a file that does not exist. *)
Definition loadPersistent (hasPath : bool) (file : option bytes) : option (res string store_modules) :=
  if negb hasPath then Some (Ok ∅)
  else
    body ← file;
    Some (
      let body := take (Z.to_nat (maxPersistentStoreBytes + 1)) body in
      _ ← reject_if (maxPersistentStoreBytes <? len body) "exceeds"%string;
      _ ← reject_if (negb (ValidString body)) "not UTF-8"%string;
      match store_Unmarshal body with
      | None => Err "not JSON"%string
      | Some None => Err "not an object"%string
      | Some (Some state) =>
          _ ← reject_if (negb (forallb (λ kv, loaded_bucket_ok kv.1 kv.2) (map_to_list state))) "limits"%string;
          Ok (default ∅ <$> state)
      end).

Definition newScriptRuntime (hasPath : bool) (file : option bytes) : scriptRuntime :=
  match loadPersistent hasPath file with
  | Some (Ok loaded) => mkRuntime loaded false hasPath file
  | None => mkRuntime ∅ false hasPath file
  | Some (Err _) => mkRuntime ∅ true hasPath file
  end.

(** ** Saving *)
Definition marshalPersistentSnapshot (m : store_modules) : option bytes :=
  let body := store_Marshal m in
  if maxPersistentStoreBytes <? len body then None else Some body.

(** Whether the save succeeds, and the file it leaves. *)
Definition savePersistent (hasPath : bool) (c : save_calls) (m : store_modules) (file : option bytes) : bool * option bytes :=
  if negb hasPath then (true, file)
  else
    match marshalPersistentSnapshot m with
    | None => (false, file)
    | Some body =>
        if negb (sc_MkdirAll c && sc_CreateTemp c && sc_Chmod c && sc_Write c && sc_Sync c && sc_Close c && sc_Rename c)
        then (false, file)
        else (sc_syncDir c, Some body)
    end.

(** ** The operations of one extension *)

(** What an operation answers, the commits its action has spent, whether it saved, and the runtime. *)
Record store_result (A : Type) := mkResult { so_answer : A; so_commits : Z; so_saved : bool; so_runtime : scriptRuntime }.
Arguments mkResult {A} _ _ _ _.
Arguments so_answer {A} _.
Arguments so_commits {A} _.
Arguments so_saved {A} _.
Arguments so_runtime {A} _.

Definition spend (commits : Z) : bool * Z := (commits + 1 <=? maxPersistentCommitsPerAction, commits + 1).

Definition persistentBucketBytes (b : bucket) : Z := map_fold (λ k v total, total + (len k + len v)) 0 b.

(** The save of [next], and its publication when it succeeds. *)
Definition commit_snapshot (c : save_calls) (next : store_modules) (commits : Z) (r : scriptRuntime) : store_result bool :=
  let '(saved, file) := savePersistent (rt_hasPath r) c next (rt_file r) in
  mkResult saved commits true
    (mkRuntime (if saved then next else rt_persistent r) (rt_loadErr r) (rt_hasPath r) file).

Definition bucket_of (id : bytes) (r : scriptRuntime) : bucket := default ∅ (rt_persistent r !! id).

Definition storage_get (id key : bytes) (r : scriptRuntime) : option bytes := bucket_of id r !! key.

Definition storage_set (id key value : bytes) (c : save_calls) (commits : Z) (r : scriptRuntime) : store_result bool :=
  let refuse commits := mkResult false commits false r in
  if negb (entry_ok key value) then refuse commits
  else if rt_loadErr r then refuse commits
  else
    let b := bucket_of id r in
    if (maxPersistentKeys <=? Z.of_nat (size b)) && bool_decide (b !! key = None) then refuse commits
    else if bool_decide (b !! key = Some value) then mkResult true commits false r
    else
      let '(allowed, commits) := spend commits in
      if negb allowed then refuse commits
      else
        let nextBucket := <[key := value]> b in
        if maxPersistentModuleBytes <? persistentBucketBytes nextBucket then refuse commits
        else commit_snapshot c (<[id := nextBucket]> (rt_persistent r)) commits r.

Definition storage_delete (id key : bytes) (c : save_calls) (commits : Z) (r : scriptRuntime) : store_result bool :=
  let refuse commits := mkResult false commits false r in
  if rt_loadErr r then refuse commits
  else
    let b := bucket_of id r in
    if bool_decide (b !! key = None) then refuse commits
    else
      let '(allowed, commits) := spend commits in
      if negb allowed then refuse commits
      else commit_snapshot c (<[id := delete key b]> (rt_persistent r)) commits r.

Definition storage_clear (id : bytes) (c : save_calls) (commits : Z) (r : scriptRuntime) : store_result bool :=
  let refuse commits := mkResult false commits false r in
  if rt_loadErr r then refuse commits
  else if bool_decide (rt_persistent r !! id = None) then mkResult true commits false r
  else
    let '(allowed, commits) := spend commits in
    if negb allowed then refuse commits
    else commit_snapshot c (delete id (rt_persistent r)) commits r.

Inductive storage_op := OpSet (key value : bytes) | OpDelete (key : bytes) | OpClear.

Definition storage_step (id : bytes) (op : storage_op) (c : save_calls) (commits : Z) (r : scriptRuntime) : store_result bool :=
  match op with
  | OpSet key value => storage_set id key value c commits r
  | OpDelete key => storage_delete id key c commits r
  | OpClear => storage_clear id c commits r
  end.
End store.
Arguments mkResult {A} _ _ _ _.
Arguments so_answer {A} _.
Arguments so_commits {A} _.
Arguments so_saved {A} _.
Arguments so_runtime {A} _.

(** ** The limits a store keeps *)
Definition bucket_limits (id : bytes) (b : bucket) : Prop :=
  validModuleID id = true ∧ Z.of_nat (size b) <= maxPersistentKeys ∧ map_Forall (λ k v, entry_ok k v = true) b.
Definition store_limits (m : store_modules) : Prop := map_Forall bucket_limits m.

(** The texts of an operation are UTF-8.  Nothing in the code says so: the text of a string a script
    was given by the proxy is the bytes it was made from. *)
Definition op_texts (op : storage_op) : Prop :=
  match op with OpSet key value => ValidString key = true ∧ ValidString value = true | _ => True end.

(** One operation of some extension, which with the answers of its save's system calls is as [P] says. *)
Inductive store_step {J : StoreJSON} (P : storage_op → save_calls → Prop) : scriptRuntime → scriptRuntime → Prop :=
| step_storage id op c commits r :
    validModuleID id = true → P op c → store_step P r (so_runtime (storage_step id op c commits r)).

Section facts.
Context {J : StoreJSON} {JL : StoreJSONLaws}.

Lemma validModuleID_utf8 id : validModuleID id = true → ValidString id = true.
Proof.
  unfold validModuleID, nativeExtensionIDPattern. intros Hv. bools. apply ascii_ValidString. apply Forall_forall. intros c Hc.
  match goal with Hf : forallb _ _ = true |- _ => rewrite forallb_forall in Hf; specialize (Hf c (proj1 (list_elem_of_In _ _) Hc)) end.
  unfold is_lower_alnum, is_digit in *. lia.
Qed.

Lemma loaded_limits raw m : store_Unmarshal raw = Some (Some m) →
  forallb (λ kv, loaded_bucket_ok kv.1 kv.2) (map_to_list m) = true → store_limits (default ∅ <$> m) ∧ store_texts (default ∅ <$> m).
Proof.
  intros Hu Hall. assert (∀ id b, (default ∅ <$> m) !! id = Some b → bucket_limits id b ∧ ValidString id = true ∧ bucket_texts b) as Hb;
    [|split; intros id b E; by apply Hb].
  intros id b (o & <- & Ho)%lookup_fmap_Some. rewrite forallb_forall in Hall.
  pose proof (Hall (id, o)) as Hok. rewrite <- list_elem_of_In, elem_of_map_to_list in Hok. specialize (Hok Ho). cbn in Hok.
  destruct o as [b|]; [|done]. cbn [loaded_bucket_ok] in Hok. bools. change (bucket_limits id b ∧ ValidString id = true ∧ bucket_texts b).
  split; [|split; [by apply validModuleID_utf8 | by eapply store_Unmarshal_utf8]].
  split; [done|]. split; [lia|]. intros k v Hkv.
  match goal with Hf : forallb _ (map_to_list b) = true |- _ => rewrite forallb_forall in Hf; apply (Hf (k, v)), list_elem_of_In, elem_of_map_to_list, Hkv end.
Qed.

Lemma reload_saved m body : store_limits m → store_texts m → marshalPersistentSnapshot m = Some body → loadPersistent true (Some body) = Some (Ok m).
Proof.
  unfold marshalPersistentSnapshot. cbv zeta. intros Hm Ht Hb. destruct (Z.ltb_spec maxPersistentStoreBytes (len (store_Marshal m))); [done|].
  injection Hb as <-. unfold loadPersistent. cbn [negb mbind option_bind]. cbv zeta.
  rewrite take_ge by lia. unfold reject_if. rewrite (proj2 (Z.ltb_ge _ _)), store_Marshal_utf8 by lia. cbn [negb].
  rewrite store_roundtrip by done.
  replace (forallb _ _) with true.
  2: { symmetry. rewrite forallb_forall. intros [id o] Hin%list_elem_of_In%elem_of_map_to_list.
       apply lookup_fmap_Some in Hin as (b & <- & Hb). destruct (Hm id b Hb) as (Hid & Hs & He). cbn. rewrite Hid. cbn.
       rewrite (proj2 (Z.ltb_ge _ _)) by lia. cbn. rewrite forallb_forall. intros [k v] Hkv%list_elem_of_In%elem_of_map_to_list. by apply He. }
  cbn. do 2 f_equal. rewrite <- map_fmap_compose. apply map_fmap_id.
Qed.

(** *** What one operation does *)

(** The result of a save: memory and file move together, unless the last directory sync failed. *)
Lemma commit_snapshot_spec c next commits r :
  let res := commit_snapshot c next commits r in
  rt_persistent (so_runtime res) = (if so_answer res then next else rt_persistent r)
  ∧ rt_loadErr (so_runtime res) = rt_loadErr r ∧ rt_hasPath (so_runtime res) = rt_hasPath r
  ∧ (rt_file (so_runtime res) = rt_file r ∧ (so_answer res = true → rt_hasPath r = false)
     ∨ rt_hasPath r = true ∧ rt_file (so_runtime res) = marshalPersistentSnapshot next ∧ is_Some (marshalPersistentSnapshot next)
       ∧ so_answer res = sc_syncDir c).
Proof.
  unfold commit_snapshot, savePersistent. destruct (rt_hasPath r) eqn:Hp; cbn [negb]; [|by cbn; rewrite ?Hp; auto 10].
  destruct (marshalPersistentSnapshot next) as [body|]; [|by cbn; rewrite ?Hp; auto 10].
  destruct (_ && sc_Rename c); cbn; rewrite ?Hp; [|by auto 10]. eauto 10.
Qed.

Definition commits_of (id : bytes) (op : storage_op) (r : scriptRuntime) : store_modules :=
  match op with
  | OpSet key value => <[id := <[key := value]> (bucket_of id r)]> (rt_persistent r)
  | OpDelete key => <[id := delete key (bucket_of id r)]> (rt_persistent r)
  | OpClear => delete id (rt_persistent r)
  end.

(** What an operation that answers [true] without a save found. *)
Definition already_so (id : bytes) (op : storage_op) (r : scriptRuntime) : Prop :=
  match op with
  | OpSet key value => bucket_of id r !! key = Some value
  | OpDelete _ => False
  | OpClear => rt_persistent r !! id = None
  end.

(** The conditions under which an operation reaches its save. *)
Definition within_limits (id : bytes) (op : storage_op) (r : scriptRuntime) : Prop :=
  rt_loadErr r = false ∧
  match op with
  | OpSet key value =>
      entry_ok key value = true ∧ (Z.of_nat (size (bucket_of id r)) < maxPersistentKeys ∨ is_Some (bucket_of id r !! key))
      ∧ bucket_of id r !! key ≠ Some value
      ∧ persistentBucketBytes (<[key := value]> (bucket_of id r)) <= maxPersistentModuleBytes
  | OpDelete key => is_Some (bucket_of id r !! key)
  | OpClear => is_Some (rt_persistent r !! id)
  end.

Lemma storage_step_cases id op c commits r :
  let res := storage_step id op c commits r in
  so_saved res = false ∧ so_runtime res = r ∧ (so_answer res = true → already_so id op r)
  ∨ within_limits id op r ∧ commits + 1 <= maxPersistentCommitsPerAction ∧ so_saved res = true
    ∧ res = commit_snapshot c (commits_of id op r) (commits + 1) r.
Proof.
  cbv zeta. unfold within_limits, already_so, storage_step, storage_set, storage_delete, storage_clear, spend. destruct op as [key value|key|]; cbn [commits_of].
  - destruct (entry_ok key value); [|by left]. cbn [negb]. destruct (rt_loadErr r); [by left|].
    destruct ((maxPersistentKeys <=? _) && _) eqn:Ek; [by left|].
    destruct (bool_decide (bucket_of id r !! key = Some value)) eqn:Es; [apply bool_decide_eq_true in Es; by left|]. apply bool_decide_eq_false in Es.
    destruct (Z.leb_spec (commits + 1) maxPersistentCommitsPerAction); [|by left]. cbn [negb].
    destruct (Z.ltb_spec maxPersistentModuleBytes (persistentBucketBytes (<[key:=value]> (bucket_of id r)))); [by left|].
    right. split; [split; [done|]; split; [done|]; split; [|by split]|].
    + apply andb_false_iff in Ek as [Ek|Ek]; bools; [left; lia|]. right. by apply not_eq_None_Some.
    + split; [done|]. unfold commit_snapshot. by destruct (savePersistent _ _ _ _).
  - destruct (rt_loadErr r); [by left|]. case_bool_decide as Es; [by left|].
    destruct (Z.leb_spec (commits + 1) maxPersistentCommitsPerAction); [|by left]. cbn [negb]. right.
    split; [split; [done | by apply not_eq_None_Some]|]. split; [done|]. unfold commit_snapshot. by destruct (savePersistent _ _ _ _).
  - destruct (rt_loadErr r); [by left|]. case_bool_decide as Es; [by left|].
    destruct (Z.leb_spec (commits + 1) maxPersistentCommitsPerAction); [|by left]. cbn [negb]. right.
    split; [split; [done | by apply not_eq_None_Some]|]. split; [done|]. unfold commit_snapshot. by destruct (savePersistent _ _ _ _).
Qed.

Lemma bucket_of_limits id r : store_limits (rt_persistent r) → validModuleID id = true → bucket_limits id (bucket_of id r).
Proof.
  intros Hl Hid. unfold bucket_of. destruct (rt_persistent r !! id) as [b|] eqn:E; [by apply Hl|]. cbn [default from_option].
  split; [done|]. split; [by rewrite map_size_empty|]. intros k v Hkv; by rewrite lookup_empty in Hkv.
Qed.

Lemma commits_limits id op r : store_limits (rt_persistent r) → validModuleID id = true → within_limits id op r →
  store_limits (commits_of id op r).
Proof.
  intros Hl Hid (_ & Hw). pose proof (bucket_of_limits id r Hl Hid) as (_ & Hs & He). destruct op as [key value|key|]; cbn in *.
  - destruct Hw as (Hok & Hroom & _). apply map_Forall_insert_2; [|done]. split; [done|]. split.
    + rewrite map_size_insert. destruct (bucket_of id r !! key); cbn; [done|]. destruct Hroom as [?|[? ?]]; [lia|done].
    + by apply map_Forall_insert_2.
  - apply map_Forall_insert_2; [|done]. split; [done|]. split; [|by apply map_Forall_delete].
    rewrite map_size_delete. destruct (bucket_of id r !! key); cbn; lia.
  - by apply map_Forall_delete.
Qed.

(** Valid operations keep a store of valid texts. *)
Lemma commits_texts id op r : store_texts (rt_persistent r) → validModuleID id = true → op_texts op → store_texts (commits_of id op r).
Proof.
  intros Ht Hid Ho. assert (bucket_texts (bucket_of id r)) as Hb.
  { unfold bucket_of. destruct (rt_persistent r !! id) as [b|] eqn:E; [by apply (Ht id)|]. apply map_Forall_empty. }
  apply validModuleID_utf8 in Hid. destruct op as [key value|key|]; cbn in *.
  - apply map_Forall_insert_2; [|done]. split; [done|]. by apply map_Forall_insert_2.
  - apply map_Forall_insert_2; [|done]. split; [done|]. by apply map_Forall_delete.
  - by apply map_Forall_delete.
Qed.

Lemma loaded_store_limits hasPath file m : loadPersistent hasPath file = Some (Ok m) → store_limits m ∧ store_texts m.
Proof.
  unfold loadPersistent. destruct hasPath; cbn [negb]; [|intros [= <-]; split; intros id b Hb; by rewrite lookup_empty in Hb].
  destruct file as [body|]; cbn [mbind option_bind]; [|done]. cbv zeta. set (raw := take _ body). intros [= E].
  unfold reject_if in E. destruct (_ <? len raw); [done|]. destruct (negb (ValidString raw)); [done|]. cbn [mbind res_bind] in E.
  destruct (store_Unmarshal raw) as [[state|]|] eqn:Eu; try done.
  destruct (forallb _ (map_to_list state)) eqn:Ef; [|done]. cbn in E. injection E as <-. by eapply loaded_limits.
Qed.

Lemma fresh_limits hasPath file :
  store_limits (rt_persistent (newScriptRuntime hasPath file)) ∧ store_texts (rt_persistent (newScriptRuntime hasPath file)).
Proof.
  unfold newScriptRuntime. destruct (loadPersistent hasPath file) as [[m|]|] eqn:E; cbn; [by eapply loaded_store_limits | |];
    split; intros id b Hb; by rewrite lookup_empty in Hb.
Qed.

(** [store.json] holds the snapshot [saved]: a restart finds it when its texts are UTF-8, and only then. *)
Definition holds_snapshot (saved : store_modules) (file : option bytes) : Prop :=
  store_limits saved
  ∧ (store_texts saved → newScriptRuntime true file = mkRuntime saved false true file)
  ∧ (rt_persistent (newScriptRuntime true file) = saved → store_texts saved).

Lemma marshalled_holds saved body : store_limits saved → marshalPersistentSnapshot saved = Some body → holds_snapshot saved (Some body).
Proof.
  intros Hl Hb. split; [done|]. split; [|intros <-; apply fresh_limits].
  intros Ht. unfold newScriptRuntime. by rewrite (reload_saved saved body).
Qed.

(** The runtime is within its limits, and its file holds the snapshot in memory unless a directory sync failed. *)
Definition store_inv (valid synced : Prop) (r : scriptRuntime) : Prop :=
  rt_hasPath r = true ∧ rt_loadErr r = false ∧ store_limits (rt_persistent r) ∧ (valid → store_texts (rt_persistent r))
  ∧ ∃ saved, holds_snapshot saved (rt_file r) ∧ (synced → saved = rt_persistent r) ∧ (valid → store_texts saved).

Lemma store_step_inv (P : storage_op → save_calls → Prop) r r' (valid := ∀ op c, P op c → op_texts op) (synced := ∀ op c, P op c → sc_syncDir c = true) :
  store_inv valid synced r → store_step P r r' → store_inv valid synced r'.
Proof.
  intros Hi Hst. destruct Hst as [id op c commits r0 Hid HP]. destruct (storage_step_cases id op c commits r0) as [(_ & -> & _)|(Hw & _ & _ & ->)]; [exact Hi|].
  destruct Hi as (Hp & Hl & Hlim & Hval & saved & Hh & Hs & Hv). pose proof (commits_limits id op r0 Hlim Hid Hw) as Hn.
  assert (valid → store_texts (commits_of id op r0)) as Hnt by (intros Hok; apply commits_texts; [by apply Hval | done | by apply (Hok op c)]).
  set (next := commits_of id op r0) in *. pose proof (commit_snapshot_spec c next (commits + 1) r0) as (Em & El & Ep & Hf).
  set (res := commit_snapshot c next (commits + 1) r0) in *. unfold store_inv. rewrite Ep, El, Em. split; [done|]. split; [done|].
  split; [by destruct (so_answer res)|]. split; [destruct (so_answer res); auto|].
  destruct Hf as [[Ef Ha]|(_ & Ef & [body Eb] & Ea)].
  - exists saved. rewrite Ef. destruct (so_answer res); [specialize (Ha eq_refl); congruence|]. done.
  - exists next. rewrite Ef, Eb. split; [by apply marshalled_holds|]. split; [|done]. intros Hsync. by rewrite Ea, (Hsync op c HP).
Qed.

Lemma loaded_inv valid synced file : rt_loadErr (newScriptRuntime true file) = false → store_inv valid synced (newScriptRuntime true file).
Proof.
  intros Hl. assert (rt_file (newScriptRuntime true file) = file ∧ rt_hasPath (newScriptRuntime true file) = true) as [Ef Ep]
    by (unfold newScriptRuntime; by destruct (loadPersistent true file) as [[]|]).
  pose proof (fresh_limits true file) as [Hlim Ht]. split; [done|]. split; [done|]. split; [done|]. split; [done|].
  exists (rt_persistent (newScriptRuntime true file)). rewrite Ef. split; [|done]. split; [done|]. split; [|done]. intros _.
  destruct (newScriptRuntime true file); cbn in *; congruence.
Qed.

(** ** Properties *)

(** C22 (invariant): however extensions use their storage, whatever bytes their keys and values are and
    whatever save fails: the running store stays enabled and within its limits, and [store.json] holds a
    whole snapshot within the limits, the one in memory when every directory sync succeeded.  A
    restart finds exactly that snapshot when its keys and values are valid UTF-8, and only then; they
    are so when the keys and values of every set are. *)
Theorem store_survives (P : storage_op → save_calls → Prop) (file : option bytes) (r : scriptRuntime) :
  rt_loadErr (newScriptRuntime true file) = false → rtc (store_step P) (newScriptRuntime true file) r →
  store_limits (rt_persistent r) ∧ rt_loadErr r = false
  ∧ ∃ saved, store_limits saved
      ∧ ((∀ op c, P op c → sc_syncDir c = true) → saved = rt_persistent r)
      ∧ (store_texts saved → newScriptRuntime true (rt_file r) = mkRuntime saved false true (rt_file r))
      ∧ (rt_persistent (newScriptRuntime true (rt_file r)) = saved → store_texts saved)
      ∧ ((∀ op c, P op c → op_texts op) → store_texts saved).
Proof.
  intros Hl Hr. pose proof (loaded_inv (∀ op c, P op c → op_texts op) (∀ op c, P op c → sc_syncDir c = true) file Hl) as Hi.
  clear Hl. revert Hr Hi. generalize (newScriptRuntime true file). intros r0 Hr Hi.
  assert (store_inv (∀ op c, P op c → op_texts op) (∀ op c, P op c → sc_syncDir c = true) r) as (_ & ? & ? & _ & saved & (? & ? & ?) & ? & ?).
  { induction Hr as [|x y z Hst _ IH]; [done|]. apply IH. by eapply store_step_inv. }
  split; [done|]. split; [done|]. by exists saved.
Qed.

(** No process reads a value that is no UTF-8 from a file; the one that accepted it reads it until it ends. *)
Lemma invalid_value_lost (id key value : bytes) (file : option bytes) :
  ValidString value = false → storage_get id key (newScriptRuntime true file) ≠ Some value.
Proof.
  intros Hv. unfold storage_get, bucket_of. destruct (rt_persistent (newScriptRuntime true file) !! id) as [b|] eqn:E; [|done].
  cbn [default from_option]. intros Hk. destruct (fresh_limits true file) as [_ Ht]. destruct (Ht id b E) as [_ Hb]. destruct (Hb key value Hk) as [_ ?]. congruence.
Qed.

(** An operation touches the bucket of its extension only; refused, it changes nothing a script
    can read, and granted it does exactly what it says. *)
Theorem storage_exact (id : bytes) (op : storage_op) (c : save_calls) (commits : Z) (r : scriptRuntime) :
  let res := storage_step id op c commits r in
  let get := λ id key, storage_get id key (so_runtime res) in
  (∀ other key, other ≠ id → get other key = storage_get other key r)
  ∧ (so_answer res = false → ∀ key, get id key = storage_get id key r)
  ∧ (so_answer res = true → ∀ key, get id key = match op with
       | OpSet k v => if bool_decide (key = k) then Some v else storage_get id key r
       | OpDelete k => if bool_decide (key = k) then None else storage_get id key r
       | OpClear => None
       end).
Proof.
  cbv zeta. unfold storage_get. destruct (storage_step_cases id op c commits r) as [(_ & -> & Ha)|(_ & _ & _ & ->)].
  - split; [done|]. split; [done|]. intros Ht key. specialize (Ha Ht). destruct op as [k v|k|]; cbn in Ha.
    + case_bool_decide; [by subst | done].
    + done.
    + unfold bucket_of. by rewrite Ha.
  - destruct (commit_snapshot_spec c (commits_of id op r) (commits + 1) r) as (Em & _). unfold bucket_of. rewrite Em.
    set (a := so_answer _). split; [|split].
    + intros other key Hne. destruct a; [|done]. destruct op; cbn; [by rewrite lookup_insert_ne | by rewrite lookup_insert_ne | by rewrite lookup_delete_ne].
    + by intros ->.
    + intros -> key. destruct op as [k v|k|]; cbn; rewrite ?lookup_insert_eq, ?lookup_delete_eq; cbn; [..|done].
      * case_bool_decide; [subst; apply lookup_insert_eq | by apply lookup_insert_ne].
      * case_bool_decide; [subst; apply lookup_delete_eq | by apply lookup_delete_ne].
Qed.

(** One action: its operations, with the runtime each of them meets. *)
Fixpoint action_saves (id : bytes) (commits : Z) (steps : list (storage_op * save_calls * scriptRuntime)) : Z :=
  match steps with
  | [] => 0
  | (op, c, r) :: rest =>
      let res := storage_step id op c commits r in
      (if so_saved res then 1 else 0) + action_saves id (so_commits res) rest
  end.

Lemma storage_step_spends id op c commits r : commits <= so_commits (storage_step id op c commits r).
Proof.
  unfold storage_step, storage_set, storage_delete, storage_clear, spend, commit_snapshot.
  repeat first [progress cbn | case_match]; lia.
Qed.

(** One action saves the store at most 32 times, whatever the other actions do between its
    operations. *)
Theorem action_saves_bounded (id : bytes) (steps : list (storage_op * save_calls * scriptRuntime)) :
  0 <= action_saves id 0 steps <= maxPersistentCommitsPerAction.
Proof.
  assert (∀ commits, 0 <= action_saves id commits steps <= Z.max 0 (maxPersistentCommitsPerAction - commits)) as Hb.
  { induction steps as [|[[op c] r] rest IH]; intros commits; cbn [action_saves]; [lia|]. cbv zeta.
    pose proof (storage_step_spends id op c commits r). specialize (IH (so_commits (storage_step id op c commits r))).
    destruct (storage_step_cases id op c commits r) as [(Es & _)|(_ & Hc & Es & Eq)]; rewrite Es; [lia|].
    assert (so_commits (storage_step id op c commits r) = commits + 1) as E.
    { rewrite Eq. unfold commit_snapshot. by destruct (savePersistent _ _ _ _). }
    rewrite E in *. lia. }
  specialize (Hb 0). unfold maxPersistentCommitsPerAction in *. lia.
Qed.
End facts.

(** ** A concrete encoding, and a store through a failed save and a restart *)
Section example.
Fixpoint digits (p : positive) : bytes :=
  match p with xH => [] | xO p => #"0" :: digits p | xI p => #"1" :: digits p end.
Fixpoint undigits (s : bytes) : positive :=
  match s with [] => xH | c :: s => if c =? #"0" then xO (undigits s) else xI (undigits s) end.

Lemma undigits_digits p : undigits (digits p) = p.
Proof. induction p as [p IH|p IH|]; cbn; by rewrite ?IH. Qed.
Lemma digits_utf8 p : ValidString (digits p) = true.
Proof. apply ascii_ValidString. induction p; cbn; repeat constructor; try lia; done. Qed.

#[local] Instance positional_json : StoreJSON := {|
  store_Marshal m := digits (encode m);
  store_Unmarshal raw :=
    match decode (undigits raw) : option store_modules with
    | Some m => if decide (map_Forall (λ _ b, bucket_texts b) m) then Some (Some (Some <$> m)) else None
    | None => None
    end |}.

#[local] Instance positional_json_laws : StoreJSONLaws.
Proof.
  split.
  - intros m Hm. cbn. rewrite undigits_digits, decode_encode. cbn. rewrite decide_True; [done|]. intros id b Hb. by apply (Hm id b Hb).
  - intros m. apply digits_utf8.
  - intros raw m id b. cbn. destruct (decode (undigits raw)) as [m'|]; cbn; [|done]. destruct (decide _) as [Ht|]; [|done].
    intros [= <-] Hb. apply lookup_fmap_Some in Hb as (b' & [= <-] & Hb). by apply (Ht id b').
Qed.

Definition calls_ok : save_calls := mkSaveCalls true true true true true true true true.
Definition stored : scriptRuntime :=
  so_runtime (storage_step (&"ext") (OpSet (&"k") (&"v")) calls_ok 0 (newScriptRuntime true None)).

Lemma store_survives_witness :
  store_limits (rt_persistent stored) ∧ newScriptRuntime true (rt_file stored) = stored.
Proof.
  destruct (store_survives (λ op c, op_texts op ∧ c = calls_ok) None stored) as (Hl & _ & saved & _ & Hs & Ht & _ & Hv).
  - reflexivity.
  - apply rtc_once. by apply step_storage.
  - split; [exact Hl|]. rewrite Ht by (apply Hv; tauto). rewrite Hs; [reflexivity|]. by intros op c [_ ->].
Defined.

(** A value of one byte that is no UTF-8, before and after a restart. *)
Example invalid_value_stored :
  let r := so_runtime (storage_step (&"ext") (OpSet (&"k") [255]) calls_ok 0 (newScriptRuntime true None)) in
  storage_get (&"ext") (&"k") r = Some [255] ∧ storage_get (&"ext") (&"k") (newScriptRuntime true (rt_file r)) = None.
Proof. vm_compute. done. Qed.

Example stored_reads : storage_get (&"ext") (&"k") stored = Some (&"v") ∧ storage_get (&"ext2") (&"k") stored = None.
Proof. vm_compute. done. Qed.
End example.
