(* ===== verification/ScriptNesting.v ===== *)
(** * [script_nesting.go]: the bracket-depth guard in front of the script parser

    [checkScriptNesting] scans a script once and refuses bracket nesting or
    prefix-operator runs deeper than 256.  The scan state is a record; the
    position is the rest of the source, so [index += 2] past the end is the
    empty rest.  Each iteration of the loop is [scan_step]. *)
From S2P Require Import Prelude GoStrings.

Definition maxScriptNestingDepth : Z := 256.

Definition isValueEnd (char : Z) : bool :=
  ((#"a" <=? char) && (char <=? #"z")) || ((#"A" <=? char) && (char <=? #"Z"))
  || is_digit char || (char =? #"_") || (char =? #"$").

(** The loop of [skipQuoted], from the byte after the opening quote. *)
Fixpoint skipQuoted_loop (quote : Z) (s : bytes) : bytes :=
  match s with
  | [] => []
  | c :: s' =>
      if c =? #"\" then match s' with [] => [] | _ :: s'' => skipQuoted_loop quote s'' end
      else if c =? quote then s'
      else if c =? 10 then s'
      else skipQuoted_loop quote s'
  end.
Definition skipQuoted (quote : Z) (source : bytes) : bytes :=
  skipQuoted_loop quote (drop 1 source).

Fixpoint skip_flags (s : bytes) : bytes :=
  match s with
  | c :: s' => if isValueEnd c then skip_flags s' else s
  | [] => []
  end.

(** The loop of [skipRegexLiteral], from the byte after the opening slash. *)
Fixpoint skipRegex_loop (inClass : bool) (s : bytes) : bytes :=
  match s with
  | [] => []
  | c :: s' =>
      if c =? #"\" then match s' with [] => [] | _ :: s'' => skipRegex_loop inClass s'' end
      else if c =? #"[" then skipRegex_loop true s'
      else if c =? #"]" then skipRegex_loop false s'
      else if (c =? #"/") && negb inClass then skip_flags s'
      else if c =? 10 then s'
      else skipRegex_loop inClass s'
  end.
Definition skipRegexLiteral (source : bytes) : bytes :=
  skipRegex_loop false (drop 1 source).

Fixpoint skip_line (s : bytes) : bytes :=
  match s with
  | c :: s' => if c =? 10 then s else skip_line s'
  | [] => []
  end.

(** The body of a block comment, up to and past its end. *)
Fixpoint skip_block (s : bytes) : bytes :=
  match s with
  | c :: ((d :: s'') as s') => if (c =? #"*") && (d =? #"/") then s'' else skip_block s'
  | _ => []
  end.

Record scan := Scan {
  depth : Z;
  deepest : Z;
  unary : Z;
  longestUnary : Z;
  templates : list Z;  (* innermost open template first *)
  regexAllowed : bool;
}.

Definition scan_init : scan := Scan 0 0 0 0 [] true.

Definition set_regex (b : bool) (st : scan) : scan :=
  Scan (depth st) (deepest st) (unary st) (longestUnary st) (templates st) b.
Definition set_unary (n : Z) (st : scan) : scan :=
  Scan (depth st) (deepest st) n (longestUnary st) (templates st) (regexAllowed st).
Definition set_templates (t : list Z) (st : scan) : scan :=
  Scan (depth st) (deepest st) (unary st) (longestUnary st) t (regexAllowed st).
Definition enter (st : scan) : scan :=
  Scan (depth st + 1) (Z.max (deepest st) (depth st + 1))
    (unary st) (longestUnary st) (templates st) (regexAllowed st).
Definition leave (st : scan) : scan :=
  Scan (if 0 <? depth st then depth st - 1 else depth st) (deepest st)
    (unary st) (longestUnary st) (templates st) (regexAllowed st).
Definition bump_unary (st : scan) : scan :=
  Scan (depth st) (deepest st) (unary st + 1) (Z.max (longestUnary st) (unary st + 1))
    (templates st) (regexAllowed st).

Definition in_template (st : scan) : bool :=
  match templates st with
  | [] => false
  | d :: _ => depth st =? d
  end.

Definition next_is (c : Z) (rest : bytes) : bool :=
  match rest with [] => false | d :: _ => d =? c end.

Definition is_open (c : Z) : bool := (c =? #"(") || (c =? #"[") || (c =? #"{").
Definition is_close (c : Z) : bool := (c =? #")") || (c =? #"]") || (c =? #"}").
Definition is_blank (c : Z) : bool := (c =? 32) || (c =? 9) || (c =? 13) || (c =? 10).
Definition is_prefix_op (c : Z) : bool :=
  (c =? #"!") || (c =? #"~") || (c =? #"+") || (c =? #"-").

(** Template text: up to the closing back-quote or an interpolation. *)
Definition template_step (st : scan) (char : Z) (rest : bytes) : scan * bytes :=
  if char =? #"\" then (st, drop 1 rest)
  else if char =? #"`" then (set_regex false (set_templates (tail (templates st)) st), rest)
  else if (char =? #"$") && next_is #"{" rest then (set_regex true (enter st), drop 1 rest)
  else (st, rest).

(** Code. *)
Definition code_step (st : scan) (char : Z) (rest : bytes) : scan * bytes :=
  if is_blank char then (st, rest)
  else if char =? #"/" then
    if next_is #"/" rest then (st, skip_line (char :: rest))
    else if next_is #"*" rest then (st, skip_block (drop 1 rest))
    else if regexAllowed st
         then (set_unary 0 (set_regex false st), skipRegexLiteral (char :: rest))
         else (set_unary 0 (set_regex true st), rest)
  else if (char =? #"'") || (char =? 34)
       then (set_unary 0 (set_regex false st), skipQuoted char (char :: rest))
  else if char =? #"`" then (set_templates (depth st :: templates st) st, rest)
  else if is_open char then (set_unary 0 (set_regex true (enter st)), rest)
  else if is_close char then (set_unary 0 (set_regex false (leave st)), rest)
  else if is_prefix_op char then (set_regex true (bump_unary st), rest)
  else (set_unary 0 (set_regex (negb (isValueEnd char)) st), rest).

Definition scan_step (st : scan) (char : Z) (rest : bytes) : scan * bytes :=
  if in_template st then template_step st char rest else code_step st char rest.

Fixpoint scan_fuel (fuel : nat) (st : scan) (source : bytes) : scan :=
  match source with
  | [] => st
  | char :: rest =>
      match fuel with
      | O => st
      | S fuel' => let '(st', source') := scan_step st char rest in scan_fuel fuel' st' source'
      end
  end.

(** The whole loop: the number of bytes is enough fuel ([scan_fuel_enough]). *)
Definition scan_source (st : scan) (source : bytes) : scan :=
  scan_fuel (length source) st source.

Inductive nesting_error := NestsTooDeep (levels : Z) | ChainsTooLong (operators : Z).

Definition checkScriptNesting (source : bytes) : option nesting_error :=
  let st := scan_source scan_init source in
  if maxScriptNestingDepth <? deepest st then Some (NestsTooDeep (deepest st))
  else if maxScriptNestingDepth <? longestUnary st then Some (ChainsTooLong (longestUnary st))
  else None.

(** ** Termination: every iteration consumes a byte *)
Lemma skipQuoted_loop_le q s : (length (skipQuoted_loop q s) <= length s)%nat.
Proof.
  induction s as [s IH] using (induction_ltof1 _ length). unfold ltof in IH.
  destruct s as [|c s]; [done|]. simpl.
  destruct (c =? _); [destruct s as [|d s]; [simpl; lia|]|].
  - specialize (IH s). simpl in *. lia.
  - specialize (IH s). repeat case_match; simpl in *; lia.
Qed.

Lemma skip_flags_le s : (length (skip_flags s) <= length s)%nat.
Proof. induction s as [|c s IH]; simpl; [lia|]. case_match; simpl; lia. Qed.

Lemma skipRegex_loop_le b s : (length (skipRegex_loop b s) <= length s)%nat.
Proof.
  revert b. induction s as [s IH] using (induction_ltof1 _ length). unfold ltof in IH. intros b.
  destruct s as [|c s]; [done|]. simpl.
  pose proof (skip_flags_le s).
  destruct (c =? _); [destruct s as [|d s]; [simpl; lia|]|].
  - specialize (IH s ltac:(simpl; lia) b). simpl in *. lia.
  - pose proof (IH s ltac:(simpl; lia)) as IHs.
    repeat case_match; simpl in *; try lia;
      match goal with |- context [skipRegex_loop ?b s] => specialize (IHs b); lia end.
Qed.

Lemma skip_line_le s : (length (skip_line s) <= length s)%nat.
Proof. induction s as [|c s IH]; simpl; [lia|]. case_match; simpl; lia. Qed.

Lemma skip_block_le s : (length (skip_block s) <= length s)%nat.
Proof.
  induction s as [|c s IH]; [done|]. destruct s as [|d s]; [simpl; lia|].
  change (skip_block (c :: d :: s)) with
    (if (c =? #"*") && (d =? #"/") then s else skip_block (d :: s)).
  destruct (_ && _); simpl length in *; lia.
Qed.

#[local] Hint Resolve skipQuoted_loop_le skip_flags_le skipRegex_loop_le skip_line_le
  skip_block_le drop_length_le : go.

Lemma scan_step_consumes st c rest : (length (snd (scan_step st c rest)) <= length rest)%nat.
Proof.
  unfold scan_step, template_step, code_step.
  destruct (in_template st); [repeat case_match; simpl; auto with go|].
  destruct (is_blank c); [done|].
  destruct (c =? #"/") eqn:Hc; [apply Z.eqb_eq in Hc; subst c|].
  - destruct (next_is _ _); [simpl; auto with go|].
    destruct (next_is _ _); [simpl; etrans; [apply skip_block_le | apply drop_length_le]|].
    destruct (regexAllowed st); simpl; [apply skipRegex_loop_le|done].
  - repeat case_match; simpl; auto; apply skipQuoted_loop_le.
Qed.

Lemma scan_fuel_enough fuel1 fuel2 st s :
  (length s <= fuel1)%nat → (length s <= fuel2)%nat →
  scan_fuel fuel1 st s = scan_fuel fuel2 st s.
Proof.
  revert fuel2 st s. induction fuel1 as [|fuel1 IH]; intros [|fuel2] st [|c s]; simpl; try done;
    intros H1 H2; try lia.
  pose proof (scan_step_consumes st c s).
  destruct (scan_step st c s) as [st' s'] eqn:E. simpl in *. apply IH; lia.
Qed.

Lemma scan_source_cons st c rest :
  scan_source st (c :: rest) = scan_source (fst (scan_step st c rest)) (snd (scan_step st c rest)).
Proof.
  unfold scan_source. simpl. pose proof (scan_step_consumes st c rest).
  destruct (scan_step st c rest) as [st' s'] eqn:E. simpl in *. apply scan_fuel_enough; lia.
Qed.

(** Induction along the iterations of the loop. *)
Lemma scan_source_ind (P : scan → bytes → Prop) :
  (∀ st, P st []) →
  (∀ st c rest, P (fst (scan_step st c rest)) (snd (scan_step st c rest)) → P st (c :: rest)) →
  ∀ st s, P st s.
Proof.
  intros H0 HS st s. revert st.
  induction s as [s IH] using (induction_ltof1 _ length). unfold ltof in IH. intros st.
  destruct s as [|c s]; [done|]. apply HS, IH. simpl.
  pose proof (scan_step_consumes st c s). lia.
Qed.

(** ** Bounds of the counters *)
Definition scan_wf (n : Z) (st : scan) : Prop :=
  0 <= depth st <= deepest st ∧ 0 <= unary st <= longestUnary st
  ∧ deepest st <= n ∧ longestUnary st <= n.

Lemma scan_wf_mono n m st : n <= m → scan_wf n st → scan_wf m st.
Proof. unfold scan_wf. lia. Qed.

Lemma scan_step_wf n st c rest :
  0 <= n → scan_wf n st → scan_wf (n + 1) (fst (scan_step st c rest)).
Proof.
  intros Hn (?&?&?&?). unfold scan_step, template_step, code_step, scan_wf.
  repeat case_match; simpl; unfold set_regex, set_unary, set_templates, enter, leave, bump_unary;
    simpl; repeat case_match; lia.
Qed.

Lemma scan_source_wf st s n :
  0 <= n → scan_wf n st → scan_wf (n + len s) (scan_source st s).
Proof.
  revert n. pattern st, s. apply scan_source_ind; clear st s; [intros st | intros st c rest IHs];
    intros n Hn Hwf.
  - unfold scan_source. simpl. by rewrite Z.add_0_r.
  - rewrite scan_source_cons. eapply scan_wf_mono; [|apply (IHs (n + 1)); [lia|]].
    + pose proof (scan_step_consumes st c rest). simpl. lia.
    + by apply scan_step_wf.
Qed.

(** ** The counters on plain code

    A plain byte opens no comment, literal or template.  On plain code the
    scan is a left fold, and its two maxima are maxima over all factors of
    the source: of open minus closed brackets, and of the length of a run of
    prefix operators. *)
Definition plain (c : Z) : bool :=
  negb ((c =? #"/") || (c =? #"'") || (c =? 34) || (c =? #"`")).

(** The best weight of a suffix, kept incrementally; [None] ends a run. *)
Section best.
Context (w : Z → option Z).

Fixpoint weigh (y : bytes) : option Z :=
  match y with
  | [] => Some 0
  | c :: y' => k ← w c; a ← weigh y'; Some (k + a)
  end.

Definition best_step (cur c : Z) : Z :=
  match w c with Some k => Z.max 0 (cur + k) | None => 0 end.

Definition best_fold (s : bytes) : Z * Z :=
  fold_left (λ p c, (best_step p.1 c, Z.max p.2 (best_step p.1 c))) s (0, 0).

Lemma weigh_app y z : weigh (y ++ z) = (a ← weigh y; b ← weigh z; Some (a + b)).
Proof.
  induction y as [|c y IH]; simpl; [by destruct (weigh z)|].
  rewrite IH. destruct (w c), (weigh y), (weigh z); simpl; try done. f_equal. lia.
Qed.

Lemma weigh_snoc y c : weigh (y ++ [c]) = (a ← weigh y; k ← w c; Some (a + k)).
Proof. rewrite weigh_app. simpl. destruct (weigh y), (w c); simpl; f_equal. lia. Qed.

Lemma best_fold_snoc s c :
  best_fold (s ++ [c]) =
    (best_step (best_fold s).1 c, Z.max (best_fold s).2 (best_step (best_fold s).1 c)).
Proof. unfold best_fold. by rewrite fold_left_app. Qed.

Lemma best_suffix s :
  (∀ x y v, s = x ++ y → weigh y = Some v → v <= (best_fold s).1)
  ∧ (∃ x y, s = x ++ y ∧ weigh y = Some (best_fold s).1).
Proof.
  induction s as [|c s [IHle (x0 & y0 & Hs & Hy)]] using rev_ind.
  { split; [|by exists [], []]. intros x y v H. symmetry in H.
    apply app_eq_nil in H as [-> ->]. simpl. intros [= <-]. lia. }
  rewrite best_fold_snoc. simpl. unfold best_step. split.
  - intros x y v E Hv. destruct y as [|d y _] using rev_ind.
    { injection Hv as <-. destruct (w c); lia. }
    rewrite app_assoc in E. apply app_inj_tail in E as [E ->].
    rewrite weigh_snoc in Hv. destruct (weigh y) as [a|] eqn:Ha; [|done].
    destruct (w d); simpl in Hv; [injection Hv as <-|done].
    specialize (IHle _ _ _ E Ha). lia.
  - destruct (w c) as [k|] eqn:Hk; [destruct (Z.max_spec 0 ((best_fold s).1 + k)) as [[? ->]|[? ->]]|].
    + exists x0, (y0 ++ [c]). split; [by rewrite Hs, <- app_assoc|].
      by rewrite weigh_snoc, Hy, Hk.
    + exists (s ++ [c]), []. by rewrite app_nil_r.
    + exists (s ++ [c]), []. by rewrite app_nil_r.
Qed.

Lemma best_factor s :
  (∀ x y z v, s = x ++ y ++ z → weigh y = Some v → v <= (best_fold s).2)
  ∧ (∃ x y z, s = x ++ y ++ z ∧ weigh y = Some (best_fold s).2).
Proof.
  induction s as [|c s [IHle (x0 & y0 & z0 & Hs & Hy)]] using rev_ind.
  { split; [|by exists [], [], []]. intros x y z v H. symmetry in H.
    apply app_eq_nil in H as [-> H]. apply app_eq_nil in H as [-> ->].
    simpl. intros [= <-]. lia. }
  pose proof (best_suffix (s ++ [c])) as [Sle (x1 & y1 & Hs1 & Hy1)].
  rewrite best_fold_snoc in *. simpl in *. split.
  - intros x y z v E Hv. destruct z as [|d z _] using rev_ind.
    { rewrite app_nil_r in E. specialize (Sle _ _ _ E Hv). lia. }
    rewrite 2!app_assoc in E. apply app_inj_tail in E as [E _].
    rewrite <- app_assoc in E. specialize (IHle _ _ _ _ E Hv). lia.
  - destruct (Z.max_spec (best_fold s).2 (best_step (best_fold s).1 c)) as [[? ->]|[? ->]].
    + exists x1, y1, []. by rewrite app_nil_r.
    + exists x0, y0, (z0 ++ [c]). split; [|done]. rewrite Hs at 1. by rewrite <- !app_assoc.
Qed.
End best.

Definition bracket_weight (c : Z) : option Z :=
  Some (if is_open c then 1 else if is_close c then -1 else 0).
Definition operator_weight (c : Z) : option Z :=
  if is_prefix_op c then Some 1 else if is_blank c then Some 0 else None.

(** [over n w s]: some factor of [s] weighs more than [n]. *)
Definition over (n : Z) (w : Z → option Z) (s : bytes) : Prop :=
  ∃ x y z v, s = x ++ y ++ z ∧ weigh w y = Some v ∧ n < v.

Lemma over_iff n w s : 0 <= n → over n w s ↔ n < (best_fold w s).2.
Proof.
  intros Hn. destruct (best_factor w s) as [Hle (x & y & z & Hs & Hy)]. split.
  - intros (x' & y' & z' & v & E & Hv & ?). specialize (Hle _ _ _ _ E Hv). lia.
  - intros. by exists x, y, z, (best_fold w s).2.
Qed.

Definition plain_step (st : scan) (c : Z) : scan := (code_step st c []).1.

Lemma scan_step_plain st c rest :
  plain c = true → templates st = [] →
  scan_step st c rest = (plain_step st c, rest) ∧ templates (plain_step st c) = [].
Proof.
  unfold plain, scan_step, in_template, plain_step, code_step. intros Hp Ht. rewrite Ht.
  apply negb_true_iff in Hp. apply orb_false_elim in Hp as [Hp H4].
  apply orb_false_elim in Hp as [Hp H3]. apply orb_false_elim in Hp as [H1 H2].
  rewrite H1, H2, H3, H4. simpl. by repeat case_match.
Qed.

Lemma scan_source_plain s st :
  forallb plain s = true → templates st = [] → scan_source st s = fold_left plain_step s st.
Proof.
  revert st. induction s as [|c s IH]; intros st; [done|]. simpl. intros [Hc Hs]%andb_true_split Ht.
  rewrite scan_source_cons. destruct (scan_step_plain st c s Hc Ht) as [-> Ht']. by apply IH.
Qed.

Lemma classes_disjoint c :
  (is_blank c = true → is_open c = false ∧ is_close c = false ∧ is_prefix_op c = false)
  ∧ (is_open c = true → is_close c = false ∧ is_prefix_op c = false)
  ∧ (is_close c = true → is_prefix_op c = false).
Proof. unfold is_blank, is_open, is_close, is_prefix_op. lia. Qed.

(** What one plain byte does to the four counters. *)
Lemma plain_step_counters st c :
  plain c = true → 0 <= depth st <= deepest st → 0 <= unary st <= longestUnary st →
  let st' := plain_step st c in
  depth st' = best_step bracket_weight (depth st) c
  ∧ deepest st' = Z.max (deepest st) (depth st')
  ∧ unary st' = best_step operator_weight (unary st) c
  ∧ longestUnary st' = Z.max (longestUnary st) (unary st').
Proof.
  intros Hp Hd Hu. destruct (classes_disjoint c) as (D1 & D2 & D3).
  unfold plain in Hp. bools.
  unfold plain_step, code_step, best_step, bracket_weight, operator_weight.
  rewrite (proj2 (Z.eqb_neq c #"/")), (proj2 (Z.eqb_neq c #"'")), (proj2 (Z.eqb_neq c 34)),
    (proj2 (Z.eqb_neq c #"`")) by lia.
  destruct (is_blank c); [destruct (D1 eq_refl) as (Q1 & Q2 & Q3); rewrite ?Q1, ?Q2, ?Q3; simpl; lia|].
  destruct (is_open c); [destruct (D2 eq_refl) as [Q1 Q2]; rewrite ?Q1, ?Q2; simpl; lia|].
  destruct (is_close c); [rewrite (D3 eq_refl); simpl; case_match; bools; lia|].
  destruct (is_prefix_op c); simpl; lia.
Qed.

Lemma plain_fold_counters s :
  forallb plain s = true →
  let st := fold_left plain_step s scan_init in
  best_fold bracket_weight s = (depth st, deepest st)
  ∧ best_fold operator_weight s = (unary st, longestUnary st)
  ∧ 0 <= depth st <= deepest st ∧ 0 <= unary st <= longestUnary st.
Proof.
  induction s as [|c s IH] using rev_ind; [intros _; simpl; repeat split; lia|].
  rewrite forallb_app. intros [Hs Hc]%andb_true_split. simpl in Hc.
  apply andb_true_split in Hc as [Hc _].
  destruct (IH Hs) as (E1 & E2 & Hd & Hu).
  rewrite fold_left_app, 2!best_fold_snoc, E1, E2. simpl.
  destruct (plain_step_counters _ c Hc Hd Hu) as (-> & -> & -> & ->).
  split; [done|]. split; [done|]. unfold best_step. repeat case_match; lia.
Qed.

(** ** What the guard accepts *)

(** On a source with no quote, slash or back-quote, the one-pass
    scan accepts exactly when no contiguous part of the source opens more than 256
    brackets net of the ones it closes, and no run of prefix operators (blanks
    allowed between them) is longer than 256. *)
Theorem checkScriptNesting_plain (s : bytes) :
  forallb plain s = true →
  checkScriptNesting s = None ↔
    ¬ over maxScriptNestingDepth bracket_weight s ∧ ¬ over maxScriptNestingDepth operator_weight s.
Proof.
  intros Hs. unfold checkScriptNesting, maxScriptNestingDepth.
  rewrite scan_source_plain, !over_iff by (done || lia).
  destruct (plain_fold_counters s Hs) as (-> & -> & _). simpl.
  repeat case_match; bools; naive_solver lia.
Qed.

Lemma checkScriptNesting_plain_witness :
  forallb plain (&"f(a[0]) + -+!b") = true ∧ checkScriptNesting (&"f(a[0]) + -+!b") = None.
Proof.
  split; [reflexivity|].
  apply (proj2 (checkScriptNesting_plain (&"f(a[0]) + -+!b") eq_refl)).
  rewrite !over_iff by (unfold maxScriptNestingDepth; lia). by vm_compute.
Defined.

(** The guard's two counters never exceed the number of bytes of the
    source, so a script of at most 256 bytes is always accepted. *)
Theorem checkScriptNesting_short (s : bytes) :
  (length s <= 256)%nat → checkScriptNesting s = None.
Proof.
  intros Hs. unfold checkScriptNesting, maxScriptNestingDepth.
  destruct (scan_source_wf scan_init s 0) as (_ & _ & ? & ?); [lia|by unfold scan_wf; simpl; lia|].
  repeat case_match; bools; (done || lia).
Qed.

Lemma checkScriptNesting_short_witness :
  checkScriptNesting (replicate 256 #"(") = None.
Proof. apply (checkScriptNesting_short (replicate 256 #"(")). by vm_compute. Defined.

(** A quoted literal with no quote, backslash or line feed inside is skipped whole. *)
Lemma skipQuoted_literal q body rest :
  Forall (λ c, c ≠ q ∧ c ≠ #"\" ∧ c ≠ 10) body → q ≠ #"\" →
  skipQuoted q (q :: body ++ q :: rest) = rest.
Proof.
  intros Hb Hq. unfold skipQuoted. simpl.
  induction Hb as [|c body (H1 & H2 & H3) _ IH]; simpl.
  - rewrite Z.eqb_refl. by rewrite (proj2 (Z.eqb_neq q _)).
  - by rewrite (proj2 (Z.eqb_neq c _) H1), (proj2 (Z.eqb_neq c _) H2), (proj2 (Z.eqb_neq c _) H3).
Qed.

(** In code position a quoted literal contributes nothing to either
    counter, whatever brackets it holds: the scan continues behind it exactly as behind
    the empty literal. *)
Theorem quoted_literal_ignored (st : scan) (q : Z) (body rest : bytes) :
  in_template st = false → q = #"'" ∨ q = 34 →
  Forall (λ c, c ≠ q ∧ c ≠ #"\" ∧ c ≠ 10) body →
  scan_source st (q :: body ++ q :: rest) = scan_source (set_unary 0 (set_regex false st)) rest.
Proof.
  intros Ht Hq Hb. rewrite scan_source_cons. unfold scan_step. rewrite Ht.
  assert (code_step st q (body ++ q :: rest) =
          (set_unary 0 (set_regex false st), skipQuoted q (q :: body ++ q :: rest))) as ->.
  { destruct Hq as [-> | ->]; reflexivity. }
  simpl. by rewrite skipQuoted_literal by (done || lia).
Qed.

Lemma quoted_literal_ignored_witness :
  scan_source scan_init (34 :: replicate 300 #"(" ++ 34 :: &"+1")
    = scan_source (set_unary 0 (set_regex false scan_init)) (&"+1").
Proof.
  apply (quoted_literal_ignored scan_init 34 (replicate 300 #"(") (&"+1"));
    [reflexivity | by right |]. apply Forall_replicate. lia.
Defined.

(** A regular expression with no slash, class or escape runs to the end of the source. *)
Lemma skipRegex_loop_open s :
  Forall (λ c, c ≠ #"\" ∧ c ≠ #"[" ∧ c ≠ #"/" ∧ c ≠ 10) s →
  skipRegex_loop false s = [].
Proof.
  induction 1 as [|c s (H1 & H2 & H3 & H4) _ IH]; [done|]. simpl.
  rewrite (proj2 (Z.eqb_neq c _) H1), (proj2 (Z.eqb_neq c _) H2), (proj2 (Z.eqb_neq c _) H3),
    (proj2 (Z.eqb_neq c _) H4), IH. by case_match.
Qed.

(** A division that follows a postfix increment is read as a regular
    expression, so everything behind it on the line goes uncounted: [a++/((((...] is
    accepted at every depth, although the brackets are code. *)
Theorem postfix_division_uncounted (n : nat) :
  checkScriptNesting (&"a++/" ++ replicate n #"(") = None.
Proof.
  destruct n as [|n]; [by vm_compute|].
  assert (scan_source scan_init (&"a++/" ++ replicate (S n) #"(") =
          scan_source (Scan 0 0 0 2 [] false) (skipRegexLiteral (replicate (S (S n)) #"("))) as E.
  { unfold scan_source at 2. simpl app. do 4 (rewrite scan_source_cons; simpl). reflexivity. }
  unfold checkScriptNesting. rewrite E. unfold skipRegexLiteral. simpl drop.
  rewrite skipRegex_loop_open; [by vm_compute|].
  apply (Forall_replicate _ (S n)). lia.
Qed.

Lemma plain_nesting_rejected :
  checkScriptNesting (&"a/" ++ replicate 257 #"(") = Some (NestsTooDeep 257).
Proof. by vm_compute. Qed.
