(* ===== verification/FileSystem.v ===== *)
(** * The file system under the bundle store

    [bundle_store.go] keeps its state in a directory: [meta.json] and
    [pointer.json] at its root and one file per bundle below [bundles].  A
    disk is a finite map from paths to contents, with the set of files whose
    contents were written but not yet synced.  Every system call consults a
    fault oracle, may fail with or without a partial effect, and appends the
    disk it leaves behind to a trace: the trace holds every disk a crash
    could leave when the system calls that were completed are kept.  The loss of
    data that was not synced is not represented; which files have such data is
    ([dirty]), and the theorems of the store say where it is none. *)
From S2P Require Import Prelude GoStrings GoBinary.

Inductive path :=
| InRoot (name : bytes)
| InBundles (name : bytes).

#[export] Instance path_eq_dec : EqDecision path.
Proof. solve_decision. Defined.
#[export] Instance path_countable : Countable path.
Proof.
  refine (inj_countable' (λ p, match p with InRoot n => inl n | InBundles n => inr n end)
    (λ s, match s with inl n => InRoot n | inr n => InBundles n end) _). by intros [].
Defined.

(** [path + bundleTempSuffix]. *)
Definition path_app (p : path) (suffix : bytes) : path :=
  match p with InRoot n => InRoot (n ++ suffix) | InBundles n => InBundles (n ++ suffix) end.

Inductive os_error := ENotExist | EIO.

(** A failing [write] may have written a prefix; a failing [RemoveAll] may have
    removed some of the entries. *)
Inductive fault := Pass | Fault (partial : nat).

Record disk := Disk {
  files : gmap path bytes;
  dirty : gset path;
  bundles_exists : bool;
}.

Record world := World {
  w_disk : disk;
  w_clock : nat → Z;
  w_tick : nat;
  w_fault : nat → fault;
  w_call : nat;
  w_trace : list disk;
  w_publishing : bool;
  w_log : list (bytes * bytes);
}.

Definition syscall {A} (f : fault → disk → res os_error A * disk) : action world os_error A :=
  λ w, let '(r, d) := f (w_fault w (w_call w)) (w_disk w) in
       (r, World d (w_clock w) (w_tick w) (w_fault w) (S (w_call w)) (d :: w_trace w)
             (w_publishing w) (w_log w)).

Definition dir_exists (d : disk) (p : path) : bool :=
  match p with InRoot _ => true | InBundles _ => bundles_exists d end.

Definition ReadFile (p : path) : action world os_error bytes :=
  syscall (λ f d, match f with
                  | Fault _ => (Err EIO, d)
                  | Pass => (match files d !! p with Some c => Ok c | None => Err ENotExist end, d)
                  end).

(** [os.OpenFile(path, O_WRONLY|O_CREATE|O_TRUNC, 0600)]. *)
Definition OpenTrunc (p : path) : action world os_error unit :=
  syscall (λ f d, match f with
                  | Fault _ => (Err EIO, d)
                  | Pass => if dir_exists d p
                            then (Ok tt, Disk (<[p := []]> (files d)) ({[p]} ∪ dirty d) (bundles_exists d))
                            else (Err ENotExist, d)
                  end).

(** [f.Write(raw)] on a file just truncated. *)
Definition WriteAll (p : path) (raw : bytes) : action world os_error unit :=
  syscall (λ f d, match f with
                  | Fault n => (Err EIO, Disk (<[p := take n raw]> (files d)) ({[p]} ∪ dirty d) (bundles_exists d))
                  | Pass => (Ok tt, Disk (<[p := raw]> (files d)) ({[p]} ∪ dirty d) (bundles_exists d))
                  end).

Definition SyncFile (p : path) : action world os_error unit :=
  syscall (λ f d, match f with
                  | Fault _ => (Err EIO, d)
                  | Pass => (Ok tt, Disk (files d) (dirty d ∖ {[p]}) (bundles_exists d))
                  end).

Definition CloseFile (p : path) : action world os_error unit :=
  syscall (λ f d, match f with Fault _ => (Err EIO, d) | Pass => (Ok tt, d) end).

Definition Rename (src dst : path) : action world os_error unit :=
  syscall (λ f d, match f with
                  | Fault _ => (Err EIO, d)
                  | Pass => match files d !! src with
                            | None => (Err ENotExist, d)
                            | Some c =>
                                (Ok tt, Disk (<[dst := c]> (delete src (files d)))
                                          (if decide (src ∈ dirty d)
                                           then {[dst]} ∪ (dirty d ∖ {[src]})
                                           else dirty d ∖ {[src]} ∖ {[dst]})
                                          (bundles_exists d))
                            end
                  end).

Definition Remove (p : path) : action world os_error unit :=
  syscall (λ f d, match f with
                  | Fault _ => (Err EIO, d)
                  | Pass => match files d !! p with
                            | None => (Err ENotExist, d)
                            | Some _ => (Ok tt, Disk (delete p (files d)) (dirty d ∖ {[p]}) (bundles_exists d))
                            end
                  end).

(** Opening and syncing the directory of a path. *)
Definition OpenDir (p : path) : action world os_error unit :=
  syscall (λ f d, match f with
                  | Fault _ => (Err EIO, d)
                  | Pass => if dir_exists d p then (Ok tt, d) else (Err ENotExist, d)
                  end).
Definition FsyncDir (p : path) : action world os_error unit :=
  syscall (λ f d, match f with Fault _ => (Err EIO, d) | Pass => (Ok tt, d) end).

Definition in_bundles (p : path) : bool :=
  match p with InBundles _ => true | InRoot _ => false end.
Definition path_name (p : path) : bytes :=
  match p with InRoot n => n | InBundles n => n end.

(** The names below [bundles]; the store makes no directories there. *)
Definition bundle_names (d : disk) : list bytes :=
  sort_Strings (map path_name (filter (λ p, in_bundles p = true) (map fst (map_to_list (files d))))).

Definition ReadDirBundles : action world os_error (list bytes) :=
  syscall (λ f d, match f with
                  | Fault _ => (Err EIO, d)
                  | Pass => if bundles_exists d then (Ok (bundle_names d), d) else (Err ENotExist, d)
                  end).

Definition remove_paths (ps : list path) (m : gmap path bytes) : gmap path bytes :=
  foldr delete m ps.

Definition RemoveAllBundles : action world os_error unit :=
  syscall (λ f d,
    let names := map InBundles (bundle_names d) in
    match f with
    | Fault n => (Err EIO, Disk (remove_paths (take n names) (files d)) (dirty d) (bundles_exists d))
    | Pass => (Ok tt, Disk (remove_paths names (files d)) (dirty d) false)
    end).

Definition MkdirAllBundles : action world os_error unit :=
  syscall (λ f d, match f with
                  | Fault _ => (Err EIO, d)
                  | Pass => (Ok tt, Disk (files d) (dirty d) true)
                  end).

(** [time.Now().Unix()]. *)
Definition now_unix {E} : action world E Z :=
  λ w, (Ok (w_clock w (w_tick w)),
        World (w_disk w) (w_clock w) (S (w_tick w)) (w_fault w) (w_call w) (w_trace w)
          (w_publishing w) (w_log w)).

(** An engine log event, kept when a subscriber is listening. *)
Definition publish_log {E} (level message : bytes) : action world E unit :=
  λ w, (Ok tt, World (w_disk w) (w_clock w) (w_tick w) (w_fault w) (w_call w) (w_trace w)
                 (w_publishing w)
                 (if w_publishing w then w_log w ++ [(level, message)] else w_log w)).

(** ** What a run does to the disk

    [steps Q w w']: the run from [w] to [w'] passed only through disks that
    [Q] relates to the disk it began with; the clock is the same. *)
Definition steps (Q : disk → disk → Prop) (w w' : world) : Prop :=
  ∃ tr, w_trace w' = tr ++ w_trace w ∧ Forall (Q (w_disk w)) tr ∧ Q (w_disk w) (w_disk w')
        ∧ w_clock w' = w_clock w.

#[export] Instance steps_preorder Q : PreOrder Q → PreOrder (steps Q).
Proof.
  intros HQ. split.
  - intros w. exists []. split; [done|]. split; [constructor | by split].
  - intros w1 w2 w3 (t1 & E1 & F1 & Q1 & C1) (t2 & E2 & F2 & Q2 & C2). exists (t2 ++ t1).
    split; [by rewrite E2, E1, app_assoc|]. split; [|split; [by etrans | congruence]].
    apply Forall_app. split; [|done]. eapply Forall_impl; [exact F2|]. intros d Hd. by etrans.
Qed.

(** [safe Q m]: every run of [m], whatever fails, stays within [Q]. *)
Definition safe {E A} (Q : disk → disk → Prop) (m : action world E A) : Prop :=
  ∀ w, steps Q w (m w).2.

Section safe.
Context (Q : disk → disk → Prop) {HQ : PreOrder Q}.

Lemma safe_ret {E A} (a : A) : safe Q (mret a : action world E A).
Proof. intros w. reflexivity. Qed.
Lemma safe_fail {E A} (e : E) : safe Q (fail e : action world E A).
Proof. intros w. simpl. reflexivity. Qed.
Lemma safe_lift_res {E A} (r : res E A) : safe Q (lift_res r).
Proof. intros w. simpl. reflexivity. Qed.
Lemma safe_bind {E A B} (m : action world E A) (f : A → action world E B) :
  safe Q m → (∀ a, safe Q (f a)) → safe Q (m ≫= f).
Proof.
  intros Hm Hf w. unfold mbind, action_bind. specialize (Hm w).
  destruct (m w) as [[a|e] w']; [|done]. etrans; [exact Hm | apply Hf].
Qed.
Lemma safe_attempt {E E' A} (m : action world E A) :
  safe Q m → safe Q (attempt m : action world E' _).
Proof. intros Hm w. unfold attempt. specialize (Hm w). by destruct (m w). Qed.
Lemma safe_wrap_err {E E' A} (f : E → E') (m : action world E A) :
  safe Q m → safe Q (wrap_err f m).
Proof. intros Hm w. unfold wrap_err. specialize (Hm w). by destruct (m w). Qed.
Lemma safe_syscall {A} (f : fault → disk → res os_error A * disk) :
  (∀ x d, Q d (f x d).2) → safe Q (syscall f).
Proof.
  intros Hf w. unfold syscall. specialize (Hf (w_fault w (w_call w)) (w_disk w)).
  destruct (f _ _) as [r d]. exists [d]. simpl in *. by repeat constructor.
Qed.
Lemma safe_now {E} : safe Q (now_unix : action world E Z).
Proof. intros w. exists []. simpl. split; [done|]. split; [constructor | by split]. Qed.
Lemma safe_publish {E} l s : safe Q (publish_log l s : action world E unit).
Proof. intros w. exists []. simpl. split; [done|]. split; [constructor | by split]. Qed.
Lemma safe_iter {E A} (f : A → action world E unit) l :
  (∀ x, x ∈ l → safe Q (f x)) → safe Q (iter_list f l).
Proof.
  induction l as [|x l IH]; intros Hf; simpl; [apply safe_ret|].
  apply safe_bind; [apply Hf; left | intros _; apply IH; intros y Hy; apply Hf; by right].
Qed.
End safe.

Lemma steps_weaken (Q Q' : disk → disk → Prop) w w' :
  (∀ d d', Q d d' → Q' d d') → steps Q w w' → steps Q' w w'.
Proof.
  intros HQ (tr & E1 & F & ? & ?). exists tr.
  split; [done|]. split; [|auto]. eapply Forall_impl; [exact F|]. auto.
Qed.

Lemma safe_weaken {E A} (Q Q' : disk → disk → Prop) (m : action world E A) :
  (∀ d d', Q d d' → Q' d d') → safe Q m → safe Q' m.
Proof. intros HQ Hm w. by eapply steps_weaken, Hm. Qed.

(** A reading call leaves the disk alone. *)
Definition same_files (d d' : disk) : Prop := d' = d.
#[export] Instance same_files_preorder : PreOrder same_files.
Proof. unfold same_files. split; [done | intros ??? -> ->; done]. Qed.

Create HintDb io.
#[export] Hint Resolve safe_ret safe_fail safe_lift_res safe_bind safe_attempt safe_wrap_err
  safe_now safe_publish safe_iter : io.

Lemma ReadFile_safe p : safe same_files (ReadFile p).
Proof. apply safe_syscall. intros [] d; reflexivity. Qed.
Lemma CloseFile_safe p : safe same_files (CloseFile p).
Proof. apply safe_syscall. intros [] d; reflexivity. Qed.
Lemma OpenDir_safe p : safe same_files (OpenDir p).
Proof. apply safe_syscall. intros [] d; simpl; [case_match|]; reflexivity. Qed.
Lemma FsyncDir_safe p : safe same_files (FsyncDir p).
Proof. apply safe_syscall. intros [] d; reflexivity. Qed.
Lemma ReadDirBundles_safe : safe same_files ReadDirBundles.
Proof. apply safe_syscall. intros [] d; simpl; [case_match|]; reflexivity. Qed.
#[export] Hint Resolve ReadFile_safe CloseFile_safe OpenDir_safe FsyncDir_safe
  ReadDirBundles_safe : io.
