(* ===== verification/BundleStore.v ===== *)
(** * [bundle_store.go]: the durable bundle store

    Records, the startup pointer and the store operations, as actions on the
    file system of [FileSystem].  A store operation holds the store's mutex
    from start to end, so it is one action.  [encoding/json] enters through
    the class [Codec]: what the program relies on is that decoding an encoded
    record gives the record back. *)
From S2P Require Import Prelude GoStrings GoBinary FileSystem.

Definition bundleStoreSchema : Z := 1.
Definition bundleMetaFile : bytes := &"meta.json".
Definition bundlePointerFile : bytes := &"pointer.json".
Definition bundleSuffix : bytes := &".json".
Definition bundleTempSuffix : bytes := &".tmp".

(** The sentinel errors, by what [errors.Is] distinguishes. *)
Inductive berr :=
| errBundleNotFound
| errBundleWrongState
| errBundleConflict
| errBundleCorrupt
| errBundleSchema
| errBundleInvalidDocument
| errOther (message : string).

Definition bundleStaged : bytes := &"STAGED".
Definition bundleActive : bytes := &"ACTIVE".
Definition bundleSuperseded : bytes := &"SUPERSEDED".

Record bundleRecord := BundleRecord {
  rSchema : Z;
  rID : bytes;
  rState : bytes;
  rDigest : bytes;
  rDocument : bytes;
  rStagedAt : Z;
  rActivatedAt : Z;
  rRecordDigest : bytes;
}.

Record bundlePointer := BundlePointer {
  pSchema : Z;
  pActive : bytes;
  pPrevious : bytes;
  pUpdatedAt : Z;
  pDigest : bytes;
}.

Record bundleStoreMeta := BundleStoreMeta { mSchema : Z; mCreatedAt : Z }.

(** The bytes [computeRecordDigest] hashes. *)
Definition record_preimage (r : bundleRecord) : bytes :=
  &"bundle-record/v1" ++ [0] ++ Itoa (rSchema r) ++ [0] ++ rID r ++ [0] ++ rState r ++ [0]
  ++ rDigest r ++ [0] ++ Itoa (rStagedAt r) ++ [0] ++ Itoa (rActivatedAt r) ++ [0]
  ++ rDocument r.
Definition computeRecordDigest (r : bundleRecord) : bytes :=
  EncodeToString (Sum256 (record_preimage r)).

Definition pointer_preimage (p : bundlePointer) : bytes :=
  &"bundle-pointer/v1" ++ [0] ++ Itoa (pSchema p) ++ [0] ++ pActive p ++ [0] ++ pPrevious p
  ++ [0] ++ Itoa (pUpdatedAt p).
Definition computeDigest (p : bundlePointer) : bytes :=
  EncodeToString (Sum256 (pointer_preimage p)).

(** ** [encoding/json] *)
Class Codec (T : Type) := {
  MarshalIndent : T → bytes;
  Unmarshal : bytes → option T;
}.

Definition int64 (z : Z) : Prop := - 2 ^ 63 <= z < 2 ^ 63.

(** Text that JSON carries unchanged is valid UTF-8. *)
Definition record_wf (r : bundleRecord) : Prop :=
  int64 (rSchema r) ∧ int64 (rStagedAt r) ∧ int64 (rActivatedAt r)
  ∧ ValidString (rID r) = true ∧ ValidString (rState r) = true
  ∧ ValidString (rDigest r) = true ∧ is_bytes (rDocument r) ∧ ValidString (rRecordDigest r) = true.
Definition pointer_wf (p : bundlePointer) : Prop :=
  int64 (pSchema p) ∧ int64 (pUpdatedAt p)
  ∧ ValidString (pActive p) = true ∧ ValidString (pPrevious p) = true ∧ ValidString (pDigest p) = true.

(** Decoding what was encoded, with the line feed the store appends, gives it
    back; what decodes is well formed. *)
Class CodecLaws (T : Type) {C : Codec T} (wf : T → Prop) := {
  unmarshal_marshal v : wf v → Unmarshal (MarshalIndent v ++ [10]) = Some v;
  unmarshal_wf raw v : Unmarshal raw = Some v → wf v;
}.

(** ** Identifiers *)
Definition id_byte (c : Z) : bool :=
  ((#"a" <=? c) && (c <=? #"z")) || ((#"A" <=? c) && (c <=? #"Z")) || is_digit c
  || (c =? #"-") || (c =? #"_") || (c =? #".").

Definition validateBundleID (id : bytes) : res berr unit :=
  if bool_decide (id = []) then Err (errOther "bundle id is empty")
  else if 128 <? len id then Err (errOther "bundle id exceeds 128 bytes")
  else if negb (forallb id_byte id) then Err (errOther "bundle id contains an illegal byte")
  else if bool_decide (id = &".") || bool_decide (id = &"..") || HasPrefix id (&".")
       then Err (errOther "bundle id is not a usable path segment")
  else Ok tt.

Definition bundle_file (id : bytes) : path := InBundles (id ++ bundleSuffix).
Definition bundlePath (id : bytes) : res berr path :=
  _ ← validateBundleID id; Ok (bundle_file id).

(** ** Operations *)
Definition os_other (message : string) (e : os_error) : berr := errOther message.

Definition syncBundleDir (p : path) : action world berr unit :=
  _ ← wrap_err (os_other "bundle store: open") (OpenDir p);
  wrap_err (os_other "bundle store: fsync") (FsyncDir p).

(** The removal of the temporary file is attempted and its error dropped. *)
Definition discard_tmp (tmp : path) (e : berr) : action world berr unit :=
  _ ← (attempt (Remove tmp) : action world berr _); fail e.

(** Temporary file, write, fsync, close, rename, fsync of the directory. *)
Definition writeJSON {T} `{Codec T} (p : path) (v : T) : action world berr unit :=
  let raw := MarshalIndent v ++ [10] in
  let tmp := path_app p bundleTempSuffix in
  _ ← wrap_err (os_other "bundle store: create") (OpenTrunc tmp);
  r ← attempt (WriteAll tmp raw);
  match r with
  | Err _ => _ ← attempt (CloseFile tmp); discard_tmp tmp (errOther "bundle store: write")
  | Ok _ =>
      r ← attempt (SyncFile tmp);
      match r with
      | Err _ => _ ← attempt (CloseFile tmp); discard_tmp tmp (errOther "bundle store: fsync")
      | Ok _ =>
          r ← attempt (CloseFile tmp);
          match r with
          | Err _ => discard_tmp tmp (errOther "bundle store: close")
          | Ok _ =>
              r ← attempt (Rename tmp p);
              match r with
              | Err _ => discard_tmp tmp (errOther "bundle store: publish")
              | Ok _ => syncBundleDir p
              end
          end
      end
  end.

Section store.
Context `{Codec bundleRecord, Codec bundlePointer, Codec bundleStoreMeta}.

Definition openBundleStore (dir : bytes) : action world berr unit :=
  if bool_decide (dir = []) then fail (errOther "bundle store: empty directory")
  else
    _ ← wrap_err (os_other "bundle store: create") MkdirAllBundles;
    r ← attempt (ReadFile (InRoot bundleMetaFile));
    match r with
    | Err ENotExist =>
        t ← now_unix;
        writeJSON (InRoot bundleMetaFile) (BundleStoreMeta bundleStoreSchema t)
    | Err EIO => fail (errOther "bundle store: read metadata")
    | Ok raw =>
        match Unmarshal raw with
        | None => fail errBundleCorrupt
        | Some m => if negb (mSchema m =? bundleStoreSchema) then fail errBundleSchema
                    else mret tt
        end
    end.

(** [Put] stamps the schema and the digest into the caller's record. *)
Definition stamp_record (rec : bundleRecord) : bundleRecord :=
  let r := BundleRecord bundleStoreSchema (rID rec) (rState rec) (rDigest rec) (rDocument rec)
             (rStagedAt rec) (rActivatedAt rec) (rRecordDigest rec) in
  BundleRecord (rSchema r) (rID r) (rState r) (rDigest r) (rDocument r) (rStagedAt r)
    (rActivatedAt r) (computeRecordDigest r).

Definition Put (rec : bundleRecord) : action world berr unit :=
  p ← lift_res (bundlePath (rID rec));
  writeJSON p (stamp_record rec).

(** The checks [getLocked] makes on the bytes it read. *)
Definition check_record (id raw : bytes) : res berr bundleRecord :=
  match Unmarshal raw with
  | None => Err errBundleCorrupt
  | Some rec =>
      if negb (rSchema rec =? bundleStoreSchema) then Err errBundleSchema
      else if negb (bool_decide (rRecordDigest rec = computeRecordDigest rec)) then Err errBundleCorrupt
      else if negb (bool_decide (rID rec = id)) then Err errBundleCorrupt
      else Ok rec
  end.

Definition Get (id : bytes) : action world berr bundleRecord :=
  p ← lift_res (bundlePath id);
  r ← attempt (ReadFile p);
  match r with
  | Err ENotExist => fail errBundleNotFound
  | Err EIO => fail (errOther "bundle store: read")
  | Ok raw => lift_res (check_record id raw)
  end.

Definition Delete (id : bytes) : action world berr unit :=
  p ← lift_res (bundlePath id);
  r ← attempt (Remove p);
  match r with
  | Err EIO => fail (errOther "bundle store: delete")
  | _ => syncBundleDir p
  end.

Definition List_ : action world berr (list bytes) :=
  r ← attempt ReadDirBundles;
  match r with
  | Err ENotExist => mret []
  | Err EIO => fail (errOther "bundle store: list")
  | Ok names =>
      mret (sort_Strings (map (λ n, TrimSuffix n bundleSuffix)
                            (List.filter (λ n, HasSuffix n bundleSuffix) names)))
  end.

Definition empty_pointer : bundlePointer := BundlePointer bundleStoreSchema [] [] 0 [].

Definition check_pointer (raw : bytes) : res berr bundlePointer :=
  match Unmarshal raw with
  | None => Err errBundleCorrupt
  | Some p =>
      if negb (pSchema p =? bundleStoreSchema) then Err errBundleSchema
      else if negb (bool_decide (pDigest p = computeDigest p)) then Err errBundleCorrupt
      else Ok p
  end.

Definition Pointer : action world berr bundlePointer :=
  r ← attempt (ReadFile (InRoot bundlePointerFile));
  match r with
  | Err ENotExist => mret empty_pointer
  | Err EIO => fail (errOther "bundle store: read pointer")
  | Ok raw => lift_res (check_pointer raw)
  end.

Definition stamp_pointer (p : bundlePointer) (t : Z) : bundlePointer :=
  let q := BundlePointer bundleStoreSchema (pActive p) (pPrevious p) t (pDigest p) in
  BundlePointer (pSchema q) (pActive q) (pPrevious q) (pUpdatedAt q) (computeDigest q).

Definition SetPointer (p : bundlePointer) : action world berr unit :=
  t ← now_unix;
  writeJSON (InRoot bundlePointerFile) (stamp_pointer p t).

Definition PurgeStore : action world berr unit :=
  _ ← wrap_err (os_other "bundle store: purge bundles") RemoveAllBundles;
  r ← attempt (Remove (InRoot bundlePointerFile));
  match r with
  | Err EIO => fail (errOther "bundle store: purge pointer")
  | _ =>
      _ ← wrap_err (os_other "bundle store: recreate") MkdirAllBundles;
      syncBundleDir (InRoot [])
  end.
End store.

(** ** Atomic replacement

    Through a [writeJSON], whatever call fails and wherever a crash falls, every
    file but the target and its temporary keeps its contents, the target holds
    its old contents or the whole new ones, and the target is never a file
    whose contents were not synced. *)
Definition tmp_of (p : path) : path := path_app p bundleTempSuffix.

Definition wrote (p : path) (raw : bytes) (d d' : disk) : Prop :=
  (∀ q, q ≠ p → q ≠ tmp_of p → files d' !! q = files d !! q)
  ∧ (files d' !! p = files d !! p ∨ files d' !! p = Some raw)
  ∧ (p ∈ dirty d' → p ∈ dirty d)
  ∧ bundles_exists d' = bundles_exists d.

#[export] Instance wrote_preorder p raw : PreOrder (wrote p raw).
Proof.
  split; [intros d; repeat split; auto|].
  intros d1 d2 d3 (A1 & B1 & C1 & D1) (A2 & B2 & C2 & D2). split.
  - intros q ??. by rewrite A2, A1.
  - split; [|split; [auto|congruence]]. destruct B2 as [->| ->]; auto.
Qed.

Lemma app_nil_inv_r {A} (l k : list A) : l ++ k = l → k = [].
Proof. intros E. apply (f_equal length) in E. rewrite length_app in E. destruct k; simpl in *; [done|lia]. Qed.

Lemma tmp_of_ne p : tmp_of p ≠ p.
Proof.
  destruct p; simpl; intros E; injection E as E; apply app_nil_inv_r in E; by vm_compute in E.
Qed.

(** The new entries of a trace that is written out. *)
Ltac find_trace :=
  match goal with
  | |- ∃ tr, ?l = tr ++ ?base ∧ _ =>
      let rec go l :=
        match l with
        | base => constr:(@nil disk)
        | ?x :: ?l' => let r := go l' in constr:(x :: r)
        end in
      let t := go l in exists t
  end.

(** Runs an action symbolically, one branch per fault. *)
Ltac run_calls :=
  repeat (progress (unfold mbind, action_bind, mret, action_ret, attempt, wrap_err, fail,
                      lift_res, syscall;
                    cbn -[lookup insert delete bundlePointerFile bundleMetaFile remove_paths]) ||
          match goal with |- context [w_fault ?w ?n] => destruct (w_fault w n) end ||
          rewrite !lookup_insert_eq || rewrite !lookup_delete_eq ||
          match goal with |- context [if dir_exists ?d ?p then _ else _] =>
                            destruct (dir_exists d p) end).

Section write.
Context {T} `{Codec T} (p : path) (v : T).
Let raw := MarshalIndent v ++ [10].

Lemma writeJSON_run w :
  steps (wrote p raw) w (writeJSON p v w).2
  ∧ ((writeJSON p v w).1 = Ok tt → files (w_disk (writeJSON p v w).2) !! p = Some raw).
Proof.
  pose proof (tmp_of_ne p) as Hne.
  assert (∀ d m dt, (∀ q, q ≠ tmp_of p → m !! q = files d !! q) →
            (∀ q, q ≠ tmp_of p → q ∈ dt → q ∈ dirty d) →
            wrote p raw d (Disk m dt (bundles_exists d))) as Htmp.
  { intros d m dt Hm Hd. repeat split; simpl; auto. }
  unfold writeJSON, discard_tmp, syncBundleDir, OpenTrunc, WriteAll, SyncFile, CloseFile, Rename,
    Remove, OpenDir, FsyncDir. fold raw. change (path_app p bundleTempSuffix) with (tmp_of p).
  assert (∀ d m dt, (∀ q, q ≠ p → q ≠ tmp_of p → m !! q = files d !! q) →
            m !! p = Some raw → p ∉ dt →
            wrote p raw d (Disk m dt (bundles_exists d))) as Hren.
  { intros d m dt Hm Hp Hd. repeat split; simpl; auto. done. }
  run_calls; (split; [unfold steps; cbn -[lookup insert delete]; find_trace; split; [reflexivity|];
                      split; [repeat (apply Forall_cons_2; [|]); try apply Forall_nil_2|split; [|reflexivity]] |
                      try discriminate; intros _; by simplify_map_eq]).
  all: first
    [ reflexivity
    | apply Htmp; [intros; by simplify_map_eq | clear; set_solver]
    | apply Hren; [intros; by simplify_map_eq | by simplify_map_eq | case_decide; clear -Hne H0; set_solver] ].
Qed.
End write.

(** ** What the store reads

    The contents a fault-free read finds on a disk. *)
Section views.
Context `{Codec bundleRecord, Codec bundlePointer, Codec bundleStoreMeta}.

Definition read_record (d : disk) (id : bytes) : res berr bundleRecord :=
  p ← bundlePath id;
  match files d !! p with
  | None => Err errBundleNotFound
  | Some raw => check_record id raw
  end.

Definition read_pointer (d : disk) : res berr bundlePointer :=
  match files d !! InRoot bundlePointerFile with
  | None => Ok empty_pointer
  | Some raw => check_pointer raw
  end.

(** A get on any world reports the record on the disk, or that the read failed. *)
Lemma Get_run id w :
  (Get id w).1 = read_record (w_disk w) id ∨ (Get id w).1 = Err (errOther "bundle store: read").
Proof.
  unfold Get, read_record, lift_res. unfold mbind at 1, action_bind.
  destruct (bundlePath id) as [p|e]; simpl; [|by left].
  unfold mbind, action_bind, attempt, ReadFile, syscall, lift_res, fail.
  destruct (w_fault w (w_call w)); simpl; [|by right].
  left. by destruct (files (w_disk w) !! p).
Qed.

Lemma Get_no_fault id w :
  w_fault w (w_call w) = Pass → (Get id w).1 = read_record (w_disk w) id.
Proof.
  intros Hf. unfold Get, read_record, lift_res. unfold mbind at 1, action_bind.
  destruct (bundlePath id) as [p|e]; simpl; [|done].
  unfold mbind, action_bind, attempt, ReadFile, syscall, lift_res, fail. rewrite Hf. simpl.
  by destruct (files (w_disk w) !! p).
Qed.

Lemma Get_Ok id w rec : (Get id w).1 = Ok rec → read_record (w_disk w) id = Ok rec.
Proof. destruct (Get_run id w) as [-> | ->]; [done | discriminate]. Qed.

Lemma Get_safe id : safe same_files (Get id).
Proof.
  unfold Get. apply safe_bind; [apply _ | apply safe_lift_res, _ | intros p].
  apply safe_bind; [apply _ | apply safe_attempt, ReadFile_safe | intros [raw | []]];
    auto using safe_fail, safe_lift_res with typeclass_instances.
Qed.

Lemma Get_disk id w : w_disk (Get id w).2 = w_disk w.
Proof. by destruct (Get_safe id w) as (_ & _ & _ & ? & _). Qed.

Lemma Pointer_run w :
  (Pointer w).1 = read_pointer (w_disk w)
  ∨ (Pointer w).1 = Err (errOther "bundle store: read pointer").
Proof.
  unfold Pointer, read_pointer, mbind, action_bind, attempt, ReadFile, syscall, lift_res, fail,
    mret, action_ret.
  destruct (w_fault w (w_call w)); simpl; [|by right].
  left. by destruct (files (w_disk w) !! _).
Qed.

Lemma Pointer_no_fault w :
  w_fault w (w_call w) = Pass → (Pointer w).1 = read_pointer (w_disk w).
Proof.
  intros Hf. unfold Pointer, read_pointer, mbind, action_bind, attempt, ReadFile, syscall,
    lift_res, fail, mret, action_ret. rewrite Hf. simpl. by destruct (files (w_disk w) !! _).
Qed.

Lemma Pointer_safe : safe same_files Pointer.
Proof.
  unfold Pointer.
  apply safe_bind; [apply _ | apply safe_attempt, ReadFile_safe | intros [raw | []]];
    auto using safe_fail, safe_lift_res, safe_ret with typeclass_instances.
Qed.

Lemma check_record_Ok id raw rec :
  check_record id raw = Ok rec →
  Unmarshal raw = Some rec ∧ rSchema rec = bundleStoreSchema
  ∧ rRecordDigest rec = computeRecordDigest rec ∧ rID rec = id.
Proof.
  unfold check_record. destruct (Unmarshal raw) as [r|]; [|discriminate].
  repeat (case_match; [discriminate|]). intros [= ->]. bools. auto.
Qed.

Lemma bundlePath_Ok id p :
  bundlePath id = Ok p → validateBundleID id = Ok tt ∧ p = bundle_file id.
Proof. unfold bundlePath. destruct (validateBundleID id) as [[]|]; simpl; naive_solver. Qed.

Lemma validateBundleID_Ok id :
  validateBundleID id = Ok tt ↔
  id ≠ [] ∧ len id <= 128 ∧ forallb id_byte id = true ∧ head id ≠ Some #".".
Proof.
  unfold validateBundleID. destruct id as [|c id]; [simpl; naive_solver|].
  case_bool_decide; [done|]. destruct (128 <? _) eqn:Hl; bools; [split; [done|intros (_ & ? & _); lia]|].
  destruct (forallb id_byte (c :: id)) eqn:Hb; simpl negb; [|naive_solver].
  destruct (HasPrefix (c :: id) (&".")) eqn:Hp.
  - rewrite orb_true_r. apply HasPrefix_true in Hp as [k E]. injection E as -> _. naive_solver.
  - assert (c ≠ #".") as Hc.
    { intros ->. apply HasPrefix_false in Hp. apply Hp. by exists id. }
    rewrite !bool_decide_eq_false_2 by (intros E; by injection E as -> _).
    cbn [orb]. split; [intros _|done]. split; [done|]. split; [lia|]. split; [done|]. naive_solver.
Qed.

Lemma bundle_id_valid id : validateBundleID id = Ok tt → ValidString id = true.
Proof.
  intros (_ & _ & Hb & _)%validateBundleID_Ok. apply ascii_ValidString.
  rewrite forallb_forall in Hb. apply Forall_forall. intros c Hc%list_elem_of_In%Hb.
  unfold id_byte, is_digit in Hc. rewrite !orb_true_iff, !andb_true_iff, !Z.leb_le, !Z.eqb_eq in Hc. lia.
Qed.

Lemma bundle_file_inj id id' : bundle_file id = bundle_file id' → id = id'.
Proof. unfold bundle_file. intros [= E]. by apply app_inv_tail in E. Qed.

(** The temporary of a file is never a bundle file or the pointer. *)
Lemma tmp_of_not_bundle p id : tmp_of p ≠ bundle_file id.
Proof.
  destruct p as [n|n]; [done|]. unfold tmp_of, bundle_file. simpl. intros [= E].
  apply (f_equal (λ l, take 1 (rev l))) in E. rewrite !rev_app_distr in E. by vm_compute in E.
Qed.
Lemma tmp_of_not_pointer p : tmp_of p ≠ InRoot bundlePointerFile.
Proof.
  destruct p as [n|n]; [|done]. unfold tmp_of. simpl. intros [= E].
  apply (f_equal (λ l, take 1 (rev l))) in E. rewrite rev_app_distr in E. by vm_compute in E.
Qed.
Lemma bundle_not_pointer id : bundle_file id ≠ InRoot bundlePointerFile.
Proof. done. Qed.
End views.
#[export] Hint Resolve Get_safe Pointer_safe : io.

(** ** Frames: which files an operation leaves alone *)
Definition keeps (P : path → Prop) (d d' : disk) : Prop :=
  ∀ q, P q → files d' !! q = files d !! q.
#[export] Instance keeps_preorder P : PreOrder (keeps P).
Proof. split; [done|]. intros d1 d2 d3 H1 H2 q Hq. by rewrite H2, H1. Qed.

Lemma same_files_keeps P d d' : same_files d d' → keeps P d d'.
Proof. by intros ->. Qed.

Section frames.
Context `{Codec bundleRecord, Codec bundlePointer, Codec bundleStoreMeta}.

Lemma syncBundleDir_safe p : safe same_files (syncBundleDir p).
Proof. unfold syncBundleDir. apply safe_bind; auto with io. apply _. Qed.

Lemma syncBundleDir_disk p w : w_disk (syncBundleDir p w).2 = w_disk w.
Proof. by destruct (syncBundleDir_safe p w) as (_ & _ & _ & ? & _). Qed.

(** A delete touches at most the file of its bundle. *)
Lemma Delete_safe id : safe (keeps (λ q, q ≠ bundle_file id)) (Delete id).
Proof.
  unfold Delete. intros w. unfold lift_res, mbind at 1, action_bind.
  destruct (bundlePath id) as [p|e] eqn:E; [|reflexivity].
  apply bundlePath_Ok in E as [_ ->].
  apply (safe_bind _ (attempt (Remove (bundle_file id)))).
  - apply safe_attempt, safe_syscall. intros [] d; simpl; [|reflexivity].
    destruct (files d !! _); [|reflexivity]. intros q Hq. simpl. by rewrite lookup_delete_ne.
  - intros [[]|[]]; eauto using safe_fail, safe_weaken, syncBundleDir_safe, same_files_keeps
      with typeclass_instances.
Qed.

Lemma List_safe : safe same_files List_.
Proof.
  unfold List_.
  apply safe_bind; [apply _ | apply safe_attempt, ReadDirBundles_safe | intros [names | []]];
    auto using safe_fail, safe_ret with typeclass_instances.
Qed.

Lemma List_disk w : w_disk (List_ w).2 = w_disk w.
Proof. by destruct (List_safe w) as (_ & _ & _ & ? & _). Qed.

Lemma elem_of_bundle_names d n : n ∈ bundle_names d ↔ is_Some (files d !! InBundles n).
Proof.
  unfold bundle_names. rewrite elem_of_sort_Strings, list_elem_of_In, in_map_iff.
  setoid_rewrite <- list_elem_of_In. setoid_rewrite list_elem_of_filter. split.
  - intros ([m|m] & Hn & Hb & Hin); simpl in *; [done|subst].
    rewrite list_elem_of_In, in_map_iff in Hin. destruct Hin as ([k v] & Hk & Hin). simpl in *.
    apply list_elem_of_In, elem_of_map_to_list in Hin. rewrite <- Hk. by eexists.
  - intros [v Hv]. exists (InBundles n). split; [done|]. split; [done|].
    rewrite list_elem_of_In, in_map_iff. exists (InBundles n, v). split; [done|].
    by apply list_elem_of_In, elem_of_map_to_list.
Qed.

Lemma elem_of_stored_ids names id :
  id ∈ sort_Strings (map (λ n, TrimSuffix n bundleSuffix)
                       (List.filter (λ n, HasSuffix n bundleSuffix) names))
  ↔ id ++ bundleSuffix ∈ names.
Proof.
  rewrite elem_of_sort_Strings, list_elem_of_In, in_map_iff. setoid_rewrite filter_In. split.
  - intros (n & <- & Hin & Hs). apply HasSuffix_TrimSuffix in Hs. rewrite <- Hs.
    by apply list_elem_of_In.
  - intros Hin. exists (id ++ bundleSuffix). rewrite TrimSuffix_app. split; [done|].
    split; [by apply list_elem_of_In|]. apply HasSuffix_true. by exists id.
Qed.

Lemma bundle_names_NoDup d : NoDup (bundle_names d).
Proof.
  unfold bundle_names. rewrite sort_Strings_perm. apply NoDup_map_on.
  - intros [n|n] [n'|n'] [Hb Hin]%list_elem_of_filter [Hb' Hin']%list_elem_of_filter; simpl in *; naive_solver.
  - apply NoDup_filter. apply NoDup_fst_map_to_list.
Qed.

Lemma stored_ids_NoDup d :
  NoDup (sort_Strings (map (λ n, TrimSuffix n bundleSuffix)
                         (List.filter (λ n, HasSuffix n bundleSuffix) (bundle_names d)))).
Proof.
  rewrite sort_Strings_perm. apply NoDup_map_on.
  - intros x y [_ Hx]%list_elem_of_In%filter_In [_ Hy]%list_elem_of_In%filter_In E.
    rewrite (HasSuffix_TrimSuffix _ _ Hx), (HasSuffix_TrimSuffix _ _ Hy). by rewrite E.
  - apply NoDup_ListNoDup, List.NoDup_filter, NoDup_ListNoDup, bundle_names_NoDup.
Qed.

Lemma List_Ok w ids id :
  (List_ w).1 = Ok ids → bundles_exists (w_disk w) = true →
  id ∈ ids ↔ is_Some (files (w_disk w) !! bundle_file id).
Proof.
  unfold List_, mbind, action_bind, attempt, ReadDirBundles, syscall, fail, mret, action_ret.
  intros E Hb. destruct (w_fault w (w_call w)); simpl in E; [|done]. rewrite Hb in E. simpl in E.
  injection E as <-. rewrite elem_of_stored_ids. apply elem_of_bundle_names.
Qed.

Lemma Put_eq rec :
  validateBundleID (rID rec) = Ok tt →
  Put rec = writeJSON (bundle_file (rID rec)) (stamp_record rec).
Proof. intros Hv. unfold Put, bundlePath. by rewrite Hv. Qed.

Lemma Put_invalid rec w e : validateBundleID (rID rec) = Err e → Put rec w = (Err e, w).
Proof. intros Hv. unfold Put, bundlePath. by rewrite Hv. Qed.

Lemma read_record_keeps d d' id :
  files d' !! bundle_file id = files d !! bundle_file id → read_record d' id = read_record d id.
Proof.
  unfold read_record. intros E. destruct (bundlePath id) as [p|e] eqn:Hp; [|done].
  apply bundlePath_Ok in Hp as [_ ->]. simpl. by rewrite E.
Qed.

Lemma read_record_file d id rec :
  read_record d id = Ok rec → is_Some (files d !! bundle_file id).
Proof.
  unfold read_record. destruct (bundlePath id) as [p|e] eqn:Hp; [|done].
  apply bundlePath_Ok in Hp as [_ ->]. simpl. destruct (files d !! bundle_file id); [by eexists | done].
Qed.

Lemma read_pointer_keeps d d' :
  files d' !! InRoot bundlePointerFile = files d !! InRoot bundlePointerFile →
  read_pointer d' = read_pointer d.
Proof. unfold read_pointer. by intros ->. Qed.

(** What a bundle file written by [Put] reads back as. *)
Context {RL : CodecLaws bundleRecord record_wf} {PL : CodecLaws bundlePointer pointer_wf}.

Lemma read_record_stamped d rec :
  validateBundleID (rID rec) = Ok tt → record_wf (stamp_record rec) →
  files d !! bundle_file (rID rec) = Some (MarshalIndent (stamp_record rec) ++ [10]) →
  read_record d (rID rec) = Ok (stamp_record rec).
Proof.
  intros Hv Hwf Hf. unfold read_record, bundlePath. rewrite Hv. simpl. rewrite Hf.
  unfold check_record. rewrite unmarshal_marshal by done. simpl.
  by rewrite !bool_decide_eq_true_2 by done.
Qed.

Lemma read_pointer_stamped d p t :
  pointer_wf (stamp_pointer p t) →
  files d !! InRoot bundlePointerFile = Some (MarshalIndent (stamp_pointer p t) ++ [10]) →
  read_pointer d = Ok (stamp_pointer p t).
Proof.
  intros Hwf Hf. unfold read_pointer. rewrite Hf. unfold check_pointer.
  rewrite unmarshal_marshal by done. simpl. by rewrite bool_decide_eq_true_2 by done.
Qed.

Lemma read_record_Ok d id rec :
  read_record d id = Ok rec →
  validateBundleID id = Ok tt ∧ rID rec = id ∧ rSchema rec = bundleStoreSchema
  ∧ rRecordDigest rec = computeRecordDigest rec ∧ record_wf rec.
Proof.
  unfold read_record. destruct (bundlePath id) as [p|e] eqn:Hp; [|done].
  apply bundlePath_Ok in Hp as [Hv ->]. simpl. destruct (files d !! _) as [raw|]; [|done].
  intros (Hu & Hs & Hd & Hi)%check_record_Ok. apply unmarshal_wf in Hu. done.
Qed.

(** What an operation may do to the readings: everything but the record of
    [id] reads as before, and that record reads as before or as [r]. *)
Definition only_record (id : bytes) (r : bundleRecord) (d d' : disk) : Prop :=
  (∀ id', id' ≠ id → read_record d' id' = read_record d id')
  ∧ (read_record d' id = read_record d id ∨ read_record d' id = Ok r)
  ∧ read_pointer d' = read_pointer d
  ∧ (bundle_file id ∈ dirty d' → bundle_file id ∈ dirty d)
  ∧ bundles_exists d' = bundles_exists d.

Lemma Put_steps rec w :
  record_wf (stamp_record rec) →
  steps (only_record (rID rec) (stamp_record rec)) w (Put rec w).2
  ∧ ((Put rec w).1 = Ok tt →
     read_record (w_disk (Put rec w).2) (rID rec) = Ok (stamp_record rec)).
Proof.
  intros Hwf. destruct (validateBundleID (rID rec)) as [[]|e] eqn:Hv.
  2: { rewrite (Put_invalid _ _ _ Hv). split; [|done]. exists []. repeat split; auto. }
  rewrite Put_eq by done.
  destruct (writeJSON_run (bundle_file (rID rec)) (stamp_record rec) w) as [Hs Hok].
  split; [|intros E; by apply read_record_stamped, Hok].
  eapply steps_weaken; [|exact Hs]. intros d d' (Hother & Hown & Hdirty & Hb).
  split; [|split; [|split; [|done]]].
  - intros id Hid. apply read_record_keeps, Hother; [|by apply not_eq_sym, tmp_of_not_bundle].
    by intros E%bundle_file_inj.
  - destruct Hown as [E|E]; [left; by apply read_record_keeps | right; by apply read_record_stamped].
  - apply read_pointer_keeps, Hother; [done | by apply not_eq_sym, tmp_of_not_pointer].
Qed.

(** A pointer write keeps every record; the pointer reads as before or as [p]. *)
Definition only_pointer (p : bundlePointer) (d d' : disk) : Prop :=
  (∀ id, read_record d' id = read_record d id)
  ∧ (read_pointer d' = read_pointer d ∨ read_pointer d' = Ok p)
  ∧ bundles_exists d' = bundles_exists d.

Lemma SetPointer_steps p w :
  let q := stamp_pointer p (w_clock w (w_tick w)) in
  pointer_wf q →
  steps (only_pointer q) w (SetPointer p w).2
  ∧ ((SetPointer p w).1 = Ok tt → read_pointer (w_disk (SetPointer p w).2) = Ok q).
Proof.
  intros q Hwf. unfold SetPointer, mbind, action_bind, now_unix.
  match goal with |- context [writeJSON _ _ ?w1] => set (w1' := w1) end. fold q.
  destruct (writeJSON_run (InRoot bundlePointerFile) q w1') as [Hs Hok].
  split; [|intros E; by apply read_pointer_stamped, Hok].
  eapply (steps_weaken _ _ w1'); [|exact Hs]. intros d d' (Hother & Hown & _ & Hb).
  split; [|split; [|done]].
  - intros id. apply read_record_keeps, Hother; [done | apply not_eq_sym, tmp_of_not_bundle].
  - destruct Hown as [E|E]; [left; by apply read_pointer_keeps | right; by apply read_pointer_stamped].
Qed.

(** A delete keeps the pointer and every other record, and its own unless it is gone. *)
Definition only_removed (id : bytes) (d d' : disk) : Prop :=
  (∀ id', id' ≠ id → read_record d' id' = read_record d id') ∧ read_pointer d' = read_pointer d.

Lemma Delete_steps id w : steps (only_removed id) w (Delete id w).2.
Proof.
  eapply steps_weaken; [|apply Delete_safe]. intros d d' Hk. split.
  - intros id' Hid. apply read_record_keeps, Hk. by intros E%bundle_file_inj.
  - by apply read_pointer_keeps, Hk.
Qed.

Lemma Delete_Ok id w :
  (Delete id w).1 = Ok tt → read_record (w_disk (Delete id w).2) id = Err errBundleNotFound.
Proof.
  unfold Delete. unfold mbind at 1 2, action_bind, lift_res.
  destruct (bundlePath id) as [p|e] eqn:Hp; [|done]. pose proof Hp as [_ ->]%bundlePath_Ok.
  unfold read_record. rewrite Hp. unfold mbind, action_bind, attempt, Remove, syscall, fail. simpl.
  destruct (w_fault w (w_call w)); simpl; [|done].
  destruct (files (w_disk w) !! bundle_file id) eqn:E; simpl; intros _;
    rewrite syncBundleDir_disk; simpl; [by rewrite lookup_delete_eq | by rewrite E].
Qed.

End frames.
#[export] Hint Resolve syncBundleDir_safe List_safe : io.

(** ** A concrete codec

    The laws can hold: this one writes the fields with their lengths. *)
Module FieldCodec.
Fixpoint pack (fields : list bytes) : bytes :=
  match fields with [] => [] | f :: fs => len f :: f ++ pack fs end.
Fixpoint unpack (n : nat) (raw : bytes) : option (list bytes) :=
  match n, raw with
  | O, _ => Some []
  | S n', k :: l => fs ← unpack n' (drop (Z.to_nat k) l); Some (take (Z.to_nat k) l :: fs)
  | S _, [] => None
  end.
Lemma unpack_pack fs k : unpack (length fs) (pack fs ++ k) = Some fs.
Proof.
  induction fs as [|f fs IH]; [done|]. simpl. rewrite Nat2Z.id, <- app_assoc.
  by rewrite drop_app_length, IH, take_app_length.
Qed.

#[export] Instance record_wf_dec r : Decision (record_wf r).
Proof. unfold record_wf, int64, is_bytes, is_byte. apply _. Defined.
#[export] Instance pointer_wf_dec p : Decision (pointer_wf p).
Proof. unfold pointer_wf, int64. apply _. Defined.

Section guarded.
Context {T} (wf : T → Prop) `{∀ t, Decision (wf t)}.
Definition guarded (o : option T) : option T :=
  t ← o; if decide (wf t) then Some t else None.
Lemma guarded_Some t : wf t → guarded (Some t) = Some t.
Proof. intros. simpl. by rewrite decide_True. Qed.
Lemma guarded_wf o t : guarded o = Some t → wf t.
Proof. destruct o as [t'|]; simpl; [|done]. case_decide; naive_solver. Qed.
End guarded.

#[export] Instance record_codec : Codec bundleRecord :=
  {| MarshalIndent r := pack [[rSchema r]; rID r; rState r; rDigest r; rDocument r;
                              [rStagedAt r]; [rActivatedAt r]; rRecordDigest r];
     Unmarshal raw := guarded record_wf
       match unpack 8 raw with
       | Some [[a]; b; c; d; e; [f]; [g]; h] => Some (BundleRecord a b c d e f g h)
       | _ => None
       end |}.
#[export] Instance pointer_codec : Codec bundlePointer :=
  {| MarshalIndent p := pack [[pSchema p]; pActive p; pPrevious p; [pUpdatedAt p]; pDigest p];
     Unmarshal raw := guarded pointer_wf
       match unpack 5 raw with
       | Some [[a]; b; c; [d]; e] => Some (BundlePointer a b c d e)
       | _ => None
       end |}.
#[export] Instance meta_codec : Codec bundleStoreMeta :=
  {| MarshalIndent m := pack [[mSchema m]; [mCreatedAt m]];
     Unmarshal raw :=
       match unpack 2 raw with Some [[a]; [b]] => Some (BundleStoreMeta a b) | _ => None end |}.
#[export] Instance record_laws : CodecLaws bundleRecord record_wf.
Proof.
  split; [|intros raw v; apply guarded_wf].
  intros v Hv. unfold Unmarshal, MarshalIndent, record_codec.
  rewrite (unpack_pack [_; _; _; _; _; _; _; _]). destruct v. by apply guarded_Some.
Qed.
#[export] Instance pointer_laws : CodecLaws bundlePointer pointer_wf.
Proof.
  split; [|intros raw v; apply guarded_wf].
  intros v Hv. unfold Unmarshal, MarshalIndent, pointer_codec.
  rewrite (unpack_pack [_; _; _; _; _]). destruct v. by apply guarded_Some.
Qed.
End FieldCodec.

(** An empty store directory on a disk where nothing fails. *)
Definition fresh_world : world :=
  World (Disk ∅ ∅ true) (λ n, 1700000000 + Z.of_nat n) 0 (λ _, Pass) 0 [] true [].

Definition sample_record (id : bytes) : bundleRecord :=
  BundleRecord 0 id bundleStaged (&"d") (&"{}") 1700000000 0 [].

(** ** Properties of the store *)
Section store_properties.
Context `{Codec bundleRecord, Codec bundlePointer, Codec bundleStoreMeta}.
Context {RL : CodecLaws bundleRecord record_wf} {PL : CodecLaws bundlePointer pointer_wf}.

(** A record that [Put] reported written reads back, from any later
    world with the same disk whose read does not fail, as exactly that record with
    the store's schema and its integrity digest. *)
Theorem Put_Get (rec : bundleRecord) (w w2 : world) :
  (Put rec w).1 = Ok tt → record_wf (stamp_record rec) →
  w_disk w2 = w_disk (Put rec w).2 → w_fault w2 (w_call w2) = Pass →
  (Get (rID rec) w2).1 = Ok (stamp_record rec).
Proof.
  intros HP Hwf Hd Hf. rewrite Get_no_fault, Hd by done.
  destruct (validateBundleID (rID rec)) as [[]|e] eqn:Hv.
  - rewrite Put_eq in * by done. apply read_record_stamped; [done..|].
    by apply (writeJSON_run (bundle_file (rID rec)) (stamp_record rec) w).
  - by rewrite (Put_invalid _ _ _ Hv) in HP.
Qed.

(** At every point of a [Put], whichever system calls fail and wherever a
    crash falls, the record's own id reads as before or as the whole new record, every
    other id and the startup pointer read as before, and the bundle's file is not left
    with contents that were never synced. *)
Theorem Put_crash_atomic (rec : bundleRecord) (w : world) (during : list disk) (d : disk) :
  record_wf (stamp_record rec) → w_trace (Put rec w).2 = during ++ w_trace w →
  d ∈ w_disk (Put rec w).2 :: during →
  (read_record d (rID rec) = read_record (w_disk w) (rID rec)
   ∨ read_record d (rID rec) = Ok (stamp_record rec))
  ∧ (∀ id, id ≠ rID rec → read_record d id = read_record (w_disk w) id)
  ∧ read_pointer d = read_pointer (w_disk w)
  ∧ (bundle_file (rID rec) ∈ dirty d → bundle_file (rID rec) ∈ dirty (w_disk w)).
Proof.
  intros Hwf Hdur Hin. destruct (Put_steps rec w Hwf) as [(tr & Htr & HF & HL & _) _].
  rewrite Htr in Hdur. apply app_inv_tail in Hdur as ->.
  pose proof (Forall_cons_2 _ _ _ HL HF) as HF'. rewrite Forall_forall in HF'.
  by destruct (HF' d Hin) as (? & ? & ? & ? & _).
Qed.

(** A successful listing of an existing store is sorted and names exactly
    the ids that have a bundle file; temporary files are not bundles. *)
Theorem List_exact (w : world) (ids : list bytes) :
  (List_ w).1 = Ok ids → bundles_exists (w_disk w) = true →
  Sorted str_le ids ∧ (∀ id, id ∈ ids ↔ is_Some (files (w_disk w) !! bundle_file id)).
Proof.
  intros E Hb. split; [|intros id; by apply List_Ok].
  unfold List_, mbind, action_bind, attempt, ReadDirBundles, syscall, fail, mret, action_ret in E.
  destruct (w_fault w (w_call w)); simpl in E; [|done]. rewrite Hb in E. simpl in E.
  injection E as <-. apply StronglySorted_Sorted, sort_Strings_sorted.
Qed.
End store_properties.


Section store_witnesses.
Import FieldCodec.

Let rec := sample_record (&"a").
Let after := (Put rec fresh_world).2.

Lemma Put_Get_witness : (Get (rID rec) after).1 = Ok (stamp_record rec).
Proof.
  apply (Put_Get rec fresh_world after);
    [by vm_compute | apply (bool_decide_unpack _); by vm_compute | reflexivity | by vm_compute].
Defined.

(** A crash right after the rename, with the directory sync failing. *)
Definition flaky_world : world :=
  World (Disk ∅ ∅ true) (λ n, 1700000000) 0 (λ n, if decide (n = 5)%nat then Fault 0 else Pass) 0 [] true [].

Lemma Put_crash_atomic_witness :
  (Put rec flaky_world).1 = Err (errOther "bundle store: open")
  ∧ read_record (w_disk (Put rec flaky_world).2) (&"a") = Ok (stamp_record rec)
  ∧ read_pointer (w_disk (Put rec flaky_world).2) = read_pointer (w_disk flaky_world).
Proof.
  split; [by vm_compute|]. split; [by vm_compute|].
  apply (Put_crash_atomic rec flaky_world (w_trace (Put rec flaky_world).2)).
  - apply (bool_decide_unpack _). by vm_compute.
  - change (w_trace flaky_world) with (@nil disk). by rewrite app_nil_r.
  - by left.
Defined.

Lemma List_exact_witness : &"a" ∈ [&"a"].
Proof.
  apply (List_exact after [&"a"]); [by vm_compute | by vm_compute | by vm_compute; eexists].
Defined.
End store_witnesses.

(** ** What the integrity digest covers *)
Section digest.
(** The bytes under the record digest determine every other field of the
    record, as long as its texts hold no NUL byte, the separator of the format: two
    records that differ anywhere but in the digest field are hashed differently. *)
Theorem record_preimage_inj (r1 r2 : bundleRecord) :
  record_wf r1 → record_wf r2 →
  0 ∉ rID r1 ++ rState r1 ++ rDigest r1 → 0 ∉ rID r2 ++ rState r2 ++ rDigest r2 →
  record_preimage r1 = record_preimage r2 →
  rSchema r1 = rSchema r2 ∧ rID r1 = rID r2 ∧ rState r1 = rState r2 ∧ rDigest r1 = rDigest r2
  ∧ rDocument r1 = rDocument r2 ∧ rStagedAt r1 = rStagedAt r2 ∧ rActivatedAt r1 = rActivatedAt r2.
Proof.
  intros (S1 & A1 & B1 & _) (S2 & A2 & B2 & _) N1 N2 E.
  rewrite !not_elem_of_app in N1, N2. destruct N1 as (? & ? & ?), N2 as (? & ? & ?).
  unfold record_preimage in E. apply app_inv_head in E. cbn [app] in E. injection E as E.
  repeat (apply split_first in E as [? E]; [|by auto using Itoa_no_nul..]).
  repeat match goal with H : Itoa _ = Itoa _ |- _ => apply Itoa_inj in H; [|done..] end. done.
Qed.

Lemma record_preimage_inj_witness :
  rDocument (sample_record (&"a")) = rDocument (sample_record (&"a")).
Proof.
  apply (record_preimage_inj (sample_record (&"a")) (sample_record (&"a")));
    [apply (bool_decide_unpack _); by vm_compute.. | |
     | reflexivity];
    by apply (bool_decide_unpack _); vm_compute.
Defined.
End digest.

(** ** Purge *)
Section purge.
Context `{Codec bundleRecord, Codec bundlePointer, Codec bundleStoreMeta}.

Lemma lookup_remove_paths ps m p :
  remove_paths ps m !! p = if decide (p ∈ ps) then None else m !! p.
Proof.
  unfold remove_paths. induction ps as [|q ps IH]; cbn [foldr].
  - case_decide as Hin; [by apply elem_of_nil in Hin | done].
  - destruct (decide (p = q)) as [->|Hne].
    + rewrite lookup_delete_eq. clear IH. case_decide as Hin; [done|]. exfalso. apply Hin. by left.
    + rewrite lookup_delete_ne, IH by done. clear IH. repeat case_decide; rewrite ?elem_of_cons in *; naive_solver.
Qed.

(** A purge that reports success leaves no readable bundle and the empty startup
    pointer, and keeps the store's metadata. *)
Lemma PurgeStore_empties (w : world) :
  (PurgeStore w).1 = Ok tt →
  let d := w_disk (PurgeStore w).2 in
  (∀ id rec, read_record d id ≠ Ok rec) ∧ read_pointer d = Ok empty_pointer
  ∧ files d !! InRoot bundleMetaFile = files (w_disk w) !! InRoot bundleMetaFile.
Proof.
  assert (∀ d, (∀ n, files d !! InBundles n = None) → files d !! InRoot bundlePointerFile = None →
            (∀ id rec, read_record d id ≠ Ok rec) ∧ read_pointer d = Ok empty_pointer) as Hfin.
  { intros d Hn Hp. split; [|by unfold read_pointer; rewrite Hp].
    intros id rec. unfold read_record. destruct (bundlePath id) as [p|e] eqn:E; [|done].
    apply bundlePath_Ok in E as [_ ->]. simpl. unfold bundle_file. by rewrite Hn. }
  assert (∀ n, remove_paths (map InBundles (bundle_names (w_disk w))) (files (w_disk w)) !! InBundles n = None) as Hb.
  { intros n. rewrite lookup_remove_paths. case_decide as Hin; [done|].
    destruct (files (w_disk w) !! InBundles n) eqn:E; [|done]. exfalso. apply Hin.
    apply list_elem_of_In, in_map, list_elem_of_In, elem_of_bundle_names. by eexists. }
  assert (∀ n, remove_paths (map InBundles (bundle_names (w_disk w))) (files (w_disk w)) !! InRoot n
               = files (w_disk w) !! InRoot n) as Hr.
  { intros n. rewrite lookup_remove_paths, decide_False; [done|].
    rewrite list_elem_of_In, in_map_iff. naive_solver. }
  unfold PurgeStore, RemoveAllBundles, Remove, MkdirAllBundles, syncBundleDir, OpenDir, FsyncDir.
  run_calls; rewrite ?Hr; try discriminate;
    destruct (files (w_disk w) !! InRoot bundlePointerFile) eqn:Hp; run_calls; try discriminate;
    intros _; (apply and_assoc; split; [apply Hfin; simpl; [intros n|] |]); simpl;
    rewrite ?lookup_delete_ne, ?lookup_delete_eq, ?Hb, ?Hr by done; done.
Qed.

Lemma PurgeStore_clock w : w_clock (PurgeStore w).2 = w_clock w.
Proof.
  assert (safe (λ _ _, True) PurgeStore) as Hs; [|by destruct (Hs w) as (_ & _ & _ & _ & ?)].
  assert (PreOrder (λ _ _ : disk, True)) by done.
  unfold PurgeStore, syncBundleDir. apply safe_bind; [done| |intros _; apply safe_bind; [done| |intros [[]|[]]]];
    repeat first [ apply safe_bind; [done| |intros []] | apply safe_wrap_err | apply safe_attempt
                 | by apply safe_syscall | by apply safe_fail ].
Qed.
End purge.
