(* ===== verification/ConfigTypes.v ===== *)
(** * The configuration document: the data types of [config.go]

    One record per struct, with the fields of the source.  A pointer field and
    a slice whose [nil] the code tells apart from empty are options.  Compiled
    artifacts (a goja program, a jq program, a regular expression) are named
    by the text they were compiled from.  [float64] is the specification float
    of the Standard Library. *)
From Stdlib Require Export SpecFloat.
From S2P Require Import Prelude GoStrings.

Abbreviation float64 := spec_float.

(** A decoded JSON value, the [any] of [json.Unmarshal]. *)
Inductive jvalue :=
| JNull
| JBool (b : bool)
| JNum (x : float64)
| JStr (s : bytes)
| JArr (l : list jvalue)
| JObj (l : list (bytes * jvalue)).

Record ProxyConfig := mkProxyConfig {
  px_Address : bytes;
  px_Username : bytes;
  px_Password : bytes;
}.

Record MITMSettings := mkMITMSettings {
  mitm_Enabled : bool;
  mitm_HTTP2 : bool;
  mitm_QUICFallbackProtection : bool;
}.

Record ModuleSource := mkModuleSource {
  src_URL : bytes;
  src_Digest : bytes;
  src_Body : bytes;
}.

Record ActionMatch := mkActionMatch {
  am_Hosts : list bytes;
  am_Schemes : list bytes;
  am_Methods : list bytes;
  am_PathRegex : bytes;
  am_StatusCodes : list Z;
}.

Record ActionGate := mkActionGate { gate_Key : bytes; gate_Equals : bytes }.

Record MockResponse := mkMockResponse {
  mock_Status : Z;
  mock_Headers : gmap bytes bytes;
  mock_Body : bytes;
  mock_Base64Body : bytes;
}.

Record HeaderEdits := mkHeaderEdits {
  he_Set : gmap bytes bytes;
  he_Remove : list bytes;
}.

Record URLRewrite := mkURLRewrite {
  rw_Pattern : bytes;
  rw_To : bytes;
  rw_Status : Z;
}.

Record BodyReplace := mkBodyReplace {
  br_Pattern : bytes;
  br_To : bytes;
  br_ValueMap : gmap bytes (gmap bytes bytes);
}.

Record ScriptRule := mkScriptRule {
  sr_ID : bytes;
  sr_Phase : bytes;
  sr_Match : ActionMatch;
  sr_EnabledWhen : option ActionGate;
  sr_ScriptURL : bytes;
  sr_ScriptDigest : bytes;
  sr_ScriptBody : bytes;
  sr_BodyMode : bytes;
  sr_Entry : bytes;
  sr_JQProgram : bytes;
  sr_Reject : bool;
  sr_Mock : option MockResponse;
  sr_Headers : option HeaderEdits;
  sr_Rewrite : option URLRewrite;
  sr_ReplaceBody : option BodyReplace;
  sr_TimeoutMS : Z;
  sr_MaxBodyBytes : Z;
  sr_program : option bytes;
  sr_jq : option bytes;
  sr_settings : gmap bytes jvalue;
}.

Record ModuleSetting := mkModuleSetting {
  set_Key : bytes;
  set_Type : bytes;
  set_Label : bytes;
  set_Description : bytes;
  set_Required : bool;
  set_Options : list bytes;
  set_Min : option float64;
  set_Max : option float64;
  set_Default : bytes;
  set_Value : bytes;
}.

Record HostMapping := mkHostMapping { hm_Pattern : bytes; hm_Target : bytes }.

Record RoutingRule := mkRoutingRule {
  rr_Action : bytes;
  rr_Domain : option bytes;
  rr_DomainSuffix : option bytes;
  rr_DomainKeywords : option (list bytes);
  rr_AllDomainKeywords : option (list bytes);
  rr_IPCIDR : option bytes;
  rr_Network : option bytes;
  rr_DestinationPort : option Z;
}.

Record Module_ := mkModule {
  mod_ID : bytes;
  mod_Version : bytes;
  mod_Name : bytes;
  mod_Description : bytes;
  mod_Enabled : bool;
  mod_ImportedAt : bytes;
  mod_Source : ModuleSource;
  mod_CaptureHosts : list bytes;
  mod_CaptureDNS : bytes;
  mod_HostMappings : list HostMapping;
  mod_RoutingRules : list RoutingRule;
  mod_Settings : list ModuleSetting;
  mod_Scripts : list ScriptRule;
  mod_PersistentStorage : bool;
  mod_Network : bool;
  mod_EgressGroupRequired : bool;
  mod_EgressGroup : bytes;
}.

(** ** The compiled snapshot (module_runtime.go) *)
Record compiledHostMatcher := mkHostMatcher {
  hm_exact : gset bytes;
  hm_wildcard : list bytes;
}.

Record compiledScriptRule := mkCompiledRule {
  cr_rule : ScriptRule;
  cr_path : bytes;
  cr_hosts : compiledHostMatcher;
}.

Record compiledScriptModule := mkCompiledModule {
  cm_module : Module_;
  cm_rules : list compiledScriptRule;
  cm_hosts : option compiledHostMatcher;
}.

Record compiledScriptConfig := mkCompiledConfig {
  cc_modules : list compiledScriptModule;
  cc_moduleHosts : gmap bytes compiledHostMatcher;
  cc_activeHosts : compiledHostMatcher;
  cc_activePatterns : list bytes;
}.

Record Config := mkConfig {
  cfg_Version : Z;
  cfg_ExecutionOrder : option (list bytes);
  cfg_Listen : bytes;
  cfg_Username : bytes;
  cfg_Password : bytes;
  cfg_TLSCert : bytes;
  cfg_TLSKey : bytes;
  cfg_UpstreamProxy : ProxyConfig;
  cfg_MITM : MITMSettings;
  cfg_Modules : list Module_;
  cfg_runtime : option compiledScriptConfig;
  cfg_generation : Z;
}.

Definition set_runtime (r : option compiledScriptConfig) (c : Config) : Config :=
  mkConfig (cfg_Version c) (cfg_ExecutionOrder c) (cfg_Listen c) (cfg_Username c) (cfg_Password c)
    (cfg_TLSCert c) (cfg_TLSKey c) (cfg_UpstreamProxy c) (cfg_MITM c) (cfg_Modules c) r
    (cfg_generation c).
Definition set_generation (g : Z) (c : Config) : Config :=
  mkConfig (cfg_Version c) (cfg_ExecutionOrder c) (cfg_Listen c) (cfg_Username c) (cfg_Password c)
    (cfg_TLSCert c) (cfg_TLSKey c) (cfg_UpstreamProxy c) (cfg_MITM c) (cfg_Modules c)
    (cfg_runtime c) g.

Definition enabled_modules (c : Config) : list Module_ := List.filter mod_Enabled (cfg_Modules c).

(** What a client of the configuration decoder relies on: [decodeConfig] of
    [config.go], implemented in [ConfigDecode]. *)
Class ConfigDecoder := { decodeConfig : bytes → res string Config }.
