(* ===== verification/Json.v ===== *)
(** * JSON texts, as [encoding/json] reads and writes them

    The parser keeps every member of an object in document order, with the
    text of its value, which is what [json.RawMessage] holds.  Numbers keep
    their text and are read as [float64] or as an integer by the field that
    receives them. *)
From S2P Require Import Prelude GoStrings ConfigTypes.

Inductive jtree :=
| TNull
| TBool (b : bool)
| TNum (text : bytes)
| TStr (s : bytes)
| TArr (l : list jtree)
| TObj (l : list (bytes * bytes * jtree)).

Definition is_ws (c : Z) : bool := (c =? 32) || (c =? 9) || (c =? 13) || (c =? 10).

Fixpoint skip_ws (s : bytes) : bytes :=
  match s with
  | c :: s' => if is_ws c then skip_ws s' else s
  | [] => []
  end.

(** ** Strings *)
Definition hex_value (c : Z) : option Z :=
  if is_digit c then Some (c - #"0")
  else if (#"a" <=? c) && (c <=? #"f") then Some (c - #"a" + 10)
  else if (#"A" <=? c) && (c <=? #"F") then Some (c - #"A" + 10)
  else None.

(** The four hexadecimal digits of a [\u] escape. *)
Definition hex4 (s : bytes) : option (Z * bytes) :=
  match s with
  | a :: b :: c :: d :: rest =>
      x ← hex_value a; y ← hex_value b; z ← hex_value c; t ← hex_value d;
      Some (((x * 16 + y) * 16 + z) * 16 + t, rest)
  | _ => None
  end.

(** [utf16.DecodeRune] of a surrogate and the escape after it. *)
Definition surrogate_pair (r : Z) (rest : bytes) : option (Z * bytes) :=
  match rest with
  | c :: d :: more =>
      if (c =? 92) && (d =? #"u") then
        '(r1, rest') ← hex4 more;
        if (0xD800 <=? r) && (r <? 0xDC00) && (0xDC00 <=? r1) && (r1 <? 0xE000)
        then Some (Z.lor (Z.shiftl (r - 0xD800) 10) (r1 - 0xDC00) + 0x10000, rest') else None
      else None
  | _ => None
  end.

Definition simple_escape (c : Z) : option Z :=
  if c =? #"b" then Some 8 else if c =? #"f" then Some 12 else if c =? #"n" then Some 10
  else if c =? #"r" then Some 13 else if c =? #"t" then Some 9
  else if (c =? 34) || (c =? 92) || (c =? 47) then Some c else None.

(** The text after the opening quote; each step takes a byte, the length is fuel enough. *)
Fixpoint parse_string (fuel : nat) (s : bytes) : option (bytes * bytes) :=
  match fuel, s with
  | S fuel', c :: s' =>
      if c =? 34 then Some ([], s')
      else if c =? 92 then
        match s' with
        | e :: rest =>
            if e =? #"u" then
              '(r, rest) ← hex4 rest;
              let '(r, rest) :=
                if (0xD800 <=? r) && (r <? 0xE000)
                then default (RuneError, rest) (surrogate_pair r rest) else (r, rest) in
              '(more, out) ← parse_string fuel' rest;
              Some (EncodeRune r ++ more, out)
            else
              b ← simple_escape e;
              '(more, out) ← parse_string fuel' rest;
              Some (b :: more, out)
        | [] => None
        end
      else if c <? 0x20 then None
      else
        let '(r, w) := DecodeRune s in
        '(more, out) ← parse_string fuel' (drop w s);
        Some (EncodeRune r ++ more, out)
  | _, _ => None
  end.

(** ** Numbers *)
Fixpoint span_digits (s : bytes) : bytes * bytes :=
  match s with
  | c :: s' => if is_digit c then let '(d, rest) := span_digits s' in (c :: d, rest) else ([], s)
  | [] => ([], [])
  end.

Record number := mkNumber { n_neg : bool; n_int : bytes; n_frac : bytes; n_exp : option (bool * bytes) }.

(** The fraction and the exponent of a number. *)
Definition scan_fraction (s : bytes) : option (bytes * bytes) :=
  match s with
  | c :: s' => if c =? #"." then
                 let '(d, rest) := span_digits s' in if bool_decide (d = []) then None else Some (d, rest)
               else Some ([], s)
  | [] => Some ([], [])
  end.

Definition scan_exponent (s : bytes) : option (option (bool * bytes) * bytes) :=
  match s with
  | c :: s' =>
      if (c =? #"e") || (c =? #"E") then
        let '(neg, s') := match s' with
                          | x :: s2 => if x =? #"-" then (true, s2) else if x =? #"+" then (false, s2) else (false, s')
                          | [] => (false, [])
                          end in
        let '(d, rest) := span_digits s' in
        if bool_decide (d = []) then None else Some (Some (neg, d), rest)
      else Some (None, s)
  | [] => Some (None, [])
  end.

Definition scan_number (s : bytes) : option (number * bytes) :=
  let '(neg, s) := match s with c :: s' => if c =? #"-" then (true, s') else (false, s) | [] => (false, []) end in
  let '(digits, rest) := span_digits s in
  let '(digits, rest) := match digits with
                         | d :: more => if d =? #"0" then ([d], more ++ rest) else (digits, rest)
                         | [] => ([], rest)
                         end in
  if bool_decide (digits = []) then None
  else
    '(frac, rest) ← scan_fraction rest;
    '(exp, rest) ← scan_exponent rest;
    Some (mkNumber neg digits frac exp, rest).

Definition full_number (text : bytes) : option number :=
  '(n, rest) ← scan_number text; if bool_decide (rest = []) then Some n else None.

(** [strconv.ParseFloat]: the value correctly rounded; none when it overflows. *)
Definition ParseFloat (text : bytes) : option float64 :=
  n ← full_number text;
  let m := digits_value (n_int n ++ n_frac n) in
  let e := match n_exp n with
           | Some (true, d) => - digits_value d
           | Some (false, d) => digits_value d
           | None => 0
           end - len (n_frac n) in
  let x := match m with
           | Zpos p =>
               if 0 <=? e then binary_normalize 53 1024 ((if n_neg n then -1 else 1) * m * 10 ^ e) 0 (n_neg n)
               else SFdiv 53 1024 (S754_finite (n_neg n) p 0) (S754_finite false (Z.to_pos (10 ^ (- e))) 0)
           | _ => S754_zero (n_neg n)
           end in
  match x with S754_infinity _ | S754_nan => None | _ => Some x end.

(** [strconv.ParseInt] of a number text: no fraction, no exponent, the range of [int64]. *)
Definition ParseInt (text : bytes) : option Z :=
  n ← full_number text;
  match n_frac n, n_exp n with
  | [], None =>
      let v := (if n_neg n then -1 else 1) * digits_value (n_int n) in
      if (- 2 ^ 63 <=? v) && (v <? 2 ^ 63) then Some v else None
  | _, _ => None
  end.

(** [strconv.ParseUint] at 32 bits. *)
Definition ParseUint32 (text : bytes) : option Z :=
  n ← full_number text;
  match n_neg n, n_frac n, n_exp n with
  | false, [], None => let v := digits_value (n_int n) in if v <? 2 ^ 32 then Some v else None
  | _, _, _ => None
  end.

(** ** Values *)
Definition maxNestingDepth : nat := 10000.

Definition literal (word : bytes) (t : jtree) (s : bytes) : option (jtree * bytes) :=
  if HasPrefix s word then Some (t, drop (length word) s) else None.

(** One byte after white space. *)
Definition expect (c : Z) (s : bytes) : option bytes :=
  match skip_ws s with
  | x :: rest => if x =? c then Some rest else None
  | [] => None
  end.

(** The head of [s] is the value, white space before it skipped; [depth] levels
    may still open.  Two steps per byte suffice. *)
Fixpoint parse_value (fuel depth : nat) (s : bytes) {struct fuel} : option (jtree * bytes) :=
  match fuel with
  | O => None
  | S fuel' =>
      match s with
      | [] => None
      | c :: s' =>
          if c =? #"n" then literal &"null" TNull s
          else if c =? #"t" then literal &"true" (TBool true) s
          else if c =? #"f" then literal &"false" (TBool false) s
          else if c =? 34 then '(v, rest) ← parse_string (length s') s'; Some (TStr v, rest)
          else if c =? #"[" then
            match depth with
            | O => None
            | S depth' =>
                match skip_ws s' with
                | x :: rest => if x =? #"]" then Some (TArr [], rest)
                               else '(l, rest) ← parse_elements fuel' depth' s'; Some (TArr l, rest)
                | [] => None
                end
            end
          else if c =? #"{" then
            match depth with
            | O => None
            | S depth' =>
                match skip_ws s' with
                | x :: rest => if x =? #"}" then Some (TObj [], rest)
                               else '(l, rest) ← parse_members fuel' depth' s'; Some (TObj l, rest)
                | [] => None
                end
            end
          else '(_, rest) ← scan_number s; Some (TNum (take (length s - length rest) s), rest)
      end
  end
with parse_elements (fuel depth : nat) (s : bytes) {struct fuel} : option (list jtree * bytes) :=
  match fuel with
  | O => None
  | S fuel' =>
      '(v, rest) ← parse_value fuel' depth (skip_ws s);
      match skip_ws rest with
      | x :: rest' =>
          if x =? #"]" then Some ([v], rest')
          else if x =? #"," then '(l, out) ← parse_elements fuel' depth rest'; Some (v :: l, out)
          else None
      | [] => None
      end
  end
with parse_members (fuel depth : nat) (s : bytes) {struct fuel} : option (list (bytes * bytes * jtree) * bytes) :=
  match fuel with
  | O => None
  | S fuel' =>
      key_text ← expect 34 s;
      '(key, rest) ← parse_string (length key_text) key_text;
      after ← expect #":" rest;
      let text := skip_ws after in
      '(v, rest) ← parse_value fuel' depth text;
      let member := (key, take (length text - length rest) text, v) in
      match skip_ws rest with
      | x :: rest' =>
          if x =? #"}" then Some ([member], rest')
          else if x =? #"," then '(l, out) ← parse_members fuel' depth rest'; Some (member :: l, out)
          else None
      | [] => None
      end
  end.

Definition json_Parse (body : bytes) : option jtree :=
  '(t, rest) ← parse_value (2 * length body + 2) maxNestingDepth (skip_ws body);
  if bool_decide (skip_ws rest = []) then Some t else None.

(** ** The [any] of a value: the last member of a name wins *)
Definition set_member (k : bytes) (v : jvalue) (l : list (bytes * jvalue)) : list (bytes * jvalue) :=
  List.filter (λ kv, negb (bool_decide (kv.1 = k))) l ++ [(k, v)].

Fixpoint to_any (t : jtree) : option jvalue :=
  match t with
  | TNull => Some JNull
  | TBool b => Some (JBool b)
  | TNum text => JNum <$> ParseFloat text
  | TStr s => Some (JStr s)
  | TArr l => JArr <$> (fix go l := match l with
                                    | [] => Some []
                                    | x :: l' => v ← to_any x; vs ← go l'; Some (v :: vs)
                                    end) l
  | TObj l => JObj <$> (fix go l acc := match l with
                                        | [] => Some acc
                                        | (k, _, x) :: l' => v ← to_any x; go l' (set_member k v acc)
                                        end) l []
  end.

(** [json.Unmarshal] into an [any]. *)
Definition json_Unmarshal_any (raw : bytes) : option jvalue := json_Parse raw ≫= to_any.

(** ** Writing a string, with the escapes of [json.Marshal] *)
Definition escape_ascii (c : Z) : bytes :=
  if (c =? 34) || (c =? 92) then [92; c]
  else if c =? 8 then &"\b" else if c =? 12 then &"\f" else if c =? 10 then &"\n"
  else if c =? 13 then &"\r" else if c =? 9 then &"\t"
  else if (c <? 0x20) || (c =? #"<") || (c =? #">") || (c =? #"&")
  then &"\u00" ++ [if c <? 16 then #"0" else #"0" + c / 16;
                   if c mod 16 <? 10 then #"0" + c mod 16 else #"a" + (c mod 16 - 10)]
  else [c].

Fixpoint quote_fuel (fuel : nat) (s : bytes) : bytes :=
  match fuel, s with
  | S fuel', c :: s' =>
      if c <? RuneSelf then escape_ascii c ++ quote_fuel fuel' s'
      else
        let '(r, w) := DecodeRune s in
        (if bool_decide (w = 1%nat) then &"\ufffd"
         else if r =? 0x2028 then &"\u2028" else if r =? 0x2029 then &"\u2029" else take w s)
        ++ quote_fuel fuel' (drop w s)
  | _, _ => []
  end.
Definition json_quote (s : bytes) : bytes := [34] ++ quote_fuel (length s) s ++ [34].

(** ** A text that parses to [null] is the word itself between spaces *)
Lemma skip_ws_split s : ∃ w, s = w ++ skip_ws s ∧ Forall (λ c, is_ws c = true) w.
Proof.
  induction s as [|c s (w & E & Hw)]; [by exists []|]. cbn [skip_ws]. destruct (is_ws c) eqn:Hc; [|by exists []].
  exists (c :: w). split; [simpl; by f_equal | by constructor].
Qed.

Lemma ws_ascii c : is_ws c = true → 0 <= c < 128 ∧ IsSpace c = true.
Proof. unfold is_ws, IsSpace. intros H. lia. Qed.

Lemma trim_left_ws w s n :
  Forall (λ c, is_ws c = true) w → (length (w ++ s) <= n)%nat →
  ∃ n', (length s <= n')%nat ∧ trim_left_fuel n (w ++ s) = trim_left_fuel n' s.
Proof.
  intros Hw. revert n. induction Hw as [|c w Hc _ IH]; intros n Hn; [by exists n|].
  destruct n as [|n]; simpl in Hn; [lia|]. apply ws_ascii in Hc as [Hr Hsp].
  cbn [trim_left_fuel app]. unfold DecodeRune. rewrite (proj2 (Z.ltb_lt c 0x80)) by lia.
  rewrite Hsp. cbn [drop]. apply IH. lia.
Qed.

Lemma trim_right_ws w s n :
  Forall (λ c, is_ws c = true) w → (length (w ++ s) <= n)%nat →
  ∃ n', (length s <= n')%nat ∧ trim_right_fuel n (w ++ s) = trim_right_fuel n' s.
Proof.
  intros Hw. revert n. induction Hw as [|c w Hc _ IH]; intros n Hn; [by exists n|].
  destruct n as [|n]; simpl in Hn; [lia|]. apply ws_ascii in Hc as [Hr Hsp].
  cbn [trim_right_fuel app]. unfold DecodeLastRune, RuneSelf. rewrite (proj2 (Z.ltb_lt c 0x80)) by lia.
  rewrite Hsp. cbn [drop]. apply IH. lia.
Qed.

Lemma TrimSpace_null w1 w2 :
  Forall (λ c, is_ws c = true) w1 → Forall (λ c, is_ws c = true) w2 → TrimSpace (w1 ++ &"null" ++ w2) = &"null".
Proof.
  intros H1 H2. unfold TrimSpace.
  destruct (trim_left_ws w1 (&"null" ++ w2) (length (w1 ++ &"null" ++ w2)) H1 ltac:(lia)) as (n1 & Hn1 & ->).
  assert (trim_left_fuel n1 (&"null" ++ w2) = &"null" ++ w2) as ->.
  { destruct n1; [simpl in Hn1; lia | done]. }
  rewrite rev_app_distr.
  destruct (trim_right_ws (rev w2) (rev &"null") (length (&"null" ++ w2)) (Forall_rev H2))
    as (n2 & Hn2 & ->); [rewrite !length_app, !length_rev; lia|].
  destruct n2; [simpl in Hn2; lia | done].
Qed.

Lemma json_Parse_null raw : json_Parse raw = Some TNull → TrimSpace raw = &"null".
Proof.
  unfold json_Parse. destruct (skip_ws_split raw) as (w1 & E & H1). rewrite E at 3. clear E.
  generalize (2 * length raw + 2)%nat (skip_ws raw). intros n s H.
  apply bind_Some in H as ([t rest] & Hv & Hr). case_bool_decide as Hws; [|done]. injection Hr as ->.
  destruct n as [|n]; [done|]. cbn [parse_value] in Hv. destruct s as [|c s']; [done|].
  assert (HasPrefix (c :: s') &"null" = true ∧ rest = drop 4 (c :: s')) as [Hp ->].
  { destruct (c =? #"n").
    - unfold literal in Hv. destruct (HasPrefix _ _); [|done]. by injection Hv as <-.
    - unfold literal in Hv. repeat (case_match; try done); 
        repeat match goal with H : _ ≫= _ = Some _ |- _ => apply bind_Some in H as (? & ? & ?) end;
        repeat case_match; congruence. }
  apply HasPrefix_true in Hp as [k Ek]. rewrite Ek in *. destruct (skip_ws_split k) as (w2 & E2 & H2).
  replace (skip_ws (drop 4 (&"null" ++ k))) with (skip_ws k) in Hws by done. rewrite Hws, app_nil_r in E2.
  subst w2. by apply TrimSpace_null.
Qed.

(** ** A 32-bit integer is a finite [float64] *)
Lemma digits2_lower p : 2 ^ (Z.pos (digits2_pos p) - 1) <= Z.pos p.
Proof.
  induction p as [p IH|p IH|]; cbn [digits2_pos]; [| |done];
    (replace (Z.pos (Pos.succ (digits2_pos p)) - 1) with (1 + (Z.pos (digits2_pos p) - 1)) by lia;
     rewrite Z.pow_add_r by lia; lia).
Qed.

Lemma digits2_shl p k : Z.pos (digits2_pos (Pos.iter xO p k)) = Z.pos (digits2_pos p) + Z.pos k.
Proof.
  induction k as [|k IH] using Pos.peano_ind; [simpl; lia|]. rewrite Pos.iter_succ. cbn [digits2_pos]. lia.
Qed.

Lemma binary_round_small s p :
  Z.pos p < 2 ^ 32 → ∃ m e, binary_round 53 1024 s p 0 = S754_finite s m e.
Proof.
  intros Hp. pose proof (digits2_lower p) as Hd.
  assert (Z.pos (digits2_pos p) <= 32) as H32.
  { apply Z.lt_succ_r, Z.nle_gt. intros H. assert (2 ^ 32 <= 2 ^ (Z.pos (digits2_pos p) - 1)); [|lia].
    apply Z.pow_le_mono_r; lia. }
  set (d := Z.pos (digits2_pos p)) in *.
  assert (∃ k, 53 - d = Z.pos k) as [k Hk].
  { destruct (53 - d) eqn:E; [lia | by eexists | lia]. }
  unfold binary_round. fold d. rewrite Z.add_0_r.
  assert (fexp 53 1024 d = Z.neg k) as Hf by (unfold fexp, emin; lia).
  rewrite Hf. unfold shl_align. rewrite Z.sub_0_r. set (q := Pos.iter xO p k).
  assert (Z.pos (digits2_pos q) = 53) as Hq by (unfold q; rewrite digits2_shl; fold d; lia).
  unfold binary_round_aux.
  assert (∀ l, shr_fexp 53 1024 (Z.pos q) (Z.neg k) l = (shr_record_of_loc (Z.pos q) l, Z.neg k)) as Hs.
  { intros l. unfold shr_fexp. cbn [Zdigits2]. rewrite Hq.
    assert (fexp 53 1024 (53 + Z.neg k) - Z.neg k = 0) as -> by (unfold fexp, emin; lia). done. }
  rewrite Hs. cbn [shr_record_of_loc shr_m loc_of_shr_record round_nearest_even]. rewrite Hs. cbn [shr_record_of_loc shr_m].
  rewrite (proj2 (Z.leb_le _ _)) by lia. by eexists _, _.
Qed.

Lemma ParseUint32_float text n : ParseUint32 text = Some n → is_Some (ParseFloat text).
Proof.
  unfold ParseUint32, ParseFloat. destruct (full_number text) as [[neg int frac exp]|]; [|done].
  cbn [mbind option_bind n_neg n_int n_frac n_exp]. destruct neg; [done|]. destruct frac; [|done].
  destruct exp as [|]; [done|]. rewrite app_nil_r. cbn [length]. change (0 - Z.of_nat 0) with 0.
  destruct (Z.ltb_spec (digits_value int) (2 ^ 32)) as [Hlt|]; [|done]. intros _.
  destruct (digits_value int) as [|p|p]; [by eexists| |by eexists].
  change (0 <=? 0) with true. cbv iota. replace (1 * Z.pos p * 10 ^ 0) with (Z.pos p) by lia.
  cbn [binary_normalize]. destruct (binary_round_small false p Hlt) as (m & e & ->). by eexists.
Qed.

(** An object reads as an [any] when each of its members does. *)
Lemma to_any_object ms : (∀ m, m ∈ ms → is_Some (to_any m.2)) → is_Some (to_any (TObj ms)).
Proof.
  intros Hm. cbn [to_any]. apply fmap_is_Some. generalize (@nil (bytes * jvalue)) as acc.
  induction ms as [|[[k raw] x] ms IH]; intros acc; [by eexists|].
  destruct (Hm (k, raw, x) ltac:(left)) as [v Hv]. simpl in Hv. cbn. rewrite Hv. cbn.
  apply IH. intros m Hin. apply Hm. by right.
Qed.
