(* ===== verification/JsonDecode.v ===== *)
(** * Decoding a JSON value into Go data, as [encoding/json] does

    A decoder takes the value a field holds, the text of the JSON value and
    its tree.  [null] leaves most values alone.  A member fills the field whose
    name it equals up to case; a later member of the same field decodes over
    the earlier one.  The generic part of [config.go] is here too: the check
    for repeated keys and the strict reader. *)
From S2P Require Import Prelude GoStrings ConfigTypes Json.

Abbreviation member := (bytes * bytes * jtree)%type.
Definition decoder (A : Type) : Type := A → bytes → jtree → res string A.

Definition json_error {A} : res string A := Err "json"%string.

Section keys.
Context {U : UnicodeCase}.

(** [scanJSONValue]: some object has two keys equal after [strings.ToLower]. *)
Fixpoint duplicate_key (keys : list bytes) : bool :=
  match keys with
  | [] => false
  | k :: rest => existsb (λ k', bool_decide (ToLower k' = ToLower k)) rest || duplicate_key rest
  end.

Fixpoint scanJSONValue (t : jtree) : bool :=
  match t with
  | TArr l => forallb scanJSONValue l
  | TObj l => negb (duplicate_key (map (λ m, m.1.1) l)) && forallb (λ m, scanJSONValue m.2) l
  | _ => true
  end.

(** [rejectDuplicateJSONKeys] and the decoder after it, both of which must accept the text. *)
Definition strict_tree (body : bytes) : res string jtree :=
  match json_Parse body with
  | None => json_error
  | Some t => if scanJSONValue t then Ok t else Err "duplicate JSON key"%string
  end.
End keys.

(** ** Scalars *)
Definition dec_string : decoder bytes := λ cur _ t,
  match t with TStr s => Ok s | TNull => Ok cur | _ => json_error end.

Definition dec_bool : decoder bool := λ cur _ t,
  match t with TBool b => Ok b | TNull => Ok cur | _ => json_error end.

Definition of_text {A} (read : bytes → option A) : decoder A := λ cur _ t,
  match t with
  | TNum text => match read text with Some x => Ok x | None => json_error end
  | TNull => Ok cur
  | _ => json_error
  end.

Definition dec_int : decoder Z := of_text ParseInt.
Definition dec_uint32 : decoder Z := of_text ParseUint32.
Definition dec_float : decoder float64 := of_text ParseFloat.

(** [json.RawMessage]: the text itself, also of a [null]. *)
Definition dec_raw : decoder bytes := λ _ raw _, Ok raw.

(** ** Pointers, slices, maps *)
Definition dec_ptr {A} (dec : decoder A) (zero : A) : decoder (option A) := λ cur raw t,
  match t with
  | TNull => Ok None
  | _ => x ← dec (default zero cur) raw t; Ok (Some x)
  end.

Section slices.
Context {A : Type} (dec : decoder A) (zero : A).

(** Element by element, over the elements already there; their text is not kept. *)
Fixpoint dec_elements (cur : list A) (l : list jtree) : res string (list A) :=
  match l with
  | [] => Ok []
  | t :: l' =>
      x ← dec (default zero (head cur)) [] t;
      xs ← dec_elements (tail cur) l';
      Ok (x :: xs)
  end.

Definition dec_slice : decoder (list A) := λ cur _ t,
  match t with TArr l => dec_elements cur l | TNull => Ok [] | _ => json_error end.

(** A slice whose [nil] the program tells apart from an empty one. *)
Definition dec_slice_nil : decoder (option (list A)) := λ cur _ t,
  match t with
  | TArr l => x ← dec_elements (default [] cur) l; Ok (Some x)
  | TNull => Ok None
  | _ => json_error
  end.

Fixpoint dec_entries (cur : gmap bytes A) (l : list member) : res string (gmap bytes A) :=
  match l with
  | [] => Ok cur
  | (k, raw, t) :: l' => x ← dec zero raw t; dec_entries (<[k := x]> cur) l'
  end.

Definition dec_map : decoder (gmap bytes A) := λ cur _ t,
  match t with TObj l => dec_entries cur l | TNull => Ok ∅ | _ => json_error end.
End slices.

(** ** Structs *)
Definition names_field (key name : bytes) : bool := EqualFold key name.

(** [DisallowUnknownFields]. *)
Definition known_fields (names : list bytes) (members : list member) : res string unit :=
  reject_if (negb (forallb (λ m, existsb (names_field m.1.1) names) members)) "unknown field"%string.

(** The value of a field after all members, in document order. *)
Fixpoint get {A} (name : bytes) (dec : decoder A) (cur : A) (members : list member) : res string A :=
  match members with
  | [] => Ok cur
  | (key, raw, t) :: rest =>
      if names_field key name then x ← dec cur raw t; get name dec x rest else get name dec cur rest
  end.

Definition dec_struct {A} (fields : A → list member → res string A) : decoder A := λ cur _ t,
  match t with TObj members => fields cur members | TNull => Ok cur | _ => json_error end.

(** Every member of a field that was read could be read. *)
Lemma get_member {A} name (dec : decoder A) cur members v k raw t :
  get name dec cur members = Ok v → (k, raw, t) ∈ members → names_field k name = true →
  ∃ cur' v', dec cur' raw t = Ok v'.
Proof.
  revert cur. induction members as [|[[k0 raw0] t0] rest IH]; intros cur H Hin Hk; [by apply elem_of_nil in Hin|].
  cbn [get] in H. apply elem_of_cons in Hin as [[= <- <- <-]|Hin].
  - rewrite Hk in H. apply bind_Ok_inv in H as (x & Hx & _). by eexists _, _.
  - destruct (names_field k0 name); [apply bind_Ok_inv in H as (x & _ & H)|]; by eapply IH.
Qed.
