(* ===== verification/BundleManager.v ===== *)
(** * [bundle_manager.go]: stage, commit, abort, purge, recover

    The manager's atomics are the fields of [manager]; a method that holds
    [m.mu] from start to end is one action on the manager and the world.  A
    [*Config] is a configuration with the address of its allocation, which
    is what [configStore] compares. *)
From S2P Require Import Prelude GoStrings GoBinary FileSystem BundleStore ConfigTypes.

Record cfg_ptr := CfgPtr { ptr_addr : nat; ptr_cfg : Config }.

Record manager := Manager {
  m_active : option cfg_ptr;
  m_activeID : option bytes;
  m_activeDigest : option bytes;
  m_migrated : bool;
  m_instanceID : bytes;
  m_generation : Z;
  m_staged : gset bytes;
  m_allocs : nat;
}.

Record sys := Sys { s_mgr : manager; s_world : world }.

Definition on_world {E A} (m : action world E A) : action sys E A :=
  λ s, let '(r, w) := m (s_world s) in (r, Sys (s_mgr s) w).
Definition the_manager {E} : action sys E manager := λ s, (Ok (s_mgr s), s).
Definition update {E} (f : manager → manager) : action sys E unit :=
  λ s, (Ok tt, Sys (f (s_mgr s)) (s_world s)).

Definition newInstanceID (unix_nano : Z) : bytes :=
  EncodeToString (take 8 (Sum256 (rev (be_split 8 unix_nano)))).

Definition newBundleManager (unix_nano : Z) : manager :=
  Manager None None None false (newInstanceID unix_nano) 0 ∅ 0.

Definition ActiveID (m : manager) : bytes := default [] (m_activeID m).
Definition ActiveDigest (m : manager) : bytes := default [] (m_activeDigest m).

Definition setActive (id digest : bytes) (cfg : Config) (m : manager) : manager :=
  Manager (Some (CfgPtr (m_allocs m) cfg)) (Some id) (Some digest) true (m_instanceID m)
    (m_generation m) (m_staged m) (S (m_allocs m)).
Definition with_generation (g : Z) (m : manager) : manager :=
  Manager (m_active m) (m_activeID m) (m_activeDigest m) (m_migrated m) (m_instanceID m) g
    (m_staged m) (m_allocs m).
Definition with_staged (s : gset bytes) (m : manager) : manager :=
  Manager (m_active m) (m_activeID m) (m_activeDigest m) (m_migrated m) (m_instanceID m)
    (m_generation m) s (m_allocs m).

(** The text of an event; the error text behind a warning is left out. *)
Definition publish {E} (level message : bytes) : action sys E unit :=
  on_world (publish_log level message).

Definition with_state (st : bytes) (rec : bundleRecord) : bundleRecord :=
  BundleRecord (rSchema rec) (rID rec) st (rDigest rec) (rDocument rec) (rStagedAt rec)
    (rActivatedAt rec) (rRecordDigest rec).
Definition activated (t : Z) (rec : bundleRecord) : bundleRecord :=
  BundleRecord (rSchema rec) (rID rec) bundleActive (rDigest rec) (rDocument rec) (rStagedAt rec)
    t (rRecordDigest rec).

Definition bundleRetainedGenerations : nat := 3.

(** Newest activation first, then the greater id. *)
Definition prune_before (a b : bytes * Z) : Prop :=
  b.2 < a.2 ∨ (a.2 = b.2 ∧ str_le b.1 a.1).
#[export] Instance prune_before_dec : RelDecision prune_before.
Proof. intros a b. unfold prune_before. apply _. Defined.

#[export] Instance prune_before_total : Total prune_before.
Proof.
  intros [a ta] [b tb]. unfold prune_before. simpl.
  destruct (Z.lt_total ta tb) as [?|[->|?]]; [by right; left| |by left; left].
  destruct (total str_le b a); [left | right]; by right.
Qed.
#[export] Instance prune_before_trans : Transitive prune_before.
Proof.
  intros [a ta] [b tb] [c tc]. unfold prune_before. simpl. intros [?|[-> ?]] [?|[? ?]]; [left; lia..| |];
    [subst; by left | subst; right; split; [done | by etrans]].
Qed.

Section manager.
Context `{Codec bundleRecord, Codec bundlePointer, Codec bundleStoreMeta} {D : ConfigDecoder}.

Definition decode_or (e : berr) (document : bytes) : action sys berr Config :=
  match decodeConfig document with
  | Ok cfg => mret cfg
  | Err _ => fail e
  end.

Definition Recover : action sys berr unit :=
  ptr ← on_world Pointer;
  if bool_decide (pActive ptr = []) then mret tt
  else
    rec ← on_world (Get (pActive ptr));
    cfg ← decode_or (errOther "recover bundle") (rDocument rec);
    _ ← update (with_generation 1);
    _ ← update (setActive (rID rec) (rDigest rec) cfg);
    publish (&"info") (&"recovered bundle " ++ rID rec ++ &" after restart").

Definition Stage (id document : bytes) : action sys berr bytes :=
  _ ← lift_res (validateBundleID id);
  cfg ← decode_or errBundleInvalidDocument document;
  let digest := digestText document in
  existing ← attempt (on_world (Get id));
  match existing with
  | Ok rec =>
      if negb (bool_decide (rDigest rec = digest)) then fail errBundleWrongState
      else
        _ ← (if bool_decide (rState rec = bundleStaged)
             then update (λ m, with_staged ({[id]} ∪ m_staged m) m) else mret tt);
        mret digest
  | Err errBundleNotFound =>
      t ← on_world now_unix;
      _ ← on_world (Put (BundleRecord 0 id bundleStaged digest document t 0 []));
      _ ← update (λ m, with_staged ({[id]} ∪ m_staged m) m);
      _ ← publish (&"info") (&"staged bundle " ++ id ++ &" (" ++ Itoa (len (cfg_Modules cfg)) ++ &" extensions)");
      mret digest
  | Err e => fail e
  end.

(** The superseded records but the one just replaced, with their activation times. *)
Fixpoint superseded_of (ids : list bytes) (justSuperseded : bytes) :
    action sys berr (list (bytes * Z)) :=
  match ids with
  | [] => mret []
  | id :: rest =>
      if bool_decide (id = justSuperseded) then superseded_of rest justSuperseded
      else
        r ← attempt (on_world (Get id));
        others ← superseded_of rest justSuperseded;
        mret match r with
             | Ok rec => if bool_decide (rState rec = bundleSuperseded)
                         then (id, rActivatedAt rec) :: others else others
             | Err _ => others
             end
  end.

(** Deletes in order and stops at the first failure. *)
Fixpoint prune_list (ids : list bytes) : action sys berr unit :=
  match ids with
  | [] => mret tt
  | id :: rest =>
      r ← attempt (on_world (Delete id));
      match r with
      | Err _ => publish (&"warn") (&"could not prune superseded bundle " ++ id)
      | Ok _ => _ ← publish (&"info") (&"pruned superseded bundle " ++ id); prune_list rest
      end
  end.

Definition pruneSuperseded (justSuperseded : bytes) : action sys berr unit :=
  r ← attempt (on_world List_);
  match r with
  | Err _ => publish (&"warn") (&"could not list bundles to prune")
  | Ok ids =>
      let older := (bundleRetainedGenerations - 1)%nat in
      activated ← superseded_of ids justSuperseded;
      if bool_decide (length activated <= older)%nat then mret tt
      else prune_list (drop older (map fst (merge_sort prune_before activated)))
  end.

(** Marks the bundle a commit replaced; a failure is only reported. *)
Definition supersede (current : bytes) : action sys berr unit :=
  if bool_decide (current = []) then mret tt
  else
    prev ← attempt (on_world (Get current));
    match prev with
    | Err _ => mret tt
    | Ok prev =>
        r ← attempt (on_world (Put (with_state bundleSuperseded prev)));
        match r with
        | Ok _ => mret tt
        | Err _ => publish (&"warn") (&"could not mark " ++ current ++ &" superseded")
        end
    end.

Definition Commit (id expectedActive : bytes) : action sys berr bytes :=
  m ← the_manager;
  let current := ActiveID m in
  if bool_decide (current = id) then mret (ActiveDigest m)
  else if negb (bool_decide (current = expectedActive)) then fail errBundleConflict
  else
    rec ← on_world (Get id);
    cfg ← decode_or errBundleInvalidDocument (rDocument rec);
    t ← on_world now_unix;
    let rec := activated t rec in
    _ ← on_world (Put rec);
    _ ← on_world (SetPointer (BundlePointer 0 id current 0 []));
    _ ← supersede current;
    _ ← update (setActive id (rDigest rec) cfg);
    _ ← update (λ m, with_generation (u64 (m_generation m + 1)) m);
    _ ← update (λ m, with_staged (m_staged m ∖ {[id]}) m);
    m ← the_manager;
    _ ← publish (&"info") (&"committed bundle " ++ id ++ &" as generation " ++ Itoa (m_generation m));
    _ ← pruneSuperseded current;
    mret (rDigest rec).

Definition Abort_ (id : bytes) : action sys berr unit :=
  m ← the_manager;
  if bool_decide (ActiveID m = id) then fail errBundleWrongState
  else
    rec ← on_world (Get id);
    if bool_decide (rState rec = bundleActive) then fail errBundleWrongState
    else
      _ ← update (λ m, with_staged (m_staged m ∖ {[id]}) m);
      on_world (Delete id).

Definition Purge : action sys berr unit :=
  _ ← update (λ m, Manager None (Some []) (Some []) (m_migrated m) (m_instanceID m) 0 ∅ (m_allocs m));
  _ ← publish (&"warn") (&"purged all bundle state");
  on_world PurgeStore.

Record bundleReadback := Readback_ {
  rb_Schema : Z;
  rb_InstanceID : bytes;
  rb_ActiveBundle : bytes;
  rb_ActiveDigest : bytes;
  rb_Generation : Z;
  rb_MasterEnabled : bool;
  rb_Extensions : Z;
  rb_CaptureHosts : Z;
  rb_Staged : gset bytes;
  rb_Stored : list bytes;
  rb_Version : bytes;
  rb_DroppedLogs : Z;
}.

(** [dropped] is the hub's count, when there is a hub. *)
Definition Readback (version : bytes) (dropped : option Z) : action sys berr bundleReadback :=
  m ← the_manager;
  stored ← attempt (on_world List_);
  let cfg := ptr_cfg <$> m_active m in
  mret (Readback_ bundleStoreSchema (m_instanceID m) (ActiveID m) (ActiveDigest m)
    (match cfg with Some _ => m_generation m | None => 0 end)
    (match cfg with Some c => mitm_Enabled (cfg_MITM c) | None => false end)
    (match cfg with Some c => len (cfg_Modules c) | None => 0 end)
    (match cfg with
     | Some c => Z.of_nat (size (list_to_set (concat (map mod_CaptureHosts (cfg_Modules c))) : gset bytes))
     | None => 0 end)
    (m_staged m) (match stored with Ok ids => ids | Err _ => [] end) version (default 0 dropped)).

Record pluginStatus := PluginStatus {
  pl_ID : bytes;
  pl_Name : bytes;
  pl_Version : bytes;
  pl_Enabled : bool;
  pl_CaptureHosts : list bytes;
  pl_Actions : Z;
  pl_Settings : Z;
  pl_Network : bool;
  pl_EgressGroup : bytes;
  pl_Order : Z;
}.

(** [order[id] = i] for each position: the last position of an id wins. *)
Definition order_map (order : list bytes) : gmap bytes Z :=
  fold_left (λ acc p, <[p.2 := Z.of_nat p.1]> acc) (imap (λ i x, (i, x)) order) ∅.

Definition Plugins (m : manager) : bytes * list pluginStatus :=
  match m_active m with
  | None => (ActiveID m, [])
  | Some p =>
      let order := order_map (default [] (cfg_ExecutionOrder (ptr_cfg p))) in
      (ActiveID m,
       map (λ mo, PluginStatus (mod_ID mo) (mod_Name mo) (mod_Version mo) (mod_Enabled mo)
                    (mod_CaptureHosts mo) (len (mod_Scripts mo)) (len (mod_Settings mo))
                    (mod_Network mo) (mod_EgressGroup mo) (default 0 (order !! mod_ID mo)))
         (cfg_Modules (ptr_cfg p)))
  end.
End manager.

(** ** Reasoning about crashes

    [wpc P m s Φ]: every disk the run of [m] from [s] passes through satisfies
    the crash invariant [P], and its result and final state satisfy [Φ]. *)
Definition wpc {E A} (P : disk → Prop) (m : action sys E A) (s : sys)
    (Φ : res E A → sys → Prop) : Prop :=
  (∃ tr, w_trace (s_world (m s).2) = tr ++ w_trace (s_world s) ∧ Forall P tr)
  ∧ Φ (m s).1 (m s).2.

Section wpc.
Context {E : Type} (P : disk → Prop).

Lemma wpc_ret {A} (a : A) s (Φ : res E A → sys → Prop) : Φ (Ok a) s → wpc P (mret a) s Φ.
Proof. intros HΦ. split; [by exists [] | done]. Qed.

Lemma wpc_fail {A} (e : E) s (Φ : res E A → sys → Prop) : Φ (Err e) s → wpc P (fail e) s Φ.
Proof. intros HΦ. split; [by exists [] | done]. Qed.

Lemma wpc_lift {A} (r : res E A) s (Φ : res E A → sys → Prop) : Φ r s → wpc P (lift_res r) s Φ.
Proof. intros HΦ. split; [by exists [] | done]. Qed.

Lemma wpc_update f s (Φ : res E unit → sys → Prop) :
  Φ (Ok tt) (Sys (f (s_mgr s)) (s_world s)) → wpc P (update f) s Φ.
Proof. intros HΦ. split; [by exists [] | done]. Qed.

Lemma wpc_the_manager s (Φ : res E manager → sys → Prop) :
  Φ (Ok (s_mgr s)) s → wpc P the_manager s Φ.
Proof. intros HΦ. split; [by exists [] | done]. Qed.

Lemma wpc_bind {A B} (m : action sys E A) (f : A → action sys E B) s Φ :
  wpc P m s (λ r s', match r with Ok a => wpc P (f a) s' Φ | Err e => Φ (Err e) s' end) →
  wpc P (m ≫= f) s Φ.
Proof.
  unfold wpc, mbind, action_bind. intros [(tr & Et & F) HΦ].
  destruct (m s) as [[a|e] s']; simpl in *; [|by split; [exists tr|]].
  destruct HΦ as [(tr' & Et' & F') HΦ]. split; [|done]. exists (tr' ++ tr).
  rewrite Et', Et, app_assoc. split; [done|]. by apply Forall_app.
Qed.

Lemma wpc_attempt {E' A} (m : action sys E' A) s (Φ : res E (res E' A) → sys → Prop) :
  wpc P m s (λ r s', Φ (Ok r) s') → wpc P (attempt m) s Φ.
Proof. unfold wpc, attempt. by destruct (m s). Qed.

Lemma wpc_mono {A} (m : action sys E A) s (Φ Ψ : res E A → sys → Prop) :
  (∀ r s', Φ r s' → Ψ r s') → wpc P m s Φ → wpc P m s Ψ.
Proof. intros HΦ [Ht HP]. split; auto. Qed.

(** A store operation whose effect on the disk is known. *)
Lemma wpc_on_world {A} Q (m : action world E A) s (Φ : res E A → sys → Prop) :
  steps Q (s_world s) (m (s_world s)).2 →
  (∀ d, Q (w_disk (s_world s)) d → P d) →
  (∀ w', w' = (m (s_world s)).2 → Q (w_disk (s_world s)) (w_disk w') →
         w_clock w' = w_clock (s_world s) → Φ (m (s_world s)).1 (Sys (s_mgr s) w')) →
  wpc P (on_world m) s Φ.
Proof.
  intros (tr & Et & F & HL & HC) HQ HΦ. unfold wpc, on_world.
  specialize (HΦ _ eq_refl HL HC). destruct (m (s_world s)) as [r w']. simpl in *.
  split; [|done]. exists tr. split; [done|]. eapply Forall_impl; [exact F|]. auto.
Qed.
End wpc.

Lemma wpc_trace {E A} P (m : action sys E A) s Φ during d :
  wpc P m s Φ → w_trace (s_world (m s).2) = during ++ w_trace (s_world s) →
  d ∈ during → P d.
Proof.
  intros [(tr & Et & F) _] Ed Hin. rewrite Et in Ed. apply app_inv_tail in Ed as ->.
  by apply (proj1 (Forall_forall _ _) F).
Qed.

(** ** What a start of the process would serve *)
Section manager_facts.
Context `{Codec bundleRecord, Codec bundlePointer, Codec bundleStoreMeta} {D : ConfigDecoder}.

(** The record of [id] is active on the disk and holds this configuration. *)
Definition holds (d : disk) (id digest : bytes) (cfg : Config) : Prop :=
  ∃ rec, read_record d id = Ok rec ∧ rState rec = bundleActive ∧ rDigest rec = digest
         ∧ decodeConfig (rDocument rec) = Ok cfg.

(** The pointer names an active bundle, or none. *)
Definition bootable (d : disk) (serves : option (bytes * bytes * Config)) : Prop :=
  ∃ p, read_pointer d = Ok p ∧
       match serves with
       | None => pActive p = []
       | Some (id, digest, cfg) => pActive p = id ∧ id ≠ [] ∧ holds d id digest cfg
       end.

(** What the running process serves is on the disk, and is not staged. *)
Definition serving (m : manager) (d : disk) : Prop :=
  match m_active m with
  | None => ActiveID m = []
  | Some p => holds d (ActiveID m) (ActiveDigest m) (ptr_cfg p) ∧ ActiveID m ∉ m_staged m
              ∧ m_migrated m = true
  end.

Definition clock_ok (w : world) : Prop := ∀ n, int64 (w_clock w n).

Definition Inv (s : sys) : Prop :=
  (∃ b, bootable (w_disk (s_world s)) b) ∧ serving (s_mgr s) (w_disk (s_world s))
  ∧ clock_ok (s_world s).

Lemma holds_same d d' id digest cfg :
  read_record d' id = read_record d id → holds d id digest cfg → holds d' id digest cfg.
Proof. unfold holds. by intros ->. Qed.

Lemma bootable_same d d' b :
  (∀ id, read_record d' id = read_record d id) → read_pointer d' = read_pointer d →
  bootable d b → bootable d' b.
Proof.
  unfold bootable, holds. intros Hr ->. destruct b as [[[id dg] cfg]|]; [by rewrite Hr | done].
Qed.

Lemma holds_valid d id digest cfg : CodecLaws bundleRecord record_wf →
  holds d id digest cfg → validateBundleID id = Ok tt ∧ id ≠ [].
Proof.
  intros HL (rec & Hr & _). apply read_record_Ok in Hr as (Hv & _).
  split; [done|]. by intros ->.
Qed.

(** *** Rules for the store's reading operations, the clock and the log *)
Lemma wpc_Get P id s (Φ : res berr bundleRecord → sys → Prop) :
  P (w_disk (s_world s)) →
  (∀ w' rec, w_disk w' = w_disk (s_world s) → w_clock w' = w_clock (s_world s) →
     read_record (w_disk (s_world s)) id = Ok rec → Φ (Ok rec) (Sys (s_mgr s) w')) →
  (∀ w' e, w_disk w' = w_disk (s_world s) → w_clock w' = w_clock (s_world s) →
     (e = errBundleNotFound → read_record (w_disk (s_world s)) id = Err e) →
     Φ (Err e) (Sys (s_mgr s) w')) →
  wpc P (on_world (Get id)) s Φ.
Proof.
  intros HP Hok Herr. eapply wpc_on_world; [apply Get_safe | by intros d -> |].
  intros w' _ Hd Hc. destruct (Get id (s_world s)).1 as [rec|e] eqn:E.
  - apply Hok; [done..|]. by apply Get_Ok.
  - apply Herr; [done..|]. intros ->. destruct (Get_run id (s_world s)) as [E'|E']; congruence.
Qed.

Lemma wpc_now P s (Φ : res berr Z → sys → Prop) :
  (∀ w' n, w_disk w' = w_disk (s_world s) → w_clock w' = w_clock (s_world s) →
     Φ (Ok (w_clock (s_world s) n)) (Sys (s_mgr s) w')) →
  wpc P (on_world now_unix) s Φ.
Proof. intros HΦ. split; [by exists [] | by apply HΦ]. Qed.

Lemma wpc_publish P level text s (Φ : res berr unit → sys → Prop) :
  (∀ w', w_disk w' = w_disk (s_world s) → w_clock w' = w_clock (s_world s) →
     Φ (Ok tt) (Sys (s_mgr s) w')) →
  wpc P (publish level text) s Φ.
Proof. intros HΦ. split; [by exists [] | by apply HΦ]. Qed.

Context {RL : CodecLaws bundleRecord record_wf} {PL : CodecLaws bundlePointer pointer_wf}.

Lemma wpc_Put P rec s (Φ : res berr unit → sys → Prop) :
  let d := w_disk (s_world s) in
  let r := stamp_record rec in
  record_wf r →
  (∀ d', only_record (rID rec) r d d' → P d') →
  (∀ w', only_record (rID rec) r d (w_disk w') → w_clock w' = w_clock (s_world s) →
     read_record (w_disk w') (rID rec) = Ok r → Φ (Ok tt) (Sys (s_mgr s) w')) →
  (∀ w' e, only_record (rID rec) r d (w_disk w') → w_clock w' = w_clock (s_world s) →
     Φ (Err e) (Sys (s_mgr s) w')) →
  wpc P (on_world (Put rec)) s Φ.
Proof.
  intros d r Hwf HP Hok Herr. destruct (Put_steps rec (s_world s) Hwf) as [Hs Hr].
  eapply wpc_on_world; [exact Hs | done |]. intros w' -> Hd Hc.
  destruct (Put rec (s_world s)) as [[[]|e] w']; simpl in *; auto.
Qed.

Lemma wpc_SetPointer P p s (Φ : res berr unit → sys → Prop) :
  let d := w_disk (s_world s) in
  let q := stamp_pointer p (w_clock (s_world s) (w_tick (s_world s))) in
  pointer_wf q →
  (∀ d', only_pointer q d d' → P d') →
  (∀ w', only_pointer q d (w_disk w') → w_clock w' = w_clock (s_world s) →
     read_pointer (w_disk w') = Ok q → Φ (Ok tt) (Sys (s_mgr s) w')) →
  (∀ w' e, only_pointer q d (w_disk w') → w_clock w' = w_clock (s_world s) →
     Φ (Err e) (Sys (s_mgr s) w')) →
  wpc P (on_world (SetPointer p)) s Φ.
Proof.
  intros d q Hwf HP Hok Herr. destruct (SetPointer_steps p (s_world s) Hwf) as [Hs Hr].
  eapply wpc_on_world; [exact Hs | done |]. intros w' -> Hd Hc.
  destruct (SetPointer p (s_world s)) as [[[]|e] w']; simpl in *; auto.
Qed.

Lemma wpc_Delete P id s (Φ : res berr unit → sys → Prop) :
  (∀ d', only_removed id (w_disk (s_world s)) d' → P d') →
  (∀ r w', only_removed id (w_disk (s_world s)) (w_disk w') →
     w_clock w' = w_clock (s_world s) → Φ r (Sys (s_mgr s) w')) →
  wpc P (on_world (Delete id)) s Φ.
Proof.
  intros HP HΦ. eapply wpc_on_world; [apply Delete_steps | done |]. auto.
Qed.

#[local] Instance only_removed_preorder id : PreOrder (only_removed id).
Proof. split; [done|]. intros d1 d2 d3 [A1 B1] [A2 B2]. split; [intros; by rewrite A2, A1 | congruence]. Qed.

Lemma only_record_removed id r d d' : only_record id r d d' → only_removed id d d'.
Proof. intros (? & _ & ? & _). by split. Qed.

Lemma record_wf_restate rec st t :
  record_wf rec → int64 t → ValidString st = true →
  record_wf (stamp_record (BundleRecord (rSchema rec) (rID rec) st (rDigest rec) (rDocument rec)
                             (rStagedAt rec) t (rRecordDigest rec))).
Proof.
  intros (? & ? & ? & ? & ? & ? & ? & _) ??. unfold record_wf. simpl.
  split; [by unfold int64, bundleStoreSchema|]. split_and!; [done.. | apply Sum256_text_valid].
Qed.

(** Marking the replaced bundle touches nothing but its own record. *)
Lemma supersede_wpc P current s (Φ : res berr unit → sys → Prop) :
  let Q := only_removed current (w_disk (s_world s)) in
  (∀ d, Q d → P d) →
  (∀ w', Q (w_disk w') → w_clock w' = w_clock (s_world s) → Φ (Ok tt) (Sys (s_mgr s) w')) →
  wpc P (supersede current) s Φ.
Proof.
  intros Q HP HΦ. unfold supersede. case_bool_decide; [apply wpc_ret; destruct s; by apply HΦ|].
  apply wpc_bind, wpc_attempt, wpc_Get; [by apply HP|intros w1 rec Hd Hc Hr|intros w1 e Hd Hc _].
  2: { apply wpc_ret, HΦ; [|done]. unfold Q. by rewrite Hd. }
  apply read_record_Ok in Hr as (_ & Hid & _ & _ & Hwf).
  assert (∀ d', only_record current (stamp_record (with_state bundleSuperseded rec)) (w_disk w1) d' → Q d') as HQ.
  { intros d' Ho%only_record_removed. rewrite Hd in Ho. done. }
  rewrite <- Hid in HQ.
  apply wpc_bind, wpc_attempt, wpc_Put; simpl.
  - apply record_wf_restate; [done | apply Hwf | by vm_compute].
  - auto.
  - intros w2 Ho Hc2 _. apply wpc_ret, HΦ; [auto | congruence].
  - intros w2 e Ho Hc2. apply wpc_publish. intros w3 Hd3 Hc3. simpl in *.
    apply HΦ; [rewrite Hd3; auto | congruence].
Qed.

(** *** Pruning *)
Lemma superseded_of_wpc P ids just s (Φ : res berr (list (bytes * Z)) → sys → Prop) :
  P (w_disk (s_world s)) →
  (∀ w' l, w_disk w' = w_disk (s_world s) → w_clock w' = w_clock (s_world s) →
     (∀ id t, (id, t) ∈ l → id ∈ ids ∧ id ≠ just ∧ ∃ rec, read_record (w_disk w') id = Ok rec
        ∧ rState rec = bundleSuperseded ∧ rActivatedAt rec = t) →
     Φ (Ok l) (Sys (s_mgr s) w')) →
  wpc P (superseded_of ids just) s Φ.
Proof.
  revert s Φ. induction ids as [|id ids IH]; intros s Φ HP HΦ; simpl.
  - apply wpc_ret. destruct s. apply HΦ; [done..|]. intros ?? Hin. by apply elem_of_nil in Hin.
  - case_bool_decide as Hj.
    { apply IH; [done|]. intros w' l Hd Hc Hl. apply HΦ; [done..|].
      intros i t Hin. destruct (Hl i t Hin) as (? & ? & ?). split; [by right | done]. }
    apply wpc_bind, wpc_attempt, wpc_Get; [done|intros w1 rec Hd Hc Hr|intros w1 e Hd Hc _];
      (apply wpc_bind, IH; [simpl; by rewrite Hd|]); simpl; intros w2 l Hd2 Hc2 Hl;
      apply wpc_ret, HΦ; try congruence.
    + rewrite <- Hd, <- Hd2 in Hr. intros i t Hin. case_bool_decide; [apply elem_of_cons in Hin as [Hin|Hin]|].
      * injection Hin as -> ->. split; [left|]. eauto.
      * destruct (Hl i t Hin) as (? & ? & ?). split; [by right | done].
      * destruct (Hl i t Hin) as (? & ? & ?). split; [by right | done].
    + intros i t Hin. destruct (Hl i t Hin) as (? & ? & ?). split; [by right | done].
Qed.

(** Only the records of [ids] may be gone. *)
Definition removed_among (ids : list bytes) (d d' : disk) : Prop :=
  (∀ id, id ∉ ids → read_record d' id = read_record d id) ∧ read_pointer d' = read_pointer d.

Lemma removed_among_cons id ids d d1 d2 :
  only_removed id d d1 → removed_among ids d1 d2 → removed_among (id :: ids) d d2.
Proof.
  intros [A1 B1] [A2 B2]. split; [|congruence]. intros i Hi. apply not_elem_of_cons in Hi as [? ?].
  by rewrite A2, A1.
Qed.

Lemma prune_list_wpc P ids s (Φ : res berr unit → sys → Prop) :
  let Q := removed_among ids (w_disk (s_world s)) in
  (∀ d, Q d → P d) →
  (∀ w', Q (w_disk w') → w_clock w' = w_clock (s_world s) → Φ (Ok tt) (Sys (s_mgr s) w')) →
  wpc P (prune_list ids) s Φ.
Proof.
  revert s Φ. induction ids as [|id ids IH]; intros s Φ Q HP HΦ; simpl.
  - apply wpc_ret. destruct s. by apply HΦ.
  - assert (∀ d1, only_removed id (w_disk (s_world s)) d1 → Q d1) as Hone.
    { intros d1 Hd. eapply removed_among_cons; [exact Hd|]. by split. }
    apply wpc_bind, wpc_attempt, wpc_Delete; [auto|]. intros [[]|e] w1 Hd1 Hc1.
    + apply wpc_bind, wpc_publish. simpl. intros w2 Hd2 Hc2. rewrite <- Hd2 in Hd1.
      apply IH; simpl.
      * intros d Hd. apply HP. by eapply removed_among_cons.
      * intros w3 Hd3 Hc3. apply HΦ; [by eapply removed_among_cons | congruence].
    + apply wpc_publish. simpl. intros w2 Hd2 Hc2. apply HΦ; [rewrite Hd2; auto | congruence].
Qed.

(** A sweep may remove superseded records other than the one just replaced, and
    nothing else. *)
Definition swept (just : bytes) (d d' : disk) : Prop :=
  read_pointer d' = read_pointer d ∧
  ∀ id, (id = just ∨ ∀ rec, read_record d id = Ok rec → rState rec ≠ bundleSuperseded) →
        read_record d' id = read_record d id.

Lemma pruneSuperseded_wpc P just s (Φ : res berr unit → sys → Prop) :
  let Q := swept just (w_disk (s_world s)) in
  (∀ d, Q d → P d) →
  (∀ w', Q (w_disk w') → w_clock w' = w_clock (s_world s) → Φ (Ok tt) (Sys (s_mgr s) w')) →
  wpc P (pruneSuperseded just) s Φ.
Proof.
  intros Q HP HΦ. assert (Q (w_disk (s_world s))) as HQ by by split. unfold pruneSuperseded.
  apply wpc_bind, wpc_attempt, (wpc_on_world _ same_files); [apply List_safe | intros d ->; auto |].
  intros w1 _ Hd1 Hc1. unfold same_files in Hd1. destruct (List_ (s_world s)).1 as [ids|e].
  2: { apply wpc_publish. simpl. intros w2 Hd2 Hc2. apply HΦ; [by rewrite Hd2, Hd1 | congruence]. }
  apply wpc_bind, superseded_of_wpc; simpl; [rewrite Hd1; auto|]. intros w2 l Hd2 Hc2 Hl.
  case_bool_decide; [apply wpc_ret, HΦ; [by rewrite Hd2, Hd1 | congruence]|].
  assert (∀ d', removed_among (drop 2 (map fst (merge_sort prune_before l))) (w_disk w2) d' → Q d') as Hsw.
  { rewrite Hd2, Hd1 in *. intros d' [Hk Hp]. split; [done|]. intros id Hid. apply Hk. intros Hin.
    apply elem_of_drop_in, list_elem_of_In, in_map_iff in Hin as ([i t] & <- & Hin).
    apply list_elem_of_In in Hin. rewrite merge_sort_Permutation in Hin.
    destruct (Hl i t Hin) as (_ & Hj & rec & Hr & Hs & _). simpl in *. destruct Hid as [->|Hid]; [done|].
    by eapply Hid. }
  apply prune_list_wpc; simpl; [auto|]. intros w3 Hd3 Hc3. apply HΦ; [auto | congruence].
Qed.

(** *** Commit *)
Lemma wpc_decode_or P e document s (Φ : res berr Config → sys → Prop) :
  (∀ cfg, decodeConfig document = Ok cfg → Φ (Ok cfg) s) → Φ (Err e) s →
  wpc P (decode_or e document) s Φ.
Proof.
  intros Hok Herr. unfold decode_or. destruct (decodeConfig document) as [cfg|];
    [apply wpc_ret; auto | by apply wpc_fail].
Qed.

(** Rewriting a record as active keeps what it holds. *)
Lemma holds_activated d d' id rec t i digest cfg :
  read_record d id = Ok rec → only_record id (stamp_record (activated t rec)) d d' →
  holds d i digest cfg → holds d' i digest cfg.
Proof.
  intros Hr (Hother & Hown & _) Hh. destruct (decide (i = id)) as [->|Hne].
  - destruct Hh as (rec' & Hr' & Hs & Hd & Hc). rewrite Hr in Hr'. injection Hr' as <-.
    destruct Hown as [E|E]; [exists rec; by rewrite E, Hr | by eexists].
  - eapply holds_same; [|exact Hh]. auto.
Qed.

Lemma bootable_activated d d' id rec t b :
  read_record d id = Ok rec → only_record id (stamp_record (activated t rec)) d d' →
  bootable d b → bootable d' b.
Proof.
  intros Hr Ho (p & Hp & Hb). exists p. split; [by destruct Ho as (_ & _ & -> & _)|].
  destruct b as [[[i dg] cfg]|]; [|done]. destruct Hb as (? & ? & Hh).
  split; [done|]. split; [done|]. by eapply holds_activated.
Qed.

(** The reading of a bundle that a sweep or a mark leaves alone. *)
Lemma bootable_others d d' id digest cfg :
  read_pointer d' = read_pointer d → read_record d' id = read_record d id →
  bootable d (Some (id, digest, cfg)) → bootable d' (Some (id, digest, cfg)).
Proof. unfold bootable, holds. by intros -> ->. Qed.

Lemma swept_holds just d d' id digest cfg :
  swept just d d' → holds d id digest cfg → read_record d' id = read_record d id.
Proof.
  intros [_ Hsw] (rec & Hr & Hs & _). apply Hsw. right. intros rec' Hr'.
  rewrite Hr in Hr'. injection Hr' as <-. rewrite Hs. by vm_compute.
Qed.

Definition committed (id digest : bytes) (cfg : Config) (m : manager) : manager :=
  with_staged (m_staged m ∖ {[id]}) (with_generation (u64 (m_generation m + 1)) (setActive id digest cfg m)).

(** A start from [d] serves what a start from [d0] would, or the bundle [id] of [d0]. *)
Definition old_or_new (d0 : disk) (b0 : option (bytes * bytes * Config)) (id : bytes) (d : disk) : Prop :=
  bootable d b0 ∨
  ∃ rec cfg, read_record d0 id = Ok rec ∧ decodeConfig (rDocument rec) = Ok cfg
             ∧ bootable d (Some (id, rDigest rec, cfg)).

Definition commit_post (id expected : bytes) (s : sys) (r : res berr bytes) (s' : sys) : Prop :=
  let m := s_mgr s in
  match r with
  | Err _ => s_mgr s' = m
  | Ok digest =>
      (s' = s ∧ ActiveID m = id ∧ digest = ActiveDigest m)
      ∨ (ActiveID m = expected ∧ ActiveID m ≠ id
         ∧ ∃ rec cfg, read_record (w_disk (s_world s)) id = Ok rec
             ∧ decodeConfig (rDocument rec) = Ok cfg ∧ digest = rDigest rec
             ∧ bootable (w_disk (s_world s')) (Some (id, digest, cfg))
             ∧ s_mgr s' = committed id digest cfg m)
  end.

Lemma serving_keeps m d d' :
  (∀ i dg cfg, i = ActiveID m → holds d i dg cfg → holds d' i dg cfg) →
  serving m d → serving m d'.
Proof.
  unfold serving. destruct (m_active m) as [p|]; [|done]. intros Hk (Hh & ? & ?).
  split; [|done]. by eapply Hk.
Qed.

(** The commit is followed for any property [Old] of the disk it starts from and any [Srv] of what the
    process serves that rewriting the record as active keeps. *)
Section commit.
Context (id expected : bytes) (s : sys) (Old Srv : disk → Prop).
Let d0 := w_disk (s_world s).
Context (Hold : Old d0) (Hsrv : Srv d0) (Hclock : clock_ok (s_world s)).
Context (Hprev : ValidString (ActiveID (s_mgr s)) = true).
Context (Old_same : ∀ d d', (∀ i, read_record d' i = read_record d i) → read_pointer d' = read_pointer d → Old d → Old d').
Context (Srv_same : ∀ d d', (∀ i, read_record d' i = read_record d i) → Srv d → Srv d').
Context (Old_activated : ∀ d rec t, read_record d0 id = Ok rec → only_record id (stamp_record (activated t rec)) d0 d → Old d).
Context (Srv_activated : ∀ d rec t, read_record d0 id = Ok rec → only_record id (stamp_record (activated t rec)) d0 d → Srv d).
Let P (d : disk) : Prop :=
  Old d ∨ ∃ rec cfg, read_record d0 id = Ok rec ∧ decodeConfig (rDocument rec) = Ok cfg
                     ∧ bootable d (Some (id, rDigest rec, cfg)).
Let Φ (r : res berr bytes) (s' : sys) : Prop :=
  commit_post id expected s r s' ∧ P (w_disk (s_world s'))
  ∧ (s_mgr s' = s_mgr s ∧ Srv (w_disk (s_world s')) ∨ serving (s_mgr s') (w_disk (s_world s')))
  ∧ clock_ok (s_world s').

(** After the pointer is written: the swap, the mark and the sweep. *)
Lemma commit_tail rec cfg w :
  ActiveID (s_mgr s) = expected → ActiveID (s_mgr s) ≠ id →
  read_record d0 id = Ok rec → decodeConfig (rDocument rec) = Ok cfg →
  bootable (w_disk w) (Some (id, rDigest rec, cfg)) → clock_ok w →
  wpc P (_ ← supersede (ActiveID (s_mgr s));
         _ ← update (setActive id (rDigest rec) cfg);
         _ ← update (λ m, with_generation (u64 (m_generation m + 1)) m);
         _ ← update (λ m, with_staged (m_staged m ∖ {[id]}) m);
         m ← the_manager;
         _ ← publish (&"info") (&"committed bundle " ++ id ++ &" as generation " ++ Itoa (m_generation m));
         _ ← pruneSuperseded (ActiveID (s_mgr s));
         mret (rDigest rec)) (Sys (s_mgr s) w) Φ.
Proof.
  intros Hcur Hne Hr Hdec Hb Hc.
  assert (∀ d, bootable d (Some (id, rDigest rec, cfg)) → P d) as HP by (right; eauto).
  apply wpc_bind, supersede_wpc; simpl.
  { intros d [Ho Hp]. apply HP. eapply bootable_others; [exact Hp | by apply Ho | exact Hb]. }
  intros w1 [Ho1 Hp1] Hc1.
  assert (bootable (w_disk w1) (Some (id, rDigest rec, cfg))) as Hb1.
  { eapply bootable_others; [exact Hp1 | by apply Ho1 | exact Hb]. }
  do 3 apply wpc_bind, wpc_update. apply wpc_bind, wpc_the_manager.
  apply wpc_bind, wpc_publish. simpl. intros w2 Hd2 Hc2. rewrite <- Hd2 in Hb1.
  assert (∀ d, swept (ActiveID (s_mgr s)) (w_disk w2) d → bootable d (Some (id, rDigest rec, cfg))) as Hsw.
  { intros d Hs. eapply bootable_others; [apply Hs| |exact Hb1].
    destruct Hb1 as (p & _ & _ & _ & Hh). by eapply swept_holds. }
  apply wpc_bind, pruneSuperseded_wpc; simpl; [auto|]. intros w3 Hd3 Hc3. apply wpc_ret.
  pose proof (Hsw _ Hd3) as Hb3. split; [|split; [by apply HP|split]].
  - right. split; [done|]. split; [done|]. exists rec, cfg. done.
  - right. destruct Hb3 as (p & _ & _ & _ & Hh). unfold serving. simpl. split; [done|]. split; [set_solver | done].
  - intros n. simpl. rewrite Hc3, Hc2, Hc1. apply Hc.
Qed.

(** From the record written active: the pointer write and what follows it. *)
Lemma commit_pointer rec cfg t w :
  ActiveID (s_mgr s) = expected → ActiveID (s_mgr s) ≠ id →
  read_record d0 id = Ok rec → decodeConfig (rDocument rec) = Ok cfg →
  Old (w_disk w) → Srv (w_disk w) →
  read_record (w_disk w) id = Ok (stamp_record (activated t rec)) → clock_ok w →
  wpc P (_ ← on_world (SetPointer (BundlePointer 0 id (ActiveID (s_mgr s)) 0 []));
         _ ← supersede (ActiveID (s_mgr s));
         _ ← update (setActive id (rDigest rec) cfg);
         _ ← update (λ m, with_generation (u64 (m_generation m + 1)) m);
         _ ← update (λ m, with_staged (m_staged m ∖ {[id]}) m);
         m ← the_manager;
         _ ← publish (&"info") (&"committed bundle " ++ id ++ &" as generation " ++ Itoa (m_generation m));
         _ ← pruneSuperseded (ActiveID (s_mgr s));
         mret (rDigest rec)) (Sys (s_mgr s) w) Φ.
Proof.
  intros Hcur Hne Hr Hdec Hb Hs Hr1 Hc.
  pose proof Hr as Hrr. apply read_record_Ok in Hrr as (Hv & _).
  set (q := stamp_pointer (BundlePointer 0 id (ActiveID (s_mgr s)) 0 []) (w_clock w (w_tick w))).
  assert (∀ d, read_pointer d = Ok q → (∀ i, read_record d i = read_record (w_disk w) i) →
            bootable d (Some (id, rDigest rec, cfg))) as Hnew.
  { intros d Hp Hk. eexists. split; [exact Hp|]. simpl. split; [done|]. split; [by intros ->|].
    exists (stamp_record (activated t rec)). by rewrite Hk. }
  assert (∀ d, only_pointer q (w_disk w) d → P d) as HP.
  { intros d (Hk & [Hp|Hp] & _); [left; by eapply Old_same|]. right. exists rec, cfg. auto. }
  apply wpc_bind, wpc_SetPointer; simpl.
  - split; [by unfold int64, bundleStoreSchema|]. split; [apply Hc|].
    split; [by apply bundle_id_valid|]. split; [done | apply Sum256_text_valid].
  - exact HP.
  - intros w4 (Hk & _) Hc4 Hp. apply commit_tail; try done; [by apply Hnew|].
    intros k. rewrite Hc4. apply Hc.
  - intros w4 e Ho Hc4. split; [done|]. simpl. split; [by apply HP|]. split.
    + left. split; [done|]. eapply Srv_same; [|exact Hs]. by apply Ho.
    + intros k. rewrite Hc4. apply Hc.
Qed.

Lemma Commit_run : wpc P (Commit id expected) s Φ.
Proof.
  assert (∀ w', w_disk w' = d0 → w_clock w' = w_clock (s_world s) →
            ∀ e, Φ (Err e) (Sys (s_mgr s) w')) as Hkeep.
  { intros w' Hd Hc e. unfold Φ, P. simpl. rewrite Hd. split; [done|]. split; [by left|].
    split; [by left|]. intros n. rewrite Hc. apply Hclock. }
  unfold Commit. apply wpc_bind, wpc_the_manager.
  case_bool_decide as Hid; [apply wpc_ret; split; [by left | split; [by left | split; [by left | done]]]|].
  case_bool_decide as Hcur; simpl; [|destruct s; by apply wpc_fail, Hkeep].
  apply wpc_bind, wpc_Get; [by left | intros w1 rec Hd1 Hc1 Hr | intros w1 e Hd1 Hc1 _; by apply Hkeep].
  apply wpc_bind, wpc_decode_or; [intros cfg Hdec | by apply Hkeep].
  apply wpc_bind, wpc_now. simpl. intros w2 n Hd2 Hc2.
  pose proof Hr as Hrr. apply read_record_Ok in Hrr as (Hv & Hrid & _ & _ & Hwf).
  assert (w_disk w2 = d0) as Hd by (by rewrite Hd2).
  set (t := w_clock w1 n) in *.
  apply wpc_bind, wpc_Put; simpl; rewrite ?Hd, ?Hrid.
  - apply record_wf_restate; [done | unfold t; rewrite Hc1; apply Hclock | by vm_compute].
  - intros d Ho. left. eauto.
  - intros w3 Ho3 Hc3 Hr3. eapply commit_pointer; eauto. intros k. rewrite Hc3, Hc2, Hc1. apply Hclock.
  - intros w3 e Ho3 Hc3. split; [done|]. simpl. split; [left; eauto|]. split; [left; eauto|].
    intros k. rewrite Hc3, Hc2, Hc1. apply Hclock.
Qed.
End commit.

Lemma serving_valid m d : serving m d → ValidString (ActiveID m) = true.
Proof.
  unfold serving. destruct (m_active m) as [p|]; [|by intros ->]. intros [Hh _].
  apply bundle_id_valid. by apply holds_valid in Hh as [? _].
Qed.

Lemma Commit_wpc id expected s b0 :
  bootable (w_disk (s_world s)) b0 → serving (s_mgr s) (w_disk (s_world s)) → clock_ok (s_world s) →
  wpc (old_or_new (w_disk (s_world s)) b0 id) (Commit id expected) s
    (λ r s', commit_post id expected s r s' ∧ old_or_new (w_disk (s_world s)) b0 id (w_disk (s_world s'))
             ∧ serving (s_mgr s') (w_disk (s_world s')) ∧ clock_ok (s_world s')).
Proof.
  intros Hb Hs Hc. eapply wpc_mono; [|apply (Commit_run id expected s (λ d, bootable d b0) (serving (s_mgr s)))]; try done.
  - intros r s' (? & ? & [[-> ?]|?] & ?); done.
  - by eapply serving_valid.
  - intros d d' Hr Hp. by apply bootable_same.
  - intros d d' Hr. apply serving_keeps. intros i dg cfg _. by apply holds_same.
  - intros d rec t Hr Ho. by eapply bootable_activated.
  - intros d rec t Hr Ho. eapply serving_keeps; [|exact Hs]. intros. by eapply holds_activated.
Qed.

(** *** Recover *)
Definition recovered (b : option (bytes * bytes * Config)) (m : manager) : manager :=
  match b with
  | None => m
  | Some (id, digest, cfg) => setActive id digest cfg (with_generation 1 m)
  end.

Lemma Recover_wpc s b :
  let d := w_disk (s_world s) in
  bootable d b →
  wpc (eq d) Recover s (λ r s', w_disk (s_world s') = d ∧ w_clock (s_world s') = w_clock (s_world s)
    ∧ match r with Ok _ => s_mgr s' = recovered b (s_mgr s) | Err _ => s_mgr s' = s_mgr s end).
Proof.
  intros d (p & Hp & Hb). unfold Recover.
  apply wpc_bind, (wpc_on_world _ same_files); [apply Pointer_safe | by intros d' -> |].
  intros w1 _ Hd1 Hc1. unfold same_files in Hd1. destruct (Pointer (s_world s)).1 as [q|e] eqn:E; [|done].
  assert (q = p) as ->. { destruct (Pointer_run (s_world s)) as [E'|E']; rewrite E' in E; [|done].
    unfold d in Hp. rewrite Hp in E. by injection E. }
  destruct b as [[[id dg] cfg]|]; [|rewrite Hb; by apply wpc_ret].
  destruct Hb as (<- & Hne & rec & Hr & _ & <- & Hdec). rewrite bool_decide_eq_false_2 by done.
  pose proof Hr as (_ & Hrid & _)%read_record_Ok.
  apply wpc_bind, wpc_Get; simpl; [by rewrite Hd1| |intros w2 e Hd2 Hc2 _; unfold d; split; [congruence | split; congruence]].
  intros w2 rec' Hd2 Hc2 Hr'. unfold d in Hr. rewrite Hd1, Hr in Hr'. injection Hr' as <-.
  apply wpc_bind, wpc_decode_or; [|unfold d; split; simpl; [congruence | split; congruence]].
  intros cfg' Hdec'. rewrite Hdec in Hdec'. injection Hdec' as <-.
  do 2 apply wpc_bind, wpc_update. apply wpc_publish. simpl. intros w3 Hd3 Hc3.
  unfold d. split; [congruence|]. split; [congruence|]. by rewrite Hrid.
Qed.

(** *** Stage *)
Definition staged_record (id document : bytes) (t : Z) : bundleRecord :=
  BundleRecord 0 id bundleStaged (digestText document) document t 0 [].

Lemma staged_record_wf id document t :
  validateBundleID id = Ok tt → int64 t → is_bytes document →
  record_wf (stamp_record (staged_record id document t)).
Proof.
  intros Hv Ht Hd. split; [by unfold int64, bundleStoreSchema|]. split; [done|].
  split; [by unfold int64|]. split; [by apply bundle_id_valid|].
  split; [by vm_compute|]. split; [apply digestText_valid|]. split; [done | apply Sum256_text_valid].
Qed.

(** Nothing readable changes; a new record may appear under [id]. *)
Definition only_added (id : bytes) (d d' : disk) : Prop :=
  (∀ id' rec, read_record d id' = Ok rec → read_record d' id' = Ok rec)
  ∧ (∀ id', id' ≠ id → read_record d' id' = read_record d id')
  ∧ read_pointer d' = read_pointer d
  ∧ (∀ rec, read_record d' id = Ok rec → read_record d id = Ok rec ∨ rState rec = bundleStaged).

Lemma only_added_same id d d' : d' = d → only_added id d d'.
Proof. intros ->. split; [done|]. split; [done|]. split; [done|]. by left. Qed.

Lemma only_record_added id r d d' :
  rState r = bundleStaged → read_record d id = Err errBundleNotFound → only_record id r d d' → only_added id d d'.
Proof.
  intros Hst Hn (Ho & Hown & Hp & _). split; [|split; [done|split; [done|]]].
  - intros id' rec Hr. rewrite Ho; [done|]. intros ->. congruence.
  - intros rec Hr. destruct Hown as [E|E]; [left; congruence|]. right. rewrite E in Hr. by injection Hr as <-.
Qed.

Definition stage_post (id document : bytes) (s : sys) (r : res berr bytes) (s' : sys) : Prop :=
  only_added id (w_disk (s_world s)) (w_disk (s_world s'))
  ∧ w_clock (s_world s') = w_clock (s_world s)
  ∧ match r with
    | Err _ => s_mgr s' = s_mgr s
    | Ok digest =>
        digest = digestText document
        ∧ ∃ rec, read_record (w_disk (s_world s')) id = Ok rec ∧ rDigest rec = digest
            ∧ (read_record (w_disk (s_world s)) id = Ok rec ∨ rDocument rec = document ∧ rState rec = bundleStaged)
            ∧ s_mgr s' = (if bool_decide (rState rec = bundleStaged)
                          then with_staged ({[id]} ∪ m_staged (s_mgr s)) (s_mgr s) else s_mgr s)
    end.

Lemma Stage_wpc id document s :
  clock_ok (s_world s) → is_bytes document →
  wpc (only_added id (w_disk (s_world s))) (Stage id document) s (stage_post id document s).
Proof.
  intros Hclock Hdoc.
  assert (∀ w', w_disk w' = w_disk (s_world s) → w_clock w' = w_clock (s_world s) →
            ∀ e, stage_post id document s (Err e) (Sys (s_mgr s) w')) as Hkeep.
  { intros w' Hd Hc e. unfold stage_post. simpl. split; [by apply only_added_same | done]. }
  unfold Stage. apply wpc_bind, wpc_lift. destruct (validateBundleID id) as [[]|e] eqn:Hv;
    [|destruct s; by apply Hkeep].
  apply wpc_bind, wpc_decode_or; [intros cfg Hdec | destruct s; by apply Hkeep].
  apply wpc_bind, wpc_attempt, wpc_Get; [by apply only_added_same|intros w1 rec Hd1 Hc1 Hr|intros w1 e Hd1 Hc1 He].
  - case_bool_decide as Hdg; simpl; [|by apply wpc_fail, Hkeep].
    apply wpc_bind.
    case_bool_decide as Hst; [apply wpc_update | apply wpc_ret]; apply wpc_ret; unfold stage_post; simpl;
      rewrite Hd1; (split; [by apply only_added_same|]; split; [done|]; split; [done|]); exists rec;
      (split; [done|]; split; [done|]; split; [by left|]).
    + by rewrite bool_decide_eq_true_2.
    + by rewrite bool_decide_eq_false_2.
  - destruct e; try by apply wpc_fail, Hkeep. specialize (He eq_refl).
    apply wpc_bind, wpc_now. simpl. intros w2 n Hd2 Hc2.
    set (rec := staged_record id document (w_clock w1 n)). fold rec.
    assert (∀ d, only_record id (stamp_record rec) (w_disk w2) d → only_added id (w_disk (s_world s)) d) as Had.
    { intros d Ho. rewrite Hd2, Hd1 in Ho. by eapply (only_record_added _ (stamp_record rec)). }
    assert (record_wf (stamp_record rec)) as Hwf.
    { apply staged_record_wf; [done | rewrite Hc1; apply Hclock | done]. }
    apply wpc_bind, (wpc_Put _ rec); [done | exact Had | |].
    + intros w3 Ho3 Hc3 Hr3. simpl in *. apply wpc_bind, wpc_update, wpc_bind, wpc_publish. simpl.
      intros w4 Hd4 Hc4. apply wpc_ret. unfold stage_post. simpl. rewrite Hd4.
      split; [auto|]. split; [congruence|]. split; [done|]. exists (stamp_record rec).
      split; [done|]. split; [done|]. split; [by right | done].
    + intros w3 e Ho3 Hc3. simpl in *. unfold stage_post. simpl. split; [auto|]. split; [congruence | done].
Qed.

(** *** Abort *)
Definition abort_post (id : bytes) (s : sys) (r : res berr unit) (s' : sys) : Prop :=
  only_removed id (w_disk (s_world s)) (w_disk (s_world s'))
  ∧ w_clock (s_world s') = w_clock (s_world s)
  ∧ (r = Ok tt → read_record (w_disk (s_world s')) id = Err errBundleNotFound)
  ∧ ((s_mgr s' = s_mgr s ∧ w_disk (s_world s') = w_disk (s_world s))
     ∨ s_mgr s' = with_staged (m_staged (s_mgr s) ∖ {[id]}) (s_mgr s)
       ∧ ActiveID (s_mgr s) ≠ id
       ∧ ∃ rec, read_record (w_disk (s_world s)) id = Ok rec ∧ rState rec ≠ bundleActive).

(** At most a record that is neither served nor active goes. *)
Definition abort_crash (id : bytes) (s : sys) (d : disk) : Prop :=
  d = w_disk (s_world s)
  ∨ only_removed id (w_disk (s_world s)) d ∧ ActiveID (s_mgr s) ≠ id
    ∧ ∃ rec, read_record (w_disk (s_world s)) id = Ok rec ∧ rState rec ≠ bundleActive.

Lemma Abort_wpc id s : wpc (abort_crash id s) (Abort_ id) s (abort_post id s).
Proof.
  assert (∀ w', w_disk w' = w_disk (s_world s) → w_clock w' = w_clock (s_world s) →
            ∀ e, abort_post id s (Err e) (Sys (s_mgr s) w')) as Hkeep.
  { intros w' Hd Hc e. unfold abort_post. simpl. rewrite Hd. split; [done|]. split; [done|]. split; [done|]. by left. }
  unfold Abort_. apply wpc_bind, wpc_the_manager.
  case_bool_decide as Hid; [destruct s; by apply wpc_fail, Hkeep|].
  apply wpc_bind, wpc_Get; [by left|intros w1 rec Hd1 Hc1 Hr|intros w1 e Hd1 Hc1 _; by apply Hkeep].
  case_bool_decide as Hst; [by apply wpc_fail, Hkeep|]. apply wpc_bind, wpc_update.
  eapply wpc_on_world; [apply Delete_steps | simpl |].
  - intros d Ho. rewrite Hd1 in Ho. right. eauto.
  - simpl. intros w2 -> Ho Hc2. rewrite Hd1 in Ho. unfold abort_post. simpl.
    split; [done|]. split; [congruence|]. split; [by apply Delete_Ok|]. right. eauto.
Qed.

(** *** The life of a deployment

    Requests in any order with any system call failing, and a crash at any
    point of a request followed by a start of the process.  A purge counts
    when it reports success. *)
Inductive request :=
| ReqStage (id document : bytes)
| ReqCommit (id expected : bytes)
| ReqAbort (id : bytes).

Definition request_ok (q : request) : Prop :=
  match q with ReqStage _ document => is_bytes document | _ => True end.

Definition serve (q : request) (s : sys) : sys :=
  match q with
  | ReqStage id document => (Stage id document s).2
  | ReqCommit id expected => (Commit id expected s).2
  | ReqAbort id => (Abort_ id s).2
  end.

(** A new process on the disk a crash left, with a clock and faults of its own. *)
Definition start (d : disk) (clock : nat → Z) (faults : nat → fault) (listening : bool)
    (unix_nano : Z) : sys :=
  (Recover (Sys (newBundleManager unix_nano) (World d clock 0 faults 0 [] listening []))).2.

Inductive step : sys → sys → Prop :=
| step_request q s : request_ok q → step s (serve q s)
| step_purge s : (Purge s).1 = Ok tt → step s (Purge s).2
| step_crash q s during d clock faults listening nano :
    request_ok q → w_trace (s_world (serve q s)) = during ++ w_trace (s_world s) →
    d ∈ w_disk (s_world s) :: during → (∀ n, int64 (clock n)) →
    step s (start d clock faults listening nano).

Lemma serving_readable m d d' :
  (∀ id rec, read_record d id = Ok rec → read_record d' id = Ok rec) →
  serving m d → serving m d'.
Proof.
  intros Hk. apply serving_keeps. intros i dg cfg _ (rec & Hr & ?). exists rec. auto.
Qed.

Lemma bootable_added id d d' b : only_added id d d' → bootable d b → bootable d' b.
Proof.
  intros (Hk & _ & Hp & _) (p & Hpd & Hb). exists p. rewrite Hp. split; [done|].
  destruct b as [[[i dg] cfg]|]; [|done]. destruct Hb as (? & ? & rec & ? & ?).
  split; [done|]. split; [done|]. exists rec. auto.
Qed.

Lemma bootable_removed id d d' rec b :
  only_removed id d d' → read_record d id = Ok rec → rState rec ≠ bundleActive →
  bootable d b → bootable d' b.
Proof.
  intros [Hk Hp] Hr Hs (p & Hpd & Hb). exists p. rewrite Hp. split; [done|].
  destruct b as [[[i dg] cfg]|]; [|done]. destruct Hb as (? & ? & Hh).
  split; [done|]. split; [done|]. eapply holds_same; [|exact Hh]. apply Hk. intros ->.
  destruct Hh as (rec' & ? & ? & _). congruence.
Qed.

(** What each request does to what a start would serve, at every crash point. *)
Lemma serve_crash q s b :
  request_ok q → bootable (w_disk (s_world s)) b → serving (s_mgr s) (w_disk (s_world s)) →
  clock_ok (s_world s) →
  (∀ during d, w_trace (s_world (serve q s)) = during ++ w_trace (s_world s) →
     d ∈ during → ∃ b', bootable d b')
  ∧ Inv (serve q s).
Proof.
  intros Hq Hb Hs Hc. destruct q as [id document|id expected|id]; simpl in *.
  - pose proof (Stage_wpc id document s Hc Hq) as Hw. split.
    + intros during d Ht Hin. exists b. by eapply bootable_added, Hb; eapply wpc_trace.
    + destruct Hw as [_ (Had & Hck & Hm)]. split; [exists b; by eapply bootable_added|].
      split; [|intros n; rewrite Hck; apply Hc].
      apply (serving_readable _ (w_disk (s_world s))); [apply Had|].
      destruct (Stage id document s).1 as [dg|e]; [|by rewrite Hm].
      destruct Hm as (_ & rec & Hr & _ & _ & ->). case_bool_decide as Hst; [|done].
      unfold serving in *. simpl. destruct (m_active (s_mgr s)) as [p|]; [|done].
      destruct Hs as (Hh & Hn & ?). split; [done|]. split; [|done]. unfold ActiveID in *. simpl in *.
      apply not_elem_of_union. split; [|done]. intros Hin%elem_of_singleton.
      destruct Hh as (rec' & Hr' & Hact & _). apply Had in Hr'. rewrite Hin in Hr'.
      rewrite Hr in Hr'. injection Hr' as <-. by rewrite Hst in Hact.
  - pose proof (Commit_wpc id expected s b Hb Hs Hc) as Hw.
    assert (∀ d, old_or_new (w_disk (s_world s)) b id d → ∃ b', bootable d b') as Hon.
    { intros d [?|(? & ? & _ & _ & ?)]; eauto. }
    split; [intros during d Ht Hin; by eapply Hon, wpc_trace|].
    destruct Hw as [_ (_ & HP & ? & ?)]. split; auto.
  - pose proof (Abort_wpc id s) as Hw. split.
    + intros during d Ht Hin. exists b. destruct (wpc_trace _ _ _ _ _ _ Hw Ht Hin)
        as [->|(Ho & _ & rec & Hr & Hst)]; [done|]. by eapply bootable_removed.
    + destruct Hw as [_ (Ho & Hck & _ & Hm)]. split; [exists b|split; [|intros n; rewrite Hck; apply Hc]].
      * destruct Hm as [[_ ->]|(_ & _ & rec & Hr & Hst)]; [done|]. by eapply bootable_removed.
      * destruct Hm as [[-> ->]|(-> & Hne & rec & Hr & Hst)]; [done|].
        apply (serving_keeps (with_staged (m_staged (s_mgr s) ∖ {[id]}) (s_mgr s)) (w_disk (s_world s))).
        { intros i dg cfg -> Hh. eapply holds_same; [|exact Hh]. by apply Ho. }
        unfold serving in *. simpl. destruct (m_active (s_mgr s)) as [p|]; [|done].
        destruct Hs as (? & Hn & ?). split; [done|]. split; [|done]. unfold ActiveID in *. simpl. set_solver.
Qed.

Lemma start_Inv d clock faults listening nano b :
  bootable d b → (∀ n, int64 (clock n)) → Inv (start d clock faults listening nano).
Proof.
  intros Hb Hc. unfold start.
  set (s := Sys (newBundleManager nano) (World d clock 0 faults 0 [] listening [])).
  destruct (Recover_wpc s b Hb) as [_ (Hd & Hck & Hm)]. split; [exists b; by rewrite Hd|].
  split; [|intros n; rewrite Hck; apply Hc]. rewrite Hd.
  destruct (Recover s).1 as [[]|e]; rewrite Hm; [|done]. destruct b as [[[id dg] cfg]|]; [|done].
  destruct Hb as (p & _ & _ & _ & Hh). unfold serving. simpl. split; [done|]. by split.
Qed.

Lemma Purge_run s :
  (Purge s).1 = Ok tt →
  s_mgr (Purge s).2 = Manager None (Some []) (Some []) (m_migrated (s_mgr s)) (m_instanceID (s_mgr s)) 0 ∅
                        (m_allocs (s_mgr s))
  ∧ w_clock (s_world (Purge s).2) = w_clock (s_world s)
  ∧ (∀ id rec, read_record (w_disk (s_world (Purge s).2)) id ≠ Ok rec)
  ∧ read_pointer (w_disk (s_world (Purge s).2)) = Ok empty_pointer.
Proof.
  unfold Purge, update, publish, publish_log, on_world, mbind, action_bind. simpl.
  match goal with |- context [PurgeStore ?w] => set (w1 := w) end.
  pose proof (PurgeStore_empties w1) as Hp. pose proof (PurgeStore_clock w1) as Hck.
  destruct (PurgeStore w1) as [r w2]. simpl in *. intros ->. destruct (Hp eq_refl) as (? & ? & _).
  auto.
Qed.

Lemma step_Inv s s' : Inv s → step s s' → Inv s'.
Proof.
  intros ([b Hb] & Hs & Hc) Hstep. destruct Hstep as [q s Hq|s Hp|q s during d clock faults l nano Hq Ht Hin Hck].
  - by eapply serve_crash.
  - destruct (Purge_run s Hp) as (Hm & Hck & _ & Hptr). split; [|split].
    + exists None, empty_pointer. done.
    + unfold serving. by rewrite Hm.
    + intros n. rewrite Hck. apply Hc.
  - apply elem_of_cons in Hin as [->|Hin]; [by eapply start_Inv|].
    destruct (serve_crash q s b) as [Hcr _]; [done..|]. destruct (Hcr during d Ht Hin) as [b' Hb'].
    by eapply start_Inv.
Qed.
End manager_facts.
