(* ===== verification/BundleSpec.v ===== *)
(** * Properties of the bundle lifecycle

    What a coordinator that drives [stage], [commit], [abort] and [purge] may
    rely on, whatever system calls fail and wherever the process dies. *)
From S2P Require Import Prelude GoStrings GoBinary FileSystem BundleStore ConfigTypes BundleManager.

(** ** A world where no call fails *)
Definition quiet (w : world) : Prop := ∀ n, w_fault w n = Pass.

Section quiet.
Context `{Codec bundleRecord, Codec bundlePointer, Codec bundleStoreMeta} {D : ConfigDecoder}.

Lemma Get_quiet id s : quiet (s_world s) →
  ∃ w', on_world (Get id) s = (read_record (w_disk (s_world s)) id, Sys (s_mgr s) w')
        ∧ w_disk w' = w_disk (s_world s) ∧ quiet w'.
Proof.
  intros Hq. exists (Get id (s_world s)).2. unfold on_world.
  rewrite <- (Get_no_fault id (s_world s)) by apply Hq. rewrite Get_disk.
  split; [by destruct (Get id _)|]. split; [done|].
  unfold Get, mbind, action_bind, lift_res, attempt, ReadFile, syscall, fail.
  destruct (bundlePath id) as [p|]; [|done]. rewrite (Hq _). simpl. by destruct (files _ !! p).
Qed.

Lemma List_quiet s : quiet (s_world s) → bundles_exists (w_disk (s_world s)) = true →
  ∃ ids w', on_world List_ s = (Ok ids, Sys (s_mgr s) w') ∧ w_disk w' = w_disk (s_world s) ∧ quiet w'
    ∧ NoDup ids ∧ ∀ id, id ∈ ids ↔ is_Some (files (w_disk (s_world s)) !! bundle_file id).
Proof.
  intros Hq Hb. destruct (List_ (s_world s)) as [[ids|e] w'] eqn:E.
  2: { unfold List_, mbind, action_bind, attempt, ReadDirBundles, syscall in E.
       rewrite (Hq _), Hb in E. done. }
  exists ids, w'. unfold on_world. rewrite E. split; [done|].
  split; [pose proof (List_disk (s_world s)) as Hd; by rewrite E in Hd|].
  split; [unfold List_, mbind, action_bind, attempt, ReadDirBundles, syscall in E;
          rewrite (Hq _), Hb in E; by injection E as _ <-|].
  split; [|intros id; apply List_Ok; [by rewrite E | done]].
  unfold List_, mbind, action_bind, attempt, ReadDirBundles, syscall in E.
  rewrite (Hq _), Hb in E. injection E as <- _. apply stored_ids_NoDup.
Qed.

Lemma Delete_quiet id s : quiet (s_world s) → bundles_exists (w_disk (s_world s)) = true →
  validateBundleID id = Ok tt →
  ∃ w', on_world (Delete id) s = (Ok tt, Sys (s_mgr s) w') ∧ quiet w'
        ∧ bundles_exists (w_disk w') = true
        ∧ ∀ id', read_record (w_disk w') id' =
                 if decide (id' = id) then Err errBundleNotFound else read_record (w_disk (s_world s)) id'.
Proof.
  intros Hq Hb Hv. exists (Delete id (s_world s)).2.
  assert ((Delete id (s_world s)).1 = Ok tt ∧ quiet (Delete id (s_world s)).2
          ∧ bundles_exists (w_disk (Delete id (s_world s)).2) = true) as (Hok & Hq' & Hb').
  { unfold Delete, bundlePath, syncBundleDir, Remove, OpenDir, FsyncDir. rewrite Hv.
    unfold mbind, res_bind, action_bind, lift_res, attempt, wrap_err, syscall. rewrite (Hq _).
    destruct (files _ !! bundle_file id); simpl; rewrite (Hq _); simpl; rewrite Hb; simpl;
      rewrite (Hq _); done. }
  split; [unfold on_world; by destruct (Delete id _) as [r w]; simpl in *; subst|].
  split; [done|]. split; [done|]. intros id'. case_decide as Hid; [subst; by apply Delete_Ok|].
  destruct (Delete_steps id (s_world s)) as (_ & _ & _ & [Hk _] & _). auto.
Qed.

(** ** The sweep, with no fault *)
Definition superseded_at (d : disk) (just id : bytes) : option (bytes * Z) :=
  if bool_decide (id = just) then None
  else match read_record d id with
       | Ok rec => if bool_decide (rState rec = bundleSuperseded) then Some (id, rActivatedAt rec) else None
       | Err _ => None
       end.

Lemma superseded_of_quiet ids just s : quiet (s_world s) →
  ∃ w', superseded_of ids just s = (Ok (omap (superseded_at (w_disk (s_world s)) just) ids), Sys (s_mgr s) w')
        ∧ w_disk w' = w_disk (s_world s) ∧ quiet w'.
Proof.
  revert s. induction ids as [|id ids IH]; intros s Hq; simpl; [exists (s_world s); by destruct s|].
  unfold superseded_at at 1. case_bool_decide; [by apply IH|].
  destruct (Get_quiet id s Hq) as (w1 & E1 & Hd1 & Hq1).
  destruct (IH (Sys (s_mgr s) w1) Hq1) as (w2 & E2 & Hd2 & Hq2). exists w2.
  split; [|split; [by rewrite Hd2|done]].
  unfold mbind, action_bind, attempt. rewrite E1, E2. simpl. rewrite Hd1.
  unfold mret, action_ret. destruct (read_record _ id) as [rec|]; [|done]. by case_bool_decide.
Qed.

Lemma prune_list_quiet ids s : quiet (s_world s) → bundles_exists (w_disk (s_world s)) = true →
  Forall (λ id, validateBundleID id = Ok tt) ids →
  ∃ w', prune_list ids s = (Ok tt, Sys (s_mgr s) w')
        ∧ ∀ id, read_record (w_disk w') id =
                if decide (id ∈ ids) then Err errBundleNotFound else read_record (w_disk (s_world s)) id.
Proof.
  revert s. induction ids as [|id ids IH]; intros s Hq Hb Hv; cbn [prune_list].
  - exists (s_world s). split; [by destruct s|]. intros id. by rewrite decide_False by apply not_elem_of_nil.
  - apply Forall_cons in Hv as [Hv1 Hv]. destruct (Delete_quiet id s Hq Hb Hv1) as (w1 & E1 & Hq1 & Hb1 & Hr1).
    unfold mbind, action_bind, attempt. rewrite E1. unfold publish, publish_log, on_world. cbn [s_world s_mgr].
    match goal with |- context [prune_list ids ?s2] => destruct (IH s2) as (w2 & E2 & Hr2); [done..|] end.
    exists w2. split; [exact E2|]. intros i. rewrite Hr2. simpl. rewrite Hr1.
    repeat case_decide; rewrite ?elem_of_cons in *; naive_solver.
Qed.

Lemma omap_fst_NoDup (f : bytes → option (bytes * Z)) ids :
  (∀ id x, f id = Some x → x.1 = id) → NoDup ids → NoDup (omap f ids).*1.
Proof.
  intros Hf. induction 1 as [|id ids Hin _ IH]; simpl; [constructor|].
  destruct (f id) as [x|] eqn:E; simpl; [|done]. constructor; [|done].
  rewrite (Hf _ _ E). intros ([i t] & -> & Hx)%list_elem_of_fmap.
  apply list_elem_of_omap in Hx as (j & Hj & Ej). apply Hf in Ej. simpl in *. by subst.
Qed.

Lemma superseded_at_Some d just id x : superseded_at d just id = Some x ↔
  x.1 = id ∧ id ≠ just ∧ ∃ rec, read_record d id = Ok rec ∧ rState rec = bundleSuperseded ∧ rActivatedAt rec = x.2.
Proof.
  unfold superseded_at. case_bool_decide; [naive_solver|].
  destruct (read_record d id) as [rec|]; [|naive_solver].
  case_bool_decide; destruct x; simpl; naive_solver.
Qed.
End quiet.

(** ** Properties *)
Definition empty_store : disk := Disk ∅ ∅ true.

Section lifecycle.
Context `{Codec bundleRecord, Codec bundlePointer, Codec bundleStoreMeta} {D : ConfigDecoder}.
Context {RL : CodecLaws bundleRecord record_wf} {PL : CodecLaws bundlePointer pointer_wf}.

(** C5 (invariant): from a start on an empty store, through any sequence of stage, commit and
    abort requests with any system calls failing, of successful purges, and of crashes at any
    point of a request followed by a restart that may itself meet faults: the startup pointer
    names no bundle or a readable active record that decodes, and what the process serves is a
    readable active record with the served digest and configuration that is not listed as
    staged. *)
Theorem lifecycle_invariant (clock : nat → Z) (faults : nat → fault) (listening : bool) (nano : Z) (s : sys) :
  (∀ n, int64 (clock n)) → rtc step (start empty_store clock faults listening nano) s → Inv s.
Proof.
  intros Hc Hr. assert (Inv (start empty_store clock faults listening nano)) as HI.
  { apply (start_Inv _ _ _ _ _ None); [|done]. exists empty_pointer. done. }
  clear Hc. induction Hr as [s|s1 s2 s3 Hs _ IH]; [done|]. by eapply IH, step_Inv.
Qed.

(** A process started on [d] whose reads succeed. *)
Definition boots_as (d : disk) (b : option (bytes * bytes * Config)) : Prop :=
  ∀ clock listening nano,
    s_mgr (start d clock (λ _, Pass) listening nano) = recovered b (newBundleManager nano).

Lemma bootable_boots d b : bootable d b → boots_as d b.
Proof.
  intros Hb clock listening nano. unfold start.
  set (s := Sys (newBundleManager nano) (World d clock 0 (λ _, Pass) 0 [] listening [])).
  destruct (Recover_wpc s b Hb) as [_ (_ & _ & Hm)].
  destruct (Recover s).1 as [[]|e] eqn:E; [done|]. exfalso.
  destruct Hb as (p & Hp & Hb). unfold Recover in E. unfold mbind, action_bind in E.
  pose proof (Pointer_no_fault (s_world s) eq_refl) as HP.
  change (w_disk (s_world s)) with d in HP. rewrite Hp in HP.
  destruct (Pointer (s_world s)) as [rp w1] eqn:EP. simpl in HP. subst rp.
  assert (w_disk w1 = d ∧ quiet w1) as [Hd1 Hq1].
  { unfold Pointer, mbind, action_bind, attempt, ReadFile, syscall, mret, action_ret, lift_res in EP.
    simpl in EP. destruct (files d !! InRoot bundlePointerFile); injection EP as _ <-; done. }
  unfold on_world at 1 in E. rewrite EP in E.
  destruct b as [[[id dg] cfg]|]; [|by rewrite Hb in E].
  destruct Hb as (<- & Hne & rec & Hr & _ & _ & Hdec).
  rewrite bool_decide_eq_false_2 in E by done.
  destruct (Get_quiet (pActive p) (Sys (s_mgr s) w1) Hq1) as (w2 & E2 & _). cbn [s_world] in E2.
  rewrite Hd1, Hr in E2. rewrite E2 in E. unfold decode_or in E. rewrite Hdec in E. done.
Qed.

(** C1 (safety): a crash at any point of a commit, whatever calls failed before it, is
    recoverable: a process started on the disk it left, if its reads succeed, serves what a
    start before the commit would have served, or the committed bundle with its stored digest
    and configuration; never an error, never a mixture. *)
Theorem Commit_crash_recovers (id expected : bytes) (s : sys) (b : option (bytes * bytes * Config))
    (during : list disk) (d : disk) :
  bootable (w_disk (s_world s)) b → serving (s_mgr s) (w_disk (s_world s)) → clock_ok (s_world s) →
  w_trace (s_world (Commit id expected s).2) = during ++ w_trace (s_world s) → d ∈ during →
  boots_as d b
  ∨ ∃ rec cfg, read_record (w_disk (s_world s)) id = Ok rec ∧ decodeConfig (rDocument rec) = Ok cfg
               ∧ boots_as d (Some (id, rDigest rec, cfg)).
Proof.
  intros Hb Hs Hc Ht Hin.
  destruct (wpc_trace _ _ _ _ _ _ (Commit_wpc id expected s b Hb Hs Hc) Ht Hin)
    as [?|(rec & cfg & ? & ? & ?)]; [left | right; exists rec, cfg]; auto using bootable_boots.
Qed.

(** The outcomes of a commit.  An error leaves everything the process holds in
    memory as it was, and it still serves a record on the disk.  A success is the repeat of the
    live bundle, which changes nothing at all, or a swap whose compare-and-swap held: the digest
    returned is the stored one, the process serves the stored configuration under a generation
    one higher, the id is no longer staged, and a restart serves the same bundle. *)
Theorem Commit_outcome (id expected : bytes) (s : sys) :
  Inv s →
  let m := s_mgr s in
  let s' := (Commit id expected s).2 in
  match (Commit id expected s).1 with
  | Err _ => s_mgr s' = m ∧ serving m (w_disk (s_world s'))
  | Ok digest =>
      (s' = s ∧ ActiveID m = id ∧ digest = ActiveDigest m)
      ∨ (ActiveID m = expected ∧ ActiveID m ≠ id
         ∧ ∃ rec cfg, read_record (w_disk (s_world s)) id = Ok rec
             ∧ decodeConfig (rDocument rec) = Ok cfg ∧ digest = rDigest rec
             ∧ m_active (s_mgr s') = Some (CfgPtr (m_allocs m) cfg)
             ∧ ActiveID (s_mgr s') = id ∧ ActiveDigest (s_mgr s') = digest
             ∧ m_generation (s_mgr s') = u64 (m_generation m + 1)
             ∧ id ∉ m_staged (s_mgr s') ∧ boots_as (w_disk (s_world s')) (Some (id, digest, cfg)))
  end.
Proof.
  intros ([b Hb] & Hs & Hc) m s'. destruct (Commit_wpc id expected s b Hb Hs Hc) as [_ (Hp & _ & Hs' & _)].
  unfold commit_post in Hp. fold m s' in Hp, Hs'. destruct (Commit id expected s).1 as [dg|e].
  - destruct Hp as [?|(? & ? & rec & cfg & Hr & Hd & -> & Hbt & Hm)]; [by left|]. right.
    split; [done|]. split; [done|]. exists rec, cfg. rewrite Hm. simpl.
    repeat (split; [done|]). split; [set_solver | by apply bootable_boots].
  - by rewrite Hp in Hs' |- *.
Qed.

(** Every record readable on [d] reads the same on [d']. *)
Definition still_reads (d d' : disk) : Prop :=
  ∀ id rec, read_record d id = Ok rec → read_record d' id = Ok rec.

(** Staging never replaces anything.  At every point of a stage and after it,
    every record that was readable still reads the same and the startup pointer is unchanged,
    so what is served and what a restart serves cannot change; a success returns the digest of
    the document and the id then reads as a record with that digest. *)
Theorem Stage_preserves (id document : bytes) (s : sys) (during : list disk) (d : disk) :
  clock_ok (s_world s) → is_bytes document →
  w_trace (s_world (Stage id document s).2) = during ++ w_trace (s_world s) →
  d ∈ w_disk (s_world (Stage id document s).2) :: during →
  let s' := (Stage id document s).2 in
  still_reads (w_disk (s_world s)) d
  ∧ read_pointer d = read_pointer (w_disk (s_world s))
  ∧ m_active (s_mgr s') = m_active (s_mgr s) ∧ m_activeID (s_mgr s') = m_activeID (s_mgr s)
  ∧ (∀ digest, (Stage id document s).1 = Ok digest →
       digest = digestText document
       ∧ ∃ rec, read_record (w_disk (s_world s')) id = Ok rec ∧ rDigest rec = digest).
Proof.
  intros Hc Hdoc Ht Hin s'. pose proof (Stage_wpc id document s Hc Hdoc) as Hw.
  pose proof (wpc_trace _ _ _ _ during d Hw Ht) as Htr. destruct Hw as [_ (Had & _ & Hm)].
  assert (only_added id (w_disk (s_world s)) d) as (Hk & _ & Hp & _)
    by (apply elem_of_cons in Hin as [->|?]; auto).
  split; [done|]. split; [done|]. fold s' in Hm. destruct (Stage id document s).1 as [dg|e].
  - destruct Hm as (-> & rec & ? & ? & _ & Hm).
    split; [rewrite Hm; by case_match|]. split; [rewrite Hm; by case_match|]. naive_solver.
  - rewrite Hm. naive_solver.
Qed.

(** The bundles an abort of [id] has to leave alone. *)
Definition spared (id : bytes) (m : manager) (id' : bytes) (rec : bundleRecord) : Prop :=
  rState rec = bundleActive ∨ id' = ActiveID m ∨ id' ≠ id.

(** An abort never withdraws what is live.  In a reachable state, at every point of
    an abort, the record the process serves and the record the startup pointer names read as
    before, as does every record in the active state; an abort of the served bundle fails and
    changes nothing; a success means the id is gone. *)
Theorem Abort_spares_active (id : bytes) (s : sys) (during : list disk) (d : disk) :
  Inv s →
  w_trace (s_world (Abort_ id s).2) = during ++ w_trace (s_world s) →
  d ∈ w_disk (s_world (Abort_ id s).2) :: during →
  (∀ id' rec, read_record (w_disk (s_world s)) id' = Ok rec →
     spared id (s_mgr s) id' rec → read_record d id' = Ok rec)
  ∧ read_pointer d = read_pointer (w_disk (s_world s))
  ∧ (ActiveID (s_mgr s) = id → Abort_ id s = (Err errBundleWrongState, s))
  ∧ ((Abort_ id s).1 = Ok tt → read_record (w_disk (s_world (Abort_ id s).2)) id = Err errBundleNotFound).
Proof.
  intros HI Ht Hin. pose proof (Abort_wpc id s) as Hw.
  pose proof (wpc_trace _ _ _ _ during d Hw Ht) as Htr. destruct Hw as [_ (Ho & _ & Hok & Hm)].
  assert (abort_crash id s d) as Hcr.
  { apply elem_of_cons in Hin as [->|?]; [|auto]. destruct Hm as [[_ ?]|(_ & ? & ?)]; [by left | by right]. }
  split; [|split; [|split; [|done]]].
  - intros id' rec Hr Hcase. destruct Hcr as [->|((Hk & _) & Hne & rec' & Hr' & Hs')]; [done|].
    rewrite Hk; [done|]. intros ->. destruct Hcase as [?|[?|?]]; congruence.
  - destruct Hcr as [->|((_ & ->) & _)]; done.
  - intros Hid. unfold Abort_, mbind, action_bind, the_manager. by rewrite bool_decide_eq_true_2.
Qed.

(** A purge that reports success withdraws everything: the process serves
    nothing and lists nothing as staged, no bundle is readable, and a restart serves nothing. *)
Theorem Purge_withdraws (s : sys) :
  (Purge s).1 = Ok tt →
  let s' := (Purge s).2 in
  m_active (s_mgr s') = None ∧ ActiveID (s_mgr s') = [] ∧ m_staged (s_mgr s') = ∅
  ∧ m_generation (s_mgr s') = 0 ∧ m_migrated (s_mgr s') = m_migrated (s_mgr s)
  ∧ (∀ id rec, read_record (w_disk (s_world s')) id ≠ Ok rec)
  ∧ boots_as (w_disk (s_world s')) None.
Proof.
  intros Hp s'. destruct (Purge_run s Hp) as (Hm & _ & Hr & Hptr). fold s' in Hm, Hr, Hptr.
  rewrite Hm. repeat (split; [done|]). apply bootable_boots. by exists empty_pointer.
Qed.

(** The sweep after a commit, on a store where no call fails, keeps of the
    superseded records the one just replaced and the two most recently activated others, in the
    order the code sorts them; it deletes exactly the rest, and every other bundle, staged and
    active ones included, reads as before. *)
Theorem pruneSuperseded_retains (just : bytes) (s : sys) :
  quiet (s_world s) → bundles_exists (w_disk (s_world s)) = true →
  let d := w_disk (s_world s) in
  let d' := w_disk (s_world (pruneSuperseded just s).2) in
  ∃ others : list (bytes * Z),
    StronglySorted prune_before others ∧ NoDup others.*1
    ∧ (∀ id t, (id, t) ∈ others ↔ id ≠ just ∧ ∃ rec, read_record d id = Ok rec
                                  ∧ rState rec = bundleSuperseded ∧ rActivatedAt rec = t)
    ∧ ∀ id, read_record d' id =
            if decide (id ∈ (drop 2 others).*1) then Err errBundleNotFound else read_record d id.
Proof.
  intros Hq Hb d d'. destruct (List_quiet s Hq Hb) as (ids & w1 & E1 & Hd1 & Hq1 & Hnd & Hids).
  destruct (superseded_of_quiet ids just (Sys (s_mgr s) w1) Hq1) as (w2 & E2 & Hd2 & Hq2).
  simpl in E2, Hd2. rewrite Hd1 in E2, Hd2. fold d in E2, Hd1, Hd2. set (l := omap (superseded_at d just) ids) in *.
  exists (merge_sort prune_before l).
  assert (∀ id t, (id, t) ∈ l ↔ id ≠ just ∧ ∃ rec, read_record d id = Ok rec
             ∧ rState rec = bundleSuperseded ∧ rActivatedAt rec = t) as Hl.
  { intros id t. unfold l. rewrite list_elem_of_omap. setoid_rewrite superseded_at_Some. split; [naive_solver|].
    intros (? & rec & Hr & ? & ?). exists id. split; [|naive_solver]. apply Hids. by eapply read_record_file. }
  split; [apply StronglySorted_merge_sort; apply _|]. split; [|split].
  - rewrite merge_sort_Permutation. apply omap_fst_NoDup; [|done]. by intros ? ? (? & _)%superseded_at_Some.
  - intros id t. rewrite merge_sort_Permutation. apply Hl.
  - intros id. unfold d', pruneSuperseded, mbind, action_bind, attempt. rewrite E1, E2. case_bool_decide as Hlen.
    + simpl. rewrite Hd2. rewrite (drop_ge (merge_sort prune_before l)) by (by rewrite merge_sort_Permutation).
      by rewrite decide_False by apply not_elem_of_nil.
    + change (bundleRetainedGenerations - 1)%nat with 2%nat.
      destruct (prune_list_quiet (drop 2 (map fst (merge_sort prune_before l))) (Sys (s_mgr s) w2)) as (w3 & E3 & Hr3).
      * done.
      * simpl. by rewrite Hd2.
      * apply Forall_forall. intros i Hin%elem_of_drop_in. apply list_elem_of_In, in_map_iff in Hin as ([j t] & <- & Hin).
        apply list_elem_of_In in Hin. rewrite merge_sort_Permutation in Hin.
        apply Hl in Hin as (_ & rec & Hr & _). by apply read_record_Ok in Hr as [? _].
      * rewrite E3. simpl. rewrite Hr3. simpl. rewrite Hd2. unfold fmap, list_fmap. by rewrite skipn_map.
Qed.
End lifecycle.

(** ** A concrete deployment

    The codec of [FieldCodec] and a decoder that accepts any document but the
    empty one. *)
Section lifecycle_witnesses.
Import FieldCodec.

Definition tiny_config : Config :=
  mkConfig 1 None [] [] [] [] [] (mkProxyConfig [] [] []) (mkMITMSettings true true true) [] None 0.
#[local] Instance tiny_decoder : ConfigDecoder :=
  {| decodeConfig document := if bool_decide (document = []) then Err "empty"%string else Ok tiny_config |}.

(** A store that holds the given records and no pointer, and a process on it. *)
Definition store_of (records : list bundleRecord) : disk :=
  Disk (list_to_map (map (λ r, (bundle_file (rID r), MarshalIndent (stamp_record r) ++ [10])) records)) ∅ true.
Definition process_on (d : disk) : sys :=
  Sys (newBundleManager 0) (World d (λ _, 1700000000) 0 (λ _, Pass) 0 [] true []).

Lemma process_clock d : clock_ok (s_world (process_on d)).
Proof. intros n. by unfold int64. Qed.

Lemma store_of_pointer records : read_pointer (store_of records) = Ok empty_pointer.
Proof.
  unfold read_pointer. replace (files (store_of records) !! InRoot bundlePointerFile) with (@None bytes); [done|].
  symmetry. apply not_elem_of_list_to_map_1. intros (x & E & Hx)%list_elem_of_fmap.
  apply list_elem_of_In, in_map_iff in Hx as (r & <- & _). done.
Qed.

Lemma store_of_record records r :
  NoDup (map (λ r, bundle_file (rID r)) records) → r ∈ records → validateBundleID (rID r) = Ok tt →
  record_wf (stamp_record r) → read_record (store_of records) (rID r) = Ok (stamp_record r).
Proof.
  intros Hnd Hin Hv Hwf. apply read_record_stamped; [done..|]. apply elem_of_list_to_map_1.
  - clear -Hnd. induction records as [|x l IH]; [constructor|]. simpl in *.
    apply NoDup_cons in Hnd as [Hx Hnd]. constructor; [|auto]. intros (y & E & Hy)%list_elem_of_fmap.
    apply Hx. apply list_elem_of_In, in_map_iff in Hy as (z & <- & Hz). rewrite E.
    apply list_elem_of_In, in_map_iff. by exists z.
  - apply list_elem_of_In, in_map_iff. exists r. split; [done|]. by apply list_elem_of_In.
Qed.

Let one : disk := store_of [staged_record (&"a") (&"{}") 1700000000].

Lemma one_Inv : Inv (process_on one).
Proof.
  split; [|split; [done | apply process_clock]]. exists None, empty_pointer.
  split; [apply store_of_pointer | done].
Qed.

Definition first_start : sys := start empty_store (λ _, 1700000000) (λ _, Pass) true 0.

Lemma lifecycle_invariant_witness :
  Inv (serve (ReqCommit (&"a") []) (serve (ReqStage (&"a") (&"{}")) first_start)).
Proof.
  apply (lifecycle_invariant (λ _, 1700000000) (λ _, Pass) true 0).
  - intros n. by unfold int64.
  - eapply rtc_l; [apply step_request|eapply rtc_l; [apply step_request|apply rtc_refl]];
      [apply (bool_decide_unpack _); by vm_compute | done].
Defined.

Definition commit_trace : list disk := w_trace (s_world (Commit (&"a") [] (process_on one)).2).

Lemma Commit_crash_recovers_witness :
  Forall (λ d, boots_as d None
    ∨ ∃ rec cfg, read_record one (&"a") = Ok rec
         ∧ decodeConfig (rDocument rec) = Ok cfg ∧ boots_as d (Some (&"a", rDigest rec, cfg))) commit_trace.
Proof.
  apply Forall_forall. intros d Hd.
  apply (Commit_crash_recovers (&"a") [] (process_on one) None commit_trace); [|done|apply process_clock| |exact Hd].
  - exists empty_pointer. split; [apply store_of_pointer | done].
  - rewrite app_nil_r. reflexivity.
Defined.

Lemma Commit_outcome_witness :
  (Commit (&"a") [] (process_on one)).1 = Ok (digestText (&"{}"))
  ∧ ActiveDigest (s_mgr (Commit (&"a") [] (process_on one)).2) = digestText (&"{}").
Proof.
  assert ((Commit (&"a") [] (process_on one)).1 = Ok (digestText (&"{}"))) as E by (vm_compute; reflexivity).
  split; [exact E|]. pose proof (Commit_outcome (&"a") [] (process_on one) one_Inv) as Ho.
  cbv zeta in Ho. rewrite E in Ho.
  destruct Ho as [(_ & Ha & _)|(_ & _ & rec & cfg & _ & _ & _ & _ & _ & Hd & _)]; [discriminate Ha | exact Hd].
Defined.

Let staged_b : sys := (Stage (&"b") (&"{}") (process_on one)).2.

Lemma Stage_preserves_witness :
  read_record (w_disk (s_world staged_b)) (&"a") = Ok (stamp_record (staged_record (&"a") (&"{}") 1700000000)).
Proof.
  destruct (Stage_preserves (&"b") (&"{}") (process_on one) (w_trace (s_world staged_b)) (w_disk (s_world staged_b)))
    as (Hk & _); [apply process_clock | apply (bool_decide_unpack _); by vm_compute
                 | rewrite app_nil_r; reflexivity | by left |].
  apply Hk. apply (store_of_record _ (staged_record (&"a") (&"{}") 1700000000)).
  - apply NoDup_singleton.
  - by left.
  - by vm_compute.
  - apply staged_record_wf; [by vm_compute | by unfold int64 | apply (bool_decide_unpack _); by vm_compute].
Defined.

Let aborted : sys := (Abort_ (&"a") (process_on one)).2.

Lemma Abort_spares_active_witness :
  (Abort_ (&"a") (process_on one)).1 = Ok tt
  ∧ read_record (w_disk (s_world aborted)) (&"a") = Err errBundleNotFound.
Proof.
  assert ((Abort_ (&"a") (process_on one)).1 = Ok tt) as E by (vm_compute; reflexivity). split; [exact E|].
  destruct (Abort_spares_active (&"a") (process_on one) (w_trace (s_world aborted)) (w_disk (s_world aborted)))
    as (_ & _ & _ & Hg); [apply one_Inv | rewrite app_nil_r; reflexivity | by left | exact (Hg E)].
Defined.

Lemma Purge_withdraws_witness :
  read_record (w_disk (s_world (Purge (process_on one)).2)) (&"a") ≠ Ok (sample_record (&"a")).
Proof.
  destruct (Purge_withdraws (process_on one)) as (_ & _ & _ & _ & _ & Hp & _); [by vm_compute|].
  exact (Hp (&"a") _).
Defined.

Definition old_record (id : bytes) (t : Z) : bundleRecord :=
  BundleRecord 1 id bundleSuperseded (digestText (&"{}")) (&"{}") 100 t [].

Lemma old_record_wf id t :
  validateBundleID id = Ok tt → int64 t → record_wf (stamp_record (old_record id t)).
Proof.
  intros Hv Ht. split; [by unfold int64, bundleStoreSchema|]. split; [by unfold int64|]. split; [done|].
  split; [by apply bundle_id_valid|]. split; [by vm_compute|]. split; [apply digestText_valid|].
  split; [apply (bool_decide_unpack _); by vm_compute | apply Sum256_text_valid].
Qed.

Let backlog : disk := store_of [old_record (&"a") 101; old_record (&"b") 102; old_record (&"c") 103].

Lemma pruneSuperseded_retains_witness :
  ∃ others : list (bytes * Z), StronglySorted prune_before others ∧ NoDup others.*1
    ∧ (&"b", 102) ∈ others.
Proof.
  destruct (pruneSuperseded_retains (&"d") (process_on backlog)) as (others & ? & ? & Hin & _).
  - intros n. reflexivity.
  - reflexivity.
  - exists others. split; [assumption|]. split; [assumption|]. apply Hin. split; [done|].
    exists (stamp_record (old_record (&"b") 102)). split; [|done].
    apply (store_of_record _ (old_record (&"b") 102)).
    + apply (bool_decide_unpack _). by vm_compute.
    + right. left.
    + by vm_compute.
    + apply old_record_wf; [by vm_compute | by unfold int64].
Defined.
End lifecycle_witnesses.
