(* ===== verification/BundleWithdrawal.v ===== *)
(** * Withdrawals that are cut short

    [Purge] clears what the process serves before the store removes anything, and the store removes
    the bundles before the startup pointer.  A purge that fails or dies half way leaves a store whose
    pointer may name a record that is gone.  This file holds what stays true of every process
    whatever happens to a purge: it is weaker than [BundleManager.Inv] in that the pointer may name
    nothing readable, and that a record the pointer names may be staged only. *)
From S2P Require Import Prelude GoStrings GoBinary FileSystem BundleStore ConfigTypes BundleManager.

(** No file is new or changed. *)
Definition fewer (d d' : disk) : Prop := ∀ p, files d' !! p = files d !! p ∨ files d' !! p = None.

#[export] Instance fewer_preorder : PreOrder fewer.
Proof.
  split; [by left|]. intros d1 d2 d3 H1 H2 p. destruct (H2 p) as [->|]; [apply H1 | by right].
Qed.

Section withdrawal.
Context `{Codec bundleRecord, Codec bundlePointer, Codec bundleStoreMeta} {D : ConfigDecoder}.

Lemma fewer_record d d' id rec : fewer d d' → read_record d' id = Ok rec → read_record d id = Ok rec.
Proof.
  intros Hf. unfold read_record. destruct (bundlePath id) as [p|e]; [|done]. simpl.
  by destruct (Hf p) as [-> | ->].
Qed.

Lemma fewer_pointer d d' : fewer d d' → read_pointer d' = read_pointer d ∨ read_pointer d' = Ok empty_pointer.
Proof.
  intros Hf. unfold read_pointer. destruct (Hf (InRoot bundlePointerFile)) as [-> | ->]; [by left | by right].
Qed.

Lemma remove_paths_fewer ps d dirty' b : fewer d (Disk (remove_paths ps (files d)) dirty' b).
Proof. intros p. simpl. rewrite lookup_remove_paths. case_decide; [by right | by left]. Qed.

Lemma RemoveAllBundles_fewer : safe fewer RemoveAllBundles.
Proof. apply safe_syscall. intros [] d; apply remove_paths_fewer. Qed.

Lemma Remove_fewer p : safe fewer (Remove p).
Proof.
  apply safe_syscall. intros [] d; [|reflexivity]. simpl. destruct (files d !! p); [|reflexivity].
  intros q. simpl. destruct (decide (q = p)) as [->|]; [right; by rewrite lookup_delete_eq | left; by rewrite lookup_delete_ne].
Qed.

Lemma MkdirAllBundles_fewer : safe fewer MkdirAllBundles.
Proof. apply safe_syscall. intros [] d; [|reflexivity]. by left. Qed.

Lemma same_fewer d d' : same_files d d' → fewer d d'.
Proof. intros ->. reflexivity. Qed.

Lemma syncBundleDir_fewer p : safe fewer (syncBundleDir p).
Proof. eapply safe_weaken; [apply same_fewer | apply syncBundleDir_safe]. Qed.

#[local] Hint Resolve RemoveAllBundles_fewer Remove_fewer MkdirAllBundles_fewer syncBundleDir_fewer : io.

(** Whatever fails, and wherever it stops, a purge of the store only removes. *)
Lemma PurgeStore_fewer : safe fewer PurgeStore.
Proof.
  unfold PurgeStore. apply safe_bind; [apply _ | apply safe_wrap_err; auto with io | intros []].
  apply safe_bind; [apply _ | apply safe_attempt; auto with io | intros [[]|[]]]; try (by apply safe_fail, _);
    apply safe_bind; [apply _ | apply safe_wrap_err; auto with io | intros []; auto with io
                     | apply _ | apply safe_wrap_err; auto with io | intros []; auto with io].
Qed.

Lemma Delete_fewer id : safe fewer (Delete id).
Proof.
  unfold Delete. apply safe_bind; [apply _ | apply safe_lift_res, _ | intros p].
  apply safe_bind; [apply _ | apply safe_attempt; auto with io | intros [[]|[]]]; auto with io. apply safe_fail, _.
Qed.

(** ** What stays true

    The record of [id] can be read, was not replaced, and holds this configuration. *)
Definition stored (d : disk) (id digest : bytes) (cfg : Config) : Prop :=
  ∃ rec, read_record d id = Ok rec ∧ rState rec ≠ bundleSuperseded ∧ rDigest rec = digest
         ∧ decodeConfig (rDocument rec) = Ok cfg.

(** The pointer can be read and does not name a replaced bundle. *)
Definition pointed (d : disk) : Prop :=
  ∃ p, read_pointer d = Ok p ∧ ∀ rec, read_record d (pActive p) = Ok rec → rState rec ≠ bundleSuperseded.

(** The process serves a bundle of the store, or nothing. *)
Definition served (m : manager) (d : disk) : Prop :=
  match m_active m with
  | None => ActiveID m = []
  | Some p => stored d (ActiveID m) (ActiveDigest m) (ptr_cfg p) ∧ m_migrated m = true
  end.

Definition Held (s : sys) : Prop :=
  pointed (w_disk (s_world s)) ∧ served (s_mgr s) (w_disk (s_world s)) ∧ clock_ok (s_world s).

Lemma bootable_pointed d b : bootable d b → pointed d.
Proof.
  intros (p & Hp & Hb). exists p. split; [done|]. intros rec Hr. destruct b as [[[id dg] cfg]|].
  - destruct Hb as (<- & _ & rec' & Hr' & Hs & _). rewrite Hr in Hr'. injection Hr' as <-. rewrite Hs. by vm_compute.
  - by rewrite Hb in Hr.
Qed.

Lemma serving_served m d : serving m d → served m d.
Proof.
  unfold serving, served. destruct (m_active m) as [p|]; [|done]. intros ((rec & Hr & Hs & Hd & Hc) & _ & Hm).
  split; [|done]. exists rec. split; [done|]. rewrite Hs. split; [by vm_compute | done].
Qed.

Lemma Inv_Held s : Inv s → Held s.
Proof. intros ([b Hb] & Hs & Hc). split; [by eapply bootable_pointed|]. split; [by apply serving_served | done]. Qed.

Lemma pointed_same d d' : (∀ id, read_record d' id = read_record d id) → read_pointer d' = read_pointer d → pointed d → pointed d'.
Proof. intros Hr Hp (p & Ep & Hn). exists p. rewrite Hp. split; [done|]. intros rec. rewrite Hr. apply Hn. Qed.

Lemma served_same m d d' : read_record d' (ActiveID m) = read_record d (ActiveID m) → served m d → served m d'.
Proof. unfold served, stored. destruct (m_active m); [by intros -> | done]. Qed.

Lemma pointed_fewer d d' : fewer d d' → pointed d → pointed d'.
Proof.
  intros Hf (p & Ep & Hn). destruct (fewer_pointer d d' Hf) as [E|E].
  - exists p. rewrite E. split; [done|]. intros rec Hr%(fewer_record d); [by apply Hn | done].
  - exists empty_pointer. split; [done|]. by intros rec Hr.
Qed.

Lemma served_nothing m d : m_active m = None → ActiveID m = [] → served m d.
Proof. unfold served. by intros -> ->. Qed.

Context {RL : CodecLaws bundleRecord record_wf} {PL : CodecLaws bundlePointer pointer_wf}.

Lemma served_valid m d : served m d → ValidString (ActiveID m) = true.
Proof.
  unfold served. destruct (m_active m) as [p|]; [|by intros ->]. intros [(rec & Hr & _) _].
  apply bundle_id_valid. by apply read_record_Ok in Hr as (? & _).
Qed.

(** Rewriting a record as active replaces nothing. *)
Lemma activated_pointed d d' id rec t :
  read_record d id = Ok rec → only_record id (stamp_record (activated t rec)) d d' → pointed d → pointed d'.
Proof.
  intros Hr (Ho & Hown & Hp & _) (p & Ep & Hn). exists p. rewrite Hp. split; [done|]. intros rec' Hr'.
  destruct (decide (pActive p = id)) as [E|E]; [|rewrite Ho in Hr' by done; by apply Hn].
  rewrite E in Hr', Hn. destruct Hown as [Eo|Eo]; rewrite Eo in Hr'; [by apply Hn|]. injection Hr' as <-. by vm_compute.
Qed.

Lemma activated_served d d' id rec t m :
  read_record d id = Ok rec → only_record id (stamp_record (activated t rec)) d d' → served m d → served m d'.
Proof.
  intros Hr (Ho & Hown & _). unfold served. destruct (m_active m) as [p|]; [|done]. intros [(rec' & Hr' & Hs & Hd & Hc) Hm].
  split; [|done]. destruct (decide (ActiveID m = id)) as [E|E].
  - rewrite E in Hr' |- *. rewrite Hr in Hr'. injection Hr' as <-. destruct Hown as [Eo|Eo].
    + exists rec. by rewrite Eo.
    + eexists. split; [exact Eo|]. split; [by vm_compute | done].
  - exists rec'. by rewrite Ho.
Qed.

Lemma added_pointed id d d' : only_added id d d' → pointed d → pointed d'.
Proof.
  intros (_ & Ho & Hp & Hown) (p & Ep & Hn). exists p. rewrite Hp. split; [done|]. intros rec Hr.
  destruct (decide (pActive p = id)) as [<-|E]; [|rewrite Ho in Hr by done; by apply Hn].
  destruct (Hown rec Hr) as [?| ->]; [by apply Hn | by vm_compute].
Qed.

Lemma added_served id d d' m : only_added id d d' → served m d → served m d'.
Proof.
  intros (Hk & _). unfold served. destruct (m_active m) as [p|]; [|done]. intros [(rec & Hr & ?) ?].
  split; [|done]. exists rec. split; [by apply Hk | done].
Qed.

(** A manager that serves the same bundle. *)
Lemma served_with_staged st m d : served (with_staged st m) d ↔ served m d.
Proof. done. Qed.

Lemma Abort_fewer id s : wpc (fewer (w_disk (s_world s))) (Abort_ id) s (λ _ s', fewer (w_disk (s_world s)) (w_disk (s_world s'))).
Proof.
  unfold Abort_. apply wpc_bind, wpc_the_manager. case_bool_decide; [by apply wpc_fail|].
  apply wpc_bind, wpc_Get; [done | intros w1 rec Hd1 _ _ | intros w1 e Hd1 _ _; simpl; by rewrite Hd1].
  case_bool_decide; [apply wpc_fail; simpl; by rewrite Hd1|]. apply wpc_bind, wpc_update. simpl.
  eapply wpc_on_world; [apply Delete_fewer | simpl; by rewrite Hd1 | simpl; rewrite Hd1; auto].
Qed.

(** Whatever a request does, and wherever it stops, the pointer names no replaced bundle and what is
    served stays in the store. *)
Lemma serve_Held q s : request_ok q → Held s →
  (∀ during d, w_trace (s_world (serve q s)) = during ++ w_trace (s_world s) → d ∈ during → pointed d) ∧ Held (serve q s).
Proof.
  intros Hq (Hp & Hs & Hc). destruct q as [id document|id expected|id]; simpl in *.
  - pose proof (Stage_wpc id document s Hc Hq) as Hw.
    split; [intros during d Ht Hin; by eapply added_pointed; [eapply wpc_trace|]|].
    destruct Hw as [_ (Had & Hck & Hm)]. split; [by eapply added_pointed|]. split; [|intros n; rewrite Hck; apply Hc].
    eapply added_served in Hs; [|exact Had]. destruct (Stage id document s).1 as [dg|e]; [|by rewrite Hm].
    destruct Hm as (_ & rec & _ & _ & _ & ->). by case_bool_decide.
  - pose proof (Commit_run id expected s pointed (served (s_mgr s)) Hp Hs Hc (served_valid _ _ Hs) pointed_same
                  (λ d d' Hr, served_same _ d d' (Hr _)) (λ d rec t Hr Ho, activated_pointed _ _ _ _ _ Hr Ho Hp)
                  (λ d rec t Hr Ho, activated_served _ _ _ _ _ _ Hr Ho Hs)) as Hw. split.
    + intros during d Ht Hin. destruct (wpc_trace _ _ _ _ _ _ Hw Ht Hin) as [?|(? & ? & _ & _ & ?)]; [done | by eapply bootable_pointed].
    + destruct Hw as [_ (_ & HP & HS & Hck)]. split; [|split; [|done]].
      * destruct HP as [?|(? & ? & _ & _ & ?)]; [done | by eapply bootable_pointed].
      * destruct HS as [[-> ?]|?]; [done | by apply serving_served].
  - destruct (Abort_fewer id s) as [Htr Hf]. split.
    + intros during d Ht Hin. eapply pointed_fewer, Hp. by eapply (wpc_trace _ _ _ _ during d (Abort_fewer id s)).
    + destruct (Abort_wpc id s) as [_ (Ho & Hck & _ & Hm)].
      split; [by eapply pointed_fewer|]. split; [|intros n; rewrite Hck; apply Hc].
      destruct Hm as [[-> ->]|(-> & Hne & _)]; [done|]. apply served_with_staged.
      eapply served_same, Hs. by apply Ho.
Qed.

(** The same of a purge, which leaves the process serving nothing even when it fails. *)
Lemma Purge_Held s : Held s →
  (∀ during d, w_trace (s_world (Purge s).2) = during ++ w_trace (s_world s) → d ∈ during → pointed d)
  ∧ Held (Purge s).2 ∧ m_active (s_mgr (Purge s).2) = None.
Proof.
  intros (Hp & _ & Hc).
  assert (wpc (fewer (w_disk (s_world s))) (Purge : action sys berr unit) s
            (λ _ s', fewer (w_disk (s_world s)) (w_disk (s_world s')) ∧ w_clock (s_world s') = w_clock (s_world s)
                     ∧ m_active (s_mgr s') = None ∧ ActiveID (s_mgr s') = [])) as Hw.
  { unfold Purge. apply wpc_bind, wpc_update, wpc_bind, wpc_publish. simpl. intros w1 Hd1 Hc1.
    eapply wpc_on_world; [apply PurgeStore_fewer | simpl; by rewrite Hd1 |]. simpl. intros w' _ Hf Hc2.
    rewrite Hd1 in Hf. split; [done|]. split; [congruence | done]. }
  split; [intros during d Ht Hin; by eapply pointed_fewer, Hp; eapply wpc_trace|].
  destruct Hw as [_ (Hf & Hck & Ha & Hid)]. split; [|done]. split; [by eapply pointed_fewer|].
  split; [by apply served_nothing | intros n; rewrite Hck; apply Hc].
Qed.

(** A process started on such a store serves what the pointer names, or nothing. *)
Lemma start_Held d clock faults listening nano : pointed d → (∀ n, int64 (clock n)) → Held (start d clock faults listening nano).
Proof.
  intros Hp Hc. unfold start. set (s := Sys (newBundleManager nano) (World d clock 0 faults 0 [] listening [])).
  assert (wpc (eq d) (Recover : action sys berr unit) s
            (λ _ s', w_disk (s_world s') = d ∧ w_clock (s_world s') = clock ∧ served (s_mgr s') d)) as [_ (Hd & Hck & Hs)].
  { destruct Hp as (p & Ep & Hn). unfold Recover.
    apply wpc_bind, (wpc_on_world _ same_files); [apply Pointer_safe | by intros d' -> |].
    intros w1 _ Hd1 Hc1. unfold same_files in Hd1. destruct (Pointer (s_world s)).1 as [q|e] eqn:E; [|done].
    assert (q = p) as ->.
    { destruct (Pointer_run (s_world s)) as [E'|E']; rewrite E' in E; [|done]. cbn in E. rewrite Ep in E. by injection E. }
    change (w_disk w1 = d) in Hd1. change (w_clock w1 = clock) in Hc1.
    case_bool_decide; [by apply wpc_ret|].
    apply wpc_bind, wpc_Get; cbn; [by rewrite Hd1 | | intros w2 e Hd2 Hc2 _; split; [congruence|]; split; [congruence | done]].
    intros w2 rec Hd2 Hc2 Hr. rewrite Hd1 in Hr.
    apply wpc_bind, wpc_decode_or; [|cbn; split; [congruence|]; split; [congruence | done]]. intros cfg Hdec.
    do 2 apply wpc_bind, wpc_update. apply wpc_publish. cbn. intros w3 Hd3 Hc3. split; [congruence|]. split; [congruence|].
    split; [|done]. cbn in Hr. exists rec. pose proof Hr as (_ & Hid & _)%read_record_Ok. unfold ActiveID, ActiveDigest. cbn. rewrite Hid.
    split; [done|]. split; [by apply Hn | done]. }
  split; [by rewrite Hd|]. split; [by rewrite Hd | intros n; rewrite Hck; apply Hc].
Qed.
End withdrawal.
