(* ===== verification/ControlAPI.v ===== *)
(** * The control API ([control_api.go], [control_peer_identity.go])

    A handler is an action on the manager and the world.  The routing of
    requests and the rendering of a response body are [net/http]'s and
    [encoding/json]'s: a request is the route it takes with its path value and
    its body, a response is a status and the value that is encoded.  The body
    of a request is the bytes that arrive before its end, or before an error.
    A listener is the credentials of the connections it accepts, in order. *)
From S2P Require Import Prelude GoStrings GoBinary FileSystem BundleStore ConfigTypes Json JsonDecode BundleManager BundleSpec BundleWithdrawal.

Definition controlAPISchema : Z := 3.
Definition controlMaxRequestBytes : Z := Z.shiftl 32 20.

Record request_body := mkBody { bo_bytes : bytes; bo_fails : bool }.

(** [io.ReadAll] of an [io.LimitReader]: an error beyond the limit is not met. *)
Definition read_limited (limit : Z) (b : request_body) : option bytes :=
  if limit <=? len (bo_bytes b) then Some (take (Z.to_nat limit) (bo_bytes b))
  else if bo_fails b then None else Some (bo_bytes b).

Inductive api_request :=
| GetCapabilities
| GetState
| GetPlugins
| PutBundle (id : bytes) (body : request_body)
| PostCommit (id : bytes) (contentLength : Z) (body : request_body)
| PostAbort (id : bytes)
| DeleteBundles.

Inductive api_value :=
| CapabilitiesBody (schema : Z) (version instance : bytes) (maxBundleBytes : Z) (store : bytes)
| StateBody (readback : bundleReadback)
| PluginsBody (activeBundle : bytes) (plugins : list pluginStatus)
| StageBody (bundleId digest : bytes)
| CommitBody (bundleId digest : bytes) (generation : Z)
| ErrorBody (code : bytes)
| NoBody.

Record api_response := mkResponse { ap_status : Z; ap_body : api_value }.

Definition error_code (e : berr) : bytes * Z :=
  match e with
  | errBundleNotFound => (&"not_found", 404)
  | errBundleConflict => (&"cas_conflict", 409)
  | errBundleWrongState => (&"wrong_state", 409)
  | errBundleSchema => (&"unsupported_schema", 400)
  | errBundleInvalidDocument => (&"invalid_document", 400)
  | errBundleCorrupt => (&"store_corrupt", 500)
  | errOther _ => (&"internal", 500)
  end.

Definition writeError (e : berr) : api_response := mkResponse (error_code e).2 (ErrorBody (error_code e).1).

(** [json.Decoder.Decode] into a [commitRequest] from an [io.LimitReader]: the first value of the
    stream.  What follows it is not read, but for the byte that ends a word. *)
Definition decode_commitRequest (limit : Z) (b : request_body) : res string bytes :=
  let text := take (Z.to_nat limit) (bo_bytes b) in
  match parse_value (2 * length text + 2) maxNestingDepth (skip_ws text) with
  | None => json_error
  | Some (TNull, []) => if bo_fails b && (len (bo_bytes b) <? limit) then json_error else Ok []
  | Some (t, _) => dec_struct (get (&"expectedActiveBundle") dec_string) [] text t
  end.

Section handlers.
Context `{Codec bundleRecord, Codec bundlePointer, Codec bundleStoreMeta} {D : ConfigDecoder}.
(** [controlServer.version], the directory of the store, and the hub's count of dropped events. *)
Context (version dir : bytes) (dropped : option Z).
(** What other requests do after a commit has released the manager's lock and before its handler reads
    the generation.  A request changes the generation at one point, so what the handler can read half way
    through one it can also read before or after it. *)
Context (meanwhile : sys → sys).

Definition answer {A} (m : action sys berr A) (ok : A → sys → api_response) (s : sys) : api_response * sys :=
  match m s with
  | (Ok a, s') => (ok a s', s')
  | (Err e, s') => (writeError e, s')
  end.

Definition handleCapabilities (s : sys) : api_response * sys :=
  (mkResponse 200 (CapabilitiesBody controlAPISchema version (m_instanceID (s_mgr s)) controlMaxRequestBytes dir), s).

Definition handleState (s : sys) : api_response * sys :=
  answer (Readback version dropped) (λ rb _, mkResponse 200 (StateBody rb)) s.

Definition handlePlugins (s : sys) : api_response * sys :=
  let '(activeBundle, plugins) := Plugins (s_mgr s) in (mkResponse 200 (PluginsBody activeBundle plugins), s).

Definition handleStage (id : bytes) (body : request_body) (s : sys) : api_response * sys :=
  match read_limited controlMaxRequestBytes body with
  | None => (writeError (errOther "read body"), s)
  | Some document => answer (Stage id document) (λ digest _, mkResponse 200 (StageBody id digest)) s
  end.

(** The bundle the caller expects to be active, none without a body. *)
Definition expected_active (contentLength : Z) (body : request_body) : res string bytes :=
  if 0 <? contentLength then decode_commitRequest (Z.shiftl 1 20) body else Ok [].

(** [Commit] locks the manager; the generation of the answer is read after it has returned. *)
Definition handleCommit (id : bytes) (contentLength : Z) (body : request_body) (s : sys) : api_response * sys :=
  match expected_active contentLength body with
  | Err _ => (writeError (errOther "decode body"), s)
  | Ok expected =>
      match Commit id expected s with
      | (Err e, s') => (writeError e, s')
      | (Ok digest, s') =>
          let s'' := meanwhile s' in
          (mkResponse 200 (CommitBody id digest (m_generation (s_mgr s''))), s'')
      end
  end.

Definition handleAbort (id : bytes) (s : sys) : api_response * sys := answer (Abort_ id) (λ _ _, mkResponse 204 NoBody) s.
Definition handlePurge (s : sys) : api_response * sys := answer Purge (λ _ _, mkResponse 204 NoBody) s.

Definition routes (q : api_request) (s : sys) : api_response * sys :=
  match q with
  | GetCapabilities => handleCapabilities s
  | GetState => handleState s
  | GetPlugins => handlePlugins s
  | PutBundle id body => handleStage id body s
  | PostCommit id contentLength body => handleCommit id contentLength body s
  | PostAbort id => handleAbort id s
  | DeleteBundles => handlePurge s
  end.
End handlers.

(** ** Who may connect *)

(** The credentials of a connection, none when they cannot be read. *)
Abbreviation peer := (option (Z * Z)).

Definition peer_allowed (uid gid : Z) (p : peer) : bool :=
  if (uid <? 0) && (gid <? 0) then true
  else match p with
       | None => false
       | Some (u, g) => negb ((0 <=? uid) && negb (u =? uid)) && negb ((0 <=? gid) && negb (g =? gid))
       end.

(** [peerVerifiedListener.Accept]: the connections it closes, and the one it returns. *)
Fixpoint Accept (uid gid : Z) (incoming : list peer) : list peer * option peer :=
  match incoming with
  | [] => ([], None)
  | p :: rest =>
      if peer_allowed uid gid p then ([], Some p)
      else let '(closed, conn) := Accept uid gid rest in (p :: closed, conn)
  end.

(** [os/user]: the identifier of a name, as text. *)
Class Users := { user_Lookup : bytes → option bytes; user_LookupGroup : bytes → option bytes }.

Definition resolve_name (lookup : bytes → option bytes) (name : bytes) (id : Z) : option Z :=
  let name := TrimSpace name in
  if bool_decide (name = []) then Some id
  else if 0 <=? id then None
  else text ← lookup name; Atoi text.

Definition resolvePeerIdentity {W : Users} (userName groupName : bytes) (uid gid : Z) : option (Z * Z) :=
  uid ← resolve_name user_Lookup userName uid;
  gid ← resolve_name user_LookupGroup groupName gid;
  Some (uid, gid).

(** ** What a coordinator may rely on *)
Section facts.
Context `{Codec bundleRecord, Codec bundlePointer, Codec bundleStoreMeta} {D : ConfigDecoder}.
Context {RL : CodecLaws bundleRecord record_wf} {PL : CodecLaws bundlePointer pointer_wf}.
Context (version dir : bytes) (dropped : option Z).

(** The documents of a request are bytes. *)
Definition api_ok (q : api_request) : Prop :=
  match q with PutBundle _ body => is_bytes (bo_bytes body) | _ => True end.

(** One request with none in between, and several. *)
Definition reply (q : api_request) (s : sys) : api_response * sys := routes version dir dropped (λ s, s) q s.
Definition serve_all (qs : list api_request) (s : sys) : sys := fold_left (λ s q, (reply q s).2) qs s.

Definition is_purge (q : api_request) : bool := match q with DeleteBundles => true | _ => false end.

(** What a coordinator can bring about from an empty store: requests one after the other, with any
    system call failing, and crashes at any point of one followed by a start of the process.  The flag
    says that every purge since the start, or since the last purge that succeeded, ran to its end. *)
Inductive api_reach : bool → sys → Prop :=
| reach_start clock faults listening nano : (∀ n, int64 (clock n)) →
    api_reach true (start empty_store clock faults listening nano)
| reach_request whole q s : api_ok q → api_reach whole s →
    api_reach (if is_purge q then ap_status (reply q s).1 =? 204 else whole) (reply q s).2
| reach_crash whole q s during d clock faults listening nano : api_ok q → api_reach whole s →
    w_trace (s_world (reply q s).2) = during ++ w_trace (s_world s) → d ∈ w_disk (s_world s) :: during →
    (∀ n, int64 (clock n)) →
    api_reach (whole && negb (is_purge q)) (start d clock faults listening nano).

Lemma answer_state {A} (m : action sys berr A) ok s : (answer m ok s).2 = (m s).2.
Proof. unfold answer. by destruct (m s) as [[a|e] s']. Qed.

Lemma answer_reply {A} (m : action sys berr A) ok s :
  (answer m ok s).1 = match (m s).1 with Ok a => ok a (m s).2 | Err e => writeError e end.
Proof. unfold answer. by destruct (m s) as [[a|e] s']. Qed.

Lemma read_limited_bytes limit b document : read_limited limit b = Some document → is_bytes (bo_bytes b) → is_bytes document.
Proof. unfold read_limited. intros E Hb. repeat case_match; simplify_eq; [by apply Forall_take | done]. Qed.

(** A readback lists the store, which changes neither the disk nor the manager. *)
Lemma Readback_keeps s :
  let s' := (Readback version dropped s).2 in
  s_mgr s' = s_mgr s ∧ steps same_files (s_world s) (s_world s').
Proof.
  pose proof (List_safe (s_world s)) as Hl. unfold Readback, on_world, mbind, action_bind, the_manager, attempt, mret, action_ret.
  cbn. by destruct (List_ (s_world s)) as [r w].
Qed.

(** Every request but a purge is one the lifecycle already covers, or leaves disk and manager alone. *)
Lemma reply_serve q s : api_ok q → is_purge q = false →
  (∃ q', request_ok q' ∧ (reply q s).2 = serve q' s)
  ∨ (s_mgr (reply q s).2 = s_mgr s ∧ steps same_files (s_world s) (s_world (reply q s).2)).
Proof.
  intros Hq Hd. assert (steps same_files (s_world s) (s_world s)) as Hrefl by reflexivity. unfold reply.
  destruct q as [| | |id body|id cl body|id|]; cbn [routes]; try done.
  - by right.
  - right. unfold handleState. rewrite answer_state. apply Readback_keeps.
  - right. unfold handlePlugins. by destruct (Plugins (s_mgr s)).
  - unfold handleStage. destruct (read_limited _ body) as [document|] eqn:E; [|by right].
    left. exists (ReqStage id document). split; [by eapply read_limited_bytes|]. apply answer_state.
  - unfold handleCommit. destruct (expected_active cl body) as [expected|]; [|by right].
    left. exists (ReqCommit id expected). split; [done|]. cbn. by destruct (Commit id expected s) as [[?|?] ?].
  - left. exists (ReqAbort id). split; [done|]. apply answer_state.
Qed.

Lemma quiet_disk s s' during d :
  steps same_files (s_world s) (s_world s') → w_trace (s_world s') = during ++ w_trace (s_world s) →
  d ∈ during → d = w_disk (s_world s).
Proof.
  intros (tr & Et & HF & _) Ht Hin. rewrite Et in Ht. apply app_inv_tail in Ht as ->.
  rewrite Forall_forall in HF. by apply HF.
Qed.

Lemma quiet_keeps s s' : s_mgr s' = s_mgr s → steps same_files (s_world s) (s_world s') → (Inv s → Inv s') ∧ (Held s → Held s').
Proof.
  intros Em (tr & _ & _ & Ed & Ec). unfold same_files in Ed. unfold Inv, Held. rewrite Em, Ed.
  split; (intros (? & ? & Hc); split; [done|]; split; [done|]); intros n; rewrite Ec; apply Hc.
Qed.

Lemma purge_204 s : ap_status (reply DeleteBundles s).1 = 204 → (Purge s).1 = Ok tt.
Proof.
  unfold reply. cbn [routes]. unfold handlePurge. rewrite answer_reply. destruct (Purge s).1 as [[]|e]; [done|]. by destruct e.
Qed.

Lemma reply_purge s : (reply DeleteBundles s).2 = (Purge s).2.
Proof. apply answer_state. Qed.

Lemma reply_Held q s : api_ok q → Held s →
  (∀ during d, w_trace (s_world (reply q s).2) = during ++ w_trace (s_world s) → d ∈ during → pointed d) ∧ Held (reply q s).2.
Proof.
  intros Hq HI. destruct (is_purge q) eqn:Ep.
  - destruct q; try done. rewrite reply_purge. destruct (Purge_Held s HI) as (? & ? & _). done.
  - destruct (reply_serve q s Hq Ep) as [(q' & Hq' & ->)|[Em Hw]]; [by apply serve_Held|].
    split; [|by apply (quiet_keeps s)]. intros during d Ht Hin. rewrite (quiet_disk _ _ _ _ Hw Ht Hin). apply HI.
Qed.

Lemma reply_Inv q s : api_ok q → is_purge q = false → Inv s → Inv (reply q s).2.
Proof.
  intros Hq Ep HI. destruct (reply_serve q s Hq Ep) as [(q' & Hq' & ->)|[Em Hw]];
    [by eapply step_Inv, step_request | by apply (quiet_keeps s)].
Qed.

Lemma crash_Inv q s during d clock faults listening nano : api_ok q → is_purge q = false → Inv s →
  w_trace (s_world (reply q s).2) = during ++ w_trace (s_world s) → d ∈ w_disk (s_world s) :: during →
  (∀ n, int64 (clock n)) → Inv (start d clock faults listening nano).
Proof.
  intros Hq Ep HI Ht Hin Hc. destruct (reply_serve q s Hq Ep) as [(q' & Hq' & Es)|[Em Hw]].
  - eapply step_Inv; [exact HI|]. rewrite Es in Ht. by eapply (step_crash q' s).
  - assert (d = w_disk (s_world s)) as ->.
    { apply elem_of_cons in Hin as [->|Hin]; [done|]. by eapply quiet_disk. }
    destruct HI as ([b Hb] & _ & _). by eapply start_Inv.
Qed.

Lemma api_reach_holds whole s : api_reach whole s → Held s ∧ (whole = true → Inv s).
Proof.
  induction 1 as [clock faults listening nano Hc | whole q s Hq _ [HH HI]
                 | whole q s during d clock faults listening nano Hq _ [HH HI] Ht Hin Hc].
  - assert (Inv (start empty_store clock faults listening nano)) as HI; [|split; [by apply Inv_Held | done]].
    apply (start_Inv _ _ _ _ _ None); [|done]. by exists empty_pointer.
  - split; [by apply reply_Held|]. destruct (is_purge q) eqn:Ep; [|intros Hw; apply reply_Inv; auto].
    destruct q; try done. intros Hp%Z.eqb_eq%purge_204. rewrite reply_purge.
    destruct (Purge_run s Hp) as (Hm & Hck & _ & Hptr). split; [by exists None, empty_pointer|].
    split; [unfold serving; by rewrite Hm | intros n; rewrite Hck; apply HH].
  - split.
    + apply start_Held; [|done]. apply elem_of_cons in Hin as [->|Hin]; [apply HH|].
      by eapply (proj1 (reply_Held q s Hq HH)).
    + intros [Hw Hp%negb_true_iff]%andb_true_iff. eapply crash_Inv; eauto.
Qed.

(** C4 (invariant): whatever a coordinator sends over the API, whatever system calls fail, purges included, and
    wherever the process dies during a request, a purge included: the startup pointer can be read and names
    no replaced bundle, and the process serves nothing, or a readable record of the store with the served
    digest and configuration.  Unless a purge failed or died half way (and none has succeeded since), the
    pointer also names no bundle or a readable active record that decodes, and the served record is in
    the active state and not listed as staged.  A purge leaves the process serving nothing even when it fails. *)
Theorem api_keeps_invariant (whole : bool) (s : sys) :
  api_reach whole s →
  Held s ∧ (whole = true → Inv s) ∧ m_active (s_mgr (reply DeleteBundles s).2) = None.
Proof.
  intros Hr. destruct (api_reach_holds whole s Hr) as [HH HI]. split; [done|]. split; [done|].
  rewrite reply_purge. by apply Purge_Held.
Qed.

(** *** The answer to a commit *)
Lemma Readback_body s : ∃ rb, (reply GetState s).1 = mkResponse 200 (StateBody rb)
  ∧ rb_ActiveBundle rb = ActiveID (s_mgr s) ∧ rb_ActiveDigest rb = ActiveDigest (s_mgr s)
  ∧ rb_Generation rb = match m_active (s_mgr s) with Some _ => m_generation (s_mgr s) | None => 0 end.
Proof.
  unfold reply. cbn [routes]. unfold handleState. rewrite answer_reply.
  unfold Readback, the_manager, on_world, mbind, action_bind, attempt, mret, action_ret. cbn.
  destruct (List_ (s_world s)) as [r w]. eexists. split; [reflexivity|]. cbn. by destruct (m_active (s_mgr s)).
Qed.

(** Only a commit and a purge move the generation. *)
Definition moves_generation (q : api_request) : bool :=
  match q with PostCommit _ _ _ | DeleteBundles => true | _ => false end.

Lemma reply_generation q s : clock_ok (s_world s) → api_ok q → moves_generation q = false →
  m_generation (s_mgr (reply q s).2) = m_generation (s_mgr s) ∧ clock_ok (s_world (reply q s).2).
Proof.
  intros Hc Hq Hm. destruct (reply_serve q s Hq) as [(q' & Hq' & Es)|[-> (_ & _ & _ & _ & Ec)]]; [by destruct q | |].
  2: { split; [done|]. intros n. rewrite Ec. apply Hc. }
  unfold reply in *. destruct q as [| | |id body| |id|]; try done; cbn [routes] in *.
  - unfold handleState. rewrite answer_state. destruct (Readback_keeps s) as (-> & _ & _ & _ & _ & Ec).
    split; [done|]. intros n. rewrite Ec. apply Hc.
  - unfold handlePlugins. by destruct (Plugins (s_mgr s)).
  - unfold handleStage in *. destruct (read_limited _ body) as [document|] eqn:E; [|done]. rewrite answer_state in *.
    destruct (Stage_wpc id document s Hc) as [_ (_ & Hck & Hs)]; [by eapply read_limited_bytes|].
    split; [|intros n; rewrite Hck; apply Hc].
    destruct (Stage id document s).1; [|by rewrite Hs]. destruct Hs as (_ & ? & _ & _ & _ & ->). by case_bool_decide.
  - unfold handleAbort in *. rewrite answer_state in *. destruct (Abort_wpc id s) as [_ (_ & Hck & _ & Hs)].
    split; [|intros n; rewrite Hck; apply Hc]. by destruct Hs as [[-> _]|[-> _]].
Qed.

Lemma serve_all_generation qs s : clock_ok (s_world s) → Forall (λ q, api_ok q ∧ moves_generation q = false) qs →
  m_generation (s_mgr (serve_all qs s)) = m_generation (s_mgr s).
Proof.
  intros Hc Hqs. revert s Hc. induction Hqs as [|q qs [Hq Hm] _ IH]; intros s Hc; [done|]. cbn.
  destruct (reply_generation q s Hc Hq Hm) as [Eg Hc']. change (serve_all qs (reply q s).2) with (serve_all qs (reply q s).2).
  unfold serve_all in IH. by rewrite (IH _ Hc').
Qed.

(** C32 (functional): the answer to a commit.  The repeat of the live bundle succeeds and changes nothing;
    another bundle than the expected one being live is a conflict and changes nothing; any other answer
    than success leaves what the process holds as it was.  A success answers the id and the digest that
    the state reports when the commit returns.  Its generation is read only after the commit has released
    the manager: it is the manager's generation once the requests [others] served in between are done,
    and the one the state reported for the commit as long as none of those is a commit or a purge. *)
Theorem commit_reply_true (id expected : bytes) (contentLength : Z) (body : request_body) (others : list api_request) (s : sys) :
  Inv s → expected_active contentLength body = Ok expected →
  let res := routes version dir dropped (serve_all others) (PostCommit id contentLength body) s in
  let committed := (Commit id expected s).2 in
  (ActiveID (s_mgr s) = id → committed = s
     ∧ res.1 = mkResponse 200 (CommitBody id (ActiveDigest (s_mgr s)) (m_generation (s_mgr (serve_all others s)))))
  ∧ (ActiveID (s_mgr s) ≠ id → ActiveID (s_mgr s) ≠ expected → res = (mkResponse 409 (ErrorBody (&"cas_conflict")), s))
  ∧ (ap_status res.1 = 200 → ∃ rb,
       (reply GetState committed).1 = mkResponse 200 (StateBody rb) ∧ rb_ActiveBundle rb = id
       ∧ res = (mkResponse 200 (CommitBody id (rb_ActiveDigest rb) (m_generation (s_mgr (serve_all others committed)))),
                serve_all others committed)
       ∧ (id ≠ [] → Forall (λ q, api_ok q ∧ moves_generation q = false) others →
          m_generation (s_mgr (serve_all others committed)) = rb_Generation rb))
  ∧ (ap_status res.1 ≠ 200 → s_mgr res.2 = s_mgr s).
Proof.
  intros ([b Hb] & Hs & Hc) He. cbv zeta. cbn [routes]. unfold handleCommit. rewrite He. split; [|split].
  - intros Ha. unfold Commit, the_manager, mbind, action_bind, mret, action_ret. by rewrite bool_decide_true.
  - intros Ha Hn. unfold Commit, the_manager, mbind, action_bind, fail. by rewrite !bool_decide_false.
  - destruct (Commit_wpc id expected s b Hb Hs Hc) as [_ (Hp & _ & Hs' & Hc')]. unfold commit_post in Hp.
    destruct (Commit id expected s) as [[digest|e] s'] eqn:E; cbn in Hp, Hs', Hc' |- *; [|split; [by destruct e | done]].
    split; [|done]. intros _. destruct (Readback_body s') as (rb & Hrb & Hid & Hdg & Hg). exists rb.
    assert (ActiveID (s_mgr s') = id ∧ ActiveDigest (s_mgr s') = digest) as [Ea Ed].
    { destruct Hp as [(-> & ? & ->)|(_ & _ & rec & cfg & _ & _ & _ & _ & ->)]; done. }
    rewrite Hdg, Hid, Ea, Ed. do 3 (split; [done|]). intros Hne Hqs. rewrite serve_all_generation, Hg by done.
    unfold serving in Hs'. destruct (m_active (s_mgr s')); [done|]. by rewrite Ea in Hs'.
Qed.
End facts.

(** The connection a listener hands on is from the permitted process, and all before it were
    closed; with a peer resolved by name, that is the process of that user and group. *)
Theorem accepted_peer {W : Users} (userName groupName : bytes) (uid gid : Z) (incoming closed : list peer) (u g : Z) (p : peer) :
  (∀ name text n, user_Lookup name = Some text ∨ user_LookupGroup name = Some text → Atoi text = Some n → 0 <= n) →
  resolvePeerIdentity userName groupName uid gid = Some (u, g) → Accept u g incoming = (closed, Some p) →
  (∃ rest, incoming = closed ++ p :: rest) ∧ Forall (λ q, peer_allowed u g q = false) closed
  ∧ (TrimSpace userName ≠ [] → uid < 0 ∧ ∃ text pid gid', user_Lookup (TrimSpace userName) = Some text ∧ Atoi text = Some pid ∧ p = Some (pid, gid'))
  ∧ (TrimSpace groupName ≠ [] → gid < 0 ∧ ∃ text uid' pid, user_LookupGroup (TrimSpace groupName) = Some text ∧ Atoi text = Some pid ∧ p = Some (uid', pid)).
Proof.
  intros Hlaw Hr Ha.
  assert ((∃ rest, incoming = closed ++ p :: rest) ∧ Forall (λ q, peer_allowed u g q = false) closed ∧ peer_allowed u g p = true) as (Hsplit & Hcl & Hp).
  { clear Hr. revert closed Ha. induction incoming as [|q rest IH]; intros closed Ha; cbn [Accept] in Ha; [done|].
    destruct (peer_allowed u g q) eqn:Eq; [injection Ha as <- <-; split; [by exists rest | done]|].
    destruct (Accept u g rest) as [closed' conn]. injection Ha as <- ->. destruct (IH closed' eq_refl) as ((r & ->) & Hf & Hp).
    split; [by exists r|]. split; [by constructor | done]. }
  split; [done|]. split; [done|]. unfold resolvePeerIdentity, resolve_name in Hr. cbv zeta in Hr.
  destruct (if bool_decide (TrimSpace userName = []) then _ else _) as [u0|] eqn:Eu; [|done]. cbn in Hr.
  destruct (if bool_decide (TrimSpace groupName = []) then _ else _) as [g0|] eqn:Eg; [|done]. cbn in Hr. injection Hr as -> ->.
  unfold peer_allowed in Hp. split; intros Hne.
  - rewrite bool_decide_false in Eu by done. destruct (Z.leb_spec 0 uid); [done|]. split; [lia|].
    destruct (user_Lookup (TrimSpace userName)) as [text|] eqn:El; [|done]. cbn in Eu.
    assert (0 <= u) by (eapply Hlaw; [left; exact El | exact Eu]). rewrite (proj2 (Z.ltb_ge u 0)) in Hp by lia. cbn [andb] in Hp.
    destruct p as [[pu pg]|]; [|done]. bools. rewrite (proj2 (Z.leb_le 0 u)) in * by lia. cbn in *. bools. subst. by eexists _, _, _.
  - rewrite bool_decide_false in Eg by done. destruct (Z.leb_spec 0 gid); [done|]. split; [lia|].
    destruct (user_LookupGroup (TrimSpace groupName)) as [text|] eqn:El; [|done]. cbn in Eg.
    assert (0 <= g) by (eapply Hlaw; [right; exact El | exact Eg]). rewrite (proj2 (Z.ltb_ge g 0)), andb_false_r in Hp by lia.
    destruct p as [[pu pg]|]; [|done]. bools. rewrite (proj2 (Z.leb_le 0 g)) in * by lia. cbn in *. bools. subst. by eexists _, _, _.
Qed.

(** ** A bundle pushed, and a peer by name *)
Section witnesses.
Import FieldCodec.
#[local] Existing Instance tiny_decoder.

Definition push : api_request := PutBundle (&"a") (mkBody (&"{}") false).
(** An object that expects the empty bundle. *)
Definition expects_none : request_body := mkBody ([123; 34] ++ &"expectedActiveBundle" ++ [34; 58; 34; 34; 125]) false.
Definition commit_a : api_request := PostCommit (&"a") 27 expects_none.
Definition pushed : sys := (reply (&"v1") [] None push first_start).2.

Lemma push_ok : api_ok push.
Proof. apply (bool_decide_unpack _). by vm_compute. Qed.

Lemma first_reach : api_reach (&"v1") [] None true first_start.
Proof. apply reach_start. intros n. by unfold int64. Qed.

Lemma pushed_reach : api_reach (&"v1") [] None true pushed.
Proof. apply (reach_request _ _ _ true push); [apply push_ok | apply first_reach]. Qed.

Lemma api_keeps_invariant_witness : Inv (reply (&"v1") [] None commit_a pushed).2.
Proof.
  apply (api_keeps_invariant (&"v1") [] None true); [|reflexivity].
  apply (reach_request _ _ _ true commit_a); [exact I | apply pushed_reach].
Defined.

Lemma pushed_Inv : Inv pushed.
Proof. exact (proj2 (api_reach_holds (&"v1") [] None true pushed pushed_reach) eq_refl). Qed.

Lemma commit_reply_true_witness :
  let others := [GetState; PutBundle (&"b") (mkBody (&"{}") false)] in
  let res := routes (&"v1") [] None (serve_all (&"v1") [] None others) commit_a pushed in
  ap_status res.1 = 200
  ∧ ∃ rb, (reply (&"v1") [] None GetState (Commit (&"a") [] pushed).2).1 = mkResponse 200 (StateBody rb) ∧ rb_ActiveBundle rb = (&"a")
          ∧ res.1 = mkResponse 200 (CommitBody (&"a") (rb_ActiveDigest rb) (rb_Generation rb)).
Proof.
  intros others res. assert (ap_status res.1 = 200) as E by (vm_compute; reflexivity). split; [exact E|].
  destruct (commit_reply_true (&"v1") [] None (&"a") [] 27 expects_none others pushed pushed_Inv
              ltac:(vm_compute; reflexivity)) as (_ & _ & Ho & _).
  destruct (Ho E) as (rb & Hst & Hid & Hres & Hg). exists rb. split; [exact Hst|]. split; [exact Hid|].
  fold others in Hres, Hg. rewrite <- Hg; [|discriminate|].
  - change res with (routes (&"v1") [] None (serve_all (&"v1") [] None others) commit_a pushed). exact (f_equal fst Hres).
  - constructor; [by split|]. constructor; [|constructor]. split; [|reflexivity]. apply (bool_decide_unpack _). by vm_compute.
Defined.

(** *** What the read after the lock can answer

    A bundle committed after the live one, while the answer to the first commit waits, lends it its
    generation; a purge lends it none. *)
Definition body_expecting (id : bytes) : request_body :=
  mkBody ([123; 34] ++ &"expectedActiveBundle" ++ [34; 58; 34] ++ id ++ [34; 125]) false.

Example commit_reply_raced :
  let b := PutBundle (&"b") (mkBody (&"{}") false) in
  let commit_b := PostCommit (&"b") 28 (body_expecting (&"a")) in
  let answered others := (routes (&"v1") [] None (serve_all (&"v1") [] None others) commit_a pushed).1 in
  (∃ digest, answered [] = mkResponse 200 (CommitBody (&"a") digest 1))
  ∧ (∃ digest, answered [b; commit_b] = mkResponse 200 (CommitBody (&"a") digest 2))
  ∧ ∃ digest, answered [DeleteBundles] = mkResponse 200 (CommitBody (&"a") digest 0).
Proof. repeat split; eexists; vm_compute; reflexivity. Qed.

(** *** What a purge that dies half way leaves

    The removal of the bundles fails after it has removed the record, and the startup pointer stays: a
    bundle that is then only staged under the name goes live with the next start, uncommitted. *)
Definition live_a : sys := (reply (&"v1") [] None commit_a pushed).2.

Example cut_purge_revives :
  let cut := Sys (s_mgr live_a) (World (w_disk (s_world live_a)) (λ _, 1700000000) 0
               (λ n, if Nat.eqb n 0 then Fault 1 else Pass) 0 [] true []) in
  let purged := reply (&"v1") [] None DeleteBundles cut in
  let staged := (reply (&"v1") [] None push purged.2).2 in
  let restarted := start (w_disk (s_world staged)) (λ _, 1700000000) (λ _, Pass) true 1 in
  ap_status purged.1 = 500 ∧ m_active (s_mgr purged.2) = None ∧ m_active (s_mgr staged) = None
  ∧ ActiveID (s_mgr restarted) = (&"a")
  ∧ (rState <$> match read_record (w_disk (s_world restarted)) (&"a") with Ok rec => Some rec | Err _ => None end) = Some bundleStaged.
Proof. repeat split; vm_compute; reflexivity. Qed.

#[local] Instance two_names : Users :=
  {| user_Lookup name := if bool_decide (name = (&"gw")) then Some (&"990") else None; user_LookupGroup _ := None |}.

Lemma accepted_peer_witness :
  ∃ text pid gid', user_Lookup (&"gw") = Some text ∧ Atoi text = Some pid ∧ Some (990, 5) = Some (pid, gid').
Proof.
  destruct (accepted_peer (&" gw") [] (-1) (-1) [None; Some (0, 0); Some (990, 5)] [None; Some (0, 0)] 990 (-1) (Some (990, 5))) as (_ & _ & Hu & _).
  - intros name text n [E|E] Ha; cbn in E; [|done]. case_bool_decide; [|done]. injection E as <-. vm_compute in Ha. by injection Ha as <-.
  - vm_compute. reflexivity.
  - vm_compute. reflexivity.
  - destruct Hu as [_ Hu]; [by vm_compute | exact Hu].
Defined.
End witnesses.
