(* ===== verification/ControlSocket.v ===== *)
(** * The control socket ([control_api.go], [control_peer_linux.go])

    The creation of the socket, system call by system call, on a table of names
    with their modes.  The umask is the process's, not the goroutine's: while it
    is narrowed for the socket, whatever another goroutine creates is created
    under it. *)
From stdpp Require Import gmap.
From S2P Require Import Prelude.

(** A name: a socket somebody may listen on, a directory, or something else. *)
Inductive named := Socket (listener : option nat) (mode : Z) | Directory (mode : Z) | Other.
Record machine := mkMachine { mc_umask : Z; mc_names : gmap bytes named }.

(** Three octal digits. *)
Definition oct (a b c : Z) : Z := 64 * a + 8 * b + c.

(** What [open], [mkdir] and [bind] make of a mode. *)
Definition created (mode umask : Z) : Z := Z.land mode (Z.lnot umask).

Definition Umask (new : Z) (m : machine) : Z * machine := (mc_umask m, mkMachine new (mc_names m)).
Definition put_name (path : bytes) (x : named) (m : machine) : machine := mkMachine (mc_umask m) (<[path := x]> (mc_names m)).
Definition Mkdir (path : bytes) (mode : Z) (m : machine) : res string machine :=
  match mc_names m !! path with
  | None => Ok (put_name path (Directory (created mode (mc_umask m))) m)
  | Some (Directory _) => Ok m
  | Some _ => Err "not a directory"%string
  end.
(** [unlink], which refuses directories; a name that is not there is no error. *)
Definition Unlink (path : bytes) (m : machine) : res string machine :=
  match mc_names m !! path with
  | Some (Directory _) => Err "is a directory"%string
  | _ => Ok (mkMachine (mc_umask m) (delete path (mc_names m)))
  end.
Definition Bind (path : bytes) (self : nat) (m : machine) : res string machine :=
  match mc_names m !! path with
  | None => Ok (put_name path (Socket (Some self) (created (oct 7 7 7) (mc_umask m))) m)
  | Some _ => Err "address already in use"%string
  end.

(** [narrowUmask], and the function it returns. *)
Definition narrowUmask (m : machine) : Z * machine := Umask (oct 1 1 7) m.
Definition restore (old : Z) (m : machine) : machine := (Umask old m).2.

(** Where [listenControlSocket] stands. *)
Inductive listening := Begin | MadeDir | Unlinked | Narrowed (old : Z) | BoundWith (old : Z) (r : res string unit) | ListenDone (r : res string unit).

(** Its next system call; a failed unlink is logged. *)
Definition listenControlSocket (dir path : bytes) (self : nat) (p : listening) (m : machine) : listening * machine :=
  match p with
  | Begin => match Mkdir dir (oct 7 5 0) m with Ok m => (MadeDir, m) | Err e => (ListenDone (Err e), m) end
  | MadeDir => (Unlinked, match Unlink path m with Ok m => m | Err _ => m end)
  | Unlinked => let '(old, m) := narrowUmask m in (Narrowed old, m)
  | Narrowed old => match Bind path self m with Ok m => (BoundWith old (Ok tt), m) | Err e => (BoundWith old (Err e), m) end
  | BoundWith old r => (ListenDone r, restore old m)
  | ListenDone r => (p, m)
  end.

(** The other goroutines: directories of theirs, such as those of the bundles and of the storage. *)
Inductive socket_step (dir path : bytes) (self : nat) : listening * machine → listening * machine → Prop :=
| ss_call p m : socket_step dir path self (p, m) (listenControlSocket dir path self p m)
| ss_mkdir p other mode m m' : other ≠ path → Mkdir other mode m = Ok m' → socket_step dir path self (p, m) (p, m').

(** [connPeerCredentials]: [None] when the platform cannot say, so that the connection is closed. *)
Definition connPeerCredentials (linux unix : bool) (ucred : option (Z * Z)) : option (Z * Z) := if linux && unix then ucred else None.

(** What is known of the socket at each stage. *)
Definition socket_inv (umask : Z) (path : bytes) (self : nat) (s : listening * machine) : Prop :=
  match s.1 with
  | Begin | MadeDir | Unlinked | ListenDone (Err _) => mc_umask s.2 = umask
  | Narrowed old | BoundWith old (Err _) => mc_umask s.2 = (oct 1 1 7) ∧ old = umask
  | BoundWith old (Ok _) => mc_umask s.2 = (oct 1 1 7) ∧ old = umask ∧ mc_names s.2 !! path = Some (Socket (Some self) (oct 6 6 0))
  | ListenDone (Ok _) => mc_umask s.2 = umask ∧ mc_names s.2 !! path = Some (Socket (Some self) (oct 6 6 0))
  end.

Lemma Mkdir_keeps other mode m m' path : Mkdir other mode m = Ok m' → other ≠ path → mc_umask m' = mc_umask m ∧ mc_names m' !! path = mc_names m !! path.
Proof.
  unfold Mkdir. destruct (mc_names m !! other) as [[]|]; [done | by intros [= <-] | done|]. intros [= <-] Hne. cbn. by rewrite lookup_insert_ne.
Qed.

Lemma socket_step_inv umask dir path self s s' : dir ≠ path → socket_step dir path self s s' → socket_inv umask path self s → socket_inv umask path self s'.
Proof.
  intros Hd Hs Hi. destruct Hs as [p m|p other mode m m' Hne Hm].
  - unfold socket_inv in *. destruct p as [| | |old|old [[]|e]|[[]|e]]; cbn [fst snd listenControlSocket] in *.
    + destruct (Mkdir dir (oct 7 5 0) m) as [m'|e] eqn:E; cbn; [|done]. apply (Mkdir_keeps _ _ _ _ path) in E as [-> _]; done.
    + unfold Unlink. by destruct (mc_names m !! path) as [[]|].
    + by split.
    + destruct Hi as [Hu ->]. unfold Bind. destruct (mc_names m !! path); cbn; [done|]. rewrite lookup_insert_eq, Hu. done.
    + destruct Hi as (_ & -> & Hn). done.
    + destruct Hi as (_ & ->). done.
    + done.
    + done.
  - destruct (Mkdir_keeps other mode m m' path Hm Hne) as [Hu Hn]. unfold socket_inv in *. cbn [fst snd] in *. rewrite Hu, Hn. done.
Qed.

(** The control socket is created 0660 whatever umask the process inherited, and
    the name leads to this process; the umask is the inherited one again when
    the call returns, with an error or without. *)
Theorem control_socket_mode umask names dir path self r m :
  dir ≠ path → rtc (socket_step dir path self) (Begin, mkMachine umask names) (ListenDone r, m) →
  mc_umask m = umask ∧ (is_ok r = true → mc_names m !! path = Some (Socket (Some self) (oct 6 6 0))).
Proof.
  intros Hd Hr. assert (∀ a b, rtc (socket_step dir path self) a b → socket_inv umask path self a → socket_inv umask path self b) as Hall
    by (induction 1; eauto using socket_step_inv).
  pose proof (Hall _ _ Hr eq_refl) as Hi. unfold socket_inv in Hi. cbn in Hi. destruct r as [[]|e]; [by destruct Hi | done].
Qed.

(** A directory that another goroutine creates in between cannot be entered, not even by its owner. *)
Definition narrowed_machine : machine := mkMachine (oct 1 1 7) ∅.
Lemma narrowed_reached : rtc (socket_step (lit "/run") (lit "/run/s") 1) (Begin, mkMachine (oct 0 2 2) ∅)
  (Narrowed (oct 0 2 2), mkMachine (oct 1 1 7) {[lit "/run" := Directory (oct 7 5 0)]}).
Proof.
  eapply rtc_l; [apply ss_call|]. eapply rtc_l; [apply ss_call|]. eapply rtc_l; [apply ss_call|]. vm_compute. apply rtc_refl.
Qed.
Theorem window_hides_directory other (m : machine) : mc_names m !! other = None → mc_umask m = (oct 1 1 7) →
  ∃ m', Mkdir other (oct 7 0 0) m = Ok m' ∧ mc_names m' !! other = Some (Directory (oct 6 0 0)).
Proof. intros Hn Hu. unfold Mkdir. rewrite Hn, Hu. eexists. split; [done|]. cbn. by rewrite lookup_insert_eq. Qed.

Lemma control_socket_mode_witness :
  ∃ m, mc_umask m = (oct 0 2 2) ∧ mc_names m !! lit "/run/s" = Some (Socket (Some 1%nat) (oct 6 6 0)).
Proof.
  destruct (control_socket_mode (oct 0 2 2) {[lit "/run/s" := Socket None (oct 7 5 5)]} (lit "/run") (lit "/run/s") 1 (Ok tt)
    (mkMachine (oct 0 2 2) (<[lit "/run/s" := Socket (Some 1%nat) (oct 6 6 0)]> (<[lit "/run" := Directory (oct 7 5 0)]> ∅)))) as [H1 H2].
  - discriminate.
  - eapply rtc_l; [apply ss_call|]. eapply rtc_l; [apply ss_call|]. eapply rtc_l; [apply ss_call|]. eapply rtc_l; [apply ss_call|]. eapply rtc_l; [apply ss_call|].
    vm_compute. apply rtc_refl.
  - eexists. split; [exact H1 | exact (H2 eq_refl)].
Defined.
