(* ===== verification/GoNet.v ===== *)
(** * Go's [net] and [net/netip], as far as the program uses them

    Splitting and joining of [host:port], textual IP addresses and the address
    classes the program tests.  An address is its 4 or 16 bytes. *)
From S2P Require Import Prelude GoStrings GoBinary.

(** ** [net.SplitHostPort] and [net.JoinHostPort] *)
Definition SplitHostPort (hostport : bytes) : option (bytes * bytes) :=
  match LastIndexByte hostport #":" with
  | None => None
  | Some i =>
      let port := drop (S i) hostport in
      match hostport with
      | c :: _ =>
          if c =? #"[" then
            match IndexByte hostport #"]" with
            | None => None
            | Some e =>
                if negb (bool_decide (S e = i)) then None
                else if ContainsByte (drop 1 hostport) #"[" then None
                else if ContainsByte (drop (S e) hostport) #"]" then None
                else Some (take (e - 1) (drop 1 hostport), port)
            end
          else
            let host := take i hostport in
            if ContainsByte host #":" then None
            else if ContainsByte hostport #"[" then None
            else if ContainsByte hostport #"]" then None
            else Some (host, port)
      | [] => None
      end
  end.

Definition JoinHostPort (host port : bytes) : bytes :=
  if ContainsByte host #":" then &"[" ++ host ++ &"]:" ++ port else host ++ &":" ++ port.

(** ** Addresses *)
Inductive ip_addr :=
| IPv4 (b : bytes)
| IPv6 (b : bytes) (zone : bytes).

(** One decimal octet: no sign, no leading zero, at most 255. *)
Definition parse_octet (s : bytes) : option Z :=
  if bool_decide (s = []) || negb (forallb is_digit s) then None
  else if (1 <? len s) && bool_decide (head s = Some #"0") then None
  else if digits_value s <=? 255 then Some (digits_value s) else None.

(** [parseIPv4Fields]: exactly four octets between dots. *)
Definition parseIPv4 (s : bytes) : option bytes :=
  match Split s #"." with
  | [a; b; c; d] =>
      a ← parse_octet a; b ← parse_octet b; c ← parse_octet c; d ← parse_octet d;
      Some [a; b; c; d]
  | _ => None
  end.

Definition hex_value (c : Z) : option Z :=
  if is_digit c then Some (c - #"0")
  else if (#"a" <=? c) && (c <=? #"f") then Some (c - #"a" + 10)
  else if (#"A" <=? c) && (c <=? #"F") then Some (c - #"A" + 10)
  else None.

(** The hexadecimal digits at the head: their value, their count, the rest. *)
Fixpoint scan_hex (s : bytes) (acc : Z) (off : nat) : Z * nat * bytes :=
  match s with
  | c :: s' => match hex_value c with
               | Some v => scan_hex s' (16 * acc + v) (S off)
               | None => (acc, off, s)
               end
  | [] => (acc, off, [])
  end.

(** The group loop of [parseIPv6]: the bytes so far, the position of the
    ellipsis, the rest of the text.  The fuel is the eight groups. *)
Fixpoint ipv6_groups (fuel : nat) (ip : bytes) (ellipsis : option nat) (s : bytes) :
    option (bytes * option nat * bytes) :=
  match fuel with
  | O => Some (ip, ellipsis, s)
  | S fuel' =>
      let '(acc, off, rest) := scan_hex s 0 0 in
      if (4 <? off)%nat || (off =? 0)%nat then None
      else
        match rest with
        | [] => Some (ip ++ be_split 2 acc, ellipsis, [])
        | c :: rest' =>
            if c =? #"." then
              if bool_decide (ellipsis = None) && negb (length ip =? 12)%nat then None
              else if (16 <? length ip + 4)%nat then None
              else match parseIPv4 s with
                   | Some four => Some (ip ++ four, ellipsis, [])
                   | None => None
                   end
            else if negb (c =? #":") then None
            else
              let ip' := ip ++ be_split 2 acc in
              match rest' with
              | [] => None
              | c' :: rest'' =>
                  if c' =? #":" then
                    if bool_decide (ellipsis = None) then
                      match rest'' with
                      | [] => Some (ip', Some (length ip'), [])
                      | _ => ipv6_groups fuel' ip' (Some (length ip')) rest''
                      end
                    else None
                  else ipv6_groups fuel' ip' ellipsis rest'
              end
        end
  end.

Definition expand_ellipsis (ip : bytes) (ellipsis : option nat) : option bytes :=
  if (length ip <? 16)%nat then
    match ellipsis with
    | None => None
    | Some e => Some (take e ip ++ replicate (16 - length ip) 0 ++ drop e ip)
    end
  else match ellipsis with Some _ => None | None => Some ip end.

Definition parseIPv6 (s : bytes) : option ip_addr :=
  let '(body, zone, zoned) :=
    match IndexByte s #"%" with
    | Some i => (take i s, drop (S i) s, true)
    | None => (s, [], false)
    end in
  if zoned && bool_decide (zone = []) then None
  else if bool_decide (body = &"::") then Some (IPv6 (replicate 16 0) zone)
  else
    let '(ellipsis, rest) :=
      if HasPrefix body (&"::") then (Some 0%nat, drop 2 body) else (None, body) in
    match ipv6_groups 8 [] ellipsis rest with
    | Some (ip, ellipsis, []) => (λ b, IPv6 b zone) <$> expand_ellipsis ip ellipsis
    | _ => None
    end.

(** [netip.ParseAddr]: the first of dot, colon and percent decides. *)
Definition ParseAddr (s : bytes) : option ip_addr :=
  match List.find (λ c, (c =? #".") || (c =? #":") || (c =? #"%")) s with
  | Some c => if c =? #"." then IPv4 <$> parseIPv4 s
              else if c =? #":" then parseIPv6 s
              else None
  | None => None
  end.

Definition v4_in_v6 : bytes := replicate 10 0 ++ [0xff; 0xff].

(** [net.ParseIP]: the 16-byte form; a zone is refused. *)
Definition ParseIP (s : bytes) : option bytes :=
  match ParseAddr s with
  | Some (IPv4 b) => Some (v4_in_v6 ++ b)
  | Some (IPv6 b zone) => if bool_decide (zone = []) then Some b else None
  | None => None
  end.

Definition To4 (ip : bytes) : option bytes :=
  if (len ip =? 4) then Some ip
  else if (len ip =? 16) && HasPrefix ip v4_in_v6 then Some (drop 12 ip) else None.

Definition byte_at (l : bytes) (i : nat) : Z := nth i l 0.

Definition IsLoopback (ip : bytes) : bool :=
  match To4 ip with
  | Some four => byte_at four 0 =? 127
  | None => bool_decide (ip = replicate 15 0 ++ [1])
  end.
Definition IsUnspecified (ip : bytes) : bool :=
  match To4 ip with
  | Some four => bool_decide (four = [0; 0; 0; 0])
  | None => bool_decide (ip = replicate 16 0)
  end.
Definition IsPrivate (ip : bytes) : bool :=
  match To4 ip with
  | Some four =>
      (byte_at four 0 =? 10)
      || ((byte_at four 0 =? 172) && (Z.land (byte_at four 1) 0xf0 =? 16))
      || ((byte_at four 0 =? 192) && (byte_at four 1 =? 168))
  | None => (len ip =? 16) && (Z.land (byte_at ip 0) 0xfe =? 0xfc)
  end.
Definition IsMulticast (ip : bytes) : bool :=
  match To4 ip with
  | Some four => Z.land (byte_at four 0) 0xf0 =? 0xe0
  | None => (len ip =? 16) && (byte_at ip 0 =? 0xff)
  end.
Definition IsLinkLocalUnicast (ip : bytes) : bool :=
  match To4 ip with
  | Some four => (byte_at four 0 =? 169) && (byte_at four 1 =? 254)
  | None => (len ip =? 16) && (byte_at ip 0 =? 0xfe) && (Z.land (byte_at ip 1) 0xc0 =? 0x80)
  end.
Definition IsGlobalUnicast (ip : bytes) : bool :=
  ((len ip =? 4) || (len ip =? 16))
  && negb (bool_decide (To4 ip = Some [255; 255; 255; 255]))
  && negb (IsUnspecified ip) && negb (IsLoopback ip) && negb (IsMulticast ip)
  && negb (IsLinkLocalUnicast ip).

(** ** Text of an address *)
Definition v4_text (b : bytes) : bytes := Join (map Itoa b) (&".").

Fixpoint hex_text_fuel (fuel : nat) (x : Z) (acc : bytes) : bytes :=
  match fuel with
  | O => acc
  | S fuel' =>
      let acc' := hex_digit (x mod 16) :: acc in
      if x <? 16 then acc' else hex_text_fuel fuel' (x / 16) acc'
  end.
Definition hex_text (x : Z) : bytes := hex_text_fuel 4 x [].

(** The longest run of at least two zero groups, the first of equals. *)
Fixpoint zero_run (gs : list Z) : nat :=
  match gs with g :: gs' => if g =? 0 then S (zero_run gs') else O | [] => O end.
Definition best_zero_run (gs : list Z) : nat * nat :=
  fold_left (λ best i, let l := zero_run (drop i gs) in
                       if (2 <=? l)%nat && (best.2 <? l)%nat then (i, l) else best)
    (seq 0 (length gs)) (0, 0)%nat.

Definition groups_of (b : bytes) : list Z :=
  map (λ i, be_combine (take 2 (drop (2 * i) b))) (seq 0 8).
Definition v6_text (b : bytes) : bytes :=
  let gs := groups_of b in
  let '(start, l) := best_zero_run gs in
  if (l =? 0)%nat then Join (map hex_text gs) (&":")
  else Join (map hex_text (take start gs)) (&":") ++ &"::"
       ++ Join (map hex_text (drop (start + l) gs)) (&":").

Definition IP_String (ip : bytes) : bytes :=
  match To4 ip with Some four => v4_text four | None => v6_text ip end.

(** ** [net.ParseCIDR] and the text of the network it names *)
Definition dtoi (s : bytes) : option Z :=
  if bool_decide (s = []) || negb (forallb is_digit s) then None
  else if digits_value s <? 0xFFFFFF then Some (digits_value s) else None.

Definition mask_byte (n : Z) (i : nat) (b : Z) : Z :=
  let k := Z.max 0 (Z.min 8 (n - 8 * Z.of_nat i)) in
  Z.land b (256 - 2 ^ (8 - k)).
Definition mask_ip (n : Z) (b : bytes) : bytes := imap (mask_byte n) b.

(** The prefix length and the masked address of the network. *)
Definition ParseCIDR (s : bytes) : option (bytes * Z) :=
  match IndexByte s #"/" with
  | None => None
  | Some i =>
      match ParseAddr (take i s), dtoi (drop (S i) s) with
      | Some (IPv4 b), Some n => if n <=? 32 then Some (mask_ip n b, n) else None
      | Some (IPv6 b zone), Some n =>
          if bool_decide (zone = []) && (n <=? 128) then Some (mask_ip n b, n) else None
      | _, _ => None
      end
  end.

(** [IPNet.String]: a network inside the IPv4-mapped range is written as IPv4
    with the last four bytes of its mask. *)
Definition IPNet_String (network : bytes * Z) : bytes :=
  let '(ip, n) := network in
  match To4 ip with
  | Some four =>
      v4_text four ++ &"/" ++ Itoa (if len ip =? 4 then n else Z.max 0 (n - 96))
  | None => v6_text ip ++ &"/" ++ Itoa n
  end.

(** ** Lengths of parsed addresses *)
Lemma parseIPv4_length s b : parseIPv4 s = Some b → length b = 4%nat.
Proof.
  unfold parseIPv4. destruct (Split s _) as [|p1 [|p2 [|p3 [|p4 [|]]]]]; try done.
  destruct (parse_octet p1), (parse_octet p2), (parse_octet p3), (parse_octet p4); simpl; naive_solver.
Qed.

Lemma ipv6_groups_length fuel ip e s ip' e' s' :
  (length ip + 2 * fuel <= 16)%nat → ipv6_groups fuel ip e s = Some (ip', e', s') → (length ip' <= 16)%nat.
Proof.
  revert ip e s. induction fuel as [|fuel IH]; intros ip e s Hl E; cbn [ipv6_groups] in E; [naive_solver lia|].
  destruct (scan_hex s 0 0) as [[acc off] rest].
  destruct ((4 <? off)%nat || (off =? 0)%nat); [done|].
  assert (length (ip ++ be_split 2 acc) = length ip + 2)%nat as Hlen by (rewrite length_app, length_be_split; lia).
  destruct rest as [|c rest]; [assert (ip' = ip ++ be_split 2 acc) as -> by congruence; rewrite Hlen; lia|].
  destruct (c =? 46).
  - destruct (bool_decide (e = None) && _); [done|]. destruct (16 <? length ip + 4)%nat eqn:H16; [done|].
    destruct (parseIPv4 s) as [four|] eqn:H4; [|done]. injection E as <- _ _.
    apply parseIPv4_length in H4. apply Nat.ltb_ge in H16. rewrite length_app. lia.
  - destruct (negb (c =? 58)); [done|]. destruct rest as [|c' rest]; [done|].
    destruct (c' =? 58); [case_bool_decide; [|done]; destruct rest as [|]; [assert (ip' = ip ++ be_split 2 acc) as -> by congruence; rewrite Hlen; lia|]|];
      (eapply IH; [|exact E]; rewrite Hlen; lia).
Qed.

Lemma ParseAddr_v4_length s b : ParseAddr s = Some (IPv4 b) → length b = 4%nat.
Proof.
  unfold ParseAddr. destruct (List.find _ s) as [c|]; [|done].
  destruct (c =? _); [|destruct (c =? _); [|done]].
  - destruct (parseIPv4 s) as [b'|] eqn:E; [|done]. intros [= ->]. by eapply parseIPv4_length.
  - unfold parseIPv6. intros E. exfalso. destruct (IndexByte s _); simpl in E;
      repeat (case_match; try discriminate E); destruct (expand_ellipsis _ _); discriminate E.
Qed.

Lemma ParseAddr_v6_length s b zone : ParseAddr s = Some (IPv6 b zone) → length b = 16%nat.
Proof.
  assert (∀ ip e b, (length ip <= 16)%nat → expand_ellipsis ip e = Some b → length b = 16%nat) as Hex.
  { intros ip e b' Hl. unfold expand_ellipsis. destruct (length ip <? 16)%nat eqn:E.
    - apply Nat.ltb_lt in E. destruct e as [e|]; [|done]. intros [= <-].
      rewrite !length_app, length_replicate, length_take, length_drop. lia.
    - apply Nat.ltb_ge in E. destruct e; [done|]. intros [= <-]. lia. }
  assert (∀ body zone', match (if HasPrefix body (&"::") then (Some 0%nat, drop 2 body) else (None, body)) with
            | (e, rest) => match ipv6_groups 8 [] e rest with
                           | Some (ip, e, []) => (λ b, IPv6 b zone') <$> expand_ellipsis ip e
                           | _ => None end end = Some (IPv6 b zone) → length b = 16%nat) as Hg.
  { intros body zone' E. destruct (if HasPrefix body _ then _ else _) as [e rest].
    destruct (ipv6_groups 8 [] e rest) as [[[ip e'] [|]]|] eqn:Eg; try done.
    apply ipv6_groups_length in Eg; [|simpl; lia].
    destruct (expand_ellipsis ip e') as [b'|] eqn:Ee; [|done]. injection E as -> _. by eapply Hex. }
  unfold ParseAddr. destruct (List.find _ s) as [c|]; [|done].
  destruct (c =? _); [destruct (parseIPv4 s); discriminate|]. destruct (c =? _); [|done].
  unfold parseIPv6. destruct (IndexByte s _) as [i|]; cbn [andb].
  - destruct (bool_decide (drop (S i) s = [])); [done|].
    case_bool_decide; [by intros [= <- _] | apply Hg].
  - case_bool_decide; [by intros [= <- _] | apply Hg].
Qed.

(** ** Examples *)
Example parse_v4 : ParseIP (&"192.168.1.7") = Some (v4_in_v6 ++ [192; 168; 1; 7]).
Proof. by vm_compute. Qed.
Example parse_v4_leading_zero : ParseIP (&"192.168.01.7") = None.
Proof. by vm_compute. Qed.
Example parse_v6 : ParseIP (&"2001:db8::1") = Some ([0x20; 1; 0x0d; 0xb8] ++ replicate 11 0 ++ [1]).
Proof. by vm_compute. Qed.
Example parse_v6_mapped : ParseIP (&"::ffff:10.0.0.1") = Some (v4_in_v6 ++ [10; 0; 0; 1]).
Proof. by vm_compute. Qed.
Example parse_v6_zone : ParseIP (&"fe80::1%eth0") = None ∧ is_Some (ParseAddr (&"fe80::1%eth0")).
Proof. split; vm_compute; [done | by eexists]. Qed.
Example v6_canonical : IP_String ([0x20; 1; 0x0d; 0xb8] ++ replicate 10 0 ++ [1; 0]) = &"2001:db8::100".
Proof. by vm_compute. Qed.
Example cidr_canonical : IPNet_String <$> ParseCIDR (&"10.1.2.3/8") = Some (&"10.0.0.0/8").
Proof. by vm_compute. Qed.
Example cidr_v6 : IPNet_String <$> ParseCIDR (&"2001:db8::/32") = Some (&"2001:db8::/32").
Proof. by vm_compute. Qed.
Example split_v6 : SplitHostPort (&"[::1]:443") = Some (&"::1", &"443").
Proof. by vm_compute. Qed.
Example split_too_many : SplitHostPort (&"::1:443") = None.
Proof. by vm_compute. Qed.
