(* ===== verification/HostPatterns.v ===== *)
(** * Host names, host patterns and compiled matchers

    The host functions of [config.go], the matcher of [module_runtime.go] and
    the address scope of a mapping target.  A pattern is an exact name or
    [*.] followed by a suffix. *)
From S2P Require Import Prelude GoStrings GoBinary GoNet ConfigTypes.

Definition wild : bytes := &"*.".

Definition matchHostPattern (pattern host : bytes) : bool :=
  if HasPrefix pattern wild then
    let suffix := TrimPrefix pattern wild in
    (len suffix + 1 <? len host) && HasSuffix host (&"." ++ suffix)
  else bool_decide (host = pattern).

Definition hostPatternCovers (allowed candidate : bytes) : bool :=
  if bool_decide (allowed = candidate) then true
  else if negb (HasPrefix allowed wild) then false
  else
    let base := TrimPrefix allowed wild in
    let candidateBase := TrimPrefix candidate wild in
    HasSuffix candidateBase (&"." ++ base).

Definition hostCoveredBy (patterns : list bytes) (candidate : bytes) : bool :=
  existsb (λ pattern, hostPatternCovers pattern candidate) patterns.

(** ** Compiled matchers

    [seenWildcard] keeps the first occurrence of each suffix, in order. *)
Fixpoint add_wildcards (patterns : list bytes) (seen : gset bytes) : list bytes :=
  match patterns with
  | [] => []
  | p :: rest =>
      if HasPrefix p wild then
        let suffix := TrimPrefix p wild in
        if bool_decide (suffix ∈ seen) then add_wildcards rest seen
        else suffix :: add_wildcards rest ({[suffix]} ∪ seen)
      else add_wildcards rest seen
  end.

Definition newCompiledHostMatcher (patterns : list bytes) : compiledHostMatcher :=
  mkHostMatcher (list_to_set (List.filter (λ p, negb (HasPrefix p wild)) patterns))
    (add_wildcards patterns ∅).

(** The separator test reads [host[separator]], which is in range when positive. *)
Definition matchCanonical (m : option compiledHostMatcher) (host : bytes) : bool :=
  match m with
  | None => false
  | Some m =>
      bool_decide (host ∈ hm_exact m)
      || existsb (λ suffix, let separator := len host - len suffix - 1 in
                    (0 <? separator) && bool_decide (host !! Z.to_nat separator = Some #".")
                    && HasSuffix host suffix) (hm_wildcard m)
  end.

Section case.
Context {U : UnicodeCase}.

Definition canonicalHost (value : bytes) : bytes :=
  let host := ToLower (TrimSpace value) in
  let host := if ContainsByte host #":" then
                match SplitHostPort host with Some (parsed, _) => parsed | None => host end
              else host in
  TrimSuffix host (&".").

Definition Match (m : option compiledHostMatcher) (value : bytes) : bool :=
  match m with None => false | Some _ => matchCanonical m (canonicalHost value) end.

Definition label_rune (r : Z) : bool :=
  ((#"a" <=? r) && (r <=? #"z")) || is_digit r || (r =? #"-").

Definition valid_label (label : bytes) : bool :=
  negb (bool_decide (label = [])) && (len label <=? 63)
  && negb (bool_decide (head label = Some #"-")) && negb (bool_decide (last label = Some #"-"))
  && forallb label_rune (runes label).

Definition validHostPattern (pattern : bytes) : bool :=
  let pattern := ToLower (TrimSpace pattern) in
  let pattern := if HasPrefix pattern wild then TrimPrefix pattern wild else pattern in
  if ContainsByte pattern #"*" || (253 <? len pattern) || negb (ContainsByte pattern #".") then false
  else forallb valid_label (Split pattern #".").

Fixpoint unique_first (values : list bytes) (seen : gset bytes) : list bytes :=
  match values with
  | [] => []
  | v :: rest =>
      let value := ToLower (TrimSpace v) in
      if bool_decide (value ∈ seen) then unique_first rest seen
      else value :: unique_first rest ({[value]} ∪ seen)
  end.
Definition uniqueSorted (values : list bytes) : list bytes := sort_Strings (unique_first values ∅).

(** ** Mapping targets *)
Definition hostTargetServerPrefix : bytes := &"server:".
Definition maxHostTargetServers : Z := 4.

Definition resolverForm (m : HostMapping) : bool :=
  HasPrefix (ToLower (TrimSpace (hm_Target m))) hostTargetServerPrefix.

Definition hostTargetAddressAllowed (ip : bytes) : bool :=
  if negb (IsGlobalUnicast ip) || IsPrivate ip || IsLoopback ip || IsLinkLocalUnicast ip then false
  else match To4 ip with
       | Some four => negb ((byte_at four 0 =? 100) && (Z.land (byte_at four 1) 0xc0 =? 64))
       | None => true
       end.

Definition hostTargetServerDialAddress (spec : bytes) : option bytes :=
  let dial :=
    match LastIndexByte spec #"@" with
    | Some (S at_) => Some (drop (S (S at_)) spec)
    | _ => if Contains spec (&"://") then None else Some spec
    end in
  match dial with
  | None => None
  | Some dial =>
      if bool_decide (dial = []) then None
      else match SplitHostPort dial with Some (bare, _) => Some bare | None => Some dial end
  end.

Definition validHostTargetServers (rest : bytes) : bool :=
  let parts := List.filter (λ p, negb (bool_decide (p = []))) (map TrimSpace (Split rest #",")) in
  if bool_decide (parts = []) || (maxHostTargetServers <? len parts) then false
  else forallb (λ part,
         match hostTargetServerDialAddress part with
         | None => false
         | Some dial =>
             match ParseIP dial with
             | None => false
             | Some ip => negb (bool_decide (To4 ip = None)) && hostTargetAddressAllowed ip
             end
         end) parts.

Definition validHostTarget (value : bytes) : bool :=
  match CutPrefix (ToLower (TrimSpace value)) hostTargetServerPrefix with
  | Some rest => validHostTargetServers rest
  | None =>
      let value := canonicalHost value in
      match ParseIP value with
      | Some ip => negb (bool_decide (To4 ip = None)) && hostTargetAddressAllowed ip
      | None => negb (HasPrefix value wild) && negb (bool_decide (value = &"localhost"))
                && negb (HasSuffix value (&".local")) && validHostPattern value
      end
  end.

(** ** Who owns a host *)
Definition activeHostPatterns (cfg : Config) : list bytes :=
  if negb (mitm_Enabled (cfg_MITM cfg)) then []
  else match cfg_runtime cfg with
       | Some r => cc_activePatterns r
       | None => uniqueSorted (concat (map mod_CaptureHosts (enabled_modules cfg)))
       end.

Definition activeInterceptHost (cfg : Config) (value : bytes) : bool :=
  if negb (mitm_Enabled (cfg_MITM cfg)) then false
  else match cfg_runtime cfg with
       | Some r => Match (Some (cc_activeHosts r)) value
       | None => existsb (λ p, matchHostPattern p (canonicalHost value)) (activeHostPatterns cfg)
       end.

Definition hasActiveExtensions (cfg : Config) : bool :=
  if negb (mitm_Enabled (cfg_MITM cfg)) then false
  else match cfg_runtime cfg with
       | Some r => negb (bool_decide (cc_activePatterns r = []))
       | None => negb (bool_decide (activeHostPatterns cfg = []))
       end.

Definition moduleOwnsHost (module : Module_) (host : bytes) : bool :=
  existsb (λ p, matchHostPattern p (canonicalHost host)) (mod_CaptureHosts module).

Definition moduleCapturesHost (cfg : Config) (module : Module_) (host : bytes) : bool :=
  match r ← cfg_runtime cfg; cc_moduleHosts r !! mod_ID module with
  | Some matcher => Match (Some matcher) host
  | None => moduleOwnsHost module host
  end.

Definition certificateHostPatterns (cfg : Config) : list bytes :=
  uniqueSorted (concat (map mod_CaptureHosts (enabled_modules cfg))).

Definition certificateDigest (cfg : Config) : bytes :=
  digestText (Join (certificateHostPatterns cfg) [10] ++ [10]).

(** The mapping that applies: an exact pattern, or a longer one than the best so far. *)
Definition mapping_step (host : bytes) (best : bytes * bytes) (mapping : HostMapping) : bytes * bytes :=
  if negb (matchHostPattern (hm_Pattern mapping) host) then best
  else if bool_decide (hm_Pattern mapping = host) || (len best.1 <? len (hm_Pattern mapping))
       then (hm_Pattern mapping, hm_Target mapping) else best.

Definition mappedInterceptTarget (cfg : Config) (host : bytes) : bytes :=
  let host := canonicalHost host in
  (fold_left (λ best module,
     let owns := match cfg_runtime cfg with
                 | Some r => Match (cc_moduleHosts r !! mod_ID module) host
                 | None => moduleOwnsHost module host
                 end in
     if negb (mod_Enabled module) then best
     else if negb owns then best
     else fold_left (λ best mapping,
            if resolverForm mapping then best else mapping_step host best mapping)
            (mod_HostMappings module) best)
   (cfg_Modules cfg) ([], host)).2.

Record socksTarget := mkTarget { t_Host : bytes; t_Port : Z }.

Definition allowedInboundSOCKSTarget (cfg : Config) (target : socksTarget) : bool :=
  if negb (mitm_Enabled (cfg_MITM cfg)) || (negb (t_Port target =? 80) && negb (t_Port target =? 443))
  then false
  else activeInterceptHost cfg (t_Host target) || bool_decide (is_Some (ParseIP (t_Host target))).

(** [activeModuleUpstreamTarget] of [module_request_rewrite.go]. *)
Definition activeModuleUpstreamTarget (cfg : Config) (rawHost portText : bytes) : option socksTarget :=
  if negb (mitm_Enabled (cfg_MITM cfg)) then None
  else
    let host := canonicalHost rawHost in
    match Atoi portText with
    | None => None
    | Some port =>
        if (port <? 1) || (65535 <? port) then None
        else if ((port =? 80) || (port =? 443)) && activeInterceptHost cfg host
             then Some (mkTarget (mappedInterceptTarget cfg host) port)
        else if existsb (λ m, mod_Enabled m && mod_Network m) (cfg_Modules cfg)
             then Some (mkTarget host port)
        else None
    end.
End case.

(** ** The compiled matcher agrees with a scan of the patterns *)
Lemma elem_of_add_wildcards patterns seen suffix :
  suffix ∈ add_wildcards patterns seen ↔
  suffix ∉ seen ∧ ∃ p, p ∈ patterns ∧ HasPrefix p wild = true ∧ TrimPrefix p wild = suffix.
Proof.
  revert seen. induction patterns as [|p rest IH]; intros seen; cbn [add_wildcards].
  - rewrite elem_of_nil. setoid_rewrite elem_of_nil. naive_solver.
  - destruct (HasPrefix p wild) eqn:Hp; [case_bool_decide as Hs|]; rewrite ?elem_of_cons, IH;
      setoid_rewrite elem_of_cons.
    + naive_solver.
    + destruct (decide (suffix = TrimPrefix p wild)) as [->|Hne]; [set_solver|].
      rewrite not_elem_of_union, not_elem_of_singleton. naive_solver.
    + naive_solver congruence.
Qed.

(** Both tests of a wildcard: a dot and the suffix, with something before the dot. *)
Lemma wildcard_test host suffix :
  (0 <? len host - len suffix - 1)
  && bool_decide (host !! Z.to_nat (len host - len suffix - 1) = Some #".") && HasSuffix host suffix
  = (len suffix + 1 <? len host) && HasSuffix host (&"." ++ suffix).
Proof.
  apply eq_iff_eq_true. rewrite !andb_true_iff, bool_decide_eq_true, !Z.ltb_lt, !HasSuffix_true. split.
  - intros ((Hl & Hd) & k & ->). rewrite length_app in *. split; [lia|].
    replace (Z.to_nat (Z.of_nat (length k + length suffix) - len suffix - 1)) with (length k - 1)%nat in Hd by lia.
    rewrite lookup_app_l in Hd by lia. destruct k as [|c k] using rev_ind; [simpl in Hl; lia|].
    rewrite length_app in Hd. simpl in Hd. rewrite lookup_app_r, Nat.add_sub in Hd by lia.
    rewrite Nat.sub_diag in Hd. injection Hd as ->. exists k. by rewrite <- app_assoc.
  - intros (Hl & k & ->). rewrite !length_app in *. simpl in *. split; [split; [lia|]|].
    + replace (Z.to_nat _) with (length k) by lia. by rewrite list_lookup_middle.
    + exists (k ++ &"."). by rewrite <- app_assoc.
Qed.

Lemma matchCanonical_spec patterns host :
  matchCanonical (Some (newCompiledHostMatcher patterns)) host
  = existsb (λ p, matchHostPattern p host) patterns.
Proof.
  apply eq_iff_eq_true. unfold matchCanonical, newCompiledHostMatcher. simpl.
  rewrite orb_true_iff, bool_decide_eq_true, elem_of_list_to_set, list_elem_of_In, filter_In, !existsb_exists.
  setoid_rewrite wildcard_test. setoid_rewrite <- list_elem_of_In.
  setoid_rewrite elem_of_add_wildcards. unfold matchHostPattern. split.
  - intros [(Hin & Hn)|(s & (_ & p & Hin & Hp & <-) & Hm)]; [exists host | exists p]; (split; [done|]).
    + apply negb_true_iff in Hn. rewrite Hn. by apply bool_decide_eq_true.
    + by rewrite Hp.
  - intros (p & Hin & Hm). destruct (HasPrefix p wild) eqn:Hp.
    + right. exists (TrimPrefix p wild). split; [split; [apply not_elem_of_empty|]; eauto | done].
    + left. apply bool_decide_eq_true in Hm as ->. by rewrite Hp.
Qed.

(** ** Coverage is containment *)
Lemma TrimPrefix_wild p : HasPrefix p wild = true → p = wild ++ TrimPrefix p wild.
Proof. intros [k ->]%HasPrefix_true. by rewrite TrimPrefix_app. Qed.

Lemma covers_contains allowed candidate host :
  hostPatternCovers allowed candidate = true → matchHostPattern candidate host = true →
  head candidate ≠ Some #"." → matchHostPattern allowed host = true.
Proof.
  unfold hostPatternCovers. case_bool_decide as Heq; [by subst|].
  destruct (HasPrefix allowed wild) eqn:Ha; simpl; [|done].
  set (base := TrimPrefix allowed wild). intros [k Hk]%HasSuffix_true Hm Hd.
  unfold matchHostPattern in *. rewrite Ha. fold base. apply andb_true_iff.
  destruct (HasPrefix candidate wild) eqn:Hc.
  - apply andb_true_iff in Hm as [Hl [j ->]%HasSuffix_true]. rewrite Hk in *.
    split; [|apply HasSuffix_true; exists (j ++ &"." ++ k); by rewrite <- !app_assoc].
    apply Z.ltb_lt. rewrite !length_app in *. simpl. lia.
  - apply bool_decide_eq_true in Hm as ->. unfold TrimPrefix in Hk. rewrite Hc in Hk.
    destruct k as [|c k]; [by rewrite Hk in Hd|]. split; [|apply HasSuffix_true; by exists (c :: k)].
    rewrite Hk. apply Z.ltb_lt. rewrite !length_app. simpl. lia.
Qed.

(** ** A valid pattern does not begin with a dot *)
Lemma DecodeLastRune_keeps l c :
  33 <= c < 127 → IsSpace (DecodeLastRune (l ++ [c])).1 = true →
  ((DecodeLastRune (l ++ [c])).2 <= length l)%nat.
Proof.
  intros Hc. destruct l as [|x l].
  - simpl. rewrite (proj2 (Z.ltb_lt c RuneSelf)) by (unfold RuneSelf; lia). simpl.
    unfold IsSpace. intros Hs. exfalso.
    rewrite !orb_true_iff, !andb_true_iff, !Z.leb_le, !Z.eqb_eq in Hs. lia.
  - cbn [app DecodeLastRune]. destruct (x <? RuneSelf); [simpl; lia|].
    set (n := match list_find _ _ with Some _ => _ | None => _ end).
    change (x :: l ++ [c]) with ((x :: l) ++ [c]).
    destruct (decide (n <= length (x :: l))%nat) as [Hn|Hn].
    + rewrite take_app_le by lia. destruct (DecodeRune _) as [r size].
      case_bool_decide as Hsz; cbn [fst snd]; [|simpl; lia]. intros _.
      rewrite Hsz, length_rev, length_take. cbn [length]. lia.
    + rewrite take_ge by (rewrite length_app; simpl in *; lia).
      rewrite rev_app_distr. cbn [rev app DecodeRune].
      rewrite (proj2 (Z.ltb_lt c 128)) by lia. rewrite bool_decide_eq_false_2; [by vm_compute|].
      simpl. rewrite length_app. simpl. lia.
Qed.

Lemma trim_right_keeps n l c : 33 <= c < 127 → ∃ l', trim_right_fuel n (l ++ [c]) = l' ++ [c].
Proof.
  intros Hc. revert l. induction n as [|n IH]; intros l; [by exists l|].
  assert (trim_right_fuel (S n) (l ++ [c]) =
          let '(r, w) := DecodeLastRune (l ++ [c]) in
          if IsSpace r then trim_right_fuel n (drop w (l ++ [c])) else l ++ [c]) as ->
    by (by destruct l).
  pose proof (DecodeLastRune_keeps l c Hc) as Hk. destruct (DecodeLastRune (l ++ [c])) as [r w].
  simpl in Hk. destruct (IsSpace r); [|by exists l]. rewrite drop_app_le by auto. apply IH.
Qed.

Lemma TrimSpace_head c s : 33 <= c < 127 → ∃ s', TrimSpace (c :: s) = c :: s'.
Proof.
  intros Hc. unfold TrimSpace.
  assert (trim_left_fuel (length (c :: s)) (c :: s) = c :: s) as ->.
  { cbn [length trim_left_fuel DecodeRune]. rewrite (proj2 (Z.ltb_lt c 128)) by lia.
    replace (IsSpace c) with false; [done|]. unfold IsSpace. symmetry.
    rewrite !orb_false_iff, !andb_false_iff, !Z.leb_gt, !Z.eqb_neq. lia. }
  destruct (trim_right_keeps (length (c :: s)) (rev s) c Hc) as [l' El].
  exists (rev l'). cbn [rev]. rewrite El, rev_app_distr. done.
Qed.

Section facts.
Context {U : UnicodeCase}.

Lemma ToLower_dot s : ∃ s', ToLower (#"." :: s) = #"." :: s'.
Proof.
  unfold ToLower. destruct (is_ascii _); [by eexists|]. unfold runes. cbn [length runes_fuel].
  by eexists.
Qed.

Lemma validHostPattern_head pattern : validHostPattern pattern = true → head pattern ≠ Some #".".
Proof.
  destruct pattern as [|c pattern]; [done|]. intros Hv [= ->].
  destruct (TrimSpace_head #"." pattern) as [s Hs]; [lia|]. destruct (ToLower_dot s) as [s' Hs'].
  unfold validHostPattern in Hv. rewrite Hs, Hs' in Hv. cbn [HasPrefix] in Hv.
  assert (HasPrefix (46 :: s') wild = false) as Hw.
  { apply HasPrefix_false. intros [k E]. discriminate E. }
  rewrite Hw in Hv. destruct (_ || _); [done|]. discriminate Hv.
Qed.

Lemma labels_plain text c :
  forallb valid_label (Split text #".") = true → c ∈ text → c < 128 → c = #"." ∨ label_rune c = true.
Proof.
  intros Hl Hin Hc. destruct (decide (c = #".")) as [->|Hne]; [by left|]. right.
  destruct (Split_elem text #"." c Hin Hne) as (part & Hp & Hcp). rewrite forallb_forall in Hl.
  apply list_elem_of_In, Hl in Hp. unfold valid_label in Hp. apply andb_true_split in Hp as [_ Hp].
  rewrite forallb_forall in Hp. apply Hp. by apply list_elem_of_In, runes_ascii.
Qed.

(** A valid pattern in canonical form is its own lowered, trimmed text. *)
Lemma valid_canonical h : validHostPattern h = true → h = canonicalHost h → ToLower (TrimSpace h) = h.
Proof.
  unfold validHostPattern, canonicalHost. set (g := ToLower (TrimSpace h)). intros Hv Hc.
  assert (∃ pre base, g = pre ++ base ∧ (pre = [] ∨ pre = wild) ∧ forallb valid_label (Split base #".") = true)
    as (pre & base & Eg & Hpre & Hl).
  { destruct (HasPrefix g wild) eqn:Hw.
    - apply HasPrefix_true in Hw as [k Ek]. exists wild, k. rewrite Ek, TrimPrefix_app in Hv.
      destruct (_ || _); [done|]. split; [done|]. split; [by right | done].
    - exists [], g. destruct (_ || _); [done|]. split; [done|]. split; [by left | done]. }
  assert (ContainsByte g #":" = false) as Hcolon.
  { apply ContainsByte_false. intros Hin. rewrite Eg in Hin. apply elem_of_app in Hin as [Hin|Hin].
    - destruct Hpre as [->| ->]; [by apply elem_of_nil in Hin|]. unfold wild in Hin. simpl in Hin.
      rewrite !elem_of_cons, elem_of_nil in Hin. lia.
    - destruct (labels_plain base #":" Hl Hin) as [?|?]; [lia | done | done]. }
  rewrite Hcolon in Hc. symmetry. rewrite Hc at 1. unfold TrimSuffix.
  destruct (HasSuffix g &".") eqn:Hs; [|done]. exfalso. apply HasSuffix_true in Hs as [k Ek].
  assert ([] ∈ Split base #".") as Hempty.
  { destruct base as [|x base] using rev_ind; [cbn; left|].
    rewrite Eg, app_assoc in Ek. apply app_inj_tail in Ek as [_ ->]. apply Split_trailing. }
  rewrite forallb_forall in Hl. apply list_elem_of_In, Hl in Hempty. done.
Qed.

Lemma unique_first_elem values seen v :
  v ∈ values → ToLower (TrimSpace v) ∈ seen ∨ ToLower (TrimSpace v) ∈ unique_first values seen.
Proof.
  revert seen. induction values as [|x values IH]; intros seen Hin; [by apply elem_of_nil in Hin|].
  cbn [unique_first]. apply elem_of_cons in Hin as [->|Hin]; case_bool_decide as Hs.
  - by left.
  - right. left.
  - by apply IH.
  - destruct (IH ({[ToLower (TrimSpace x)]} ∪ seen) Hin) as [H|H].
    + apply elem_of_union in H as [->%elem_of_singleton|H]; [right; left | by left].
    + right. by right.
Qed.

Lemma uniqueSorted_elem values v : v ∈ values → ToLower (TrimSpace v) ∈ uniqueSorted values.
Proof.
  intros Hin. apply elem_of_sort_Strings. destruct (unique_first_elem values ∅ v Hin) as [H|H]; [|done].
  by apply elem_of_empty in H.
Qed.

(** *** The addresses a mapping may name *)
Definition public_v4 (a b c d : Z) : Prop :=
  [a; b; c; d] ≠ [0; 0; 0; 0] ∧ [a; b; c; d] ≠ [255; 255; 255; 255]
  ∧ a ≠ 10 ∧ a ≠ 127 ∧ ¬ (a = 172 ∧ 16 <= b < 32) ∧ ¬ (a = 192 ∧ b = 168)
  ∧ ¬ (a = 169 ∧ b = 254) ∧ ¬ (a = 100 ∧ 64 <= b < 128) ∧ ¬ (224 <= a < 240).

Lemma land_range m v lo hi x :
  forallb (λ y, Z.land y m =? v) (seqZ lo (hi - lo)) = true → lo <= x < hi → (Z.land x m =? v) = true.
Proof.
  intros Hf Hx. rewrite forallb_forall in Hf. apply Hf, list_elem_of_In, elem_of_seqZ. lia.
Qed.

Lemma To4_length ip four : To4 ip = Some four → length four = 4%nat.
Proof.
  unfold To4. destruct (len ip =? 4) eqn:E4; bools; [intros [= <-]; lia|].
  destruct (len ip =? 16) eqn:E16; bools; [|done]. simpl. destruct (HasPrefix ip v4_in_v6); [|done].
  intros [= <-]. rewrite length_drop. lia.
Qed.

Lemma allowed_public ip four :
  To4 ip = Some four → hostTargetAddressAllowed ip = true →
  ∃ a b c d, four = [a; b; c; d] ∧ public_v4 a b c d.
Proof.
  intros H4 Ha. pose proof (To4_length _ _ H4) as Hl.
  destruct four as [|a [|b [|c [|d [|]]]]]; try discriminate Hl. exists a, b, c, d. split; [done|].
  unfold hostTargetAddressAllowed, IsGlobalUnicast, IsUnspecified, IsLoopback, IsPrivate, IsMulticast,
    IsLinkLocalUnicast in Ha.
  rewrite H4 in Ha. unfold byte_at in Ha. cbn [nth] in Ha.
  match type of Ha with (if ?x then _ else _) = _ => destruct x eqn:Hx; [done|] end.
  rewrite !orb_false_iff, !negb_false_iff, !andb_true_iff, !negb_true_iff, !bool_decide_eq_false in Hx.
  rewrite !andb_false_iff, !Z.eqb_neq in Hx. rewrite negb_true_iff, andb_false_iff, !Z.eqb_neq in Ha.
  destruct Hx as ((((((((_ & Hbc) & Hun) & _) & Hmc) & _) & Hpr) & Hlo) & Hll).
  unfold public_v4. split; [congruence|]. split; [congruence|].
  assert (224 <= a < 240 → Z.land a 240 = 224) by (intros; by apply Z.eqb_eq, (land_range _ _ 224 240)).
  assert (16 <= b < 32 → Z.land b 240 = 16) by (intros; by apply Z.eqb_eq, (land_range _ _ 16 32)).
  assert (64 <= b < 128 → Z.land b 192 = 64) by (intros; by apply Z.eqb_eq, (land_range _ _ 64 128)).
  repeat split; try intros [? ?]; lia.
Qed.

(** C6 (equivalence): a compiled matcher answers exactly as a scan of the patterns it was built
    from, for every host and every list of patterns, exact and wildcard, with repetitions. *)
Theorem matcher_agrees (patterns : list bytes) (host : bytes) :
  Match (Some (newCompiledHostMatcher patterns)) host
  = existsb (λ p, matchHostPattern p (canonicalHost host)) patterns.
Proof. apply matchCanonical_spec. Qed.

(** An action or mapping pattern accepted as covered by the capture hosts never
    reaches a host the capture hosts do not match. *)
Theorem covered_pattern_contained (captureHosts : list bytes) (candidate host : bytes) :
  hostCoveredBy captureHosts candidate = true → validHostPattern candidate = true →
  matchHostPattern candidate host = true →
  matchCanonical (Some (newCompiledHostMatcher captureHosts)) host = true.
Proof.
  intros Hc Hv Hm. rewrite matchCanonical_spec. unfold hostCoveredBy in Hc.
  apply existsb_exists in Hc as (allowed & Hin & Hc). apply existsb_exists. exists allowed.
  split; [done|]. eapply covers_contains; [done..|]. by apply validHostPattern_head.
Qed.

(** A mapping target that validates and parses as an address is a public IPv4
    address, outside the private, loopback, link-local, carrier-grade NAT, multicast and
    special ranges; so is every address the resolver form dials. *)
Theorem mapping_target_public (value ip : bytes) :
  validHostTarget value = true →
  (CutPrefix (ToLower (TrimSpace value)) hostTargetServerPrefix = None →
   ParseIP (canonicalHost value) = Some ip →
   ∃ a b c d, To4 ip = Some [a; b; c; d] ∧ public_v4 a b c d)
  ∧ (∀ rest part, CutPrefix (ToLower (TrimSpace value)) hostTargetServerPrefix = Some rest →
     part ∈ map TrimSpace (Split rest #",") → part ≠ [] →
     ∃ dial ip a b c d, hostTargetServerDialAddress part = Some dial ∧ ParseIP dial = Some ip
       ∧ To4 ip = Some [a; b; c; d] ∧ public_v4 a b c d).
Proof.
  intros Hv. split.
  - intros Hn Hp. unfold validHostTarget in Hv. rewrite Hn, Hp in Hv. bools.
    destruct (To4 ip) as [four|] eqn:E4; [|done].
    destruct (allowed_public ip four) as (a & b & c & d & -> & ?); [done..|]. eauto 10.
  - intros rest part Hs Hin Hne. unfold validHostTarget in Hv. rewrite Hs in Hv.
    unfold validHostTargetServers in Hv. destruct (_ || _); [done|].
    rewrite forallb_forall in Hv. assert (In part (List.filter (λ p, negb (bool_decide (p = [])))
      (map TrimSpace (Split rest #",")))) as Hf.
    { apply filter_In. split; [by apply list_elem_of_In|]. by rewrite bool_decide_eq_false_2. }
    specialize (Hv part Hf). destruct (hostTargetServerDialAddress part) as [dial|]; [|done].
    destruct (ParseIP dial) as [i|] eqn:Hp; [|done].
    bools. destruct (To4 i) as [four|] eqn:E4; [|done].
    destruct (allowed_public i four) as (a & b & c & d & -> & ?); [done..|]. eauto 15.
Qed.
End facts.

(** Case mapping that leaves everything outside ASCII alone. *)
#[local] Instance ascii_case : UnicodeCase := {| unicode_ToLower r := r; unicode_ToUpper r := r |}.

Lemma covered_pattern_contained_witness :
  matchCanonical (Some (newCompiledHostMatcher [&"*.example.com"])) (&"a.b.example.com") = true.
Proof.
  apply (covered_pattern_contained [&"*.example.com"] (&"*.b.example.com") (&"a.b.example.com"));
    by vm_compute.
Defined.

Lemma mapping_target_public_witness :
  validHostTarget (&"server:1.1.1.1,8.8.8.8:53") = true ∧ validHostTarget (&"10.0.0.1") = false
  ∧ ∃ a b c d, To4 (v4_in_v6 ++ [1; 1; 1; 1]) = Some [a; b; c; d] ∧ public_v4 a b c d.
Proof.
  split; [by vm_compute|]. split; [by vm_compute|].
  apply (mapping_target_public (&"1.1.1.1") (v4_in_v6 ++ [1; 1; 1; 1])); by vm_compute.
Defined.
