(* ===== verification/ScriptConfig.v ===== *)
(** * The compiled snapshot of a configuration ([module_runtime.go])

    [compileScriptConfigWithPrograms] and the rule walk of a request.  The
    engines the program calls are parameters: the regular expressions and the
    JSON reader of Go, goja and gojq, and the text of a number. *)
From S2P Require Import Prelude GoStrings GoBinary GoNet ConfigTypes Json HostPatterns.

Class Engines := {
  regexp_Compile : bytes → bool;
  regexp_MatchString : bytes → bytes → bool;
  goja_Compile : bytes → bytes → option bytes;
  gojq_Compile : bytes → bool;
  (** [strconv.FormatFloat] of a number, [fmt.Sprint] of a list or an object. *)
  render_value : jvalue → bytes;
}.

Definition maxJQProgramBytes : Z := 32768.

(** An action and the extension that declares it. *)
Record matchedScriptRule := mkMatched { ma_Module : Module_; ma_Rule : ScriptRule }.

(** The parts of a message and of its parsed URL that matching reads. *)
Record parsedURL := mkURL {
  u_Scheme : bytes;
  u_Hostname : bytes;
  u_EscapedPath : bytes;
  u_RawQuery : bytes;
}.

Definition containsInt (values : list Z) (want : Z) : bool := existsb (λ v, v =? want) values.

Definition set_compiled (program jq : option bytes) (settings : gmap bytes jvalue) (r : ScriptRule) : ScriptRule :=
  mkScriptRule (sr_ID r) (sr_Phase r) (sr_Match r) (sr_EnabledWhen r) (sr_ScriptURL r) (sr_ScriptDigest r)
    (sr_ScriptBody r) (sr_BodyMode r) (sr_Entry r) (sr_JQProgram r) (sr_Reject r) (sr_Mock r) (sr_Headers r)
    (sr_Rewrite r) (sr_ReplaceBody r) (sr_TimeoutMS r) (sr_MaxBodyBytes r) program jq settings.

(** [programs]: what validation compiled, by extension, action and digest. *)
Abbreviation program_map := (gmap (bytes * bytes * bytes) bytes).

Section compile.
Context {U : UnicodeCase} {En : Engines}.

Definition firstNonEmpty (values : list bytes) : bytes :=
  default [] (List.find (λ v, negb (bool_decide (v = []))) (map TrimSpace values)).

Definition compatArgumentText (v : jvalue) : bytes :=
  match v with
  | JNull => []
  | JStr s => s
  | JBool b => if b then &"true" else &"false"
  | other => render_value other
  end.

Definition actionGateOpen (rule : ScriptRule) (settings : gmap bytes jvalue) : bool :=
  match sr_EnabledWhen rule with
  | None => true
  | Some gate =>
      match settings !! gate_Key gate with
      | None => true
      | Some value => bool_decide (compatArgumentText value = gate_Equals gate)
      end
  end.

Definition compileJQProgram (program : bytes) : res string bytes :=
  if maxJQProgramBytes <? len program then Err "jq program exceeds the limit"%string
  else if gojq_Compile program then Ok program else Err "compile jq program"%string.

Definition scriptProgram (module : Module_) (rule : ScriptRule) : res string bytes :=
  match sr_program rule with
  | Some p => Ok p
  | None =>
      let filename := firstNonEmpty [sr_ScriptURL rule; &"extension:" ++ mod_ID module ++ &"/" ++ sr_ID rule] in
      match goja_Compile filename (sr_ScriptBody rule) with
      | Some p => Ok p
      | None => Err "compile action"%string
      end
  end.

Fixpoint setting_values (settings : list ModuleSetting) (values : gmap bytes jvalue) : res string (gmap bytes jvalue) :=
  match settings with
  | [] => Ok values
  | s :: rest =>
      if bool_decide (set_Value s = []) then setting_values rest values
      else match json_Unmarshal_any (set_Value s) with
           | None => Err "decode setting"%string
           | Some v => setting_values rest (<[set_Key s := v]> values)
           end
  end.
Definition moduleSettingValues (module : Module_) : res string (gmap bytes jvalue) :=
  setting_values (mod_Settings module) ∅.

Definition compileRule (programs : program_map) (module : Module_) (settings : gmap bytes jvalue)
    (rule : ScriptRule) : res string compiledScriptRule :=
  _ ← reject_if (negb (regexp_Compile (am_PathRegex (sr_Match rule)))) "path_regex"%string;
  program ← match programs !! (mod_ID module, sr_ID rule, sr_ScriptDigest rule) with
            | Some p => Ok p
            | None => scriptProgram module rule
            end;
  jq ← (if bool_decide (sr_JQProgram rule = []) then Ok (sr_jq rule)
        else code ← compileJQProgram (sr_JQProgram rule); Ok (Some code));
  Ok (mkCompiledRule (set_compiled (Some program) jq settings rule) (am_PathRegex (sr_Match rule))
        (newCompiledHostMatcher (am_Hosts (sr_Match rule)))).

Fixpoint compileRules (programs : program_map) (module : Module_) (settings : gmap bytes jvalue)
    (rules : list ScriptRule) : res string (list compiledScriptRule) :=
  match rules with
  | [] => Ok []
  | rule :: rest =>
      if negb (actionGateOpen rule settings) then compileRules programs module settings rest
      else
        c ← compileRule programs module settings rule;
        cs ← compileRules programs module settings rest;
        Ok (c :: cs)
  end.

(** The last module of an id wins, as in the map [byID]. *)
Definition byID (modules : list Module_) : gmap bytes Module_ :=
  fold_left (λ m x, <[mod_ID x := x]> m) modules ∅.

Definition module_hosts (cfg : Config) : gmap bytes compiledHostMatcher :=
  fold_left (λ m x, <[mod_ID x := newCompiledHostMatcher (mod_CaptureHosts x)]> m) (enabled_modules cfg) ∅.

Fixpoint compileModules (programs : program_map) (cfg : Config) (order : list bytes) :
    res string (list compiledScriptModule) :=
  match order with
  | [] => Ok []
  | moduleID :: rest =>
      match byID (cfg_Modules cfg) !! moduleID with
      | None => compileModules programs cfg rest
      | Some module =>
          if negb (mod_Enabled module) then compileModules programs cfg rest
          else
            settings ← moduleSettingValues module;
            rules ← compileRules programs module settings (mod_Scripts module);
            others ← compileModules programs cfg rest;
            Ok (mkCompiledModule module rules (module_hosts cfg !! mod_ID module) :: others)
      end
  end.

Definition active_patterns (cfg : Config) : list bytes :=
  uniqueSorted (if mitm_Enabled (cfg_MITM cfg)
                then concat (map mod_CaptureHosts (enabled_modules cfg)) else []).

Definition compileScriptConfigWithPrograms (cfg : Config) (programs : program_map) : res string compiledScriptConfig :=
  modules ← compileModules programs cfg (default [] (cfg_ExecutionOrder cfg));
  Ok (mkCompiledConfig modules (module_hosts cfg) (newCompiledHostMatcher (active_patterns cfg))
        (active_patterns cfg)).

(** ** The rule walk *)
Definition request_path (parsed : parsedURL) : bytes :=
  let path := if bool_decide (u_EscapedPath parsed = []) then &"/" else u_EscapedPath parsed in
  if bool_decide (u_RawQuery parsed = []) then path else path ++ &"?" ++ u_RawQuery parsed.

Definition rule_matches (phase host scheme method path : bytes) (status : Z) (matchStatus : bool)
    (compiled : compiledScriptRule) : bool :=
  let rule := cr_rule compiled in
  let m := sr_Match rule in
  bool_decide (sr_Phase rule = phase)
  && matchCanonical (Some (cr_hosts compiled)) host
  && containsString (am_Schemes m) scheme
  && (bool_decide (am_Methods m = []) || containsString (am_Methods m) method)
  && (negb matchStatus || bool_decide (am_StatusCodes m = []) || containsInt (am_StatusCodes m) status)
  && regexp_MatchString (cr_path compiled) path.

Definition matchingScriptRulesParsed (cfg : Config) (phase method : bytes) (status : Z)
    (matchStatus : bool) (parsed : parsedURL) : list matchedScriptRule :=
  let host := canonicalHost (u_Hostname parsed) in
  let scheme := ToLower (u_Scheme parsed) in
  let path := request_path parsed in
  let runtime := match cfg_runtime cfg with
                 | Some r => Ok r
                 | None => compileScriptConfigWithPrograms cfg ∅
                 end in
  match runtime with
  | Err _ => []
  | Ok r =>
      concat (map (λ cm,
        if negb (matchCanonical (cm_hosts cm) host) then []
        else map (λ c, mkMatched (cm_module cm) (cr_rule c))
               (List.filter (rule_matches phase host scheme method path status matchStatus) (cm_rules cm)))
        (cc_modules r))
  end.
End compile.

(** ** The compiled snapshot agrees with the document *)
Lemma fold_insert_lookup {A} (f : Module_ → A) (ms : list Module_) (acc : gmap bytes A) (m : Module_) :
  NoDup (map mod_ID ms) → m ∈ ms →
  fold_left (λ g x, <[mod_ID x := f x]> g) ms acc !! mod_ID m = Some (f m).
Proof.
  revert acc. induction ms as [|x ms IH]; intros acc Hnd Hin; [by apply elem_of_nil in Hin|].
  simpl in *. apply NoDup_cons in Hnd as [Hx Hnd]. apply elem_of_cons in Hin as [->|Hin]; [|by apply IH].
  clear IH. assert (∀ acc : gmap bytes A, acc !! mod_ID x = Some (f x) →
            fold_left (λ g y, <[mod_ID y := f y]> g) ms acc !! mod_ID x = Some (f x)) as Hk;
    [|apply Hk, lookup_insert_eq].
  clear acc Hnd. induction ms as [|y ms IH]; intros acc Ha; simpl in *; [done|].
  apply not_elem_of_cons in Hx as [? ?]. apply IH; [done|]. by rewrite lookup_insert_ne.
Qed.

Lemma fold_insert_None {A} (f : Module_ → A) (ms : list Module_) (acc : gmap bytes A) (id : bytes) :
  id ∉ map mod_ID ms → fold_left (λ g x, <[mod_ID x := f x]> g) ms acc !! id = acc !! id.
Proof.
  revert acc. induction ms as [|x ms IH]; intros acc Hid; simpl in *; [done|].
  apply not_elem_of_cons in Hid as [? ?]. rewrite IH by done. by rewrite lookup_insert_ne.
Qed.

Lemma enabled_ids_NoDup cfg : NoDup (map mod_ID (cfg_Modules cfg)) → NoDup (map mod_ID (enabled_modules cfg)).
Proof.
  unfold enabled_modules. induction (cfg_Modules cfg) as [|m ms IH]; simpl; [done|].
  intros [Hx Hnd]%NoDup_cons. destruct (mod_Enabled m); simpl; [|auto]. constructor; [|auto].
  intros Hin. apply Hx. apply list_elem_of_In, in_map_iff in Hin as (y & <- & Hy).
  apply filter_In in Hy as [Hy _]. by apply list_elem_of_In, in_map.
Qed.

Lemma elem_of_enabled cfg m : m ∈ enabled_modules cfg ↔ m ∈ cfg_Modules cfg ∧ mod_Enabled m = true.
Proof. unfold enabled_modules. rewrite !list_elem_of_In. apply filter_In. Qed.

Lemma module_hosts_lookup cfg m :
  NoDup (map mod_ID (cfg_Modules cfg)) → m ∈ cfg_Modules cfg → mod_Enabled m = true →
  module_hosts cfg !! mod_ID m = Some (newCompiledHostMatcher (mod_CaptureHosts m)).
Proof.
  intros Hnd Hin Hen. apply (fold_insert_lookup (λ x, newCompiledHostMatcher (mod_CaptureHosts x))).
  - by apply enabled_ids_NoDup.
  - by apply elem_of_enabled.
Qed.

Lemma fold_left_ext_in {A B} (f g : A → B → A) l a :
  (∀ a x, x ∈ l → f a x = g a x) → fold_left f l a = fold_left g l a.
Proof.
  revert a. induction l as [|x l IH]; intros a Hf; simpl; [done|].
  rewrite Hf by left. apply IH. intros. apply Hf. by right.
Qed.

Section agreement.
Context {U : UnicodeCase} {En : Engines}.

Lemma compile_Ok cfg programs r :
  compileScriptConfigWithPrograms cfg programs = Ok r →
  compileModules programs cfg (default [] (cfg_ExecutionOrder cfg)) = Ok (cc_modules r)
  ∧ cc_moduleHosts r = module_hosts cfg
  ∧ cc_activeHosts r = newCompiledHostMatcher (active_patterns cfg)
  ∧ cc_activePatterns r = active_patterns cfg.
Proof. unfold compileScriptConfigWithPrograms. intros E. inv_res. done. Qed.

(** The compiled snapshot of a configuration with distinct extension ids
    answers every host question as the uncompiled document does: which hosts are intercepted,
    which extension captures a host, and where a mapped host is dialled. *)
Theorem snapshot_agrees (cfg : Config) (programs : gmap (bytes * bytes * bytes) bytes)
    (r : compiledScriptConfig) (host : bytes) :
  compileScriptConfigWithPrograms cfg programs = Ok r → NoDup (map mod_ID (cfg_Modules cfg)) →
  let compiled := set_runtime (Some r) cfg in
  let document := set_runtime None cfg in
  activeInterceptHost compiled host = activeInterceptHost document host
  ∧ activeHostPatterns compiled = activeHostPatterns document
  ∧ hasActiveExtensions compiled = hasActiveExtensions document
  ∧ mappedInterceptTarget compiled host = mappedInterceptTarget document host
  ∧ ∀ m, m ∈ cfg_Modules cfg → mod_Enabled m = true →
      moduleCapturesHost compiled m host = moduleCapturesHost document m host.
Proof.
  intros (_ & Hmh & Hah & Hap)%compile_Ok Hnd compiled document.
  assert (activeHostPatterns compiled = activeHostPatterns document) as Hpat.
  { unfold activeHostPatterns, compiled, document. simpl. rewrite Hap. unfold active_patterns.
    by destruct (mitm_Enabled (cfg_MITM cfg)). }
  split; [|split; [done|split; [|split]]].
  - unfold activeInterceptHost. rewrite <- Hpat. unfold activeHostPatterns, compiled, document. simpl.
    destruct (mitm_Enabled (cfg_MITM cfg)); simpl; [|done]. rewrite Hah, Hap. apply matchCanonical_spec.
  - unfold hasActiveExtensions. rewrite <- Hpat. unfold activeHostPatterns, compiled. simpl.
    by destruct (mitm_Enabled (cfg_MITM cfg)).
  - unfold mappedInterceptTarget, compiled, document. simpl. f_equal. apply fold_left_ext_in.
    intros a m Hin. destruct (mod_Enabled m) eqn:Hen; simpl; [|done].
    rewrite Hmh, module_hosts_lookup by done.
    change (Match (Some (newCompiledHostMatcher (mod_CaptureHosts m))) (canonicalHost host))
      with (matchCanonical (Some (newCompiledHostMatcher (mod_CaptureHosts m))) (canonicalHost (canonicalHost host))).
    by rewrite matchCanonical_spec.
  - intros m Hin Hen. unfold moduleCapturesHost, compiled, document. simpl.
    rewrite Hmh, module_hosts_lookup by done. apply matchCanonical_spec.
Qed.

(** ** The rule walk, declaratively *)
Lemma compileRules_elem programs m settings rules cs c :
  compileRules programs m settings rules = Ok cs →
  c ∈ cs ↔ ∃ rule, rule ∈ rules ∧ actionGateOpen rule settings = true
                   ∧ compileRule programs m settings rule = Ok c.
Proof.
  revert cs. induction rules as [|rule rules IH]; intros cs E; simpl in E.
  - inv_res. rewrite elem_of_nil. setoid_rewrite elem_of_nil. naive_solver.
  - destruct (actionGateOpen rule settings) eqn:Hg; simpl in E; inv_res.
    + rewrite elem_of_cons, IH by done. setoid_rewrite elem_of_cons. naive_solver congruence.
    + rewrite IH by done. setoid_rewrite elem_of_cons. naive_solver congruence.
Qed.

Lemma compileModules_elem programs cfg order ms cm :
  compileModules programs cfg order = Ok ms →
  cm ∈ ms ↔ ∃ id module settings rules, id ∈ order ∧ byID (cfg_Modules cfg) !! id = Some module
    ∧ mod_Enabled module = true ∧ moduleSettingValues module = Ok settings
    ∧ compileRules programs module settings (mod_Scripts module) = Ok rules
    ∧ cm = mkCompiledModule module rules (module_hosts cfg !! mod_ID module).
Proof.
  revert ms. induction order as [|id order IH]; intros ms E; simpl in E.
  - inv_res. rewrite elem_of_nil. setoid_rewrite elem_of_nil. naive_solver.
  - destruct (byID (cfg_Modules cfg) !! id) as [m|] eqn:Hm; [destruct (mod_Enabled m) eqn:Hen|];
      simpl in E; inv_res.
    + rewrite elem_of_cons, IH by done. setoid_rewrite elem_of_cons. split; [naive_solver|].
      intros (i & m' & st & rs & [->|Hi] & Hb & ? & ? & ? & ->); [left|right; naive_solver].
      rewrite Hm in Hb. injection Hb as <-. congruence.
    + rewrite IH by done. setoid_rewrite elem_of_cons. split; [naive_solver|].
      intros (i & m' & st & rs & [->|Hi] & Hb & ? & ?); [congruence | naive_solver].
    + rewrite IH by done. setoid_rewrite elem_of_cons. split; [naive_solver|].
      intros (i & m' & st & rs & [->|Hi] & Hb & ? & ?); [congruence | naive_solver].
Qed.

Lemma byID_lookup ms id m :
  NoDup (map mod_ID ms) → byID ms !! id = Some m ↔ m ∈ ms ∧ mod_ID m = id.
Proof.
  intros Hnd. split.
  - intros Hb. destruct (decide (id ∈ map mod_ID ms)) as [Hin|Hin].
    + apply list_elem_of_In, in_map_iff in Hin as (x & <- & Hx). apply list_elem_of_In in Hx.
      unfold byID in Hb. rewrite (fold_insert_lookup (λ x, x)) in Hb by done. by injection Hb as <-.
    + unfold byID in Hb. rewrite (fold_insert_None (λ x, x)) in Hb by done. done.
  - intros [Hin <-]. by apply (fold_insert_lookup (λ x, x)).
Qed.

(** The rule of an action, in terms of the document only: the extension is enabled and ordered,
    its gate is open, and the request lies in the hosts, schemes, methods, status codes and path
    of both the extension and the action. *)
Definition applies (programs : gmap (bytes * bytes * bytes) bytes) (cfg : Config) (phase method : bytes)
    (status : Z) (matchStatus : bool) (parsed : parsedURL) (m : Module_) (rule : ScriptRule) : Prop :=
  ∃ declared settings c,
    m ∈ cfg_Modules cfg ∧ mod_Enabled m = true ∧ mod_ID m ∈ default [] (cfg_ExecutionOrder cfg)
    ∧ moduleSettingValues m = Ok settings ∧ declared ∈ mod_Scripts m
    ∧ actionGateOpen declared settings = true
    ∧ compileRule programs m settings declared = Ok c ∧ rule = cr_rule c
    ∧ (∃ p, p ∈ mod_CaptureHosts m ∧ matchHostPattern p (canonicalHost (u_Hostname parsed)) = true)
    ∧ (∃ p, p ∈ am_Hosts (sr_Match declared) ∧ matchHostPattern p (canonicalHost (u_Hostname parsed)) = true)
    ∧ sr_Phase declared = phase ∧ ToLower (u_Scheme parsed) ∈ am_Schemes (sr_Match declared)
    ∧ (am_Methods (sr_Match declared) = [] ∨ method ∈ am_Methods (sr_Match declared))
    ∧ (matchStatus = true → am_StatusCodes (sr_Match declared) = [] ∨ status ∈ am_StatusCodes (sr_Match declared))
    ∧ regexp_MatchString (am_PathRegex (sr_Match declared)) (request_path parsed) = true.

Lemma compileRule_Ok programs m settings rule c :
  compileRule programs m settings rule = Ok c →
  cr_path c = am_PathRegex (sr_Match rule) ∧ cr_hosts c = newCompiledHostMatcher (am_Hosts (sr_Match rule))
  ∧ sr_Match (cr_rule c) = sr_Match rule ∧ sr_Phase (cr_rule c) = sr_Phase rule.
Proof. unfold compileRule. intros E. inv_res. done. Qed.

Lemma containsInt_true l x : containsInt l x = true ↔ x ∈ l.
Proof.
  unfold containsInt. rewrite existsb_exists. setoid_rewrite Z.eqb_eq.
  setoid_rewrite <- list_elem_of_In. naive_solver.
Qed.

Lemma match_patterns patterns host :
  matchCanonical (Some (newCompiledHostMatcher patterns)) host = true ↔
  ∃ p, p ∈ patterns ∧ matchHostPattern p host = true.
Proof. rewrite matchCanonical_spec, existsb_exists. by setoid_rewrite <- list_elem_of_In. Qed.

Lemma rule_matches_iff programs m settings declared c phase host scheme method path status ms :
  compileRule programs m settings declared = Ok c →
  rule_matches phase host scheme method path status ms c = true ↔
  (∃ p, p ∈ am_Hosts (sr_Match declared) ∧ matchHostPattern p host = true)
  ∧ sr_Phase declared = phase ∧ scheme ∈ am_Schemes (sr_Match declared)
  ∧ (am_Methods (sr_Match declared) = [] ∨ method ∈ am_Methods (sr_Match declared))
  ∧ (ms = true → am_StatusCodes (sr_Match declared) = [] ∨ status ∈ am_StatusCodes (sr_Match declared))
  ∧ regexp_MatchString (am_PathRegex (sr_Match declared)) path = true.
Proof.
  intros (Hp & Hh & Hm & Hph)%compileRule_Ok. unfold rule_matches.
  rewrite !andb_true_iff, !orb_true_iff, negb_true_iff, !bool_decide_eq_true, !containsString_true,
    containsInt_true, Hp, Hh, Hm, Hph, match_patterns. destruct ms; naive_solver.
Qed.

(** C7 (refinement): the walk over the compiled snapshot returns exactly the actions that apply
    to the request by the document: every one it returns applies, and every one that applies is
    returned, with its compiled artifacts. *)
Theorem matching_exact (cfg : Config) (programs : gmap (bytes * bytes * bytes) bytes)
    (r : compiledScriptConfig) (phase method : bytes) (status : Z) (matchStatus : bool) (parsed : parsedURL)
    (found : matchedScriptRule) :
  compileScriptConfigWithPrograms cfg programs = Ok r → NoDup (map mod_ID (cfg_Modules cfg)) →
  found ∈ matchingScriptRulesParsed (set_runtime (Some r) cfg) phase method status matchStatus parsed ↔
  applies programs cfg phase method status matchStatus parsed (ma_Module found) (ma_Rule found).
Proof.
  intros (Hms & _ & _ & _)%compile_Ok Hnd. unfold matchingScriptRulesParsed. simpl.
  rewrite list_elem_of_In, in_concat. setoid_rewrite in_map_iff. split.
  - intros (l & (cm & <- & Hcm) & Hin). apply list_elem_of_In in Hcm.
    apply (compileModules_elem _ _ _ _ _ Hms) in Hcm as (id & m & st & rules & Hid & Hb & Hen & Hst & Hru & ->).
    simpl in *. apply byID_lookup in Hb as [Hm <-]; [|done]. rewrite module_hosts_lookup in Hin by done.
    destruct (matchCanonical _ _) eqn:Hcap in Hin; [|done]. simpl in Hin.
    apply in_map_iff in Hin as (c & <- & [Hc Hmatch]%filter_In). apply list_elem_of_In in Hc.
    apply (compileRules_elem _ _ _ _ _ _ Hru) in Hc as (declared & Hd & Hg & Hcr).
    apply (rule_matches_iff _ _ _ _ _ _ _ _ _ _ _ _ Hcr) in Hmatch as (? & ? & ? & ? & ? & ?).
    apply match_patterns in Hcap. exists declared, st, c. simpl. by repeat (split; [assumption || reflexivity|]).
  - destruct found as [m rule]. simpl.
    intros (declared & st & c & Hm & Hen & Hid & Hst & Hd & Hg & Hcr & -> & Hcap & Hrest).
    assert (∃ rules, compileRules programs m st (mod_Scripts m) = Ok rules) as [rules Hru].
    { clear -Hms Hm Hen Hid Hst Hnd. revert Hms. generalize (cc_modules r).
      induction (default [] (cfg_ExecutionOrder cfg)) as [|i order IH]; intros ms E; [by apply elem_of_nil in Hid|].
      simpl in E. apply elem_of_cons in Hid as [<-|Hid].
      - assert (byID (cfg_Modules cfg) !! mod_ID m = Some m) as Hb by (by apply byID_lookup).
        rewrite Hb, Hen in E. simpl in E. rewrite Hst in E. simpl in E. inv_res. eauto.
      - destruct (byID _ !! i) as [m'|]; [destruct (mod_Enabled m')|]; simpl in E; inv_res; eauto. }
    set (cm := mkCompiledModule m rules (module_hosts cfg !! mod_ID m)).
    assert (cm ∈ cc_modules r) as Hcm.
    { apply (compileModules_elem _ _ _ _ _ Hms). exists (mod_ID m), m, st, rules.
      repeat (split; [done|]). split; [by apply byID_lookup|]. done. }
    eexists. split; [exists cm; split; [reflexivity | by apply list_elem_of_In]|]. simpl.
    rewrite module_hosts_lookup by done. apply match_patterns in Hcap. rewrite Hcap. simpl.
    apply in_map_iff. exists c. split; [done|]. apply filter_In. split.
    + apply list_elem_of_In, (compileRules_elem _ _ _ _ _ _ Hru). eauto.
    + by eapply rule_matches_iff.
Qed.

(** The actions run in execution order: the extensions of the actions found
    are the execution order with each id repeated as often as it has matching actions. *)
Theorem matching_ordered (cfg : Config) (programs : gmap (bytes * bytes * bytes) bytes)
    (r : compiledScriptConfig) (phase method : bytes) (status : Z) (matchStatus : bool) (parsed : parsedURL) :
  compileScriptConfigWithPrograms cfg programs = Ok r → NoDup (map mod_ID (cfg_Modules cfg)) →
  ∃ count : bytes → nat,
    map (λ f, mod_ID (ma_Module f))
      (matchingScriptRulesParsed (set_runtime (Some r) cfg) phase method status matchStatus parsed)
    = concat (map (λ id, replicate (count id) id) (default [] (cfg_ExecutionOrder cfg))).
Proof.
  intros (Hms & _ & _ & _)%compile_Ok Hnd. unfold matchingScriptRulesParsed. simpl.
  set (host := canonicalHost (u_Hostname parsed)).
  set (sel := rule_matches phase host (ToLower (u_Scheme parsed)) method (request_path parsed) status matchStatus).
  set (walk := λ cm, if negb (matchCanonical (cm_hosts cm) host) then []
                     else map (λ c, mkMatched (cm_module cm) (cr_rule c)) (List.filter sel (cm_rules cm))).
  exists (λ id, match compileModules programs cfg [id] with
                | Ok ms => length (concat (map walk ms))
                | Err _ => O
                end).
  revert Hms. generalize (cc_modules r).
  induction (default [] (cfg_ExecutionOrder cfg)) as [|id order IH]; intros ms E; simpl in E; [by inv_res|].
  assert (∀ m rs hs, map (λ f, mod_ID (ma_Module f)) (walk (mkCompiledModule m rs hs))
            = replicate (length (walk (mkCompiledModule m rs hs))) (mod_ID m)) as Hwalk.
  { intros m rs hs. unfold walk. simpl. destruct (negb _); [done|]. rewrite length_map, map_map. simpl.
    induction (List.filter sel rs); simpl; [done | by f_equal]. }
  cbn [map concat compileModules].
  destruct (byID (cfg_Modules cfg) !! id) as [m|] eqn:Hb; [destruct (mod_Enabled m) eqn:Hen|]; simpl in E; inv_res;
    cbn [negb]; try (simpl; by apply IH).
  apply byID_lookup in Hb as [_ <-]; [|done].
  match goal with H1 : moduleSettingValues m = _, H2 : compileRules _ _ _ _ = _ |- _ => rewrite H1; simpl; rewrite H2 end.
  simpl. rewrite app_nil_r, map_app, Hwalk, IH by done. done.
Qed.
End agreement.

(** ** A concrete configuration

    Engines that accept everything, match a path by prefix and read no JSON. *)
Section example.
#[local] Instance example_case : UnicodeCase := {| unicode_ToLower r := r; unicode_ToUpper r := r |}.
#[local] Instance example_engines : Engines :=
  {| regexp_Compile _ := true; regexp_MatchString p s := HasPrefix s p;
     goja_Compile _ body := Some body; gojq_Compile _ := true;
     render_value _ := [] |}.

Definition example_rule : ScriptRule :=
  mkScriptRule (&"clean") (&"response") (mkActionMatch [&"api.example.com"] [&"https"] [] (&"/v1") [])
    None [] [] (&"x") (&"text") [] [] false None None None None 1000 4096 None None ∅.
Definition example_module : Module_ :=
  mkModule (&"ext") (&"1") (&"Ext") [] true (&"2024-01-01T00:00:00Z") (mkModuleSource [] [] (&"m"))
    [&"*.example.com"] (&"trust") [mkHostMapping (&"api.example.com") (&"origin.example.net")] [] []
    [example_rule] false false false [].
Definition example_config : Config :=
  mkConfig 6 (Some [&"ext"]) [] [] [] [] [] (mkProxyConfig [] [] []) (mkMITMSettings true true true)
    [example_module] None 0.
Definition example_url : parsedURL := mkURL (&"https") (&"api.example.com") (&"/v1/feed") [].

Lemma example_compiles :
  ∃ r, compileScriptConfigWithPrograms example_config ∅ = Ok r.
Proof.
  assert (is_ok (compileScriptConfigWithPrograms example_config ∅) = true) as Hk by by vm_compute.
  destruct (compileScriptConfigWithPrograms example_config ∅) as [r|]; [by exists r | done].
Qed.
Lemma example_ids : NoDup (map mod_ID (cfg_Modules example_config)).
Proof. apply NoDup_singleton. Qed.

Lemma snapshot_agrees_witness :
  ∃ r, mappedInterceptTarget (set_runtime (Some r) example_config) (&"API.example.com.")
       = mappedInterceptTarget (set_runtime None example_config) (&"API.example.com.")
       ∧ mappedInterceptTarget (set_runtime None example_config) (&"API.example.com.") = &"origin.example.net".
Proof.
  destruct example_compiles as [r Hr]. exists r. split; [|by vm_compute].
  apply (snapshot_agrees example_config ∅ r (&"API.example.com.") Hr example_ids).
Defined.

Lemma matching_exact_witness :
  ∃ r found,
    found ∈ matchingScriptRulesParsed (set_runtime (Some r) example_config) (&"response") (&"GET") 200 true example_url
    ∧ mod_ID (ma_Module found) = &"ext".
Proof.
  destruct example_compiles as [r Hr].
  exists r, (mkMatched example_module (set_compiled (Some (&"x")) None ∅ example_rule)). split; [|done].
  apply (matching_exact example_config ∅ r (&"response") (&"GET") 200 true example_url _ Hr example_ids).
  exists example_rule, ∅. eexists. simpl.
  split; [by left|]. split; [done|]. split; [by left|]. split; [done|]. split; [by left|]. split; [done|].
  split; [reflexivity|]. split; [reflexivity|].
  split; [exists (&"*.example.com"); split; [by left | by vm_compute]|].
  split; [exists (&"api.example.com"); split; [by left | by vm_compute]|].
  split; [done|]. split; [by left|]. split; [by left|]. split; [by left | by vm_compute].
Defined.

Lemma matching_ordered_witness :
  ∃ r (count : bytes → nat),
    map (λ f, mod_ID (ma_Module f))
      (matchingScriptRulesParsed (set_runtime (Some r) example_config) (&"response") (&"GET") 200 true example_url)
    = concat (map (λ id, replicate (count id) id) [&"ext"]).
Proof.
  destruct example_compiles as [r Hr]. exists r.
  apply (matching_ordered example_config ∅ r (&"response") (&"GET") 200 true example_url Hr example_ids).
Defined.
End example.
