(* ===== verification/Certificates.v ===== *)
(** * The leaf certificate ([cert.go])

    What one call observes outside the store is its view: the snapshot, the
    stat of the two files, the key pair they hold and the clock.  [crypto/tls]
    and [crypto/x509] are parameters: a key pair is the outcome of loading it,
    and whether a leaf covers a name is theirs to say. *)
From S2P Require Import Prelude GoStrings ConfigTypes HostPatterns ScriptConfig.

Record leaf := mkLeaf { lf_Raw : bytes; lf_IsCA : bool; lf_NotBefore : Z; lf_NotAfter : Z }.

Class X509 := { VerifyHostname : leaf → bytes → bool }.

(** [tls.LoadX509KeyPair], and [x509.ParseCertificate] of its first certificate. *)
Inductive key_pair := LoadFailed | NoCertificate | LeafUnparsed | LoadedLeaf (l : leaf).

Record certView := mkCertView {
  cv_config : option Config;
  (** The modification times, none when [os.Stat] fails. *)
  cv_certStat : option Z;
  cv_keyStat : option Z;
  cv_pair : key_pair;
  (** The clock at the check of the cached leaf, and at the check of a loaded one. *)
  cv_nowCached : Z;
  cv_nowLoaded : Z;
}.

Inductive cert_error := NoConfig | StatCertificate | StatKey | LoadPair | EmptyPair | ParseLeaf | InvalidLeaf | UnrecognizedSNI.

Record certificateStore := mkCertStore {
  cs_certPath : bytes; cs_keyPath : bytes; cs_certModTime : Z; cs_keyModTime : Z; cs_certificate : option leaf;
}.

Definition empty_cert_store : certificateStore := mkCertStore [] [] 0 0 None.
Definition drop_certificate (s : certificateStore) : certificateStore :=
  mkCertStore (cs_certPath s) (cs_keyPath s) (cs_certModTime s) (cs_keyModTime s) None.

Definition validateInterceptLeafValidity (l : leaf) (now : Z) : bool :=
  negb ((now <? lf_NotBefore l) || negb (now <? lf_NotAfter l)).

Section certificates.
Context {U : UnicodeCase} {X : X509}.

(** The name probed for a host pattern. *)
Definition probe_host (host : bytes) : bytes :=
  if HasPrefix host (&"*.") then &"probe." ++ TrimPrefix host (&"*.") else host.

Definition validateInterceptLeaf (l : leaf) (requiredHosts : list bytes) (now : Z) : bool :=
  negb (lf_IsCA l) && validateInterceptLeafValidity l now
  && forallb (λ host, VerifyHostname l (probe_host host)) requiredHosts.

Definition staleOrError (e : cert_error) (s : certificateStore) : res cert_error leaf * certificateStore :=
  match cs_certificate s with None => (Err e, s) | Some l => (Ok l, s) end.

(** The load of the files, and the cache it fills. *)
Definition reload (cfg : Config) (certTime keyTime : Z) (v : certView) (s : certificateStore) : res cert_error leaf * certificateStore :=
  match cv_pair v with
  | LoadFailed => staleOrError LoadPair s
  | NoCertificate => staleOrError EmptyPair s
  | LeafUnparsed => staleOrError ParseLeaf s
  | LoadedLeaf l =>
      if negb (validateInterceptLeaf l (certificateHostPatterns cfg) (cv_nowLoaded v)) then staleOrError InvalidLeaf s
      else (Ok l, mkCertStore (cfg_TLSCert cfg) (cfg_TLSKey cfg) certTime keyTime (Some l))
  end.

Definition currentCertificate (v : certView) (s : certificateStore) : res cert_error leaf * certificateStore :=
  match cv_config v with
  | None => (Err NoConfig, s)
  | Some cfg =>
      match cv_certStat v with
      | None => staleOrError StatCertificate s
      | Some certTime =>
          match cv_keyStat v with
          | None => staleOrError StatKey s
          | Some keyTime =>
              match cs_certificate s with
              | Some l =>
                  if bool_decide (cs_certPath s = cfg_TLSCert cfg) && bool_decide (cs_keyPath s = cfg_TLSKey cfg)
                     && (certTime =? cs_certModTime s) && (keyTime =? cs_keyModTime s)
                  then if validateInterceptLeafValidity l (cv_nowCached v) then (Ok l, s)
                       else reload cfg certTime keyTime v (drop_certificate s)
                  else reload cfg certTime keyTime v s
              | None => reload cfg certTime keyTime v s
              end
          end
      end
  end.

Definition newCertificateStore (v : certView) : res cert_error certificateStore :=
  let '(r, s) := currentCertificate v empty_cert_store in _ ← r; Ok s.

(** [sni] is none without a client hello; the snapshot of this call may be older than that of the next. *)
Definition GetCertificate (sni : option bytes) (current : option Config) (v : certView) (s : certificateStore) : res cert_error leaf * certificateStore :=
  match sni, current with
  | Some name, Some cfg => if activeInterceptHost cfg name then currentCertificate v s else (Err UnrecognizedSNI, s)
  | _, _ => (Err UnrecognizedSNI, s)
  end.

(** ** The life of a store: its views, the newest first *)
Inductive cert_reach : list certView → certificateStore → Prop :=
| reach_new v s : newCertificateStore v = Ok s → cert_reach [v] s
| reach_call v vs s : cert_reach vs s → cert_reach (v :: vs) (currentCertificate v s).2.

(** Some view loaded the leaf and found it good for the hosts of its snapshot. *)
Definition vetted (vs : list certView) (l : leaf) : Prop :=
  ∃ v cfg, v ∈ vs ∧ cv_config v = Some cfg ∧ cv_pair v = LoadedLeaf l
           ∧ validateInterceptLeaf l (certificateHostPatterns cfg) (cv_nowLoaded v) = true.

(** The files are the ones the cached leaf was loaded from. *)
Definition unchanged (v : certView) (s : certificateStore) : Prop :=
  ∃ cfg, cv_config v = Some cfg ∧ cs_certPath s = cfg_TLSCert cfg ∧ cs_keyPath s = cfg_TLSKey cfg
         ∧ cv_certStat v = Some (cs_certModTime s) ∧ cv_keyStat v = Some (cs_keyModTime s).

Lemma vetted_more v vs l : vetted vs l → vetted (v :: vs) l.
Proof. intros (w & cfg & Hw & ?). exists w, cfg. split; [by right | done]. Qed.

Lemma stale_spec e s : (staleOrError e s).2 = s ∧ ∀ l, (staleOrError e s).1 = Ok l → cs_certificate s = Some l.
Proof. unfold staleOrError. destruct (cs_certificate s); cbn; naive_solver. Qed.

(** A reload leaves the store alone, or caches a leaf it has just vetted. *)
Lemma reload_spec cfg ct kt v s :
  (reload cfg ct kt v s).2 = s ∧ (∀ l, (reload cfg ct kt v s).1 = Ok l → cs_certificate s = Some l)
  ∨ ∃ l, cv_pair v = LoadedLeaf l ∧ validateInterceptLeaf l (certificateHostPatterns cfg) (cv_nowLoaded v) = true
         ∧ reload cfg ct kt v s = (Ok l, mkCertStore (cfg_TLSCert cfg) (cfg_TLSKey cfg) ct kt (Some l)).
Proof.
  unfold reload. destruct (cv_pair v) as [| | |l]; try (left; apply stale_spec).
  destruct (validateInterceptLeaf _ _ _) eqn:Ev; [|left; apply stale_spec]. right. by exists l.
Qed.

(** Every call, by where its answer comes from. *)
Lemma currentCertificate_cases v s :
  ((currentCertificate v s).2 = s ∧ ∀ l, (currentCertificate v s).1 = Ok l →
     cs_certificate s = Some l ∧ (unchanged v s → validateInterceptLeafValidity l (cv_nowCached v) = true))
  ∨ ((currentCertificate v s).2 = drop_certificate s ∧ is_ok (currentCertificate v s).1 = false)
  ∨ ∃ cfg l, cv_config v = Some cfg ∧ cv_pair v = LoadedLeaf l
      ∧ validateInterceptLeaf l (certificateHostPatterns cfg) (cv_nowLoaded v) = true
      ∧ (currentCertificate v s).1 = Ok l ∧ cs_certificate (currentCertificate v s).2 = Some l.
Proof.
  unfold currentCertificate, unchanged. destruct (cv_config v) as [cfg|]; [|by left].
  assert (∀ e, cv_certStat v = None ∨ cv_keyStat v = None →
    (staleOrError e s).2 = s ∧ ∀ l, (staleOrError e s).1 = Ok l → cs_certificate s = Some l ∧
      ((∃ cfg0, Some cfg = Some cfg0 ∧ cs_certPath s = cfg_TLSCert cfg0 ∧ cs_keyPath s = cfg_TLSKey cfg0
        ∧ cv_certStat v = Some (cs_certModTime s) ∧ cv_keyStat v = Some (cs_keyModTime s)) → validateInterceptLeafValidity l (cv_nowCached v) = true)) as Hst.
  { intros e Hn. destruct (stale_spec e s) as [Es Ho]. split; [done|]. intros l E. split; [by apply Ho|].
    intros (? & _ & _ & _ & ? & ?). destruct Hn; congruence. }
  destruct (cv_certStat v) as [ct|]; [|left; apply Hst; by left].
  destruct (cv_keyStat v) as [kt|]; [|left; apply Hst; by right]. clear Hst.
  destruct (cs_certificate s) as [l|] eqn:El.
  2: { destruct (reload_spec cfg ct kt v s) as [[E Ho]|(l & Hp & Hv & ->)]; [|right; right; by exists cfg, l].
       left. split; [done|]. intros l Hl. specialize (Ho l Hl). congruence. }
  destruct (bool_decide _ && _ && _ && _) eqn:Eu.
  - destruct (validateInterceptLeafValidity l (cv_nowCached v)) eqn:Ev; [left; split; [done|]; cbn; intros l' [= <-]; done|].
    destruct (reload_spec cfg ct kt v (drop_certificate s)) as [[E Ho]|(l' & Hp & Hv & ->)]; [|right; right; by exists cfg, l'].
    right; left. split; [done|]. destruct (reload _ _ _ _ _).1 as [l'|]; [|done]. by specialize (Ho l' eq_refl).
  - destruct (reload_spec cfg ct kt v s) as [[E Ho]|(l' & Hp & Hv & ->)]; [|right; right; by exists cfg, l'].
    left. split; [done|]. intros l' Hl. specialize (Ho l' Hl). split; [congruence|].
    intros (cfg0 & [= <-] & Ec & Ek & [= ->] & [= ->]). rewrite !bool_decide_true, !Z.eqb_refl in Eu by done. done.
Qed.

Lemma reach_vetted vs s : cert_reach vs s → ∀ l, cs_certificate s = Some l → vetted vs l.
Proof.
  assert (∀ v vs s, (∀ l, cs_certificate s = Some l → vetted vs l) → ∀ l, cs_certificate (currentCertificate v s).2 = Some l → vetted (v :: vs) l) as Hstep.
  { intros v vs0 s0 IH l Hl. destruct (currentCertificate_cases v s0) as [[E _]|[[E _]|(cfg & l' & Hc & Hp & Hv & _ & E)]]; rewrite E in Hl.
    - by apply vetted_more, IH.
    - done.
    - injection Hl as <-. exists v, cfg. split; [by left | done]. }
  induction 1 as [v s E | v vs s Hr IH].
  - unfold newCertificateStore in E. destruct (currentCertificate v empty_cert_store) as [r s0] eqn:Ec. destruct r; [|done]. injection E as <-.
    intros l Hl. apply (Hstep v [] empty_cert_store); [done|]. by rewrite Ec.
  - intros l Hl. by eapply Hstep.
Qed.

(** C37 (safety): A certificate handed to a client was found good when it was loaded: not an authority, inside
    its validity window, covering every host the served document captures.  While the files are
    the ones it was loaded from, it is inside its window at the moment it is handed out. *)
Theorem served_leaf_vetted (sni : option bytes) (current : option Config) (v : certView) (vs : list certView) (s : certificateStore) (l : leaf) :
  cert_reach vs s → (GetCertificate sni current v s).1 = Ok l →
  (∃ name cfg, sni = Some name ∧ current = Some cfg ∧ activeInterceptHost cfg name = true)
  ∧ vetted (v :: vs) l
  ∧ (unchanged v s → validateInterceptLeafValidity l (cv_nowCached v) = true ∨ validateInterceptLeafValidity l (cv_nowLoaded v) = true).
Proof.
  intros Hr. unfold GetCertificate. destruct sni as [name|]; [|done]. destruct current as [cfg|]; [|done].
  destruct (activeInterceptHost cfg name) eqn:Ea; [|done]. intros E. split; [by exists name, cfg|].
  destruct (currentCertificate_cases v s) as [[_ Ho]|[[_ Hn]|(cfg' & l' & Hc & Hp & Hv & El & _)]].
  - destruct (Ho l E) as [Hl Hu]. split; [by apply vetted_more, (reach_vetted vs s)|]. intros H1. left. by apply Hu.
  - by rewrite E in Hn.
  - rewrite E in El. injection El as <-. split; [exists v, cfg'; split; [by left | done]|]. intros _. right.
    unfold validateInterceptLeaf in Hv. by apply andb_prop in Hv as [[_ ?]%andb_prop _].
Qed.
End certificates.

(** ** A leaf loaded, served, and served again after its files disappeared *)
Section examples.
#[local] Instance cert_case : UnicodeCase := {| unicode_ToLower r := r; unicode_ToUpper r := r |}.
(** A leaf that names one host. *)
#[local] Instance one_name : X509 := {| VerifyHostname l name := bool_decide (lf_Raw l = name) |}.

Definition cert_config : Config :=
  mkConfig 6 (Some [&"ext"]) [] [] [] (&"cert.pem") (&"key.pem") (mkProxyConfig [] [] []) (mkMITMSettings true true true)
    [mkModule (&"ext") (&"1") (&"Ext") [] true [] (mkModuleSource [] [] []) [&"api.example.com"] (&"trust") [] [] [] []
       false false false []] None 1.
Definition cert_leaf : leaf := mkLeaf (&"api.example.com") false 0 100.
Definition loading (now : Z) : certView := mkCertView (Some cert_config) (Some 1) (Some 1) (LoadedLeaf cert_leaf) now now.
Definition unreadable (now : Z) : certView := mkCertView (Some cert_config) None None LoadFailed now now.
Definition cert_store : certificateStore := mkCertStore (&"cert.pem") (&"key.pem") 1 1 (Some cert_leaf).

Lemma cert_store_reached : cert_reach [loading 10] cert_store.
Proof. apply reach_new. vm_compute. reflexivity. Qed.

Lemma served_leaf_vetted_witness :
  (∃ name cfg, Some (&"api.example.com") = Some name ∧ Some cert_config = Some cfg ∧ activeInterceptHost cfg name = true)
  ∧ vetted [loading 50; loading 10] cert_leaf
  ∧ (unchanged (loading 50) cert_store → validateInterceptLeafValidity cert_leaf (cv_nowCached (loading 50)) = true
       ∨ validateInterceptLeafValidity cert_leaf (cv_nowLoaded (loading 50)) = true).
Proof.
  apply (served_leaf_vetted (Some (&"api.example.com")) (Some cert_config) (loading 50) [loading 10] cert_store cert_leaf);
    [apply cert_store_reached | vm_compute; reflexivity].
Defined.

(** An expired leaf is refused while its files can be read, and handed out once they cannot. *)
Example stale_leaf_unchecked :
  is_ok (currentCertificate (loading 200) cert_store).1 = false
  ∧ (currentCertificate (unreadable 200) cert_store).1 = Ok cert_leaf ∧ validateInterceptLeafValidity cert_leaf 200 = false.
Proof. vm_compute. done. Qed.
End examples.
