(* ===== verification/TransportProjection.v ===== *)
(** * What an upstream transport may reach ([transport_projection.go])

    The projection a pool of upstream transports keeps of a configuration, its
    fingerprint, and the authorization of SOCKS UDP associations. *)
From S2P Require Import Prelude GoStrings GoBinary GoNet ConfigTypes HostPatterns ScriptConfig.

Record upstreamModuleProjection := mkModuleProjection {
  mp_hosts : compiledHostMatcher;
  mp_mappings : list HostMapping;
}.

Record upstreamTargetProjection := mkTargetProjection {
  tp_enabled : bool;
  tp_activeHosts : compiledHostMatcher;
  tp_modules : list upstreamModuleProjection;
  tp_networkGrant : bool;
}.

Record upstreamTransportProjection := mkTransportProjection {
  up_generation : Z;
  up_proxy : ProxyConfig;
  up_http2 : bool;
  up_targets : upstreamTargetProjection;
  up_fingerprint : bytes;
}.

Record inboundUDPAuthorization := mkUDPAuthorization {
  ua_enabled : bool;
  ua_activeHosts : compiledHostMatcher;
}.

(** What the two write functions add to the stream under the hash. *)
Definition writeFingerprintField (value : bytes) : bytes := PutUint64 (len value) ++ value.
Definition writeFingerprintBool (value : bool) : bytes := if value then [1] else [0].

Section projection.
Context {U : UnicodeCase}.

Definition projectedActiveHostMatcher (cfg : Config) : compiledHostMatcher :=
  match cfg_runtime cfg with
  | Some r => cc_activeHosts r
  | None => newCompiledHostMatcher (activeHostPatterns cfg)
  end.

Definition projectedModuleHostMatcher (cfg : Config) (module : Module_) : compiledHostMatcher :=
  match r ← cfg_runtime cfg; cc_moduleHosts r !! mod_ID module with
  | Some matcher => matcher
  | None => newCompiledHostMatcher (mod_CaptureHosts module)
  end.

(** The mappings that name a destination. *)
Definition dialled_mappings (module : Module_) : list HostMapping :=
  List.filter (λ m, negb (resolverForm m)) (mod_HostMappings module).

Definition module_stream (module : Module_) : bytes :=
  writeFingerprintField (mod_ID module)
  ++ concat (map writeFingerprintField (mod_CaptureHosts module))
  ++ concat (map (λ m, writeFingerprintField (hm_Pattern m) ++ writeFingerprintField (hm_Target m))
               (dialled_mappings module))
  ++ writeFingerprintBool (mod_Network module).

Definition fingerprint_stream (cfg : Config) : bytes :=
  writeFingerprintField (px_Address (cfg_UpstreamProxy cfg))
  ++ writeFingerprintField (px_Username (cfg_UpstreamProxy cfg))
  ++ writeFingerprintField (px_Password (cfg_UpstreamProxy cfg))
  ++ writeFingerprintBool (mitm_HTTP2 (cfg_MITM cfg))
  ++ writeFingerprintBool (mitm_Enabled (cfg_MITM cfg))
  ++ concat (map module_stream (enabled_modules cfg))
  ++ writeFingerprintBool (existsb mod_Network (enabled_modules cfg)).

Definition newUpstreamTransportProjection (cfg : Config) : upstreamTransportProjection :=
  mkTransportProjection (cfg_generation cfg) (cfg_UpstreamProxy cfg) (mitm_HTTP2 (cfg_MITM cfg))
    (mkTargetProjection (mitm_Enabled (cfg_MITM cfg)) (projectedActiveHostMatcher cfg)
       (map (λ m, mkModuleProjection (projectedModuleHostMatcher cfg m) (dialled_mappings m)) (enabled_modules cfg))
       (existsb mod_Network (enabled_modules cfg)))
    (Sum256 (fingerprint_stream cfg)).

Definition newInboundUDPAuthorization (cfg : Config) : inboundUDPAuthorization :=
  mkUDPAuthorization (mitm_Enabled (cfg_MITM cfg)) (projectedActiveHostMatcher cfg).

Definition upstreamTarget (p : upstreamTargetProjection) (rawHost portText : bytes) : option socksTarget :=
  if negb (tp_enabled p) then None
  else
    let host := canonicalHost rawHost in
    match Atoi portText with
    | None => None
    | Some port =>
        if (port <? 1) || (65535 <? port) then None
        else if ((port =? 80) || (port =? 443)) && Match (Some (tp_activeHosts p)) host then
          let best := fold_left (λ best module,
                        if negb (Match (Some (mp_hosts module)) host) then best
                        else fold_left (mapping_step host) (mp_mappings module) best)
                        (tp_modules p) ([], host) in
          Some (mkTarget best.2 port)
        else if negb (tp_networkGrant p) then None
        else Some (mkTarget host port)
    end.

Definition allows (a : inboundUDPAuthorization) (target : socksTarget) : bool :=
  if negb (ua_enabled a) || negb (t_Port target =? 443) then false
  else if Match (Some (ua_activeHosts a)) (t_Host target) then true
  else match ParseAddr (t_Host target) with
       | Some (IPv4 _) => true
       | Some (IPv6 _ zone) => bool_decide (zone = [])
       | None => false
       end.

(** ** The projection authorizes what the configuration does *)

(** A configuration as the store hands it out: never compiled, or with its own snapshot. *)
Definition own_snapshot `{Engines} (cfg : Config) : Prop :=
  match cfg_runtime cfg with
  | None => True
  | Some r => NoDup (map mod_ID (cfg_Modules cfg)) ∧ ∃ programs, compileScriptConfigWithPrograms cfg programs = Ok r
  end.

Lemma fold_filter {A B} (f : A → B → A) (p : B → bool) l a :
  fold_left f (List.filter p l) a = fold_left (λ a x, if p x then f a x else a) l a.
Proof. revert a. induction l as [|x l IH]; intros a; simpl; [done|]. destruct (p x); simpl; apply IH. Qed.

Lemma fold_map {A B C} (f : A → C → A) (g : B → C) l a :
  fold_left f (map g l) a = fold_left (λ a x, f a (g x)) l a.
Proof. revert a. induction l as [|x l IH]; intros a; simpl; [done | apply IH]. Qed.

Lemma projected_active `{Engines} cfg host :
  own_snapshot cfg → mitm_Enabled (cfg_MITM cfg) = true →
  Match (Some (projectedActiveHostMatcher cfg)) host = activeInterceptHost cfg host.
Proof.
  unfold own_snapshot, projectedActiveHostMatcher, activeInterceptHost. intros Hs ->. simpl.
  destruct (cfg_runtime cfg) as [r|] eqn:Hr; [done|]. apply matchCanonical_spec.
Qed.

Lemma projected_owner `{Engines} cfg m host :
  own_snapshot cfg → m ∈ cfg_Modules cfg → mod_Enabled m = true →
  Match (Some (projectedModuleHostMatcher cfg m)) host
  = match cfg_runtime cfg with
    | Some r => Match (cc_moduleHosts r !! mod_ID m) host
    | None => moduleOwnsHost m host
    end.
Proof.
  unfold own_snapshot, projectedModuleHostMatcher. destruct (cfg_runtime cfg) as [r|]; simpl.
  - intros [Hnd [programs Hc]] Hin Hen. apply compile_Ok in Hc as (_ & -> & _).
    by rewrite module_hosts_lookup.
  - intros _ _ _. apply matchCanonical_spec.
Qed.

(** The projection a transport pool keeps authorizes and maps every target
    exactly as the configuration it was taken from, for every host whose canonical form is
    canonical again. *)
Theorem projection_agrees `{Engines} (cfg : Config) (rawHost portText : bytes) :
  own_snapshot cfg → canonicalHost (canonicalHost rawHost) = canonicalHost rawHost →
  upstreamTarget (up_targets (newUpstreamTransportProjection cfg)) rawHost portText
  = activeModuleUpstreamTarget cfg rawHost portText.
Proof.
  intros Hs Hid. unfold upstreamTarget, activeModuleUpstreamTarget, newUpstreamTransportProjection.
  cbn [up_targets tp_enabled tp_activeHosts tp_modules tp_networkGrant].
  destruct (mitm_Enabled (cfg_MITM cfg)) eqn:Hen; cbn [negb]; [|done].
  destruct (Atoi portText) as [port|]; [|done]. destruct ((port <? 1) || (65535 <? port)); [done|].
  rewrite projected_active by done. destruct (_ && activeInterceptHost _ _).
  - do 2 f_equal. unfold mappedInterceptTarget. rewrite Hid. f_equal.
    rewrite fold_map. unfold enabled_modules. rewrite fold_filter. apply fold_left_ext_in.
    intros best m Hin. cbv beta zeta. destruct (mod_Enabled m) eqn:Hm; cbn [negb mp_hosts mp_mappings]; [|reflexivity].
    rewrite projected_owner by assumption.
    match goal with |- context [negb ?owns] => destruct owns end; simpl; [|reflexivity].
    unfold dialled_mappings. rewrite fold_filter. apply fold_left_ext_in.
    intros b mapping _. by destruct (resolverForm mapping).
  - replace (existsb (λ m, mod_Enabled m && mod_Network m) (cfg_Modules cfg))
      with (existsb mod_Network (enabled_modules cfg)); [by destruct (existsb _ _)|].
    unfold enabled_modules. induction (cfg_Modules cfg) as [|m ms IH]; simpl; [done|].
    destruct (mod_Enabled m); simpl; by rewrite IH.
Qed.

(** ** What an equal fingerprint stream means *)

(** Strings shorter than 2^64 bytes, as every string of a process is. *)
Definition short (s : bytes) : Prop := len s < 2 ^ 64.
Definition module_short (m : Module_) : Prop :=
  short (mod_ID m) ∧ Forall short (mod_CaptureHosts m)
  ∧ Forall (λ h, short (hm_Pattern h) ∧ short (hm_Target h)) (dialled_mappings m).
Definition config_short (cfg : Config) : Prop :=
  short (px_Address (cfg_UpstreamProxy cfg)) ∧ short (px_Username (cfg_UpstreamProxy cfg))
  ∧ short (px_Password (cfg_UpstreamProxy cfg)) ∧ Forall module_short (enabled_modules cfg).

(** The same numbers of capture hosts and of destination mappings, extension by extension. *)
Definition same_shape (c1 c2 : Config) : Prop :=
  Forall2 (λ m1 m2, length (mod_CaptureHosts m1) = length (mod_CaptureHosts m2)
                    ∧ length (dialled_mappings m1) = length (dialled_mappings m2))
    (enabled_modules c1) (enabled_modules c2).

Lemma field_inj a b x y :
  short a → short b → writeFingerprintField a ++ x = writeFingerprintField b ++ y → a = b ∧ x = y.
Proof.
  unfold short, writeFingerprintField. intros Ha Hb E. rewrite <- !app_assoc in E.
  apply app_inj_1 in E as [El E]; [|unfold PutUint64; by rewrite !length_be_split].
  apply be_split_inj in El; [|lia..]. apply app_inj_1 in E; [done | lia].
Qed.

Lemma fields_inj l1 l2 x y :
  Forall short l1 → Forall short l2 → length l1 = length l2 →
  concat (map writeFingerprintField l1) ++ x = concat (map writeFingerprintField l2) ++ y → l1 = l2 ∧ x = y.
Proof.
  intros H1. revert l2. induction H1 as [|a l1 Ha H1 IH]; intros l2 H2 Hl E.
  - by destruct l2.
  - destruct l2 as [|b l2]; [done|]. apply Forall_cons in H2 as [Hb H2]. cbn [map concat] in E.
    rewrite <- !app_assoc in E. apply field_inj in E as [-> E]; [|done..].
    apply IH in E as [-> ->]; [done..|by injection Hl].
Qed.

Lemma bool_inj a b x y :
  writeFingerprintBool a ++ x = writeFingerprintBool b ++ y → a = b ∧ x = y.
Proof. destruct a, b; simpl; intros E; by injection E. Qed.

Lemma mappings_inj l1 l2 x y :
  Forall (λ h, short (hm_Pattern h) ∧ short (hm_Target h)) l1 →
  Forall (λ h, short (hm_Pattern h) ∧ short (hm_Target h)) l2 → length l1 = length l2 →
  let enc := λ m, writeFingerprintField (hm_Pattern m) ++ writeFingerprintField (hm_Target m) in
  concat (map enc l1) ++ x = concat (map enc l2) ++ y → l1 = l2 ∧ x = y.
Proof.
  intros H1. revert l2. induction H1 as [|[p t] l1 [Hp Ht] H1 IH]; intros l2 H2 Hl enc E; [by destruct l2|].
  destruct l2 as [|[p' t'] l2]; [done|]. apply Forall_cons in H2 as [[Hp' Ht'] H2].
  cbn [map concat] in E. unfold enc in E at 1 3. simpl in Hp, Ht, Hp', Ht'. cbn [hm_Pattern hm_Target] in E.
  rewrite <- !app_assoc in E. apply field_inj in E as [-> E]; [|done..]. apply field_inj in E as [-> E]; [|done..].
  apply IH in E as [-> ->]; [done..|by injection Hl].
Qed.

Lemma module_stream_inj m1 m2 x y :
  module_short m1 → module_short m2 →
  length (mod_CaptureHosts m1) = length (mod_CaptureHosts m2) →
  length (dialled_mappings m1) = length (dialled_mappings m2) →
  module_stream m1 ++ x = module_stream m2 ++ y →
  mod_ID m1 = mod_ID m2 ∧ mod_CaptureHosts m1 = mod_CaptureHosts m2
  ∧ dialled_mappings m1 = dialled_mappings m2 ∧ mod_Network m1 = mod_Network m2 ∧ x = y.
Proof.
  intros (? & ? & ?) (? & ? & ?) Hc Hm E. unfold module_stream in E. rewrite <- !app_assoc in E.
  apply field_inj in E as [-> E]; [|done..]. apply fields_inj in E as [-> E]; [|done..].
  apply mappings_inj in E as [-> E]; [|done..]. apply bool_inj in E as [-> ->]. done.
Qed.

Definition same_reach (m1 m2 : Module_) : Prop :=
  mod_CaptureHosts m1 = mod_CaptureHosts m2 ∧ dialled_mappings m1 = dialled_mappings m2
  ∧ mod_Network m1 = mod_Network m2.

Lemma stream_inj c1 c2 :
  config_short c1 → config_short c2 → same_shape c1 c2 → fingerprint_stream c1 = fingerprint_stream c2 →
  cfg_UpstreamProxy c1 = cfg_UpstreamProxy c2 ∧ mitm_HTTP2 (cfg_MITM c1) = mitm_HTTP2 (cfg_MITM c2)
  ∧ mitm_Enabled (cfg_MITM c1) = mitm_Enabled (cfg_MITM c2)
  ∧ Forall2 same_reach (enabled_modules c1) (enabled_modules c2).
Proof.
  intros (A1 & B1 & D1 & F1) (A2 & B2 & D2 & F2) Hsh E. unfold fingerprint_stream in E.
  apply field_inj in E as [EA E]; [|done..]. apply field_inj in E as [EB E]; [|done..].
  apply field_inj in E as [ED E]; [|done..]. apply bool_inj in E as [EH E]. apply bool_inj in E as [EE E].
  split; [destruct (cfg_UpstreamProxy c1), (cfg_UpstreamProxy c2); simpl in *; congruence|].
  split; [done|]. split; [done|]. unfold same_shape in Hsh. revert F1 F2 E.
  generalize (writeFingerprintBool (existsb mod_Network (enabled_modules c1))).
  generalize (writeFingerprintBool (existsb mod_Network (enabled_modules c2))).
  induction Hsh as [|m1 m2 l1 l2 [Hc Hm] Hsh IH]; intros x y F1 F2 E; constructor.
  - apply Forall_cons in F1 as [? ?], F2 as [? ?]. cbn [map concat] in E. rewrite <- !app_assoc in E.
    by apply module_stream_inj in E as (_ & ? & ? & ? & _).
  - apply Forall_cons in F1 as [? ?], F2 as [? ?]. cbn [map concat] in E. rewrite <- !app_assoc in E.
    apply module_stream_inj in E as (_ & _ & _ & _ & E); [|done..]. by eapply IH.
Qed.

Lemma own_active `{Engines} cfg :
  own_snapshot cfg → mitm_Enabled (cfg_MITM cfg) = true →
  projectedActiveHostMatcher cfg
  = newCompiledHostMatcher (uniqueSorted (concat (map mod_CaptureHosts (enabled_modules cfg)))).
Proof.
  unfold own_snapshot, projectedActiveHostMatcher, activeHostPatterns. intros Hs Hen.
  destruct (cfg_runtime cfg) as [r|] eqn:Hr; [|by rewrite Hen].
  destruct Hs as [_ [programs (_ & _ & -> & _)%compile_Ok]]. unfold active_patterns. by rewrite Hen.
Qed.

Lemma own_modules `{Engines} cfg :
  own_snapshot cfg →
  map (λ m, mkModuleProjection (projectedModuleHostMatcher cfg m) (dialled_mappings m)) (enabled_modules cfg)
  = map (λ m, mkModuleProjection (newCompiledHostMatcher (mod_CaptureHosts m)) (dialled_mappings m)) (enabled_modules cfg).
Proof.
  intros Hs. apply map_ext_in. intros m Hin. apply list_elem_of_In, elem_of_enabled in Hin as [Hin Hen].
  f_equal. unfold own_snapshot, projectedModuleHostMatcher in *. destruct (cfg_runtime cfg) as [r|]; [|done].
  destruct Hs as [Hnd [programs (_ & Hmh & _ & _)%compile_Ok]]. simpl.
  by rewrite Hmh, module_hosts_lookup.
Qed.

(** Between configurations of the same shape, an equal fingerprint stream means an
    equal reach: the same proxy and credentials, the same protocol choice, and the same answer
    to every upstream target.  Keeping pooled connections across such a commit is sound. *)
Theorem fingerprint_sound `{Engines} (c1 c2 : Config) (rawHost portText : bytes) :
  own_snapshot c1 → own_snapshot c2 → config_short c1 → config_short c2 → same_shape c1 c2 →
  fingerprint_stream c1 = fingerprint_stream c2 →
  let p1 := newUpstreamTransportProjection c1 in
  let p2 := newUpstreamTransportProjection c2 in
  up_proxy p1 = up_proxy p2 ∧ up_http2 p1 = up_http2 p2
  ∧ upstreamTarget (up_targets p1) rawHost portText = upstreamTarget (up_targets p2) rawHost portText.
Proof.
  intros S1 S2 L1 L2 Hsh E. apply stream_inj in E as (EP & EH & EE & HF); [|done..].
  split; [done|]. split; [done|]. unfold newUpstreamTransportProjection. cbn [up_targets].
  assert (map mod_CaptureHosts (enabled_modules c1) = map mod_CaptureHosts (enabled_modules c2)
          ∧ existsb mod_Network (enabled_modules c1) = existsb mod_Network (enabled_modules c2)
          ∧ map (λ m, mkModuleProjection (newCompiledHostMatcher (mod_CaptureHosts m)) (dialled_mappings m)) (enabled_modules c1)
            = map (λ m, mkModuleProjection (newCompiledHostMatcher (mod_CaptureHosts m)) (dialled_mappings m)) (enabled_modules c2))
    as (EC & EN & EM).
  { clear -HF. induction HF as [|m1 m2 l1 l2 (Hc & Hd & Hn) HF (IH1 & IH2 & IH3)]; [done|]. cbn [map existsb].
    by rewrite Hc, Hd, Hn, IH1, IH2, IH3. }
  rewrite (own_modules c1 S1), (own_modules c2 S2), EM, EN. unfold upstreamTarget.
  cbn [tp_enabled tp_activeHosts tp_modules tp_networkGrant]. rewrite EE.
  destruct (mitm_Enabled (cfg_MITM c2)) eqn:Hen; [|reflexivity].
  rewrite (own_active c1), (own_active c2), EC by done. reflexivity.
Qed.
End projection.

(** ** Concrete configurations *)
Section examples.
#[local] Instance projection_case : UnicodeCase := {| unicode_ToLower r := r; unicode_ToUpper r := r |}.
#[local] Instance projection_engines : Engines :=
  {| regexp_Compile _ := true; regexp_MatchString p s := HasPrefix s p;
     goja_Compile _ body := Some body; gojq_Compile _ := true;
     render_value _ := [] |}.

Definition one_extension (hosts : list bytes) (mappings : list HostMapping) : Config :=
  mkConfig 6 (Some [&"ext"]) [] [] [] [] [] (mkProxyConfig (&"127.0.0.1:17890") (&"user") (&"pass"))
    (mkMITMSettings true true true)
    [mkModule (&"ext") (&"1") (&"Ext") [] true [] (mkModuleSource [] [] []) hosts (&"trust") mappings [] [] []
       false false false []] None 0.

Lemma projection_agrees_witness :
  upstreamTarget (up_targets (newUpstreamTransportProjection example_config)) (&"API.example.com.") (&"443")
  = activeModuleUpstreamTarget example_config (&"API.example.com.") (&"443").
Proof.
  apply (projection_agrees example_config (&"API.example.com.") (&"443")); [exact I | by vm_compute].
Defined.

(** A setting changed: another generation, the same stream. *)
Lemma fingerprint_sound_witness :
  upstreamTarget (up_targets (newUpstreamTransportProjection (set_generation 8 example_config))) (&"a.example.com") (&"443")
  = upstreamTarget (up_targets (newUpstreamTransportProjection example_config)) (&"a.example.com") (&"443").
Proof.
  apply (fingerprint_sound (set_generation 8 example_config) example_config (&"a.example.com") (&"443"));
    [exact I | exact I | | | | reflexivity].
  all: unfold config_short, module_short, short, same_shape;
       repeat first [split | apply Forall_cons_2 | apply Forall_nil_2 | apply Forall2_cons_2 | apply Forall2_nil_2];
       vm_compute; reflexivity.
Defined.

(** The stream has no count between the capture hosts of an extension and its
    mappings, so two configurations of one extension each have the same fingerprint although one
    dials a mapped host elsewhere and the other does not: a pool that compares fingerprints keeps
    the transports of the first for the second. *)
Theorem fingerprint_collision :
  let plain_hosts := one_extension [&"*.example.com"; &"a.example.com"; &"b.other.com"] [] in
  let mapped := one_extension [&"*.example.com"] [mkHostMapping (&"a.example.com") (&"b.other.com")] in
  let p1 := newUpstreamTransportProjection plain_hosts in
  let p2 := newUpstreamTransportProjection mapped in
  up_fingerprint p1 = up_fingerprint p2
  ∧ upstreamTarget (up_targets p1) (&"a.example.com") (&"443") = Some (mkTarget (&"a.example.com") 443)
  ∧ upstreamTarget (up_targets p2) (&"a.example.com") (&"443") = Some (mkTarget (&"b.other.com") 443)
  ∧ upstreamTarget (up_targets p1) (&"b.other.com") (&"443") = Some (mkTarget (&"b.other.com") 443)
  ∧ upstreamTarget (up_targets p2) (&"b.other.com") (&"443") = None.
Proof.
  intros plain_hosts mapped p1 p2. split; [|by vm_compute].
  unfold p1, p2, newUpstreamTransportProjection, up_fingerprint. f_equal; by vm_compute.
Qed.

(** Canonical hosts are not always canonical again, and the two authorizations then
    differ: the document maps a host written with two final dots, the projection dials it. *)
Theorem double_dot_unmapped :
  canonicalHost (&"api.example.com..") = &"api.example.com."
  ∧ activeModuleUpstreamTarget example_config (&"api.example.com..") (&"443")
    = Some (mkTarget (&"origin.example.net") 443)
  ∧ upstreamTarget (up_targets (newUpstreamTransportProjection example_config)) (&"api.example.com..") (&"443")
    = Some (mkTarget (&"api.example.com.") 443).
Proof. by vm_compute. Qed.
End examples.
