(* ===== verification/RoutingRules.v ===== *)
(** * Routing rules ([config.go]): their decoding, their validation *)
From S2P Require Import Prelude GoStrings GoBinary GoNet ConfigTypes Json JsonDecode HostPatterns Identifiers.

Definition maxModuleRoutingRules : Z := 256.
Definition maxModuleRouteKeywords : Z := 8.

Definition routingJSONNull (raw : bytes) : bool := bool_decide (TrimSpace raw = &"null").

Definition routing_error {A} : res string A := Err "routing rule"%string.

(** [json.Unmarshal] of a raw text. *)
Definition unmarshal {A} (dec : decoder A) (zero : A) (raw : bytes) : res string A :=
  match json_Parse raw with Some t => dec zero raw t | None => json_error end.

(** ** Decoding, with the presence of every field *)
Definition decodeRoutingString (raw : bytes) (required : bool) : res string bytes :=
  if bool_decide (raw = []) then (if required then routing_error else Ok [])
  else if routingJSONNull raw then routing_error
  else
    value ← unmarshal dec_string [] raw;
    if bool_decide (value = []) then routing_error else Ok value.

Definition decodeOptionalRoutingString (raw : bytes) : res string (option bytes) :=
  value ← decodeRoutingString raw false;
  Ok (if bool_decide (raw = []) then None else Some value).

Definition decodeOptionalRoutingStrings (raw : bytes) : res string (option (list bytes)) :=
  if bool_decide (raw = []) then Ok None
  else if routingJSONNull raw then routing_error
  else
    values ← unmarshal (dec_slice dec_string []) [] raw;
    if bool_decide (values = []) then routing_error else Ok (Some values).

Definition decodeRoutingPort (raw : bytes) : res string (option Z) :=
  if bool_decide (raw = []) then Ok None
  else if routingJSONNull raw then routing_error
  else
    value ← unmarshal dec_int 0 raw;
    if value =? 0 then routing_error else Ok (Some value).

Section decode.
Context {U : UnicodeCase}.

Definition rawRoutingRule_fields : list bytes :=
  [&"action"; &"domain"; &"domain_suffix"; &"domain_keywords"; &"all_domain_keywords"; &"ip_cidr"; &"network";
   &"destination_port"].

(** [RoutingRule.UnmarshalJSON], of the tree of its strictly read text. *)
Definition RoutingRule_UnmarshalJSON (t : jtree) : res string RoutingRule :=
  members ← match t with TObj members => Ok members | TNull => Ok [] | _ => json_error end;
  _ ← reject_if (negb (scanJSONValue t)) "duplicate JSON key"%string;
  _ ← known_fields rawRoutingRule_fields members;
  raw_action ← get &"action" dec_raw [] members;
  raw_domain ← get &"domain" dec_raw [] members;
  raw_suffix ← get &"domain_suffix" dec_raw [] members;
  raw_keywords ← get &"domain_keywords" dec_raw [] members;
  raw_all ← get &"all_domain_keywords" dec_raw [] members;
  raw_cidr ← get &"ip_cidr" dec_raw [] members;
  raw_network ← get &"network" dec_raw [] members;
  raw_port ← get &"destination_port" dec_raw [] members;
  action ← decodeRoutingString raw_action true;
  domain ← decodeOptionalRoutingString raw_domain;
  suffix ← decodeOptionalRoutingString raw_suffix;
  keywords ← decodeOptionalRoutingStrings raw_keywords;
  all_keywords ← decodeOptionalRoutingStrings raw_all;
  cidr ← decodeOptionalRoutingString raw_cidr;
  network ← decodeOptionalRoutingString raw_network;
  port ← decodeRoutingPort raw_port;
  Ok (mkRoutingRule action domain suffix keywords all_keywords cidr network port).

(** [RoutingRules.UnmarshalJSON]. *)
Definition dec_RoutingRules : decoder (list RoutingRule) := λ _ _ t,
  match t with
  | TArr l => mapM RoutingRule_UnmarshalJSON l
  | TNull => Err "routing_rules must not be null"%string
  | _ => json_error
  end.

(** ** The document of a rule, which identifies it among its siblings *)
Definition marshal_strings (l : list bytes) : bytes := &"[" ++ Join (map json_quote l) &"," ++ &"]".

Definition marshal_field {A} (name : string) (marshal : A → bytes) (v : option A) : bytes :=
  match v with Some x => &"," ++ json_quote (lit name) ++ &":" ++ marshal x | None => [] end.

Definition marshal_rule (rule : RoutingRule) : bytes :=
  &"{" ++ json_quote &"action" ++ &":" ++ json_quote (rr_Action rule)
  ++ marshal_field "domain" json_quote (rr_Domain rule)
  ++ marshal_field "domain_suffix" json_quote (rr_DomainSuffix rule)
  ++ marshal_field "domain_keywords" marshal_strings (rr_DomainKeywords rule)
  ++ marshal_field "all_domain_keywords" marshal_strings (rr_AllDomainKeywords rule)
  ++ marshal_field "ip_cidr" json_quote (rr_IPCIDR rule)
  ++ marshal_field "network" json_quote (rr_Network rule)
  ++ marshal_field "destination_port" Itoa (rr_DestinationPort rule)
  ++ &"}".

(** ** Validation *)
Definition is_some {A} (o : option A) : bool := match o with Some _ => true | None => false end.

Definition keyword_ok (keyword : bytes) : bool :=
  negb (bool_decide (keyword = []) || (64 <? len keyword)
        || negb (bool_decide (keyword = ToLower (TrimSpace keyword)))
        || negb (nativeExtensionRouteKeywordPattern keyword)).

(** One of the two keyword loops, over the keywords seen so far. *)
Fixpoint check_keywords (seen : list bytes) (keywords : list bytes) : res string (list bytes) :=
  match keywords with
  | [] => Ok seen
  | keyword :: rest =>
      _ ← reject_if (negb (keyword_ok keyword)) "unsafe keyword"%string;
      _ ← reject_if (containsString seen keyword) "duplicate keyword"%string;
      check_keywords (seen ++ [keyword]) rest
  end.

Definition cidr_ok (cidr : bytes) : bool :=
  match ParseCIDR cidr with
  | Some network => negb (bool_decide (cidr = [])) && bool_decide (IPNet_String network = cidr)
  | None => false
  end.

Definition validate_rule (rule : RoutingRule) : res string unit :=
  let domainKeywords := default [] (rr_DomainKeywords rule) in
  let allDomainKeywords := default [] (rr_AllDomainKeywords rule) in
  let primary := Z.b2z (is_some (rr_Domain rule)) + Z.b2z (is_some (rr_DomainSuffix rule)) + Z.b2z (is_some (rr_IPCIDR rule)) in
  _ ← reject_if (negb (containsString [&"reject"; &"direct"] (rr_Action rule))) "action"%string;
  _ ← reject_if (negb (from_option validCanonicalRoutingDomain true (rr_Domain rule))) "domain"%string;
  _ ← reject_if (negb (from_option validCanonicalRoutingDomain true (rr_DomainSuffix rule))) "domain suffix"%string;
  _ ← reject_if (negb (from_option cidr_ok true (rr_IPCIDR rule))) "CIDR"%string;
  _ ← reject_if (bool_decide (rr_DomainKeywords rule = Some [])) "domain keywords are empty"%string;
  _ ← reject_if (bool_decide (rr_AllDomainKeywords rule = Some [])) "all-domain keywords are empty"%string;
  _ ← reject_if ((1 <? primary)
        || ((primary =? 0) && (len domainKeywords =? 0) && (len allDomainKeywords =? 0))
        || (is_some (rr_IPCIDR rule) && ((0 <? len domainKeywords) || (0 <? len allDomainKeywords))))
        "selector combination"%string;
  _ ← reject_if ((maxModuleRouteKeywords <? len domainKeywords) || negb (StringsAreSorted domainKeywords)) "domain keywords"%string;
  _ ← reject_if (len domainKeywords =? 1) "single domain keyword"%string;
  seen ← check_keywords [] domainKeywords;
  _ ← reject_if ((maxModuleRouteKeywords <? len allDomainKeywords) || negb (StringsAreSorted allDomainKeywords)) "all-domain keywords"%string;
  _ ← check_keywords seen allDomainKeywords;
  _ ← reject_if (negb (from_option (λ n, bool_decide (n = &"tcp") || bool_decide (n = &"udp")) true (rr_Network rule))) "network"%string;
  reject_if (negb (from_option (λ p, (1 <=? p) && (p <=? 65535)) true (rr_DestinationPort rule))) "destination port"%string.

Fixpoint validate_rules (seenRules : list bytes) (rules : list RoutingRule) : res string unit :=
  match rules with
  | [] => Ok tt
  | rule :: rest =>
      _ ← validate_rule rule;
      let body := marshal_rule rule in
      _ ← reject_if (containsString seenRules body) "duplicated"%string;
      validate_rules (seenRules ++ [body]) rest
  end.

Definition validateRoutingRules (rules : list RoutingRule) : res string unit :=
  _ ← reject_if (maxModuleRoutingRules <? len rules) "routing_rules exceeds 256 entries"%string;
  validate_rules [] rules.
End decode.
