(* ===== verification/Settings.v ===== *)
(** * Extension settings ([config.go]): definitions, values, action gates *)
From S2P Require Import Prelude GoStrings GoBinary ConfigTypes Json JsonDecode Identifiers ScriptConfig RoutingRules.

Record LocationValue := mkLocationValue {
  loc_Longitude : option float64;
  loc_Latitude : option float64;
  loc_Accuracy : Z;
}.

Definition not_finite (x : float64) : bool :=
  match x with S754_nan | S754_infinity _ => true | _ => false end.

(** The number [z] as a [float64] constant. *)
Definition flt (z : Z) : float64 := binary_normalize 53 1024 z 0 false.

Definition coordinate_bad (limit : Z) (x : option float64) : bool :=
  match x with
  | Some v => SFltb v (flt (- limit)) || SFltb (flt limit) v || not_finite v
  | None => false
  end.

Section settings.
Context {U : UnicodeCase} {En : Engines}.

Definition dec_LocationValue : decoder LocationValue := dec_struct (λ cur members,
  _ ← known_fields [&"longitude"; &"latitude"; &"accuracy"] members;
  longitude ← get &"longitude" (dec_ptr dec_float (S754_zero false)) (loc_Longitude cur) members;
  latitude ← get &"latitude" (dec_ptr dec_float (S754_zero false)) (loc_Latitude cur) members;
  accuracy ← get &"accuracy" dec_uint32 (loc_Accuracy cur) members;
  Ok (mkLocationValue longitude latitude accuracy)).

(** [unmarshalStrictRaw]. *)
Definition unmarshalStrictRaw {A} (dec : decoder A) (zero : A) (raw : bytes) : res string A :=
  t ← strict_tree raw; dec zero raw t.

Definition check_text (setting : ModuleSetting) (value : bytes) (complete : bool) : res string unit :=
  _ ← reject_if (4096 <? len value) "value must be a bounded string"%string;
  _ ← reject_if (complete && bool_decide (TrimSpace value = [])) "value must not be empty"%string;
  reject_if (bool_decide (set_Type setting = &"select") && negb (bool_decide (value = []))
             && negb (containsString (set_Options setting) value)) "value is not a declared option"%string.

Definition check_number (setting : ModuleSetting) (value : float64) : res string unit :=
  _ ← reject_if (not_finite value) "value must be a finite number"%string;
  reject_if (from_option (λ m, SFltb value m) false (set_Min setting)
             || from_option (λ m, SFltb m value) false (set_Max setting)) "value is outside its numeric bounds"%string.

Definition check_location (value : LocationValue) (complete : bool) : res string unit :=
  _ ← reject_if ((loc_Accuracy value =? 0) || (100000 <? loc_Accuracy value)
                 || negb (Bool.eqb (negb (is_some (loc_Longitude value))) (negb (is_some (loc_Latitude value)))))
        "location coordinates or accuracy are invalid"%string;
  _ ← reject_if (coordinate_bad 180 (loc_Longitude value)) "longitude is invalid"%string;
  _ ← reject_if (coordinate_bad 90 (loc_Latitude value)) "latitude is invalid"%string;
  reject_if (complete && negb (is_some (loc_Longitude value))) "coordinates are required"%string.

Definition validateSettingValue (setting : ModuleSetting) (raw : bytes) (complete : bool) : res string unit :=
  if bool_decide (raw = []) || bool_decide (TrimSpace raw = &"null")
  then reject_if complete "value is required"%string
  else if 65536 <? len raw then Err "value exceeds 65536 bytes"%string
  else if bool_decide (set_Type setting = &"text") || bool_decide (set_Type setting = &"select") then
    value ← unmarshal dec_string [] raw; check_text setting value complete
  else if bool_decide (set_Type setting = &"boolean") then
    _ ← unmarshal dec_bool false raw; Ok tt
  else if bool_decide (set_Type setting = &"number") then
    value ← unmarshal dec_float (S754_zero false) raw; check_number setting value
  else if bool_decide (set_Type setting = &"location") then
    value ← unmarshalStrictRaw dec_LocationValue (mkLocationValue None None 0) raw; check_location value complete
  else Ok tt.

(** No option is empty, longer than 256 bytes or repeated. *)
Fixpoint check_options (seen options : list bytes) : res string unit :=
  match options with
  | [] => Ok tt
  | option :: rest =>
      _ ← reject_if (bool_decide (option = []) || (256 <? len option)) "invalid option"%string;
      _ ← reject_if (containsString seen option) "duplicate options"%string;
      check_options (seen ++ [option]) rest
  end.

Definition validateSettingDefinition (setting : ModuleSetting) : res string unit :=
  let constrained := is_some (set_Min setting) || is_some (set_Max setting) in
  let options := set_Options setting in
  _ ← (if bool_decide (set_Type setting = &"text") then
         reject_if ((0 <? len options) || constrained) "text setting has incompatible constraints"%string
       else if bool_decide (set_Type setting = &"select") then
         _ ← reject_if ((len options =? 0) || (64 <? len options) || constrained) "select setting is invalid"%string;
         check_options [] options
       else if bool_decide (set_Type setting = &"boolean") || bool_decide (set_Type setting = &"location") then
         reject_if ((0 <? len options) || constrained) "setting has incompatible constraints"%string
       else if bool_decide (set_Type setting = &"number") then
         reject_if ((0 <? len options)
                    || match set_Min setting, set_Max setting with Some lo, Some hi => SFltb hi lo | _, _ => false end)
           "number setting has invalid constraints"%string
       else Err "setting type is unsupported"%string);
  _ ← (if 0 <? len (set_Default setting) then validateSettingValue setting (set_Default setting) false else Ok tt);
  if 0 <? len (set_Value setting) then validateSettingValue setting (set_Value setting) false else Ok tt.

Definition settingReady (setting : ModuleSetting) : bool := is_ok (validateSettingValue setting (set_Value setting) true).

Definition moduleSettingsReady (settings : list ModuleSetting) : bool :=
  forallb (λ s, negb (set_Required s && negb (settingReady s))) settings.

Fixpoint check_settings (seen : list bytes) (settings : list ModuleSetting) (requireReady : bool) : res string unit :=
  match settings with
  | [] => Ok tt
  | setting :: rest =>
      _ ← reject_if (negb (validSettingKey (set_Key setting))) "invalid key"%string;
      _ ← reject_if (containsString seen (set_Key setting)) "duplicated"%string;
      _ ← reject_if ((128 <? len (set_Label setting)) || (512 <? len (set_Description setting))) "metadata"%string;
      _ ← validateSettingDefinition setting;
      _ ← reject_if (requireReady && set_Required setting && negb (settingReady setting)) "not configured"%string;
      check_settings (seen ++ [set_Key setting]) rest requireReady
  end.

Definition validateModuleSettings (settings : list ModuleSetting) (requireReady : bool) : res string unit :=
  _ ← reject_if (128 <? len settings) "extension exceeds 128 settings"%string;
  check_settings [] settings requireReady.

(** The first declared setting of the gate's key decides. *)
Definition validateActionGate (module : Module_) (rule : ScriptRule) : res string unit :=
  match sr_EnabledWhen rule with
  | None => Ok tt
  | Some gate =>
      _ ← reject_if (negb (validSettingKey (gate_Key gate))) "not a valid setting key"%string;
      _ ← reject_if (bool_decide (gate_Equals gate = [])) "declares no value"%string;
      match List.find (λ s, bool_decide (set_Key s = gate_Key gate)) (mod_Settings module) with
      | None => Err "names a setting this extension does not declare"%string
      | Some setting =>
          _ ← reject_if (negb (set_Required setting)) "names an optional setting"%string;
          if bool_decide (set_Type setting = &"boolean") then
            reject_if (negb (containsString [&"true"; &"false"] (gate_Equals gate))) "boolean"%string
          else if bool_decide (set_Type setting = &"select") then
            reject_if (negb (containsString (set_Options setting) (gate_Equals gate))) "options"%string
          else Err "only boolean and select settings can gate an action"%string
      end
  end.

(** ** What an accepted value is *)
Definition settings_gate_value (setting : ModuleSetting) (v : jvalue) : Prop :=
  (set_Type setting = &"boolean" ∧ ∃ b, v = JBool b)
  ∨ (set_Type setting = &"select" ∧ ∃ s, v = JStr s ∧ s ∈ set_Options setting).

(** The text of a [json.RawMessage]: absent, or one JSON value without space around it. *)
Definition raw_text (raw : bytes) : Prop := raw = [] ∨ (TrimSpace raw = raw ∧ is_Some (json_Parse raw)).

Lemma unmarshal_Ok {A} (dec : decoder A) zero raw v :
  unmarshal dec zero raw = Ok v → ∃ t, json_Parse raw = Some t ∧ dec zero raw t = Ok v.
Proof. unfold unmarshal. destruct (json_Parse raw) as [t|]; [by exists t | done]. Qed.

Lemma location_any raw v :
  unmarshalStrictRaw dec_LocationValue (mkLocationValue None None 0) raw = Ok v → is_Some (json_Unmarshal_any raw).
Proof.
  unfold unmarshalStrictRaw, strict_tree, json_Unmarshal_any. intros H.
  apply bind_Ok_inv in H as (t & Ht & H). destruct (json_Parse raw) as [t'|]; [|done].
  destruct (scanJSONValue t'); [|done]. injection Ht as ->. cbn [mbind option_bind].
  unfold dec_LocationValue, dec_struct in H. destruct t as [| | | | |ms]; try done.
  apply bind_Ok_inv in H as ([] & Hk%reject_if_Ok & H). apply negb_false_iff in Hk.
  apply bind_Ok_inv in H as (lo & Hlo & H). apply bind_Ok_inv in H as (la & Hla & H).
  apply bind_Ok_inv in H as (ac & Hac & _). rewrite forallb_forall in Hk.
  apply to_any_object. intros [[k r] x] Hin. cbn [snd].
  specialize (Hk _ (proj1 (list_elem_of_In _ _) Hin)). cbn [fst existsb] in Hk.
  assert (∀ cur w, dec_ptr dec_float (S754_zero false) cur r x = Ok w → is_Some (to_any x)) as Hptr.
  { intros cur w Hw. destruct x as [| |text| | |]; try done. cbn in Hw |- *.
    destruct (ParseFloat text); [by eexists | done]. }
  apply orb_true_iff in Hk as [Hk|Hk]; [destruct (get_member _ _ _ _ _ _ _ _ Hlo Hin Hk) as (? & ? & ?); by eauto|].
  apply orb_true_iff in Hk as [Hk|Hk]; [destruct (get_member _ _ _ _ _ _ _ _ Hla Hin Hk) as (? & ? & ?); by eauto|].
  rewrite orb_false_r in Hk. destruct (get_member _ _ _ _ _ _ _ _ Hac Hin Hk) as (c & w & Hw).
  unfold dec_uint32, of_text in Hw. destruct x as [| |text| | |]; try done.
  destruct (ParseUint32 text) eqn:E; [|done]. apply ParseUint32_float in E as [f Hf]. cbn. rewrite Hf. by eexists.
Qed.

(** The type a definition may have. *)
Definition known_type (s : ModuleSetting) : Prop :=
  set_Type s ∈ [&"text"; &"select"; &"boolean"; &"number"; &"location"].

Lemma definition_type s : validateSettingDefinition s = Ok tt → known_type s.
Proof.
  unfold validateSettingDefinition, known_type. intros H. apply bind_Ok_inv in H as ([] & H & _).
  repeat case_bool_decide; try done; rewrite !elem_of_cons; auto 6.
  all: rewrite orb_true_iff, !bool_decide_eq_true in *; naive_solver.
Qed.

Lemma valid_value_any s c :
  known_type s → raw_text (set_Value s) → set_Value s ≠ [] →
  validateSettingValue s (set_Value s) c = Ok tt → is_Some (json_Unmarshal_any (set_Value s)).
Proof.
  intros Hty [?|[Htrim Hp]] Hne; [done|]. unfold validateSettingValue.
  rewrite bool_decide_eq_false_2 by done. rewrite Htrim. cbn [orb].
  case_bool_decide as Hnull; [rewrite Hnull; by eexists|].
  destruct (65536 <? len (set_Value s)); [done|]. unfold known_type in Hty. rewrite !elem_of_cons, elem_of_nil in Hty.
  unfold json_Unmarshal_any.
  destruct (bool_decide (set_Type s = &"text") || bool_decide (set_Type s = &"select")) eqn:E1.
  { intros H. apply bind_Ok_inv in H as (v & (t & -> & Ht)%unmarshal_Ok & _). destruct t; try done; by eexists. }
  destruct (bool_decide (set_Type s = &"boolean")) eqn:E2.
  { intros H. apply bind_Ok_inv in H as (v & (t & -> & Ht)%unmarshal_Ok & _). destruct t; try done; by eexists. }
  destruct (bool_decide (set_Type s = &"number")) eqn:E3.
  { intros H. apply bind_Ok_inv in H as (v & (t & -> & Ht)%unmarshal_Ok & _). unfold dec_float, of_text in Ht.
    destruct t as [| |text| | |]; try done. cbn. destruct (ParseFloat text); [by eexists | done]. }
  destruct (bool_decide (set_Type s = &"location")) eqn:E4.
  { intros H. apply bind_Ok_inv in H as (v & Hv & _). by eapply location_any. }
  apply orb_false_elim in E1 as [Ea Eb]. bools. naive_solver.
Qed.

(** ** The values of an extension *)
Lemma setting_values_total settings values :
  (∀ s, s ∈ settings → set_Value s ≠ [] → is_Some (json_Unmarshal_any (set_Value s))) →
  ∃ st, setting_values settings values = Ok st.
Proof.
  revert values. induction settings as [|s rest IH]; intros values Hs; [by eexists|]. cbn [setting_values].
  case_bool_decide as Hv; [apply IH; intros; apply Hs; [by right | done]|].
  destruct (Hs s ltac:(left) Hv) as [v ->]. apply IH. intros. apply Hs; [by right | done].
Qed.

Lemma setting_values_other settings values st k :
  setting_values settings values = Ok st → k ∉ map set_Key settings → st !! k = values !! k.
Proof.
  revert values. induction settings as [|s rest IH]; intros values H Hk; [by injection H as ->|].
  cbn [setting_values map] in *. apply not_elem_of_cons in Hk as [Hk Hr].
  case_bool_decide; [by apply IH|]. destruct (json_Unmarshal_any _); [|done].
  rewrite (IH _ H Hr). by rewrite lookup_insert_ne.
Qed.

Lemma setting_values_lookup settings values st s v :
  setting_values settings values = Ok st → NoDup (map set_Key settings) → s ∈ settings → set_Value s ≠ [] →
  json_Unmarshal_any (set_Value s) = Some v → st !! set_Key s = Some v.
Proof.
  revert values. induction settings as [|s0 rest IH]; intros values H Hnd Hin Hne Hv; [by apply elem_of_nil in Hin|].
  cbn [setting_values map] in *. apply NoDup_cons in Hnd as [Hk Hnd].
  apply elem_of_cons in Hin as [->|Hin].
  - rewrite bool_decide_eq_false_2, Hv in H by done.
    rewrite (setting_values_other _ _ _ _ H Hk). by rewrite lookup_insert_eq.
  - case_bool_decide; [by eapply IH|]. destruct (json_Unmarshal_any (set_Value s0)); [|done]. by eapply IH.
Qed.

Lemma check_settings_Ok settings seen ready :
  check_settings seen settings ready = Ok tt →
  (∀ s, s ∈ settings → validateSettingDefinition s = Ok tt
        ∧ (ready = true → set_Required s = true → settingReady s = true))
  ∧ NoDup (map set_Key settings) ∧ (∀ x, x ∈ seen → x ∉ map set_Key settings).
Proof.
  revert seen. induction settings as [|s rest IH]; intros seen H; cbn [check_settings map] in *.
  { split; [intros s Hs; by apply elem_of_nil in Hs|]. split; [apply NoDup_nil_2|]. intros x _ Hx. by apply elem_of_nil in Hx. }
  apply bind_Ok_inv in H as ([] & _ & H). apply bind_Ok_inv in H as ([] & Hs%reject_if_Ok & H).
  apply bind_Ok_inv in H as ([] & _ & H). apply bind_Ok_inv in H as ([] & Hd & H).
  apply bind_Ok_inv in H as ([] & Hr%reject_if_Ok & H).
  apply IH in H as (Ha & Hnd & Hout). split; [|split].
  - intros s' Hin. apply elem_of_cons in Hin as [->|Hin]; [|by apply Ha]. split; [done|].
    intros -> E. rewrite E in Hr. simpl in Hr. by apply negb_false_iff in Hr.
  - constructor; [|done]. apply Hout, elem_of_app. right. by left.
  - intros x Hx Hin. apply elem_of_cons in Hin as [->|Hin].
    + rewrite (proj2 (containsString_true seen (set_Key s)) Hx) in Hs. done.
    + eapply Hout; [|exact Hin]. apply elem_of_app. by left.
Qed.

(** A required setting that is ready holds a value its type allows, never nothing. *)
Lemma gate_value_ready s :
  (set_Type s = &"boolean" ∨ set_Type s = &"select") → settingReady s = true →
  set_Value s ≠ [] ∧ ∃ v, json_Unmarshal_any (set_Value s) = Some v ∧ settings_gate_value s v.
Proof.
  unfold settingReady, is_ok. destruct (validateSettingValue s (set_Value s) true) as [u|] eqn:H; [|done].
  intros Hty _. unfold validateSettingValue in H.
  destruct (bool_decide (set_Value s = []) || bool_decide (TrimSpace (set_Value s) = &"null")) eqn:E; [done|].
  apply orb_false_elim in E as [Hne Hnn]. apply bool_decide_eq_false in Hne, Hnn. split; [done|].
  assert (json_Parse (set_Value s) ≠ Some TNull) as Hnull by (intros E; by apply Hnn, json_Parse_null).
  destruct (65536 <? len (set_Value s)); [done|]. unfold json_Unmarshal_any, settings_gate_value.
  destruct Hty as [Hty|Hty]; rewrite Hty in *.
  - change (bool_decide (&"boolean" = &"text") || bool_decide (&"boolean" = &"select")) with false in H.
    cbv iota in H. rewrite bool_decide_eq_true_2 in H by done.
    apply bind_Ok_inv in H as (v & (t & Ht & Hv)%unmarshal_Ok & _). rewrite Ht in *.
    destruct t; try done. eexists. split; [done|]. left. split; [done|]. by eexists.
  - change (bool_decide (&"select" = &"text") || bool_decide (&"select" = &"select")) with true in H. cbv iota in H.
    apply bind_Ok_inv in H as (v & (t & Ht & Hv)%unmarshal_Ok & H). rewrite Ht in *.
    destruct t as [| | |str| |]; try done. injection Hv as ->. eexists. split; [done|]. right. split; [done|].
    exists v. split; [done|]. unfold check_text in H. rewrite Hty in H. apply bind_Ok_inv in H as ([] & _ & H).
    apply bind_Ok_inv in H as ([] & Hblank%reject_if_Ok & H). destruct u. apply reject_if_Ok in H.
    cbn [andb] in Hblank. apply bool_decide_eq_false in Hblank.
    rewrite bool_decide_eq_true_2 in H by done. cbn [andb] in H.
    destruct (decide (v = [])) as [->|Hvn]; [done|]. rewrite bool_decide_eq_false_2 in H by done. cbn [negb andb] in H.
    apply negb_false_iff in H. by apply containsString_true.
Qed.
End settings.
