(* ===== verification/ConfigValidate.v ===== *)
(** * Validation of the configuration document ([config.go], and the declarative
    actions of [module_rewrite.go] and [module_mock.go])

    Everything [Config.Validate] and [Config.ValidateCertificateRequest] check.
    [url.Parse] and the reading of a time stamp are parameters; the compiled
    programs that validation collects are a map, as in the source. *)
From S2P Require Import Prelude GoStrings GoBinary GoNet ConfigTypes Json JsonDecode Identifiers ScriptNesting.
From S2P Require Import HostPatterns ScriptConfig RoutingRules Settings.

(** The parts of a [url.URL] the program reads. *)
Record URL := mkParsedURL {
  url_Scheme : bytes;
  url_Opaque : bytes;
  url_User : bool;
  url_Host : bytes;
  url_Hostname : bytes;
  url_Port : bytes;
  url_Path : bytes;
  url_RawQuery : bytes;
  url_ForceQuery : bool;
  url_Fragment : bytes;
}.

Class TextParsers := {
  url_Parse : bytes → option URL;
  time_Parse_RFC3339 : bytes → bool;
}.

Definition configVersion : Z := 6.
Definition maxModuleCaptureHosts : Z := 512.
Definition maxActionMatchHosts : Z := 512.
Definition maxCertificateHosts : Z := 512.
Definition maxActiveModuleRoutingRules : Z := 2048.
Definition maxHeaderEdits : Z := 32.
Definition maxRewriteURLBytes : Z := 4096.
Definition maxReplacePatternLen : Z := 1024.
Definition maxMockBodyBytes : Z := 1048576.
Definition maxMockHeaderFields : Z := 32.
Definition scriptEntryProxyCompat : bytes := &"proxy-compat".
Definition reservedTerminalMatchEgressGroup : bytes := &"__5GPN_TERMINAL_MATCH__".

(** ** Declarative actions *)

(** [strings.ContainsAny] of ASCII characters. *)
Definition contains_any (s chars : bytes) : bool := existsb (λ c, ContainsByte chars c) s.

Definition token_separators : bytes := &":()<>@,;\/[]?={}" ++ [34].

Definition httpTokenName (name : bytes) : bool :=
  forallb (λ r, negb ((r <=? 0x20) || (0x7f <=? r) || ContainsByte token_separators r)) (runes name).

Definition has_newline (value : bytes) : bool := contains_any value [13; 10].

Definition mock_bytes (m : MockResponse) : res string bytes :=
  if bool_decide (mock_Base64Body m = []) then Ok (mock_Body m)
  else match base64_DecodeString (mock_Base64Body m) with
       | Some decoded => Ok decoded
       | None => Err "mock base64Body is not base64"%string
       end.

Definition MockResponse_validate (mock : option MockResponse) : res string unit :=
  match mock with
  | None => Ok tt
  | Some m =>
      _ ← reject_if (negb (mock_Status m =? 0) && ((mock_Status m <? 100) || (599 <? mock_Status m))) "mock status"%string;
      _ ← reject_if (negb (bool_decide (mock_Body m = [])) && negb (bool_decide (mock_Base64Body m = []))) "mock bodies"%string;
      _ ← reject_if (maxMockHeaderFields <? Z.of_nat (size (mock_Headers m))) "mock headers"%string;
      _ ← reject_if (negb (forallb (λ kv, negb (bool_decide (TrimSpace kv.1 = [])) && httpTokenName kv.1
                                          && negb (has_newline kv.2)) (map_to_list (mock_Headers m)))) "mock header"%string;
      body ← mock_bytes m;
      reject_if (maxMockBodyBytes <? len body) "mock body"%string
  end.

Definition HeaderEdits_validate (edits : option HeaderEdits) : res string unit :=
  match edits with
  | None => Ok tt
  | Some h =>
      let count := Z.of_nat (size (he_Set h)) + len (he_Remove h) in
      _ ← reject_if (count =? 0) "header edits declare neither set nor remove"%string;
      _ ← reject_if (maxHeaderEdits <? count) "header edits exceed 32 fields"%string;
      _ ← reject_if (negb (forallb (λ kv, httpTokenName kv.1 && negb (has_newline kv.2)) (map_to_list (he_Set h))))
            "header is invalid"%string;
      reject_if (negb (forallb httpTokenName (he_Remove h))) "header name is invalid"%string
  end.

Section validate.
Context {U : UnicodeCase} {En : Engines} {P : TextParsers}.

Definition URLRewrite_validate (rewrite : option URLRewrite) : res string unit :=
  match rewrite with
  | None => Ok tt
  | Some r =>
      _ ← reject_if (negb (rw_Status r =? 0) && negb (rw_Status r =? 302) && negb (rw_Status r =? 307)) "rewrite status"%string;
      _ ← reject_if ((len (rw_To r) =? 0) || (maxRewriteURLBytes <? len (rw_To r))) "rewrite target"%string;
      _ ← reject_if (maxReplacePatternLen <? len (rw_Pattern r)) "rewrite pattern exceeds 1024 bytes"%string;
      reject_if (negb (regexp_Compile (rw_Pattern r))) "rewrite pattern is invalid"%string
  end.

Definition BodyReplace_validate (replace : option BodyReplace) : res string unit :=
  match replace with
  | None => Ok tt
  | Some b =>
      _ ← reject_if ((len (br_Pattern b) =? 0) || (maxReplacePatternLen <? len (br_Pattern b))) "body replace pattern"%string;
      _ ← reject_if (maxRewriteURLBytes <? len (br_To b)) "body replace target"%string;
      _ ← reject_if (negb (regexp_Compile (br_Pattern b))) "body replace pattern is invalid"%string;
      reject_if (regexp_MatchString (br_Pattern b) []) "body replace pattern must not match the empty string"%string
  end.

(** ** Actions *)
Definition method_ok (method : bytes) : bool :=
  negb (bool_decide (method = [])) && bool_decide (method = ToUpper method) && negb (contains_any method [32; 9; 13; 10]).

Definition validateActionMatch (captureHosts : list bytes) (phase : bytes) (match_ : ActionMatch) : res string unit :=
  _ ← reject_if ((len (am_Hosts match_) =? 0) || (maxActionMatchHosts <? len (am_Hosts match_))
                 || (len (am_Schemes match_) =? 0) || bool_decide (am_PathRegex match_ = [])) "match fields are required"%string;
  _ ← reject_if (negb (forallb (λ h, validHostPattern h && hostCoveredBy captureHosts h) (am_Hosts match_)))
        "match host is outside capture_hosts"%string;
  _ ← reject_if (negb (forallb (λ s, containsString [&"http"; &"https"] s) (am_Schemes match_))) "scheme"%string;
  _ ← reject_if (negb (forallb method_ok (am_Methods match_))) "method"%string;
  _ ← reject_if (negb (regexp_Compile (am_PathRegex match_))) "path_regex"%string;
  _ ← reject_if (bool_decide (phase = &"request") && (0 <? len (am_StatusCodes match_))) "request status codes"%string;
  reject_if (negb (forallb (λ s, negb ((s <? 100) || (599 <? s))) (am_StatusCodes match_))) "status code"%string.

Definition validSnapshotURL (raw : bytes) : bool :=
  match url_Parse raw with
  | Some u => bool_decide (url_Scheme u = &"https") && negb (bool_decide (url_Hostname u = []))
              && negb (url_User u) && bool_decide (url_Fragment u = [])
  | None => false
  end.

Definition bounded_url (raw : bytes) : bool :=
  negb ((4096 <? len raw) || (negb (bool_decide (raw = [])) && negb (validSnapshotURL raw))).

Definition nonempty (s : bytes) : bool := negb (bool_decide (s = [])).

(** The kinds an action declares, in the order of the source's list. *)
Definition kinds (rule : ScriptRule) : list bool :=
  [nonempty (sr_JQProgram rule); sr_Reject rule; is_some (sr_Mock rule); is_some (sr_Headers rule);
   is_some (sr_Rewrite rule); is_some (sr_ReplaceBody rule);
   nonempty (sr_ScriptBody rule) || nonempty (sr_ScriptURL rule)].

Definition count_true (l : list bool) : Z := len (List.filter (λ b, b) l).

Definition declarative (rule : ScriptRule) : bool :=
  sr_Reject rule || is_some (sr_Mock rule) || nonempty (sr_JQProgram rule) || is_some (sr_Headers rule)
  || is_some (sr_Rewrite rule) || is_some (sr_ReplaceBody rule).

(** The checks every kind shares. *)
Definition check_common (module : Module_) (rule : ScriptRule) : res string unit :=
  _ ← reject_if (negb (containsString [&"request"; &"response"] (sr_Phase rule))) "phase is invalid"%string;
  _ ← validateActionMatch (mod_CaptureHosts module) (sr_Phase rule) (sr_Match rule);
  _ ← validateActionGate module rule;
  _ ← reject_if (negb (bounded_url (sr_ScriptURL rule))) "URL is invalid"%string;
  _ ← reject_if (1 <? count_true (kinds rule)) "declares more than one action kind"%string;
  _ ← reject_if (nonempty (sr_Entry rule) && declarative rule) "declares an entry without a script"%string;
  _ ← reject_if (negb (containsString [&"none"; &"text"; &"binary"] (sr_BodyMode rule))) "body mode is invalid"%string;
  _ ← reject_if ((sr_TimeoutMS rule <? 50) || (30000 <? sr_TimeoutMS rule)
                 || (sr_MaxBodyBytes rule <? 1024) || (67108864 <? sr_MaxBodyBytes rule)) "limits are invalid"%string;
  _ ← reject_if (is_some (sr_Rewrite rule) && negb (bool_decide (sr_Phase rule = &"request"))) "rewrite phase"%string;
  reject_if (is_some (sr_ReplaceBody rule) && bool_decide (sr_BodyMode rule = &"none")) "replace_body mode"%string.

(** A script action: its compiled program. *)
Definition check_script (module : Module_) (rule : ScriptRule) : res string bytes :=
  _ ← reject_if ((len (sr_ScriptBody rule) =? 0) || (1048576 <? len (sr_ScriptBody rule))
                 || negb (bool_decide (sr_ScriptDigest rule = digestText (sr_ScriptBody rule)))) "script snapshot"%string;
  _ ← match checkScriptNesting (sr_ScriptBody rule) with None => Ok tt | Some _ => Err "script nesting"%string end;
  program ← match goja_Compile (firstNonEmpty [sr_ScriptURL rule;
                                               &"extension:" ++ mod_ID module ++ &"/" ++ sr_ID rule])
                    (sr_ScriptBody rule) with
            | Some program => Ok program
            | None => Err "script does not compile"%string
            end;
  _ ← reject_if (nonempty (sr_Entry rule) && negb (bool_decide (sr_Entry rule = scriptEntryProxyCompat))) "entry mode"%string;
  Ok program.

(** The program of a script action, none for the other kinds. *)
Definition check_kind (module : Module_) (rule : ScriptRule) : res string (option bytes) :=
  if sr_Reject rule then Ok None
  else
    _ ← MockResponse_validate (sr_Mock rule);
    _ ← HeaderEdits_validate (sr_Headers rule);
    _ ← URLRewrite_validate (sr_Rewrite rule);
    _ ← BodyReplace_validate (sr_ReplaceBody rule);
    if is_some (sr_Mock rule) || is_some (sr_Headers rule) || is_some (sr_Rewrite rule) || is_some (sr_ReplaceBody rule)
    then Ok None
    else if nonempty (sr_JQProgram rule) then
      _ ← reject_if (negb (bool_decide (sr_BodyMode rule = &"text"))) "jq program requires a text body"%string;
      _ ← match compileJQProgram (sr_JQProgram rule) with Ok _ => Ok tt | Err _ => Err "jq"%string end;
      Ok None
    else program ← check_script module rule; Ok (Some program).

(** The loop over the actions of an extension: the ids seen, the script bytes, the programs. *)
Fixpoint check_actions (module : Module_) (seen : list bytes) (total : Z) (programs : program_map)
    (rules : list ScriptRule) : res string (Z * program_map) :=
  match rules with
  | [] => Ok (total, programs)
  | rule :: rest =>
      _ ← reject_if (negb (validSettingKey (sr_ID rule))) "has an invalid action id"%string;
      _ ← reject_if (containsString seen (sr_ID rule)) "has duplicate action"%string;
      _ ← check_common module rule;
      compiled ← check_kind module rule;
      match compiled with
      | Some program =>
          check_actions module (seen ++ [sr_ID rule]) (total + len (sr_ScriptBody rule))
            (<[(mod_ID module, sr_ID rule, sr_ScriptDigest rule) := program]> programs) rest
      | None => check_actions module (seen ++ [sr_ID rule]) total programs rest
      end
  end.

(** ** Extensions *)
Fixpoint check_mapping_list (captureHosts seen : list bytes) (mappings : list HostMapping) : res string unit :=
  match mappings with
  | [] => Ok tt
  | m :: rest =>
      _ ← reject_if (negb (validHostPattern (hm_Pattern m)) || negb (hostCoveredBy captureHosts (hm_Pattern m))
                     || negb (validHostTarget (hm_Target m))) "upstream mapping is invalid or outside capture_hosts"%string;
      _ ← reject_if (containsString seen (hm_Pattern m)) "upstream mapping is duplicated"%string;
      check_mapping_list captureHosts (seen ++ [hm_Pattern m]) rest
  end.

Definition validateHostMappings (captureHosts : list bytes) (mappings : list HostMapping) : res string unit :=
  check_mapping_list captureHosts [] mappings.

Definition egress_rune (r : Z) : bool := negb ((r =? 44) || IsControl r).

Definition validateModuleNetworkPermissions (module : Module_) : res string unit :=
  let group := mod_EgressGroup module in
  _ ← reject_if (mod_Enabled module && mod_EgressGroupRequired module && bool_decide (TrimSpace group = []))
        "egress_group is required"%string;
  if bool_decide (group = []) then Ok tt
  else
    _ ← reject_if (bool_decide (group = reservedTerminalMatchEgressGroup)) "egress_group uses a reserved internal name"%string;
    _ ← reject_if (negb (ValidString group) || negb (bool_decide (group = TrimSpace group)) || (128 <? len group))
          "egress_group has an invalid form"%string;
    reject_if (negb (forallb egress_rune (runes group))) "egress_group contains a comma or control character"%string.

(** The checks of one extension before its actions. *)
Definition check_header (module : Module_) : res string unit :=
  _ ← reject_if (negb (time_Parse_RFC3339 (mod_ImportedAt module))) "imported_at is invalid"%string;
  _ ← reject_if (bool_decide (TrimSpace (mod_Version module) = []) || (64 <? len (mod_Version module))
                 || bool_decide (TrimSpace (mod_Name module) = []) || (128 <? len (mod_Name module))
                 || (1024 <? len (mod_Description module))) "metadata exceeds its bounds"%string;
  let source := mod_Source module in
  _ ← reject_if ((len (src_Body source) =? 0) || (2097152 <? len (src_Body source))
                 || negb (bool_decide (src_Digest source = digestText (src_Body source)))) "manifest snapshot digest"%string;
  _ ← reject_if (negb (bounded_url (src_URL source))) "source URL is invalid"%string;
  _ ← reject_if ((len (mod_CaptureHosts module) =? 0) || (maxModuleCaptureHosts <? len (mod_CaptureHosts module))
                 || negb (StringsAreSorted (mod_CaptureHosts module))) "capture_hosts are invalid"%string;
  _ ← reject_if (negb (forallb (λ h, validHostPattern h && bool_decide (h = canonicalHost h)) (mod_CaptureHosts module)))
        "capture host is invalid or not canonical"%string;
  _ ← reject_if (negb (containsString [&"trust"; &"china"] (mod_CaptureDNS module))) "capture_dns"%string;
  let actions := len (mod_Scripts module) + len (mod_HostMappings module) in
  _ ← reject_if ((actions =? 0) || (256 <? actions)) "has an invalid action count"%string;
  _ ← validateModuleSettings (mod_Settings module) (mod_Enabled module);
  _ ← validateHostMappings (mod_CaptureHosts module) (mod_HostMappings module);
  _ ← validateModuleNetworkPermissions module;
  validateRoutingRules (mod_RoutingRules module).

(** The mappings of the enabled extensions so far. *)
Fixpoint merge_mappings (active : gmap bytes bytes) (mappings : list HostMapping) : res string (gmap bytes bytes) :=
  match mappings with
  | [] => Ok active
  | m :: rest =>
      _ ← reject_if (match active !! hm_Pattern m with
                     | Some target => negb (bool_decide (target = hm_Target m))
                     | None => false
                     end) "enabled extensions conflict on upstream mapping"%string;
      merge_mappings (<[hm_Pattern m := hm_Target m]> active) rest
  end.

Fixpoint check_modules (seen : list bytes) (active : gmap bytes bytes) (routing : Z) (programs : program_map)
    (modules : list Module_) : res string program_map :=
  match modules with
  | [] => Ok programs
  | module :: rest =>
      _ ← reject_if (negb (validModuleID (mod_ID module))) "has an invalid id"%string;
      _ ← reject_if (containsString seen (mod_ID module)) "duplicate extension id"%string;
      _ ← check_header module;
      let routing := if mod_Enabled module then routing + len (mod_RoutingRules module) else routing in
      _ ← reject_if (mod_Enabled module && (maxActiveModuleRoutingRules <? routing)) "declared routing rules"%string;
      '(total, programs) ← check_actions module [] 0 programs (mod_Scripts module);
      _ ← reject_if (8388608 <? total) "script snapshots exceed 8388608 bytes"%string;
      active ← (if mod_Enabled module then
                  _ ← reject_if (negb (moduleSettingsReady (mod_Settings module))) "required settings"%string;
                  merge_mappings active (mod_HostMappings module)
                else Ok active);
      check_modules (seen ++ [mod_ID module]) active routing programs rest
  end.

Definition validateModulesWithPrograms (modules : list Module_) (programs : program_map) : res string program_map :=
  _ ← reject_if (64 <? len modules) "at most 64 interception extensions are allowed"%string;
  check_modules [] ∅ 0 programs modules.

(** The loop over [execution_order]: every id known, none twice. *)
Fixpoint check_order (ids seen order : list bytes) : res string unit :=
  match order with
  | [] => Ok tt
  | id :: rest =>
      _ ← reject_if (negb (containsString ids id)) "execution_order contains unknown extension id"%string;
      _ ← reject_if (containsString seen id) "execution_order contains duplicate extension id"%string;
      check_order ids (seen ++ [id]) rest
  end.

Definition validateExecutionOrder (modules : list Module_) (order : option (list bytes)) : res string unit :=
  match order with
  | None => Err "execution_order must be an array"%string
  | Some order =>
      _ ← reject_if (negb (len order =? len modules)) "execution_order must contain every extension id exactly once"%string;
      check_order (map mod_ID modules) [] order
  end.

(** ** The document *)
Definition validateLoopbackAddress (value : bytes) : res string unit :=
  match SplitHostPort value with
  | None => Err "must be a host:port address"%string
  | Some (host, port) =>
      _ ← match ParseIP host with
          | Some ip => reject_if (negb (is_some (To4 ip)) || negb (IsLoopback ip)) "must use an IPv4 loopback address"%string
          | None => Err "must use an IPv4 loopback address"%string
          end;
      reject_if (bool_decide (port = []) || bool_decide (port = &"0")) "must use a non-zero port"%string
  end.

Definition credentials_bad (username password : bytes) : bool :=
  (len username <? 16) || (len password <? 24) || (255 <? len username) || (255 <? len password).

(** [Config.validate]: the programs of the accepted document. *)
Definition validate (c : Config) (programs : program_map) : res string program_map :=
  _ ← reject_if (negb (cfg_Version c =? configVersion)) "config version must be 6"%string;
  _ ← validateLoopbackAddress (cfg_Listen c);
  _ ← validateLoopbackAddress (px_Address (cfg_UpstreamProxy c));
  _ ← reject_if (negb (bool_decide (cfg_Listen c = &"127.0.0.1:18080"))
                 || negb (bool_decide (px_Address (cfg_UpstreamProxy c) = &"127.0.0.1:17890"))) "SOCKS addresses"%string;
  _ ← reject_if (credentials_bad (cfg_Username c) (cfg_Password c)) "inbound SOCKS credentials"%string;
  _ ← reject_if (credentials_bad (px_Username (cfg_UpstreamProxy c)) (px_Password (cfg_UpstreamProxy c)))
        "upstream SOCKS credentials"%string;
  _ ← reject_if (bool_decide (TrimSpace (cfg_TLSCert c) = []) || bool_decide (TrimSpace (cfg_TLSKey c) = []))
        "tls_cert and tls_key are required"%string;
  programs ← validateModulesWithPrograms (cfg_Modules c) programs;
  _ ← validateExecutionOrder (cfg_Modules c) (cfg_ExecutionOrder c);
  _ ← reject_if (maxCertificateHosts <? len (certificateHostPatterns c)) "unique certificate hosts"%string;
  Ok programs.

Definition tls_paths_fixed (c : Config) : bool :=
  bool_decide (cfg_TLSCert c = &"/etc/5gpn/intercept/tls/fullchain.pem")
  && bool_decide (cfg_TLSKey c = &"/etc/5gpn/intercept/tls/privkey.pem").

Definition ValidateDeployment (c : Config) : res string unit :=
  reject_if (negb (tls_paths_fixed c)) "TLS paths do not match"%string.

(** The loop of [ValidateCertificateRequest]. *)
Fixpoint check_certificate_modules (seen : list bytes) (routing : Z) (modules : list Module_) : res string unit :=
  match modules with
  | [] => Ok tt
  | module :: rest =>
      _ ← reject_if (containsString seen (mod_ID module)) "duplicate extension id"%string;
      _ ← validateModuleNetworkPermissions module;
      _ ← validateRoutingRules (mod_RoutingRules module);
      _ ← reject_if (negb (containsString [&"trust"; &"china"] (mod_CaptureDNS module))) "capture_dns"%string;
      if negb (mod_Enabled module) then check_certificate_modules (seen ++ [mod_ID module]) routing rest
      else
        let routing := routing + len (mod_RoutingRules module) in
        _ ← reject_if (maxActiveModuleRoutingRules <? routing) "declared routing rules"%string;
        _ ← reject_if (negb (validModuleID (mod_ID module)) || (len (mod_CaptureHosts module) =? 0)
                       || (maxModuleCaptureHosts <? len (mod_CaptureHosts module))) "identity or capture host count"%string;
        _ ← reject_if (negb (forallb validHostPattern (mod_CaptureHosts module))) "invalid capture host"%string;
        check_certificate_modules (seen ++ [mod_ID module]) routing rest
  end.

Definition ValidateCertificateRequest (c : Config) : res string unit :=
  _ ← reject_if (negb (cfg_Version c =? configVersion)) "config version must be 6"%string;
  _ ← reject_if (negb (tls_paths_fixed c)) "TLS paths do not match"%string;
  _ ← reject_if (64 <? len (cfg_Modules c)) "at most 64 interception extensions are allowed"%string;
  _ ← validateExecutionOrder (cfg_Modules c) (cfg_ExecutionOrder c);
  _ ← check_certificate_modules [] 0 (cfg_Modules c);
  reject_if (maxCertificateHosts <? len (certificateHostPatterns c)) "unique certificate hosts"%string.

(** ** Network origins *)
Definition canonicalModuleNetworkOrigin (raw : bytes) : res string bytes :=
  _ ← reject_if ((len raw =? 0) || (4096 <? len raw) || negb (bool_decide (raw = TrimSpace raw))) "length or whitespace"%string;
  match url_Parse raw with
  | None => Err "network origin is not an absolute HTTP origin"%string
  | Some u =>
      _ ← reject_if (nonempty (url_Opaque u) || url_User u || nonempty (url_RawQuery u) || url_ForceQuery u
                     || nonempty (url_Fragment u)) "network origin is not an absolute HTTP origin"%string;
      _ ← reject_if (nonempty (url_Path u) && negb (bool_decide (url_Path u = &"/"))) "network origin cannot contain a path"%string;
      let scheme := ToLower (url_Scheme u) in
      _ ← reject_if (negb (containsString [&"http"; &"https"] scheme)) "network origin scheme"%string;
      let host := canonicalHost (url_Hostname u) in
      _ ← reject_if (bool_decide (host = []) || is_some (ParseIP host) || negb (validHostTarget host) || ContainsByte host #":")
            "network origin host is unsafe"%string;
      _ ← reject_if (HasSuffix (url_Host u) &":") "network origin port is empty"%string;
      let defaultPort := if bool_decide (scheme = &"https") then &"443" else &"80" in
      let port := if bool_decide (url_Port u = []) then defaultPort else url_Port u in
      match Atoi port with
      | None => Err "network origin port is invalid"%string
      | Some n =>
          _ ← reject_if ((n <? 1) || (65535 <? n)) "network origin port is invalid"%string;
          Ok (if bool_decide (Itoa n = defaultPort) then scheme ++ &"://" ++ host
              else scheme ++ &"://" ++ JoinHostPort host (Itoa n))
      end
  end.
End validate.
