(* ===== verification/ConfigDecode.v ===== *)
(** * Reading a configuration document ([config.go])

    The strict decoding of the document into its records, and [decodeConfig]:
    decode, validate, compile.  This is the decoder the bundle manager relies
    on. *)
From S2P Require Import Prelude GoStrings GoBinary ConfigTypes Json JsonDecode HostPatterns ScriptConfig RoutingRules.
From S2P Require Import Settings ConfigValidate TransportProjection.

Section decode.
Context {U : UnicodeCase} {En : Engines} {P : TextParsers}.

Abbreviation strings := (dec_slice dec_string []).

Definition dec_ProxyConfig : decoder ProxyConfig := dec_struct (λ cur ms,
  _ ← known_fields [&"address"; &"username"; &"password"] ms;
  address ← get &"address" dec_string (px_Address cur) ms;
  username ← get &"username" dec_string (px_Username cur) ms;
  password ← get &"password" dec_string (px_Password cur) ms;
  Ok (mkProxyConfig address username password)).

Definition dec_MITMSettings : decoder MITMSettings := dec_struct (λ cur ms,
  _ ← known_fields [&"enabled"; &"http2"; &"quic_fallback_protection"] ms;
  enabled ← get &"enabled" dec_bool (mitm_Enabled cur) ms;
  http2 ← get &"http2" dec_bool (mitm_HTTP2 cur) ms;
  quic ← get &"quic_fallback_protection" dec_bool (mitm_QUICFallbackProtection cur) ms;
  Ok (mkMITMSettings enabled http2 quic)).

Definition dec_ModuleSource : decoder ModuleSource := dec_struct (λ cur ms,
  _ ← known_fields [&"url"; &"digest"; &"body"] ms;
  url ← get &"url" dec_string (src_URL cur) ms;
  digest ← get &"digest" dec_string (src_Digest cur) ms;
  body ← get &"body" dec_string (src_Body cur) ms;
  Ok (mkModuleSource url digest body)).

Definition dec_ActionMatch : decoder ActionMatch := dec_struct (λ cur ms,
  _ ← known_fields [&"hosts"; &"schemes"; &"methods"; &"path_regex"; &"status_codes"] ms;
  hosts ← get &"hosts" strings (am_Hosts cur) ms;
  schemes ← get &"schemes" strings (am_Schemes cur) ms;
  methods ← get &"methods" strings (am_Methods cur) ms;
  path ← get &"path_regex" dec_string (am_PathRegex cur) ms;
  codes ← get &"status_codes" (dec_slice dec_int 0) (am_StatusCodes cur) ms;
  Ok (mkActionMatch hosts schemes methods path codes)).

Definition dec_ActionGate : decoder ActionGate := dec_struct (λ cur ms,
  _ ← known_fields [&"key"; &"equals"] ms;
  key ← get &"key" dec_string (gate_Key cur) ms;
  equals ← get &"equals" dec_string (gate_Equals cur) ms;
  Ok (mkActionGate key equals)).

Definition dec_MockResponse : decoder MockResponse := dec_struct (λ cur ms,
  _ ← known_fields [&"status"; &"headers"; &"body"; &"base64_body"] ms;
  status ← get &"status" dec_int (mock_Status cur) ms;
  headers ← get &"headers" (dec_map dec_string []) (mock_Headers cur) ms;
  body ← get &"body" dec_string (mock_Body cur) ms;
  base64 ← get &"base64_body" dec_string (mock_Base64Body cur) ms;
  Ok (mkMockResponse status headers body base64)).

Definition dec_HeaderEdits : decoder HeaderEdits := dec_struct (λ cur ms,
  _ ← known_fields [&"set"; &"remove"] ms;
  set_ ← get &"set" (dec_map dec_string []) (he_Set cur) ms;
  remove ← get &"remove" strings (he_Remove cur) ms;
  Ok (mkHeaderEdits set_ remove)).

Definition dec_URLRewrite : decoder URLRewrite := dec_struct (λ cur ms,
  _ ← known_fields [&"pattern"; &"to"; &"status"] ms;
  pattern ← get &"pattern" dec_string (rw_Pattern cur) ms;
  to ← get &"to" dec_string (rw_To cur) ms;
  status ← get &"status" dec_int (rw_Status cur) ms;
  Ok (mkURLRewrite pattern to status)).

Definition dec_BodyReplace : decoder BodyReplace := dec_struct (λ cur ms,
  _ ← known_fields [&"pattern"; &"to"; &"value_map"] ms;
  pattern ← get &"pattern" dec_string (br_Pattern cur) ms;
  to ← get &"to" dec_string (br_To cur) ms;
  value_map ← get &"value_map" (dec_map (dec_map dec_string []) ∅) (br_ValueMap cur) ms;
  Ok (mkBodyReplace pattern to value_map)).

Definition zero_match : ActionMatch := mkActionMatch [] [] [] [] [].
Definition zero_rule : ScriptRule :=
  mkScriptRule [] [] zero_match None [] [] [] [] [] [] false None None None None 0 0 None None ∅.

Definition dec_ScriptRule : decoder ScriptRule := dec_struct (λ cur ms,
  _ ← known_fields [&"id"; &"phase"; &"match"; &"enabled_when"; &"script_url"; &"script_digest"; &"script_body";
                    &"body_mode"; &"entry"; &"jq_program"; &"reject"; &"mock"; &"headers"; &"rewrite"; &"replace_body";
                    &"timeout_ms"; &"max_body_bytes"] ms;
  id ← get &"id" dec_string (sr_ID cur) ms;
  phase ← get &"phase" dec_string (sr_Phase cur) ms;
  match_ ← get &"match" dec_ActionMatch (sr_Match cur) ms;
  gate ← get &"enabled_when" (dec_ptr dec_ActionGate (mkActionGate [] [])) (sr_EnabledWhen cur) ms;
  url ← get &"script_url" dec_string (sr_ScriptURL cur) ms;
  digest ← get &"script_digest" dec_string (sr_ScriptDigest cur) ms;
  body ← get &"script_body" dec_string (sr_ScriptBody cur) ms;
  mode ← get &"body_mode" dec_string (sr_BodyMode cur) ms;
  entry ← get &"entry" dec_string (sr_Entry cur) ms;
  jq ← get &"jq_program" dec_string (sr_JQProgram cur) ms;
  reject ← get &"reject" dec_bool (sr_Reject cur) ms;
  mock ← get &"mock" (dec_ptr dec_MockResponse (mkMockResponse 0 ∅ [] [])) (sr_Mock cur) ms;
  headers ← get &"headers" (dec_ptr dec_HeaderEdits (mkHeaderEdits ∅ [])) (sr_Headers cur) ms;
  rewrite_ ← get &"rewrite" (dec_ptr dec_URLRewrite (mkURLRewrite [] [] 0)) (sr_Rewrite cur) ms;
  replace_ ← get &"replace_body" (dec_ptr dec_BodyReplace (mkBodyReplace [] [] ∅)) (sr_ReplaceBody cur) ms;
  timeout_ ← get &"timeout_ms" dec_int (sr_TimeoutMS cur) ms;
  limit ← get &"max_body_bytes" dec_int (sr_MaxBodyBytes cur) ms;
  Ok (mkScriptRule id phase match_ gate url digest body mode entry jq reject mock headers rewrite_ replace_
        timeout_ limit None None ∅)).

Definition zero_setting : ModuleSetting := mkModuleSetting [] [] [] [] false [] None None [] [].

Definition dec_ModuleSetting : decoder ModuleSetting := dec_struct (λ cur ms,
  _ ← known_fields [&"key"; &"type"; &"label"; &"description"; &"required"; &"options"; &"min"; &"max"; &"default"; &"value"] ms;
  key ← get &"key" dec_string (set_Key cur) ms;
  type ← get &"type" dec_string (set_Type cur) ms;
  label ← get &"label" dec_string (set_Label cur) ms;
  description ← get &"description" dec_string (set_Description cur) ms;
  required ← get &"required" dec_bool (set_Required cur) ms;
  options ← get &"options" strings (set_Options cur) ms;
  min ← get &"min" (dec_ptr dec_float (S754_zero false)) (set_Min cur) ms;
  max ← get &"max" (dec_ptr dec_float (S754_zero false)) (set_Max cur) ms;
  default_ ← get &"default" dec_raw (set_Default cur) ms;
  value ← get &"value" dec_raw (set_Value cur) ms;
  Ok (mkModuleSetting key type label description required options min max default_ value)).

Definition dec_HostMapping : decoder HostMapping := dec_struct (λ cur ms,
  _ ← known_fields [&"host"; &"target"] ms;
  host ← get &"host" dec_string (hm_Pattern cur) ms;
  target ← get &"target" dec_string (hm_Target cur) ms;
  Ok (mkHostMapping host target)).

Definition zero_module : Module_ :=
  mkModule [] [] [] [] false [] (mkModuleSource [] [] []) [] [] [] [] [] [] false false false [].

Definition dec_Module : decoder Module_ := dec_struct (λ cur ms,
  _ ← known_fields [&"id"; &"extension_version"; &"name"; &"description"; &"enabled"; &"imported_at"; &"source";
                    &"capture_hosts"; &"capture_dns"; &"upstream_mappings"; &"routing_rules"; &"settings"; &"actions";
                    &"persistent_storage"; &"network"; &"egress_group_required"; &"egress_group"] ms;
  id ← get &"id" dec_string (mod_ID cur) ms;
  version ← get &"extension_version" dec_string (mod_Version cur) ms;
  name ← get &"name" dec_string (mod_Name cur) ms;
  description ← get &"description" dec_string (mod_Description cur) ms;
  enabled ← get &"enabled" dec_bool (mod_Enabled cur) ms;
  imported ← get &"imported_at" dec_string (mod_ImportedAt cur) ms;
  source ← get &"source" dec_ModuleSource (mod_Source cur) ms;
  hosts ← get &"capture_hosts" strings (mod_CaptureHosts cur) ms;
  dns ← get &"capture_dns" dec_string (mod_CaptureDNS cur) ms;
  mappings ← get &"upstream_mappings" (dec_slice dec_HostMapping (mkHostMapping [] [])) (mod_HostMappings cur) ms;
  rules ← get &"routing_rules" dec_RoutingRules (mod_RoutingRules cur) ms;
  settings ← get &"settings" (dec_slice dec_ModuleSetting zero_setting) (mod_Settings cur) ms;
  actions ← get &"actions" (dec_slice dec_ScriptRule zero_rule) (mod_Scripts cur) ms;
  storage ← get &"persistent_storage" dec_bool (mod_PersistentStorage cur) ms;
  network ← get &"network" dec_bool (mod_Network cur) ms;
  egress_required ← get &"egress_group_required" dec_bool (mod_EgressGroupRequired cur) ms;
  egress ← get &"egress_group" dec_string (mod_EgressGroup cur) ms;
  Ok (mkModule id version name description enabled imported source hosts dns mappings rules settings actions
        storage network egress_required egress)).

Definition zero_config : Config :=
  mkConfig 0 None [] [] [] [] [] (mkProxyConfig [] [] []) (mkMITMSettings false false false) [] None 0.

Definition dec_Config : decoder Config := dec_struct (λ cur ms,
  _ ← known_fields [&"version"; &"execution_order"; &"listen"; &"username"; &"password"; &"tls_cert"; &"tls_key";
                    &"upstream_proxy"; &"mitm"; &"modules"] ms;
  version ← get &"version" dec_int (cfg_Version cur) ms;
  order ← get &"execution_order" (dec_slice_nil dec_string []) (cfg_ExecutionOrder cur) ms;
  listen ← get &"listen" dec_string (cfg_Listen cur) ms;
  username ← get &"username" dec_string (cfg_Username cur) ms;
  password ← get &"password" dec_string (cfg_Password cur) ms;
  cert ← get &"tls_cert" dec_string (cfg_TLSCert cur) ms;
  key ← get &"tls_key" dec_string (cfg_TLSKey cur) ms;
  proxy ← get &"upstream_proxy" dec_ProxyConfig (cfg_UpstreamProxy cur) ms;
  mitm ← get &"mitm" dec_MITMSettings (cfg_MITM cur) ms;
  modules ← get &"modules" (dec_slice dec_Module zero_module) (cfg_Modules cur) ms;
  Ok (mkConfig version order listen username password cert key proxy mitm modules (cfg_runtime cur) (cfg_generation cur))).

(** The document before validation. *)
Definition decode_document (body : bytes) : res string Config := unmarshalStrictRaw dec_Config zero_config body.

Definition decode_config (body : bytes) : res string Config :=
  cfg ← decode_document body;
  programs ← validate cfg ∅;
  runtime ← compileScriptConfigWithPrograms cfg programs;
  Ok (set_runtime (Some runtime) cfg).

(** The certificate tool's view of a document: decoded, not compiled. *)
Definition decode_certificate_config (body : bytes) : res string Config :=
  cfg ← decode_document body;
  _ ← ValidateCertificateRequest cfg;
  Ok cfg.

#[export] Instance config_decoder : ConfigDecoder := {| decodeConfig := decode_config |}.
End decode.
