(* ===== verification/ConfigSpec.v ===== *)
(** * What an accepted configuration is *)
From S2P Require Import Prelude GoStrings GoBinary GoNet ConfigTypes Json JsonDecode Identifiers ScriptNesting.
From S2P Require Import HostPatterns ScriptConfig RoutingRules Settings ConfigValidate TransportProjection.
From S2P Require Import ConfigDecode.

Section spec.
Context {U : UnicodeCase} {En : Engines} {P : TextParsers}.

(** ** The loops, as statements about every element *)
Definition action_ok (m : Module_) (r : ScriptRule) : Prop :=
  validSettingKey (sr_ID r) = true ∧ check_common m r = Ok tt ∧ ∃ c, check_kind m r = Ok c.

Definition module_ok (m : Module_) : Prop :=
  validModuleID (mod_ID m) = true ∧ check_header m = Ok tt ∧ Forall (action_ok m) (mod_Scripts m)
  ∧ NoDup (map sr_ID (mod_Scripts m))
  ∧ (mod_Enabled m = true → moduleSettingsReady (mod_Settings m) = true).

(** What the collected programs are: each the program of the action its key names. *)
Definition collected (m : Module_) (r : ScriptRule) (programs : program_map) : Prop :=
  ∀ p, programs !! (mod_ID m, sr_ID r, sr_ScriptDigest r) = Some p → check_kind m r = Ok (Some p).

Lemma containsString_false l x : containsString l x = false ↔ x ∉ l.
Proof. rewrite <- containsString_true. by destruct (containsString l x). Qed.

Lemma not_seen_app seen (id : bytes) ids :
  id ∉ seen → NoDup ids → (∀ x, x ∈ seen ++ [id] → x ∉ ids) → NoDup (id :: ids) ∧ ∀ x, x ∈ seen → x ∉ id :: ids.
Proof.
  intros Hs Hnd Hd. split.
  - constructor; [|done]. apply Hd. apply elem_of_app. right. by left.
  - intros x Hx Hin. apply elem_of_cons in Hin as [->|Hin]; [done|].
    eapply Hd; [|exact Hin]. apply elem_of_app. by left.
Qed.

Lemma unit_Ok (u : unit) : u = tt. Proof. by destruct u. Qed.

(** An action's step of the loop. *)
Lemma check_actions_cons m seen total programs r rules total' programs' :
  check_actions m seen total programs (r :: rules) = Ok (total', programs') →
  action_ok m r ∧ sr_ID r ∉ seen ∧ ∃ total1 programs1,
    check_actions m (seen ++ [sr_ID r]) total1 programs1 rules = Ok (total', programs')
    ∧ (programs1 = programs ∨ ∃ p, check_kind m r = Ok (Some p)
         ∧ programs1 = <[(mod_ID m, sr_ID r, sr_ScriptDigest r) := p]> programs).
Proof.
  cbn [check_actions]. intros H.
  apply bind_Ok_inv in H as (? & Hk%reject_if_Ok & H). apply negb_false_iff in Hk.
  apply bind_Ok_inv in H as (? & Hs%reject_if_Ok & H). apply containsString_false in Hs.
  apply bind_Ok_inv in H as (u & Hc & H). rewrite (unit_Ok u) in Hc.
  apply bind_Ok_inv in H as (compiled & Hkind & H).
  split; [split; [done|]; split; [done|by exists compiled]|]. split; [done|].
  destruct compiled as [p|]; (eexists _, _; split; [exact H|]); [right; by exists p | by left].
Qed.

Lemma check_actions_Ok m rules seen total programs total' programs' :
  check_actions m seen total programs rules = Ok (total', programs') →
  Forall (action_ok m) rules ∧ NoDup (map sr_ID rules) ∧ (∀ x, x ∈ seen → x ∉ map sr_ID rules).
Proof.
  revert seen total programs. induction rules as [|r rules IH]; intros seen total programs H.
  { split; [done|]. split; [apply NoDup_nil_2|]. intros x _ Hx. by apply elem_of_nil in Hx. }
  apply check_actions_cons in H as (Hr & Hs & total1 & programs1 & H & _).
  apply IH in H as (Hf & Hnd & Hd). split; [by constructor|]. by apply not_seen_app.
Qed.

(** The programs: an old one stays, a new one is of an action of the list. *)
Lemma check_actions_programs m rules seen total programs total' programs' key p :
  check_actions m seen total programs rules = Ok (total', programs') →
  programs' !! key = Some p →
  programs !! key = Some p
  ∨ ∃ r, r ∈ rules ∧ key = (mod_ID m, sr_ID r, sr_ScriptDigest r) ∧ check_kind m r = Ok (Some p).
Proof.
  revert seen total programs. induction rules as [|r rules IH]; intros seen total programs H Hp.
  { injection H as _ <-. by left. }
  apply check_actions_cons in H as (_ & _ & total1 & programs1 & H & Hpr).
  destruct (IH _ _ _ H Hp) as [Hp1|(r' & Hin & E & Hk)]; [|right; exists r'; split; [by right | done]].
  destruct Hpr as [->|(p1 & Hk & ->)]; [by left|].
  apply lookup_insert_Some in Hp1 as [[<- ->]|[_ Hp1]]; [right; exists r; split; [by left | done] | by left].
Qed.

(** An extension's step of the loop. *)
Lemma check_modules_cons m seen active routing programs modules programs' :
  check_modules seen active routing programs (m :: modules) = Ok programs' →
  module_ok m ∧ mod_ID m ∉ seen
  ∧ (mod_Enabled m = true → routing + len (mod_RoutingRules m) <= maxActiveModuleRoutingRules)
  ∧ ∃ active1 total1 programs1,
      check_actions m [] 0 programs (mod_Scripts m) = Ok (total1, programs1)
      ∧ check_modules (seen ++ [mod_ID m]) active1
          (if mod_Enabled m then routing + len (mod_RoutingRules m) else routing) programs1 modules = Ok programs'.
Proof.
  cbn [check_modules]. intros H.
  apply bind_Ok_inv in H as (? & Hid%reject_if_Ok & H). apply negb_false_iff in Hid.
  apply bind_Ok_inv in H as (? & Hs%reject_if_Ok & H). apply containsString_false in Hs.
  apply bind_Ok_inv in H as (u & Hh & H). rewrite (unit_Ok u) in Hh.
  apply bind_Ok_inv in H as (? & Hr%reject_if_Ok & H).
  apply bind_Ok_inv in H as ([total1 programs1] & Ha & H).
  apply bind_Ok_inv in H as (? & _ & H).
  apply bind_Ok_inv in H as (active1 & Hact & H).
  pose proof (check_actions_Ok _ _ _ _ _ _ _ Ha) as (Hf & Hnd & _).
  split; [|split; [done|]; split; [|by exists active1, total1, programs1]].
  - split; [done|]. split; [done|]. split; [done|]. split; [done|]. intros E. rewrite E in Hact.
    apply bind_Ok_inv in Hact as (? & Hready%reject_if_Ok & _). by apply negb_false_iff in Hready.
  - intros E. rewrite E in Hr. simpl in Hr. by apply Z.ltb_ge in Hr.
Qed.

Lemma check_modules_Ok modules seen active routing programs programs' :
  check_modules seen active routing programs modules = Ok programs' →
  Forall module_ok modules ∧ NoDup (map mod_ID modules) ∧ (∀ x, x ∈ seen → x ∉ map mod_ID modules).
Proof.
  revert seen active routing programs. induction modules as [|m modules IH]; intros seen active routing programs H.
  { split; [done|]. split; [apply NoDup_nil_2|]. intros x _ Hx. by apply elem_of_nil in Hx. }
  apply check_modules_cons in H as (Hm & Hs & _ & active1 & total1 & programs1 & _ & H).
  apply IH in H as (Hf & Hnd & Hd). split; [by constructor|]. by apply not_seen_app.
Qed.

Lemma check_modules_programs modules seen active routing programs programs' key p :
  check_modules seen active routing programs modules = Ok programs' → programs' !! key = Some p →
  programs !! key = Some p
  ∨ ∃ m r, m ∈ modules ∧ r ∈ mod_Scripts m ∧ key = (mod_ID m, sr_ID r, sr_ScriptDigest r)
           ∧ check_kind m r = Ok (Some p).
Proof.
  revert seen active routing programs. induction modules as [|m modules IH]; intros seen active routing programs H Hp.
  { injection H as <-. by left. }
  apply check_modules_cons in H as (_ & _ & _ & active1 & total1 & programs1 & Ha & H).
  destruct (IH _ _ _ _ H Hp) as [Hp1|(m' & r & Hm & Hr & E & Hk)]; [|right; exists m', r; split; [by right | done]].
  destruct (check_actions_programs _ _ _ _ _ _ _ _ _ Ha Hp1) as [?|(r & Hr & E & Hk)]; [by left|].
  right. exists m, r. split; [by left | done].
Qed.

(** ** The document as a whole *)
Lemma validate_Ok c programs :
  validate c ∅ = Ok programs →
  Forall module_ok (cfg_Modules c) ∧ NoDup (map mod_ID (cfg_Modules c)) ∧ len (cfg_Modules c) <= 64
  ∧ (∃ active, check_modules [] active 0 ∅ (cfg_Modules c) = Ok programs)
  ∧ validateExecutionOrder (cfg_Modules c) (cfg_ExecutionOrder c) = Ok tt
  ∧ cfg_Version c = configVersion ∧ len (certificateHostPatterns c) <= maxCertificateHosts.
Proof.
  unfold validate. intros H.
  apply bind_Ok_inv in H as (? & Hv%reject_if_Ok & H).
  do 6 apply bind_Ok_inv in H as (? & _ & H).
  apply bind_Ok_inv in H as (programs1 & Hm & H).
  apply bind_Ok_inv in H as (u & Ho & H). rewrite (unit_Ok u) in Ho.
  apply bind_Ok_inv in H as (? & Hc%reject_if_Ok & H). injection H as ->.
  apply bind_Ok_inv in Hm as (? & Hl%reject_if_Ok & Hm).
  pose proof (check_modules_Ok _ _ _ _ _ _ Hm) as (Hf & Hnd & _). bools.
  split; [done|]. split; [done|]. split; [lia|]. split; [by exists ∅|]. done.
Qed.

Lemma check_order_Ok ids order seen :
  check_order ids seen order = Ok tt →
  NoDup order ∧ (∀ x, x ∈ seen → x ∉ order) ∧ ∀ x, x ∈ order → x ∈ ids.
Proof.
  revert seen. induction order as [|id order IH]; intros seen H; cbn [check_order] in H.
  { split; [apply NoDup_nil_2|]. split; [intros x _ Hx; by apply elem_of_nil in Hx|].
    intros x Hx. by apply elem_of_nil in Hx. }
  apply bind_Ok_inv in H as (? & Hk%reject_if_Ok & H). apply negb_false_iff, containsString_true in Hk.
  apply bind_Ok_inv in H as (? & Hs%reject_if_Ok & H). apply containsString_false in Hs.
  apply IH in H as (Hnd & Hd & Hin). destruct (not_seen_app seen id order Hs Hnd Hd) as [? ?].
  split; [done|]. split; [done|]. intros y Hy. apply elem_of_cons in Hy as [->|Hy]; [done | by apply Hin].
Qed.

Lemma execution_order_permutation modules order :
  validateExecutionOrder modules (Some order) = Ok tt → order ≡ₚ map mod_ID modules.
Proof.
  unfold validateExecutionOrder. intros H. apply bind_Ok_inv in H as (? & Hl%reject_if_Ok & H). bools.
  apply check_order_Ok in H as (Hnd & _ & Hin). apply submseteq_length_Permutation.
  - by apply NoDup_submseteq.
  - rewrite length_map. lia.
Qed.

(** ** What a checked header and a checked action give *)
Lemma check_header_Ok m :
  check_header m = Ok tt →
  1 <= len (mod_CaptureHosts m) <= 512
  ∧ (∀ h, h ∈ mod_CaptureHosts m → validHostPattern h = true ∧ h = canonicalHost h)
  ∧ containsString [&"trust"; &"china"] (mod_CaptureDNS m) = true
  ∧ validateModuleSettings (mod_Settings m) (mod_Enabled m) = Ok tt
  ∧ validateHostMappings (mod_CaptureHosts m) (mod_HostMappings m) = Ok tt
  ∧ validateModuleNetworkPermissions m = Ok tt
  ∧ validateRoutingRules (mod_RoutingRules m) = Ok tt.
Proof.
  unfold check_header, maxModuleCaptureHosts. intros H.
  do 4 apply bind_Ok_inv in H as (? & _ & H).
  apply bind_Ok_inv in H as (? & Hn%reject_if_Ok & H).
  apply bind_Ok_inv in H as (? & Hh%reject_if_Ok & H).
  apply bind_Ok_inv in H as (? & Hd%reject_if_Ok & H).
  apply bind_Ok_inv in H as (? & _ & H).
  apply bind_Ok_inv in H as (u1 & Hs & H). apply bind_Ok_inv in H as (u2 & Hm & H).
  apply bind_Ok_inv in H as (u3 & Hp & H). rewrite (unit_Ok u1) in Hs. rewrite (unit_Ok u2) in Hm.
  rewrite (unit_Ok u3) in Hp. bools. split; [lia|]. split; [|done].
  intros h Hin. rewrite forallb_forall in Hh. apply list_elem_of_In, Hh in Hin. by bools.
Qed.

Lemma check_mapping_list_Ok hosts mappings seen :
  check_mapping_list hosts seen mappings = Ok tt →
  ∀ mp, mp ∈ mappings →
    validHostPattern (hm_Pattern mp) = true ∧ hostCoveredBy hosts (hm_Pattern mp) = true
    ∧ validHostTarget (hm_Target mp) = true.
Proof.
  revert seen. induction mappings as [|m mappings IH]; intros seen H mp Hin; [by apply elem_of_nil in Hin|].
  cbn [check_mapping_list] in H. apply bind_Ok_inv in H as (? & Hc%reject_if_Ok & H).
  apply bind_Ok_inv in H as (? & _ & H).
  apply elem_of_cons in Hin as [->|Hin]; [by bools | by eapply IH].
Qed.

Lemma check_common_hosts m r h :
  check_common m r = Ok tt → h ∈ am_Hosts (sr_Match r) →
  validHostPattern h = true ∧ hostCoveredBy (mod_CaptureHosts m) h = true.
Proof.
  unfold check_common, validateActionMatch. intros H Hin.
  apply bind_Ok_inv in H as (? & _ & H). apply bind_Ok_inv in H as (? & Hm & _).
  apply bind_Ok_inv in Hm as (? & _ & Hm). apply bind_Ok_inv in Hm as (? & Hh%reject_if_Ok & _).
  apply negb_false_iff in Hh. rewrite forallb_forall in Hh. apply list_elem_of_In, Hh in Hin. by bools.
Qed.

(** ** The certificate tool *)
Lemma certificate_modules modules seen active routing programs programs' :
  check_modules seen active routing programs modules = Ok programs' →
  check_certificate_modules seen routing modules = Ok tt.
Proof.
  revert seen active routing programs. induction modules as [|m modules IH]; intros seen active routing programs H; [done|].
  apply check_modules_cons in H as ((Hid & Hh & _) & Hs & Hr & active1 & total1 & programs1 & _ & H).
  apply IH in H. apply check_header_Ok in Hh as (Hn & Hhosts & Hdns & _ & _ & Hnet & Hrules).
  cbn [check_certificate_modules]. apply containsString_false in Hs.
  rewrite Hs, Hnet, Hrules, Hdns. cbn [reject_if negb mbind res_bind].
  destruct (mod_Enabled m); cbn [negb]; [|done].
  rewrite (proj2 (Z.ltb_ge _ _) (Hr eq_refl)), Hid. unfold maxModuleCaptureHosts.
  rewrite (proj2 (Z.eqb_neq _ 0)), (proj2 (Z.ltb_ge 512 _)) by lia. cbn [reject_if negb orb mbind res_bind].
  assert (forallb validHostPattern (mod_CaptureHosts m) = true) as ->; [|done].
  apply forallb_forall. intros h Hin. apply list_elem_of_In in Hin. by apply Hhosts.
Qed.

(** ** Compilation after validation *)
Definition empty_script_compiles : Prop := ∀ filename, is_Some (goja_Compile filename []).

(** A document as the decoder builds it: no artifacts yet, settings as raw texts. *)
Definition fresh_rule (r : ScriptRule) : Prop := sr_program r = None.
Definition fresh_module (m : Module_) : Prop :=
  Forall fresh_rule (mod_Scripts m) ∧ Forall (λ s, raw_text (set_Value s)) (mod_Settings m).

Lemma nonempty_false s : nonempty s = false ↔ s = [].
Proof. unfold nonempty. rewrite negb_false_iff, bool_decide_eq_true. done. Qed.

(** An action declares one kind: a script body excludes everything else. *)
Lemma one_kind m r :
  check_common m r = Ok tt → declarative r = true → sr_ScriptBody r = [] ∧ (nonempty (sr_JQProgram r) = true →
    sr_Reject r = false ∧ sr_Mock r = None ∧ sr_Headers r = None ∧ sr_Rewrite r = None ∧ sr_ReplaceBody r = None).
Proof.
  unfold check_common, declarative, kinds. intros H Hd.
  do 4 apply bind_Ok_inv in H as ([] & _ & H). apply bind_Ok_inv in H as ([] & Hk%reject_if_Ok & _).
  rewrite <- nonempty_false. unfold count_true in Hk.
  destruct (nonempty (sr_JQProgram r)), (sr_Reject r), (sr_Mock r), (sr_Headers r), (sr_Rewrite r), (sr_ReplaceBody r),
    (nonempty (sr_ScriptBody r)), (nonempty (sr_ScriptURL r)); done.
Qed.

Lemma check_kind_script m r p :
  check_kind m r = Ok (Some p) →
  nonempty (sr_JQProgram r) = false
  ∧ goja_Compile (firstNonEmpty [sr_ScriptURL r; &"extension:" ++ mod_ID m ++ &"/" ++ sr_ID r]) (sr_ScriptBody r) = Some p.
Proof.
  unfold check_kind. destruct (sr_Reject r); [done|]. intros H.
  do 4 apply bind_Ok_inv in H as ([] & _ & H). destruct (_ || _ || _ || _); [done|].
  destruct (nonempty (sr_JQProgram r)).
  { apply bind_Ok_inv in H as ([] & _ & H). apply bind_Ok_inv in H as ([] & _ & H). done. }
  split; [done|]. apply bind_Ok_inv in H as (program & Hs & [= <-]). unfold check_script in Hs.
  apply bind_Ok_inv in Hs as ([] & _ & Hs). apply bind_Ok_inv in Hs as ([] & _ & Hs).
  apply bind_Ok_inv in Hs as (p & Hp & Hs). apply bind_Ok_inv in Hs as ([] & _ & [= <-]).
  destruct (goja_Compile _ _); [by injection Hp as -> | done].
Qed.

Lemma check_kind_declarative m r : check_kind m r = Ok None → declarative r = true.
Proof.
  unfold check_kind, declarative. destruct (sr_Reject r); [done|]. intros H.
  do 4 apply bind_Ok_inv in H as ([] & _ & H).
  destruct (sr_Mock r), (sr_Headers r), (sr_Rewrite r), (sr_ReplaceBody r), (nonempty (sr_JQProgram r)); try done.
  cbn in H. apply bind_Ok_inv in H as (p & _ & H). done.
Qed.

Lemma check_kind_jq m r c :
  check_common m r = Ok tt → check_kind m r = Ok c → nonempty (sr_JQProgram r) = true →
  compileJQProgram (sr_JQProgram r) = Ok (sr_JQProgram r).
Proof.
  intros Hc H Hjq. destruct (one_kind m r Hc) as [_ Hone].
  { unfold declarative. rewrite Hjq. by rewrite !orb_true_r. }
  destruct (Hone Hjq) as (E1 & E2 & E3 & E4 & E5). unfold check_kind in H. rewrite E1, E2, E3, E4, E5, Hjq in H.
  cbn [MockResponse_validate HeaderEdits_validate URLRewrite_validate BodyReplace_validate is_some orb mbind res_bind] in H.
  apply bind_Ok_inv in H as ([] & _ & H). apply bind_Ok_inv in H as ([] & H & _).
  unfold compileJQProgram in *. destruct (_ <? _); [done|]. by destruct (gojq_Compile _).
Qed.

Lemma action_path_compiles m r : check_common m r = Ok tt → regexp_Compile (am_PathRegex (sr_Match r)) = true.
Proof.
  unfold check_common, validateActionMatch. intros H. apply bind_Ok_inv in H as ([] & _ & H).
  apply bind_Ok_inv in H as ([] & H & _). do 4 apply bind_Ok_inv in H as ([] & _ & H).
  apply bind_Ok_inv in H as ([] & H%reject_if_Ok & _). by apply negb_false_iff.
Qed.

Lemma action_compiles m r settings programs :
  empty_script_compiles → action_ok m r → collected m r programs → fresh_rule r →
  ∃ c, compileRule programs m settings r = Ok c ∧ compileRule ∅ m settings r = Ok c.
Proof.
  intros He (_ & Hc & kind & Hkind) Hcol Hfresh. unfold compileRule.
  rewrite (action_path_compiles m r Hc). cbn [negb reject_if mbind res_bind].
  set (name := firstNonEmpty [sr_ScriptURL r; &"extension:" ++ mod_ID m ++ &"/" ++ sr_ID r]).
  assert (∃ p, goja_Compile name (sr_ScriptBody r) = Some p) as [p Hp].
  { destruct kind as [p|]; [exists p; by apply check_kind_script in Hkind as [_ ?]|].
    apply check_kind_declarative in Hkind. destruct (one_kind m r Hc Hkind) as [-> _]. apply He. }
  assert (scriptProgram m r = Ok p) as Hs by (unfold scriptProgram; rewrite Hfresh; fold name; by rewrite Hp).
  assert (match programs !! (mod_ID m, sr_ID r, sr_ScriptDigest r) with Some p => Ok p | None => scriptProgram m r end
          = Ok (E := string) p) as ->.
  { destruct (programs !! _) as [p'|] eqn:El; [|done]. apply Hcol, check_kind_script in El as [_ El].
    fold name in El. congruence. }
  rewrite lookup_empty, Hs. cbn [mbind res_bind].
  case_bool_decide as Hjq; [by eexists|]. rewrite (check_kind_jq m r kind Hc Hkind); [by eexists|].
  unfold nonempty. by rewrite bool_decide_eq_false_2.
Qed.

Lemma rules_compile m settings programs rules :
  empty_script_compiles → Forall (action_ok m) rules → Forall (λ r, collected m r programs) rules →
  Forall fresh_rule rules →
  ∃ cs, compileRules programs m settings rules = Ok cs ∧ compileRules ∅ m settings rules = Ok cs.
Proof.
  intros He Ha Hc Hf. induction rules as [|r rules IH]; [by exists []|].
  apply Forall_cons in Ha as [Ha1 Ha], Hc as [Hc1 Hc], Hf as [Hf1 Hf].
  destruct (IH Ha Hc Hf) as (cs & E1 & E2). cbn [compileRules].
  destruct (negb (actionGateOpen r settings)); [by exists cs|].
  destruct (action_compiles m r settings programs He Ha1 Hc1 Hf1) as (c & -> & ->).
  cbn [mbind res_bind]. rewrite E1, E2. by eexists.
Qed.

Lemma module_settings_total m : module_ok m → fresh_module m → ∃ st, moduleSettingValues m = Ok st.
Proof.
  intros (_ & Hh & _) [_ Hraw]. apply check_header_Ok in Hh as (_ & _ & _ & Hs & _).
  unfold validateModuleSettings in Hs. apply bind_Ok_inv in Hs as ([] & _ & Hs).
  apply check_settings_Ok in Hs as (Hall & _ & _). apply setting_values_total. intros s Hin Hne.
  destruct (Hall s Hin) as [Hd _]. eapply (valid_value_any s false); try done.
  - by apply definition_type.
  - by eapply (proj1 (Forall_forall _ _) Hraw).
  - unfold validateSettingDefinition in Hd. apply bind_Ok_inv in Hd as ([] & _ & Hd).
    apply bind_Ok_inv in Hd as ([] & _ & Hd). destruct (Z.ltb_spec 0 (len (set_Value s))); [done|].
    destruct (set_Value s); [done | simpl in *; lia].
Qed.

Lemma modules_compile c programs order :
  empty_script_compiles → Forall module_ok (cfg_Modules c) → Forall fresh_module (cfg_Modules c) →
  (∀ m r, m ∈ cfg_Modules c → r ∈ mod_Scripts m → collected m r programs) →
  NoDup (map mod_ID (cfg_Modules c)) →
  ∃ ms, compileModules programs c order = Ok ms ∧ compileModules ∅ c order = Ok ms.
Proof.
  intros He Hok Hfresh Hcol Hnd. induction order as [|id order (ms & E1 & E2)]; [by exists []|].
  cbn [compileModules]. destruct (byID (cfg_Modules c) !! id) as [m|] eqn:Hb; [|by exists ms].
  destruct (negb (mod_Enabled m)); [by exists ms|].
  apply byID_lookup in Hb as [Hin _]; [|done].
  pose proof (proj1 (Forall_forall _ _) Hok m Hin) as Hm. pose proof (proj1 (Forall_forall _ _) Hfresh m Hin) as Hf.
  destruct (module_settings_total m Hm Hf) as [st Hst]. rewrite Hst. cbn [mbind res_bind].
  destruct (rules_compile m st programs (mod_Scripts m)) as (cs & -> & ->); [done|apply Hm| |apply Hf|].
  { apply Forall_forall. intros r Hr. by apply Hcol. }
  cbn [mbind res_bind]. rewrite E1, E2. by eexists.
Qed.

(** Distinct ids make the keys of the collected programs distinct. *)
Lemma NoDup_map_inj {A B} (f : A → B) l x y : NoDup (map f l) → x ∈ l → y ∈ l → f x = f y → x = y.
Proof.
  induction l as [|a l IH]; intros Hnd Hx Hy E; [by apply elem_of_nil in Hx|].
  simpl in Hnd. apply NoDup_cons in Hnd as [Ha Hnd].
  apply elem_of_cons in Hx as [->|Hx], Hy as [->|Hy]; [done| | |by apply IH];
    exfalso; apply Ha; [rewrite E | rewrite <- E]; by apply list_elem_of_In, in_map, list_elem_of_In.
Qed.

Lemma validate_collected c programs m r :
  validate c ∅ = Ok programs → m ∈ cfg_Modules c → r ∈ mod_Scripts m → collected m r programs.
Proof.
  intros (Hok & Hnd & _ & (active & Hch) & _)%validate_Ok Hm Hr p Hp.
  destruct (check_modules_programs _ _ _ _ _ _ _ _ Hch Hp) as [Hn|(m' & r' & Hm' & Hr' & E & Hk)].
  { by rewrite lookup_empty in Hn. }
  injection E as E1 E2 _. assert (m = m') as -> by (by eapply (NoDup_map_inj mod_ID)).
  assert (r = r') as ->; [|done].
  pose proof (proj1 (Forall_forall _ _) Hok m' Hm') as (_ & _ & _ & Hid & _). by eapply (NoDup_map_inj sr_ID).
Qed.

(** ** Decoded documents *)
Lemma compileModules_set_runtime r programs c order :
  compileModules programs (set_runtime r c) order = compileModules programs c order.
Proof.
  induction order as [|id order IH]; [done|]. cbn [compileModules]. change (cfg_Modules (set_runtime r c)) with (cfg_Modules c).
  change (module_hosts (set_runtime r c)) with (module_hosts c).
  destruct (byID (cfg_Modules c) !! id) as [m|]; [|done]. by rewrite IH.
Qed.

Lemma compile_set_runtime r programs c :
  compileScriptConfigWithPrograms (set_runtime r c) programs = compileScriptConfigWithPrograms c programs.
Proof. unfold compileScriptConfigWithPrograms. by rewrite compileModules_set_runtime. Qed.

Lemma decode_document_fresh body c : decode_document body = Ok c → cfg_runtime c = None ∧ cfg_generation c = 0.
Proof.
  unfold decode_document, unmarshalStrictRaw, dec_Config, dec_struct. intros H.
  apply bind_Ok_inv in H as (t & _ & H). destruct t as [| | | | |ms]; try done; [by injection H as <-|].
  do 11 apply bind_Ok_inv in H as (? & _ & H). by injection H as <-.
Qed.

(** Accepted by [Config.Validate]. *)
Definition accepted (c : Config) : Prop := ∃ programs, validate c ∅ = Ok programs.

(** ** Properties *)

(** C2 (safety): an accepted document keeps every extension inside its capture hosts.  Any host an
    action of an enabled extension can match, and any host one of its mappings can redirect, is a
    host the extension captures, and one the interception certificate covers. *)
Theorem accepted_reach (c : Config) (m : Module_) (pattern host : bytes) :
  accepted c → m ∈ cfg_Modules c → mod_Enabled m = true →
  (∃ r, r ∈ mod_Scripts m ∧ pattern ∈ am_Hosts (sr_Match r)) ∨ (∃ mp, mp ∈ mod_HostMappings m ∧ pattern = hm_Pattern mp) →
  matchHostPattern pattern host = true →
  matchCanonical (Some (newCompiledHostMatcher (mod_CaptureHosts m))) host = true
  ∧ existsb (λ p, matchHostPattern p host) (certificateHostPatterns c) = true.
Proof.
  intros (programs & (Hok & _)%validate_Ok) Hm Hen Hp Hh.
  pose proof (proj1 (Forall_forall _ _) Hok m Hm) as (_ & Hhead & Hact & _).
  apply check_header_Ok in Hhead as (_ & Hhosts & _ & _ & Hmap & _).
  assert (validHostPattern pattern = true ∧ hostCoveredBy (mod_CaptureHosts m) pattern = true) as [Hv Hc].
  { destruct Hp as [(r & Hr & Hin)|(mp & Hin & ->)].
    - pose proof (proj1 (Forall_forall _ _) Hact r Hr) as (_ & Hcommon & _). by eapply check_common_hosts.
    - destruct (check_mapping_list_Ok _ _ _ Hmap mp Hin) as (? & ? & _). done. }
  apply existsb_exists in Hc as (h & Hin & Hcov). apply list_elem_of_In in Hin.
  assert (matchHostPattern h host = true) as Hmatch.
  { eapply covers_contains; [done..|]. by apply validHostPattern_head. }
  split; [rewrite matchCanonical_spec|]; apply existsb_exists; exists h; (split; [apply list_elem_of_In|done]); [done|].
  destruct (Hhosts h Hin) as [Hhv Hhc]. rewrite <- (valid_canonical h Hhv Hhc). apply uniqueSorted_elem.
  apply list_elem_of_In, in_concat. exists (mod_CaptureHosts m). split; [|by apply list_elem_of_In].
  by apply in_map, list_elem_of_In, elem_of_enabled.
Qed.

(** The execution order of an accepted document is a permutation of its
    extensions: every id once, none unknown, none missing. *)
Theorem accepted_order (c : Config) :
  accepted c → ∃ order, cfg_ExecutionOrder c = Some order ∧ order ≡ₚ map mod_ID (cfg_Modules c) ∧ NoDup order.
Proof.
  intros (programs & (_ & Hnd & _ & _ & Ho & _)%validate_Ok).
  destruct (cfg_ExecutionOrder c) as [order|]; [|done]. exists order. split; [done|].
  apply execution_order_permutation in Ho. split; [done|]. by rewrite Ho.
Qed.

(** The certificate tool accepts every document the service does, when its TLS
    paths are the deployed ones: the checks of [ValidateCertificateRequest] are implied by those
    of [Validate]. *)
Theorem certificate_accepts (c : Config) :
  accepted c → ValidateDeployment c = Ok tt → ValidateCertificateRequest c = Ok tt.
Proof.
  intros (programs & (_ & _ & Hl & (active & Hm) & Ho & Hv & Hcert)%validate_Ok) Hd%reject_if_Ok.
  unfold ValidateCertificateRequest. rewrite Hv, Z.eqb_refl, Hd, Ho. cbn [reject_if negb mbind res_bind].
  rewrite (proj2 (Z.ltb_ge 64 _)) by done. cbn [reject_if mbind res_bind].
  rewrite (certificate_modules _ _ _ _ _ _ Hm). cbn [mbind res_bind].
  by rewrite (proj2 (Z.ltb_ge maxCertificateHosts _)) by done.
Qed.

(** The gate of an action of an enabled, accepted extension is always decided: the
    setting it names is declared, has a value, and the value is a boolean or one of the declared
    options, so the gate compares a text and never falls back to "open" for want of a value. *)
Theorem gate_decided (c : Config) (m : Module_) (r : ScriptRule) (gate : ActionGate) (st : gmap bytes jvalue) :
  accepted c → m ∈ cfg_Modules c → mod_Enabled m = true → r ∈ mod_Scripts m → sr_EnabledWhen r = Some gate →
  moduleSettingValues m = Ok st →
  ∃ s v, s ∈ mod_Settings m ∧ set_Key s = gate_Key gate ∧ st !! gate_Key gate = Some v ∧ settings_gate_value s v
    ∧ actionGateOpen r st = bool_decide (compatArgumentText v = gate_Equals gate).
Proof.
  intros (programs & (Hok & _)%validate_Ok) Hm Hen Hr Hg Hst.
  pose proof (proj1 (Forall_forall _ _) Hok m Hm) as (_ & Hhead & Hact & _ & Hready). specialize (Hready Hen).
  pose proof (proj1 (Forall_forall _ _) Hact r Hr) as (_ & Hcommon & _).
  apply check_header_Ok in Hhead as (_ & _ & _ & Hset & _). apply bind_Ok_inv in Hset as ([] & _ & Hset).
  apply check_settings_Ok in Hset as (_ & Hnd & _).
  unfold check_common in Hcommon. do 2 apply bind_Ok_inv in Hcommon as ([] & _ & Hcommon).
  apply bind_Ok_inv in Hcommon as ([] & Hgate & _). unfold validateActionGate in Hgate. rewrite Hg in Hgate.
  do 2 apply bind_Ok_inv in Hgate as ([] & _ & Hgate).
  destruct (List.find _ (mod_Settings m)) as [s|] eqn:Hf; [|done].
  apply find_some in Hf as [Hin Hk]. apply list_elem_of_In in Hin. apply bool_decide_eq_true in Hk.
  apply bind_Ok_inv in Hgate as ([] & Hreq%reject_if_Ok & Hgate). apply negb_false_iff in Hreq.
  unfold moduleSettingsReady in Hready. rewrite forallb_forall in Hready.
  pose proof (Hready s (proj1 (list_elem_of_In _ _) Hin)) as Hs. rewrite Hreq in Hs. cbn [andb] in Hs.
  apply negb_true_iff, negb_false_iff in Hs.
  destruct (gate_value_ready s) as (Hne & v & Hv & Hval); [|done|].
  { destruct (bool_decide (set_Type s = &"boolean")) eqn:E1; [left; by apply bool_decide_eq_true in E1|].
    destruct (bool_decide (set_Type s = &"select")) eqn:E2; [right; by apply bool_decide_eq_true in E2 | done]. }
  exists s, v. split; [done|]. split; [done|].
  assert (st !! gate_Key gate = Some v) as Hl by (rewrite <- Hk; by eapply setting_values_lookup).
  split; [done|]. split; [done|]. unfold actionGateOpen. by rewrite Hg, Hl.
Qed.

(** Validation leaves nothing for compilation to refuse.  A document as the
    decoder builds it, once accepted, compiles, and to the same snapshot whether or not the
    programs validation compiled are handed over. *)
Theorem accepted_compiles (c : Config) (programs : gmap (bytes * bytes * bytes) bytes) :
  empty_script_compiles → validate c ∅ = Ok programs → Forall fresh_module (cfg_Modules c) →
  ∃ r, compileScriptConfigWithPrograms c programs = Ok r ∧ compileScriptConfigWithPrograms c ∅ = Ok r.
Proof.
  intros He Hv Hf. pose proof (validate_Ok c programs Hv) as (Hok & Hnd & _).
  destruct (modules_compile c programs (default [] (cfg_ExecutionOrder c)) He Hok Hf) as (ms & E1 & E2); [|done|].
  { intros m r Hm Hr. by eapply validate_collected. }
  unfold compileScriptConfigWithPrograms. rewrite E1, E2. by eexists.
Qed.

(** What [decodeConfig] returns carries the snapshot of its own document: the
    document was accepted, its snapshot is the compilation of it, and no generation is assigned
    yet.  This is what the transport projection and the rule walk assume of a configuration. *)
Theorem decoded_snapshot (body : bytes) (cfg : Config) :
  @decodeConfig config_decoder body = Ok cfg →
  own_snapshot cfg ∧ accepted (set_runtime None cfg) ∧ decode_document body = Ok (set_runtime None cfg)
  ∧ is_Some (cfg_runtime cfg) ∧ cfg_generation cfg = 0.
Proof.
  intros H. cbn [decodeConfig config_decoder] in H. unfold decode_config in H.
  apply bind_Ok_inv in H as (c & Hd & H). apply bind_Ok_inv in H as (programs & Hv & H).
  apply bind_Ok_inv in H as (r & Hr & [= <-]). destruct (decode_document_fresh body c Hd) as [Hrt Hg].
  assert (set_runtime None (set_runtime (Some r) c) = c) as Ec by (destruct c; simpl in *; by subst).
  rewrite Ec. pose proof (validate_Ok c programs Hv) as (_ & Hnd & _).
  split; [|split; [by exists programs|]; split; [done|]; split; [by eexists | done]].
  cbn [own_snapshot cfg_runtime set_runtime]. split; [done|]. exists programs. by rewrite compile_set_runtime.
Qed.
End spec.

(** ** A document *)
Section example.
#[local] Instance lower_ascii : UnicodeCase := {| unicode_ToLower r := r; unicode_ToUpper r := r |}.
#[local] Instance toy_engines : Engines :=
  {| regexp_Compile _ := true; regexp_MatchString p s := bool_decide (p = s); goja_Compile _ body := Some body;
     gojq_Compile _ := true; render_value _ := [] |}.
#[local] Instance toy_parsers : TextParsers :=
  {| url_Parse _ := None; time_Parse_RFC3339 t := (len t =? 20) |}.

(** JSON text written with single quotes. *)
Definition json_text (s : string) : bytes := map (λ c, if c =? 39 then 34 else c) (lit s).

Definition document_text : bytes := json_text
"{'version':6,'execution_order':['demo.ext'],'listen':'127.0.0.1:18080',
 'username':'0123456789abcdef','password':'0123456789abcdef01234567',
 'tls_cert':'/etc/5gpn/intercept/tls/fullchain.pem','tls_key':'/etc/5gpn/intercept/tls/privkey.pem',
 'upstream_proxy':{'address':'127.0.0.1:17890','username':'0123456789abcdef','password':'0123456789abcdef01234567'},
 'mitm':{'enabled':true,'http2':true,'quic_fallback_protection':false},
 'modules':[{'id':'demo.ext','extension_version':'1','name':'Demo','enabled':true,'imported_at':'2026-01-01T00:00:00Z',
  'source':{'digest':'05b3abf2579a5eb66403cd78be557fd860633a1fe2103c7642030defe32c657f','body':'manifest'},
  'capture_hosts':['*.example.com'],'capture_dns':'trust',
  'upstream_mappings':[{'host':'api.example.com','target':'origin.example.net'}],
  'routing_rules':[{'action':'reject','domain':'ads.example.com','network':'udp'}],
  'settings':[{'key':'on','type':'boolean','required':true,'value':true}],
  'actions':[
   {'id':'run','phase':'request','match':{'hosts':['api.example.com'],'schemes':['https'],'path_regex':'^/v1'},
    'enabled_when':{'key':'on','equals':'true'},'script_digest':'19c1041342240f320fe4443a0d765a0cf391a93e514c110b5fc172cf283dcafa','script_body':'f()',
    'body_mode':'none','timeout_ms':1000,'max_body_bytes':65536},
   {'id':'block','phase':'request','match':{'hosts':['ads.example.com'],'schemes':['http','https'],'path_regex':'.'},
    'reject':true,'body_mode':'none','timeout_ms':1000,'max_body_bytes':65536}],
  'persistent_storage':false,'egress_group_required':false}]}".

Definition document : Config :=
  match decode_document document_text with Ok c => c | Err _ => zero_config end.

Definition demo_module : Module_ := default zero_module (head (cfg_Modules document)).

Definition programs_of (c : Config) : program_map := match validate c ∅ with Ok p => p | Err _ => ∅ end.
Definition decoded (body : bytes) : Config :=
  match decode_config body with Ok c => c | Err _ => zero_config end.

Lemma document_valid : is_ok (validate document ∅) = true.
Proof. vm_compute. reflexivity. Qed.

Lemma document_programs : validate document ∅ = Ok (programs_of document).
Proof.
  unfold programs_of. pose proof document_valid as H. destruct (validate document ∅); [done|]. discriminate H.
Qed.

Lemma document_accepted : accepted document.
Proof. exists (programs_of document). apply document_programs. Qed.

Lemma demo_module_in : demo_module ∈ cfg_Modules document.
Proof. left. Qed.


Definition demo_rule : ScriptRule := default zero_rule (head (mod_Scripts demo_module)).

Lemma accepted_reach_witness :
  matchCanonical (Some (newCompiledHostMatcher (mod_CaptureHosts demo_module))) &"api.example.com" = true
  ∧ existsb (λ p, matchHostPattern p &"api.example.com") (certificateHostPatterns document) = true.
Proof.
  apply (accepted_reach document demo_module (&"api.example.com") (&"api.example.com"));
    [apply document_accepted | apply demo_module_in | vm_compute; reflexivity | | vm_compute; reflexivity].
  right. exists (mkHostMapping (&"api.example.com") (&"origin.example.net")).
  split; [apply list_elem_of_lookup_2 with 0%nat; vm_compute; reflexivity | reflexivity].
Defined.

Lemma accepted_order_witness :
  ∃ order, cfg_ExecutionOrder document = Some order ∧ order ≡ₚ map mod_ID (cfg_Modules document) ∧ NoDup order.
Proof. apply (accepted_order document), document_accepted. Defined.

Lemma certificate_accepts_witness : ValidateCertificateRequest document = Ok tt.
Proof. apply (certificate_accepts document); [apply document_accepted | vm_compute; reflexivity]. Defined.

Definition demo_settings : gmap bytes jvalue := {[ &"on" := JBool true ]}.

Lemma gate_decided_witness : actionGateOpen demo_rule demo_settings = true.
Proof.
  destruct (gate_decided document demo_module demo_rule (mkActionGate (&"on") (&"true")) demo_settings)
    as (s & v & _ & _ & Hv & _ & E);
    [apply document_accepted | apply demo_module_in | vm_compute; reflexivity
    | apply list_elem_of_lookup_2 with 0%nat; vm_compute; reflexivity | vm_compute; reflexivity
    | vm_compute; reflexivity |].
  assert (v = JBool true) as -> by (vm_compute in Hv; congruence). exact E.
Defined.

Lemma accepted_compiles_witness :
  ∃ r, compileScriptConfigWithPrograms document (programs_of document) = Ok r
       ∧ compileScriptConfigWithPrograms document ∅ = Ok r.
Proof.
  apply (accepted_compiles document (programs_of document)).
  - intros filename. by eexists.
  - apply document_programs.
  - assert (cfg_Modules document = [demo_module]) as -> by (vm_compute; reflexivity).
    constructor; [|constructor]. split.
    + assert (forallb (λ r, negb (is_some (sr_program r))) (mod_Scripts demo_module) = true) as Hf
        by (vm_compute; reflexivity).
      apply Forall_forall. intros r Hr. rewrite forallb_forall in Hf. apply list_elem_of_In, Hf in Hr.
      unfold fresh_rule. by destruct (sr_program r).
    + assert (map set_Value (mod_Settings demo_module) = [&"true"]) as E by (vm_compute; reflexivity).
      destruct (mod_Settings demo_module) as [|s0 [|]]; try discriminate E. injection E as E.
      constructor; [|constructor]. rewrite E. right. split; [vm_compute; reflexivity | by eexists].
Defined.

Lemma decoded_ok : decode_config document_text = Ok (decoded document_text).
Proof.
  unfold decoded. assert (is_ok (decode_config document_text) = true) as H by (vm_compute; reflexivity).
  destruct (decode_config document_text); [done|]. discriminate H.
Qed.

Lemma decoded_snapshot_witness :
  own_snapshot (decoded document_text) ∧ cfg_generation (decoded document_text) = 0.
Proof.
  destruct (decoded_snapshot document_text (decoded document_text)) as (H & _ & _ & _ & Hg).
  - apply decoded_ok.
  - split; [exact H | exact Hg].
Defined.

End example.

(** ** The check for repeated keys *)
Section long_s.
Context {U : UnicodeCase}.

Definition repeated_key : bytes := json_text "{'version':6,'version':7}".

(** The second key is written with U+017F, the long s. *)
Definition escaped_key : bytes :=
  json_text "{'version':6,'ver" ++ [197; 191] ++ json_text "ion':7}".

Lemma long_s_lower :
  unicode_ToLower 0x17F = 0x17F → ToLower (&"ver" ++ [197; 191] ++ &"ion") = &"ver" ++ [197; 191] ++ &"ion".
Proof.
  intros Hl. unfold ToLower. change (is_ascii (&"ver" ++ [197; 191] ++ &"ion")) with false. cbv iota.
  change (runes (&"ver" ++ [197; 191] ++ &"ion")) with [118; 101; 114; 0x17F; 105; 111; 110].
  cbn [map]. change (0x17F <? RuneSelf) with false. cbv iota. rewrite Hl. reflexivity.
Qed.

(** The check for repeated keys compares lowered keys, the decoder compares keys up to
    case folding.  The long s folds to [s] and is its own lower case, so a document can name a
    field twice: the check passes it and the later value wins. *)
Theorem duplicate_key_escapes :
  unicode_ToLower 0x17F = 0x17F →
  decode_document repeated_key = Err "duplicate JSON key"%string
  ∧ ∃ c, decode_document escaped_key = Ok c ∧ cfg_Version c = 7.
Proof.
  intros Hl. split; [reflexivity|].
  assert (json_Parse escaped_key
          = Some (TObj [(&"version", &"6", TNum &"6"); (&"ver" ++ [197; 191] ++ &"ion", &"7", TNum &"7")])) as E
    by (vm_compute; reflexivity).
  unfold decode_document, unmarshalStrictRaw, strict_tree. rewrite E.
  cbn [scanJSONValue map fst duplicate_key existsb forallb snd]. rewrite (long_s_lower Hl).
  eexists. split; [vm_compute; reflexivity | reflexivity].
Qed.
End long_s.

Lemma duplicate_key_escapes_witness :
  @decode_document lower_ascii repeated_key = Err "duplicate JSON key"%string.
Proof. apply (@duplicate_key_escapes lower_ascii). reflexivity. Defined.
