(* ===== verification/Socks.v ===== *)
(** * [socks.go]: the SOCKS5 handshakes, addresses and UDP datagrams

    A connection is the bytes the peer will send and the messages written so
    far; a write may fail.  Slices that the code reuses are their length and
    capacity, which is what the reuse depends on. *)
From S2P Require Import Prelude GoStrings GoBinary GoNet ConfigTypes HostPatterns TransportProjection.

Definition socksVersion : Z := 5.
Definition socksAuthUserPass : Z := 2.
Definition socksNoAcceptable : Z := 0xff.
Definition socksCommandConnect : Z := 1.
Definition socksCommandUDP : Z := 3.
Definition socksAddressIPv4 : Z := 1.
Definition socksAddressDomain : Z := 3.
Definition socksAddressIPv6 : Z := 4.
Definition maxSOCKSUDPEnvelopeBytes : Z := 3 + 1 + 1 + 255 + 2.
Definition maxSOCKSUDPDatagramBytes : Z := 65507.

Record conn := mkConn {
  c_in : bytes;
  c_out : list bytes;
  (** Writes that still succeed. *)
  c_writes : nat;
}.

Inductive serr :=
| ErrEOF
| ErrWrite
| ErrSOCKS (message : string).

(** [io.ReadFull] of [n] bytes. *)
Definition ReadFull (n : nat) : action conn serr bytes :=
  λ c, if (length (c_in c) <? n)%nat then (Err ErrEOF, mkConn [] (c_out c) (c_writes c))
       else (Ok (take n (c_in c)), mkConn (drop n (c_in c)) (c_out c) (c_writes c)).

Definition Write (msg : bytes) : action conn serr unit :=
  λ c, match c_writes c with
       | O => (Err ErrWrite, c)
       | S k => (Ok tt, mkConn (c_in c) (c_out c ++ [msg]) k)
       end.

Definition refuse {A} (message : string) : action conn serr A := fail (ErrSOCKS message).

(** ** Addresses *)
Definition mayBeIPAddress (host : bytes) : bool :=
  if bool_decide (host = []) then false
  else ContainsByte host #":" || forallb (λ c, (c =? #".") || is_digit c) host.

(** [parsed.Unmap()]: an IPv4-mapped address is IPv4. *)
Definition Unmap (a : ip_addr) : ip_addr :=
  match a with
  | IPv4 b => IPv4 b
  | IPv6 b zone => if HasPrefix b v4_in_v6 then IPv4 (drop 12 b) else IPv6 b zone
  end.

Definition parsed_ip (host : bytes) : option ip_addr :=
  if mayBeIPAddress host then
    match ParseAddr host with
    | Some (IPv4 b) => Some (IPv4 b)
    | Some (IPv6 b zone) => if bool_decide (zone = []) then Some (Unmap (IPv6 b zone)) else None
    | None => None
    end
  else None.

Definition appendSOCKSAddress (out : bytes) (target : socksTarget) : res serr bytes :=
  if (t_Port target <? 0) || (65535 <? t_Port target) then Err (ErrSOCKS "SOCKS target port is out of range")
  else
    address ← match parsed_ip (t_Host target) with
              | Some (IPv4 b) => Ok (socksAddressIPv4 :: b)
              | Some (IPv6 b _) => Ok (socksAddressIPv6 :: b)
              | None =>
                  let host := t_Host target in
                  if bool_decide (host = []) || (255 <? len host)
                  then Err (ErrSOCKS "SOCKS target domain length is invalid")
                  else if ContainsByte host #":" then Err (ErrSOCKS "SOCKS target domain contains a colon")
                  else Ok (socksAddressDomain :: u8 (len host) :: host)
              end;
    Ok (out ++ address ++ PutUint16 (t_Port target)).

Definition encodeSOCKSAddress (target : socksTarget) : res serr bytes := appendSOCKSAddress [] target.

Definition readSOCKSAddress : action conn serr socksTarget :=
  atyp ← ReadFull 1;
  host ← (if byte_at atyp 0 =? socksAddressIPv4 then value ← ReadFull 4; mret (IP_String value)
          else if byte_at atyp 0 =? socksAddressIPv6 then value ← ReadFull 16; mret (IP_String value)
          else if byte_at atyp 0 =? socksAddressDomain then
            length_ ← ReadFull 1;
            if byte_at length_ 0 =? 0 then refuse "empty SOCKS domain"
            else ReadFull (Z.to_nat (byte_at length_ 0))
          else refuse "unsupported SOCKS address type");
  port ← ReadFull 2;
  mret (mkTarget host (Uint16 port)).

(** ** The server side *)
Definition authenticateSOCKSServer (username password : bytes) : action conn serr unit :=
  header ← ReadFull 2;
  if negb (byte_at header 0 =? socksVersion) || (byte_at header 1 =? 0) then refuse "invalid SOCKS greeting"
  else
    methods ← ReadFull (Z.to_nat (byte_at header 1));
    if negb (existsb (λ m, m =? socksAuthUserPass) methods) then
      _ ← attempt (Write [socksVersion; socksNoAcceptable]);
      refuse "SOCKS client did not offer username/password authentication"
    else
      _ ← Write [socksVersion; socksAuthUserPass];
      authHeader ← ReadFull 2;
      if negb (byte_at authHeader 0 =? 1) || (byte_at authHeader 1 =? 0)
      then refuse "invalid SOCKS authentication header"
      else
        user ← ReadFull (Z.to_nat (byte_at authHeader 1));
        passwordLength ← ReadFull 1;
        if byte_at passwordLength 0 =? 0 then refuse "empty SOCKS password"
        else
          pass ← ReadFull (Z.to_nat (byte_at passwordLength 0));
          let status := if bool_decide (user = username) && bool_decide (pass = password) then 0 else 1 in
          _ ← Write [1; status];
          if negb (status =? 0) then refuse "invalid SOCKS credentials" else mret tt.

Definition readSOCKSRequest (username password : bytes) : action conn serr (Z * socksTarget) :=
  _ ← authenticateSOCKSServer username password;
  header ← ReadFull 3;
  if negb (byte_at header 0 =? socksVersion) || negb (byte_at header 2 =? 0)
  then refuse "invalid SOCKS request header"
  else target ← readSOCKSAddress; mret (byte_at header 1, target).

(** [address]: the text of the local address, when there is one. *)
Definition writeSOCKSReply (status : Z) (address : option bytes) : action conn serr unit :=
  target ← match address with
           | None => mret (mkTarget (&"0.0.0.0") 0)
           | Some text =>
               match SplitHostPort text with
               | None => refuse "split host port"
               | Some (host, portText) =>
                   match Atoi portText with
                   | None => refuse "port"
                   | Some port => mret (mkTarget host port)
                   end
               end
           end;
  payload ← lift_res (encodeSOCKSAddress target);
  Write ([socksVersion; status; 0] ++ payload).

(** ** The client side *)
Definition authenticateSOCKSClient (username password : bytes) : action conn serr unit :=
  if bool_decide (username = []) || (255 <? len username) || bool_decide (password = []) || (255 <? len password)
  then refuse "SOCKS credentials have invalid length"
  else
    _ ← Write [socksVersion; 1; socksAuthUserPass];
    response ← ReadFull 2;
    if negb (bool_decide (response = [socksVersion; socksAuthUserPass]))
    then refuse "upstream SOCKS proxy rejected username/password authentication"
    else
      _ ← Write ([1; u8 (len username)] ++ username ++ [u8 (len password)] ++ password);
      response ← ReadFull 2;
      if negb (byte_at response 0 =? 1) || negb (byte_at response 1 =? 0)
      then refuse "upstream SOCKS authentication failed" else mret tt.

Definition readSOCKSClientReply : action conn serr socksTarget :=
  header ← ReadFull 3;
  if negb (byte_at header 0 =? socksVersion) || negb (byte_at header 2 =? 0)
  then refuse "invalid upstream SOCKS reply"
  else
    address ← readSOCKSAddress;
    if negb (byte_at header 1 =? 0) then refuse "upstream SOCKS request failed" else mret address.

(** The handshake of [dialSOCKS5TCP] on a connection to the proxy. *)
Definition dialSOCKS5TCP (proxy : ProxyConfig) (target : socksTarget) : action conn serr unit :=
  _ ← authenticateSOCKSClient (px_Username proxy) (px_Password proxy);
  address ← lift_res (encodeSOCKSAddress target);
  _ ← Write ([socksVersion; socksCommandConnect; 0] ++ address);
  _ ← readSOCKSClientReply;
  mret tt.

(** [lookup] is the resolver, for a relay named by a domain. *)
Definition resolveSOCKSRelay (lookup : bytes → option (list bytes)) (proxyAddress : bytes) (relay : socksTarget) :
    res serr (bytes * Z) :=
  host ← match ParseIP (t_Host relay) with
         | Some ip => if IsUnspecified ip then
                        match SplitHostPort proxyAddress with
                        | Some (proxyHost, _) => Ok proxyHost
                        | None => Err (ErrSOCKS "split proxy address")
                        end
                      else Ok (t_Host relay)
         | None => Ok (t_Host relay)
         end;
  ip ← match ParseIP host with
       | Some ip => Ok ip
       | None => match lookup host with
                 | None => Err (ErrSOCKS "lookup")
                 | Some [] => Err (ErrSOCKS "upstream SOCKS UDP relay has no IPv4 address")
                 | Some (ip :: _) => Ok ip
                 end
       end;
  match To4 ip with
  | None => Err (ErrSOCKS "upstream SOCKS UDP relay is not IPv4")
  | Some four => Ok (four, t_Port relay)
  end.

(** The handshake of [dialSOCKS5UDP] on the control connection: where the relay is. *)
Definition dialSOCKS5UDP (lookup : bytes → option (list bytes)) (proxy : ProxyConfig) : action conn serr (bytes * Z) :=
  _ ← authenticateSOCKSClient (px_Username proxy) (px_Password proxy);
  let request := match encodeSOCKSAddress (mkTarget (&"0.0.0.0") 0) with Ok b => b | Err _ => [] end in
  _ ← Write ([socksVersion; socksCommandUDP; 0] ++ request);
  relay ← readSOCKSClientReply;
  lift_res (resolveSOCKSRelay lookup (px_Address proxy) relay).

(** ** UDP datagrams *)

(** A byte slice that is reused: its length and its capacity. *)
Record buffer := mkBuffer { b_len : Z; b_cap : Z }.

Definition resizeSOCKSUDPBuffer (storage : buffer) (required : Z) : buffer :=
  let required := if maxSOCKSUDPDatagramBytes <? required then maxSOCKSUDPDatagramBytes else required in
  let required := if required <? 0 then 0 else required in
  if b_cap storage <? required then
    let capacity := b_cap storage * 2 in
    let capacity := if capacity <? required then required else capacity in
    let capacity := if maxSOCKSUDPDatagramBytes <? capacity then maxSOCKSUDPDatagramBytes else capacity in
    mkBuffer required capacity
  else mkBuffer required (b_cap storage).

Definition resizeSOCKSUDPReadBuffer (storage : buffer) (payloadBytes : Z) : buffer :=
  resizeSOCKSUDPBuffer storage
    (if payloadBytes <=? maxSOCKSUDPDatagramBytes - maxSOCKSUDPEnvelopeBytes - 1
     then payloadBytes + maxSOCKSUDPEnvelopeBytes + 1 else maxSOCKSUDPDatagramBytes).

(** The storage the code appends into, and the packet. *)
Definition encodeSOCKSUDPDatagramInto (storage : buffer) (target : socksTarget) (payload : bytes) :
    buffer * res serr bytes :=
  let required := if len payload <=? maxSOCKSUDPDatagramBytes - maxSOCKSUDPEnvelopeBytes
                  then len payload + maxSOCKSUDPEnvelopeBytes else maxSOCKSUDPDatagramBytes in
  let storage := resizeSOCKSUDPBuffer storage required in
  (storage,
   packet ← appendSOCKSAddress [0; 0; 0] target;
   if maxSOCKSUDPDatagramBytes - len packet <? len payload then Err (ErrSOCKS "SOCKS UDP packet exceeds the limit")
   else Ok (packet ++ payload)).

Definition encodeSOCKSUDPDatagram (target : socksTarget) (payload : bytes) : res serr bytes :=
  (encodeSOCKSUDPDatagramInto (mkBuffer 0 0) target payload).2.

Definition parseSOCKSUDPDatagram (packet : bytes) : res serr (bytes * socksTarget) :=
  if (len packet <? 4) || negb (byte_at packet 0 =? 0) || negb (byte_at packet 1 =? 0) || negb (byte_at packet 2 =? 0)
  then Err (ErrSOCKS "invalid or fragmented SOCKS UDP packet")
  else
    match readSOCKSAddress (mkConn (drop 3 packet) [] 0) with
    | (Err e, _) => Err e
    | (Ok target, c) =>
        let count := (length (drop 3 packet) - length (c_in c))%nat in
        Ok (drop (3 + count) packet, target)
    end.

(** A datagram as the socket delivers it: the sender and the bytes; what does
    not fit the buffer is cut off. *)
Record datagram := mkDatagram { dg_ip : bytes; dg_port : Z; dg_data : bytes }.

(** [net.IP.Equal]. *)
Definition IP_Equal (a b : bytes) : bool :=
  match To4 a, To4 b with
  | Some x, Some y => bool_decide (x = y)
  | None, None => bool_decide (a = b)
  | _, _ => false
  end.

Section hosts.
Context {U : UnicodeCase}.

Definition sameSOCKSTarget (left right : socksTarget) : bool :=
  if negb (t_Port left =? t_Port right) then false
  else
    let leftHost := TrimSuffix (ToLower (TrimSpace (t_Host left))) (&".") in
    let rightHost := TrimSuffix (ToLower (TrimSpace (t_Host right))) (&".") in
    let names := if ContainsByte leftHost #":" || ContainsByte rightHost #":" then false
                 else bool_decide (leftHost = rightHost) in
    match parsed_ip leftHost, parsed_ip rightHost with
    | Some (IPv4 a), Some (IPv4 b) => bool_decide (a = b)
    | Some (IPv6 a _), Some (IPv6 b _) => bool_decide (a = b)
    | Some _, Some _ => false
    | _, _ => names
    end.

(** [fixedSOCKSPacketConn.ReadFrom]: the payload and the datagrams left; [None]
    when the socket fails first. *)
Fixpoint fixed_ReadFrom (relay : bytes * Z) (target : socksTarget) (limit : nat) (storage : buffer)
    (incoming : list datagram) : option (bytes * list datagram) :=
  match incoming with
  | [] => None
  | d :: rest =>
      let packet := take (Z.to_nat (b_len (resizeSOCKSUDPReadBuffer storage (Z.of_nat limit)))) (dg_data d) in
      if negb (IP_Equal (dg_ip d) relay.1) || negb (dg_port d =? relay.2)
      then fixed_ReadFrom relay target limit storage rest
      else match parseSOCKSUDPDatagram packet with
           | Err _ => fixed_ReadFrom relay target limit storage rest
           | Ok (payload, sourceTarget) =>
               if negb (t_Port sourceTarget =? t_Port target) || (limit <? length payload)%nat
               then fixed_ReadFrom relay target limit storage rest
               else Some (payload, rest)
           end
  end.

(** [socksServerPacketConn.ReadFrom]: the first sender from the allowed address
    becomes the relay. *)
Fixpoint server_ReadFrom (allowedIP : bytes) (authorization : inboundUDPAuthorization) (limit : nat)
    (storage : buffer) (relay : option (bytes * Z)) (incoming : list datagram) :
    option (bytes * socksTarget) * option (bytes * Z) * list datagram :=
  match incoming with
  | [] => (None, relay, [])
  | d :: rest =>
      if negb (IP_Equal (dg_ip d) allowedIP)
      then server_ReadFrom allowedIP authorization limit storage relay rest
      else
        let pinned := default (dg_ip d, dg_port d) relay in
        let again := server_ReadFrom allowedIP authorization limit storage (Some pinned) rest in
        if negb (IP_Equal (dg_ip d) pinned.1 && (dg_port d =? pinned.2)) then again
        else
          let packet := take (Z.to_nat (b_len (resizeSOCKSUDPReadBuffer storage (Z.of_nat limit)))) (dg_data d) in
          match parseSOCKSUDPDatagram packet with
          | Err _ => again
          | Ok (payload, target) =>
              if negb (allows authorization target) || (limit <? length payload)%nat then again
              else (Some (payload, target), Some pinned, rest)
          end
  end.

(** A [net.Addr]: a target, a pointer to one, or another address by its text. *)
Inductive net_addr :=
| AddrTarget (t : socksTarget)
| AddrPointer (t : option socksTarget)
| AddrOther (text : option bytes).

Definition target_String (t : socksTarget) : bytes := JoinHostPort (t_Host t) (Itoa (t_Port t)).

Definition matchesSOCKSTarget (address : net_addr) (target : socksTarget) : bool :=
  match address with
  | AddrTarget value => sameSOCKSTarget value target
  | AddrPointer (Some value) => sameSOCKSTarget value target
  | AddrPointer None => false
  | AddrOther (Some text) => bool_decide (text = target_String target)
  | AddrOther None => false
  end.

(** The packet handed to the socket; the storage is replaced only by a framed packet. *)
Definition write_packet (storage : buffer) (target : socksTarget) (payload : bytes) : res serr bytes * buffer :=
  match encodeSOCKSUDPDatagramInto storage target payload with
  | (grown, Ok packet) => (Ok packet, mkBuffer (len packet) (b_cap grown))
  | (_, Err e) => (Err e, storage)
  end.

(** [fixedSOCKSPacketConn.WriteTo]. *)
Definition fixed_WriteTo (target : socksTarget) (storage : buffer) (payload : bytes) (address : net_addr) :
    res serr bytes * buffer :=
  if negb (matchesSOCKSTarget address target) then (Err (ErrSOCKS "unexpected QUIC upstream address"), storage)
  else write_packet storage target payload.

(** [socksServerPacketConn.WriteTo], to a peer: its relay and its target. *)
Definition server_WriteTo (storage : buffer) (payload : bytes) (peer : option ((bytes * Z) * socksTarget)) :
    res serr ((bytes * Z) * bytes) * buffer :=
  match peer with
  | None => (Err (ErrSOCKS "unexpected SOCKS UDP peer address"), storage)
  | Some (relay, target) =>
      match write_packet storage target payload with
      | (Ok packet, grown) => (Ok (relay, packet), grown)
      | (Err e, grown) => (Err e, grown)
      end
  end.
End hosts.

(** ** Reading what was written *)
Lemma ReadFull_app a rest out k :
  ReadFull (length a) (mkConn (a ++ rest) out k) = (Ok a, mkConn rest out k).
Proof.
  unfold ReadFull. simpl. rewrite length_app, (proj2 (Nat.ltb_ge _ _)) by lia.
  by rewrite take_app_length, drop_app_length.
Qed.

Lemma ReadFull_app_n n a rest out k :
  length a = n → ReadFull n (mkConn (a ++ rest) out k) = (Ok a, mkConn rest out k).
Proof. intros <-. apply ReadFull_app. Qed.

Lemma ReadFull_Ok n c a c' :
  ReadFull n c = (Ok a, c') →
  c_in c = a ++ c_in c' ∧ length a = n ∧ c_out c' = c_out c ∧ c_writes c' = c_writes c.
Proof.
  unfold ReadFull. destruct (length (c_in c) <? n)%nat eqn:E; [done|]. apply Nat.ltb_ge in E.
  intros [= <- <-]. simpl. rewrite take_drop, length_take. split; [done|]. split; [lia | done].
Qed.

(** Steps through an action whose reads are known to succeed. *)
Lemma bind_run {S E A B} (m : action S E A) (f : A → action S E B) s a s' :
  m s = (Ok a, s') → (m ≫= f) s = f a s'.
Proof. unfold mbind, action_bind. by intros ->. Qed.

Lemma bind_Ok {S E A B} (m : action S E A) (f : A → action S E B) s b s2 :
  (m ≫= f) s = (Ok b, s2) → ∃ a s1, m s = (Ok a, s1) ∧ f a s1 = (Ok b, s2).
Proof. unfold mbind, action_bind. destruct (m s) as [[a|e] s1]; [by eauto | done]. Qed.

Ltac read_next :=
  erewrite bind_run by (first [ apply ReadFull_app_n; reflexivity | apply ReadFull_app ]).

(** The host a peer reads: an address in its canonical text, a name as it is. *)
Definition wire_host (host : bytes) : bytes :=
  match parsed_ip host with
  | Some (IPv4 b) => IP_String b
  | Some (IPv6 b _) => IP_String b
  | None => host
  end.

Lemma parsed_ip_v4_length host b : parsed_ip host = Some (IPv4 b) → length b = 4%nat.
Proof.
  unfold parsed_ip. destruct (mayBeIPAddress host); [|done].
  destruct (ParseAddr host) as [[b'|b' zone]|] eqn:E; [|case_bool_decide; [|done]|done].
  - intros [= ->]. by eapply ParseAddr_v4_length.
  - apply ParseAddr_v6_length in E. unfold Unmap. destruct (HasPrefix b' v4_in_v6); [|done].
    intros [= <-]. rewrite length_drop. lia.
Qed.

Lemma parsed_ip_v6_length host b zone : parsed_ip host = Some (IPv6 b zone) → length b = 16%nat.
Proof.
  unfold parsed_ip. destruct (mayBeIPAddress host); [|done].
  destruct (ParseAddr host) as [[b'|b' zone']|] eqn:E; [done|case_bool_decide; [|done]|done].
  apply ParseAddr_v6_length in E. unfold Unmap. destruct (HasPrefix b' v4_in_v6); [done|]. by intros [= -> _].
Qed.

Lemma address_shape target enc :
  encodeSOCKSAddress target = Ok enc →
  0 <= t_Port target <= 65535 ∧
  ∃ address, enc = address ++ PutUint16 (t_Port target) ∧
    match parsed_ip (t_Host target) with
    | Some (IPv4 b) => address = socksAddressIPv4 :: b ∧ length b = 4%nat
    | Some (IPv6 b _) => address = socksAddressIPv6 :: b ∧ length b = 16%nat
    | None => address = socksAddressDomain :: len (t_Host target) :: t_Host target
              ∧ 1 <= len (t_Host target) <= 255
    end.
Proof.
  unfold encodeSOCKSAddress, appendSOCKSAddress.
  destruct ((t_Port target <? 0) || (65535 <? t_Port target)) eqn:Hp; [done|]. bools. intros E. inv_res.
  split; [lia|]. destruct (parsed_ip (t_Host target)) as [[b|b zone]|] eqn:Hip.
  - inv_res. eexists. split; [done|]. split; [done|]. by eapply parsed_ip_v4_length.
  - inv_res. eexists. split; [done|]. split; [done|]. by eapply parsed_ip_v6_length.
  - destruct (bool_decide (t_Host target = []) || (255 <? len (t_Host target))) eqn:Hl; [done|].
    destruct (ContainsByte (t_Host target) _); [done|]. bools. inv_res. eexists. split; [done|].
    rewrite wrap_id by (change (2 ^ 8) with 256; lia). split; [done|].
    destruct (t_Host target); [done|]. simpl in *. lia.
Qed.

Lemma readSOCKSAddress_encoded target enc rest out k :
  encodeSOCKSAddress target = Ok enc →
  readSOCKSAddress (mkConn (enc ++ rest) out k)
  = (Ok (mkTarget (wire_host (t_Host target)) (t_Port target)), mkConn rest out k).
Proof.
  intros (Hp & address & -> & Ha)%address_shape. unfold readSOCKSAddress, wire_host.
  assert (Uint16 (PutUint16 (t_Port target)) = t_Port target) as Hport by (apply Uint16_PutUint16; lia).
  assert (length (PutUint16 (t_Port target)) = 2%nat) as Hp2 by apply length_be_split.
  generalize dependent (PutUint16 (t_Port target)). intros port Hport Hp2.
  rewrite <- app_assoc. destruct (parsed_ip (t_Host target)) as [[b|b zone]|]; destruct Ha as [-> Hl].
  - erewrite bind_run; [|apply (ReadFull_app_n 1 [socksAddressIPv4]); done]. simpl.
    erewrite bind_run; [|erewrite bind_run; [|by apply ReadFull_app_n]; reflexivity].
    erewrite bind_run; [|by apply ReadFull_app_n]. by rewrite Hport.
  - erewrite bind_run; [|apply (ReadFull_app_n 1 [socksAddressIPv6]); done]. simpl.
    erewrite bind_run; [|erewrite bind_run; [|by apply ReadFull_app_n]; reflexivity].
    erewrite bind_run; [|by apply ReadFull_app_n]. by rewrite Hport.
  - erewrite bind_run; [|apply (ReadFull_app_n 1 [socksAddressDomain]); done]. simpl.
    erewrite bind_run; [|erewrite bind_run; [|apply (ReadFull_app_n 1 [len (t_Host target)]); done]].
    2: { unfold byte_at. cbn [nth]. rewrite (proj2 (Z.eqb_neq _ 0)) by lia. rewrite Nat2Z.id. apply ReadFull_app. }
    erewrite bind_run; [|by apply ReadFull_app_n]. by rewrite Hport.
Qed.

Lemma address_length target enc : encodeSOCKSAddress target = Ok enc → 4 <= len enc <= 259.
Proof.
  intros (_ & address & -> & Ha)%address_shape. rewrite length_app. unfold PutUint16. rewrite length_be_split.
  destruct (parsed_ip _) as [[b|b zone]|]; destruct Ha as [-> Hl]; simpl length; lia.
Qed.

Lemma appendSOCKSAddress_eq out target :
  appendSOCKSAddress out target = (enc ← encodeSOCKSAddress target; Ok (out ++ enc)).
Proof.
  unfold encodeSOCKSAddress, appendSOCKSAddress. destruct (_ || _); [done|].
  destruct (match parsed_ip _ with Some _ => _ | None => _ end); done.
Qed.

(** An address never takes more than 259 bytes of what is read. *)
Lemma readSOCKSAddress_bound input out k target c :
  is_bytes input → readSOCKSAddress (mkConn input out k) = (Ok target, c) →
  ∃ used, input = used ++ c_in c ∧ (1 <= length used <= 259)%nat.
Proof.
  unfold readSOCKSAddress. intros Hb E.
  apply bind_Ok in E as (atyp & c1 & R1 & E). apply bind_Ok in E as (host & c2 & R2 & E).
  apply bind_Ok in E as (port & c3 & R3 & E). injection E as _ <-.
  apply ReadFull_Ok in R1 as (E1 & L1 & _), R3 as (E3 & L3 & _). simpl in E1.
  assert (∃ used, c_in c1 = used ++ c_in c2 ∧ (length used <= 256)%nat) as (u & Eu & Lu).
  { destruct (_ =? socksAddressIPv4); [|destruct (_ =? socksAddressIPv6); [|destruct (_ =? socksAddressDomain)]].
    - apply bind_Ok in R2 as (v & c4 & R & Em). injection Em as _ <-. apply ReadFull_Ok in R as (? & ? & _).
      exists v. split; [done | lia].
    - apply bind_Ok in R2 as (v & c4 & R & Em). injection Em as _ <-. apply ReadFull_Ok in R as (? & ? & _).
      exists v. split; [done | lia].
    - apply bind_Ok in R2 as (l & c4 & R & Em). apply ReadFull_Ok in R as (El & Ll & _).
      destruct (byte_at l 0 =? 0); [done|]. apply ReadFull_Ok in Em as (Eh & Lh & _).
      exists (l ++ host). rewrite El, Eh, app_assoc. split; [done|]. rewrite length_app.
      destruct l as [|x [|]]; try discriminate Ll. unfold byte_at in Lh. simpl in *.
      rewrite E1, El in Hb. apply Forall_app in Hb as [_ Hb]. apply Forall_cons in Hb as [Hx _].
      unfold is_byte in Hx. lia.
    - done. }
  exists (atyp ++ u ++ port). rewrite E1, Eu, E3, <- !app_assoc. split; [done|].
  rewrite !length_app. lia.
Qed.

Lemma parse_bound packet payload target :
  is_bytes packet → parseSOCKSUDPDatagram packet = Ok (payload, target) →
  ∃ envelope, packet = envelope ++ payload ∧ len envelope <= maxSOCKSUDPEnvelopeBytes.
Proof.
  unfold parseSOCKSUDPDatagram. intros Hb. destruct (_ || _) eqn:Hh; [done|]. bools.
  destruct (readSOCKSAddress _) as [[t|e] c] eqn:Er; [|done]. intros [= <- <-].
  apply readSOCKSAddress_bound in Er as (used & Eu & Lu).
  2: { unfold is_bytes. by apply Forall_drop. }
  assert (length (drop 3 packet) - length (c_in c) = length used)%nat as Ec.
  { rewrite Eu, length_app. lia. }
  rewrite Ec. exists (take (3 + length used) packet). rewrite take_drop. split; [done|].
  rewrite length_take. unfold maxSOCKSUDPEnvelopeBytes. lia.
Qed.

(** What the proxy frames as a SOCKS datagram parses back to the same payload
    and target, an address in its canonical text and a name unchanged; and no framed datagram
    exceeds the largest UDP payload. *)
Theorem udp_roundtrip (target : socksTarget) (payload packet : bytes) :
  encodeSOCKSUDPDatagram target payload = Ok packet →
  parseSOCKSUDPDatagram packet = Ok (payload, mkTarget (wire_host (t_Host target)) (t_Port target))
  ∧ len packet <= maxSOCKSUDPDatagramBytes.
Proof.
  unfold encodeSOCKSUDPDatagram, encodeSOCKSUDPDatagramInto. cbn [snd]. rewrite appendSOCKSAddress_eq.
  destruct (encodeSOCKSAddress target) as [enc|] eqn:Henc; [|done]. cbn [mbind res_bind].
  destruct (_ <? len payload) eqn:Hlen; [done|]. intros E. inv_res. bools. pose proof (address_length _ _ Henc) as Hel.
  simpl length in *. rewrite !length_app in *. split; [|lia].
  unfold parseSOCKSUDPDatagram. rewrite (proj2 (Z.ltb_ge _ 4)) by (simpl; rewrite length_app; lia). simpl.
  rewrite drop_0, (readSOCKSAddress_encoded target enc payload) by done. simpl.
  rewrite length_app, Nat.add_sub. by rewrite drop_app_length.
Qed.

(** The packet buffer.  It is as long as asked, within the largest datagram, and
    never longer than its capacity; a capacity within the largest datagram stays there, and a
    buffer that is large enough is reused.  The storage for a datagram always holds it, so the
    append never leaves it. *)
Theorem resize_bounds (storage : buffer) (required : Z) (target : socksTarget) (payload packet : bytes) :
  0 <= b_cap storage <= maxSOCKSUDPDatagramBytes →
  let b := resizeSOCKSUDPBuffer storage required in
  b_len b = Z.max 0 (Z.min required maxSOCKSUDPDatagramBytes)
  ∧ b_len b <= b_cap b <= maxSOCKSUDPDatagramBytes
  ∧ b_cap storage <= b_cap b
  ∧ (required <= b_cap storage → b_cap b = b_cap storage)
  ∧ ((encodeSOCKSUDPDatagramInto storage target payload).2 = Ok packet →
     len packet <= b_cap (encodeSOCKSUDPDatagramInto storage target payload).1).
Proof.
  intros Hc b. unfold maxSOCKSUDPDatagramBytes in *.
  assert (∀ storage required, 0 <= b_cap storage <= 65507 →
            b_len (resizeSOCKSUDPBuffer storage required) = Z.max 0 (Z.min required 65507)
            ∧ b_len (resizeSOCKSUDPBuffer storage required) <= b_cap (resizeSOCKSUDPBuffer storage required) <= 65507
            ∧ b_cap storage <= b_cap (resizeSOCKSUDPBuffer storage required)
            ∧ (required <= b_cap storage → b_cap (resizeSOCKSUDPBuffer storage required) = b_cap storage)) as Hr.
  { intros st rq Hst. unfold resizeSOCKSUDPBuffer, maxSOCKSUDPDatagramBytes.
    assert (∀ x y : Z, (if x <? y then y else x) = Z.max x y) as Hmax by (intros x y; destruct (Z.ltb_spec x y); lia).
    assert (∀ x y : Z, (if y <? x then y else x) = Z.min x y) as Hmin by (intros x y; destruct (Z.ltb_spec y x); lia).
    rewrite !Hmin, !Hmax. destruct (Z.ltb_spec (b_cap st) (Z.max (Z.min rq 65507) 0)); cbn [b_len b_cap]; lia. }
  destruct (Hr storage required Hc) as (H1 & H2 & H3 & H4). repeat (split; [done|]).
  unfold encodeSOCKSUDPDatagramInto. cbn [fst snd]. rewrite appendSOCKSAddress_eq.
  destruct (encodeSOCKSAddress target) as [enc|] eqn:Henc; [|done]. cbn [mbind res_bind].
  destruct (_ <? len payload) eqn:Hlen; [done|]. intros E. inv_res. bools.
  pose proof (address_length _ _ Henc) as Hel.
  match goal with |- _ <= b_cap (resizeSOCKSUDPBuffer _ ?rq) => destruct (Hr storage rq Hc) as (E1 & E2 & _); set (q := rq) in * end.
  set (bb := resizeSOCKSUDPBuffer storage q) in *. clearbody bb.
  simpl length in *. rewrite !length_app in *. simpl length in *. unfold q, maxSOCKSUDPDatagramBytes, maxSOCKSUDPEnvelopeBytes in *.
  match type of E1 with context [if ?x then _ else _] => destruct x eqn:Hq end; bools; lia.
Qed.

(** ** What the UDP server delivers *)

(** A read buffer either holds the whole datagram, or the payload cut off by it
    is longer than the caller's buffer. *)
Lemma truncated_rejected storage limit data payload target :
  0 <= b_cap storage <= maxSOCKSUDPDatagramBytes → is_bytes data → len data <= maxSOCKSUDPDatagramBytes →
  parseSOCKSUDPDatagram (take (Z.to_nat (b_len (resizeSOCKSUDPReadBuffer storage (Z.of_nat limit)))) data)
    = Ok (payload, target) →
  (length payload <= limit)%nat → parseSOCKSUDPDatagram data = Ok (payload, target).
Proof.
  intros Hc Hb Hd Hp Hl.
  assert (b_len (resizeSOCKSUDPReadBuffer storage (Z.of_nat limit))
          = Z.min (Z.of_nat limit + 263) 65507) as Hlen.
  { unfold resizeSOCKSUDPReadBuffer, maxSOCKSUDPEnvelopeBytes, maxSOCKSUDPDatagramBytes in *.
    assert (∀ rq, 0 <= rq → b_len (resizeSOCKSUDPBuffer storage rq) = Z.min rq 65507) as Hr.
    { intros rq Hrq. unfold resizeSOCKSUDPBuffer, maxSOCKSUDPDatagramBytes.
      destruct (Z.ltb_spec 65507 rq); simpl; [|destruct (Z.ltb_spec rq 0); [lia|]];
        destruct (b_cap storage <? _); simpl; lia. }
    destruct (Z.leb_spec (Z.of_nat limit) (65507 - (3 + 1 + 1 + 255 + 2) - 1)); rewrite Hr; lia. }
  rewrite Hlen in Hp. set (n := Z.to_nat _) in Hp.
  destruct (decide (length data <= n)%nat) as [Hn|Hn]; [by rewrite take_ge in Hp|].
  exfalso. pose proof Hp as Hp'. apply parse_bound in Hp as (env & Ee & Le); [|by apply Forall_take].
  apply (f_equal length) in Ee. rewrite length_take, length_app in Ee.
  unfold n, maxSOCKSUDPDatagramBytes, maxSOCKSUDPEnvelopeBytes in *. lia.
Qed.

Section delivery.
Context {U : UnicodeCase}.

(** The inbound UDP association.  Whatever datagrams arrive, one is delivered only
    if it came from the allowed address and from the sender pinned as the relay, its target is
    authorized, and the payload delivered is the whole payload of the datagram, never a part cut
    off by the buffer; the relay, once pinned, never changes. *)
Theorem server_delivers (allowedIP : bytes) (authorization : inboundUDPAuthorization) (limit : nat)
    (storage : buffer) (relay relay' : option (bytes * Z)) (incoming rest : list datagram)
    (payload : bytes) (target : socksTarget) :
  0 <= b_cap storage <= maxSOCKSUDPDatagramBytes →
  Forall (λ d, is_bytes (dg_data d) ∧ len (dg_data d) <= maxSOCKSUDPDatagramBytes) incoming →
  server_ReadFrom allowedIP authorization limit storage relay incoming = (Some (payload, target), relay', rest) →
  allows authorization target = true ∧ (length payload <= limit)%nat
  ∧ (∀ r, relay = Some r → relay' = Some r)
  ∧ ∃ d pinned, d ∈ incoming ∧ relay' = Some pinned
      ∧ IP_Equal (dg_ip d) allowedIP = true ∧ IP_Equal (dg_ip d) pinned.1 = true ∧ dg_port d = pinned.2
      ∧ parseSOCKSUDPDatagram (dg_data d) = Ok (payload, target).
Proof.
  intros Hc HF. revert relay. induction HF as [|d ds [Hb Hd] HF IH]; intros relay E; [done|].
  cbn [server_ReadFrom] in E. destruct (IP_Equal (dg_ip d) allowedIP) eqn:Hip; cbn [negb] in E.
  2: { destruct (IH _ E) as (? & ? & Hr & d' & pin & ? & ?). split; [done|]. split; [done|]. split; [done|].
       exists d', pin. split; [by right | done]. }
  set (pinned := default (dg_ip d, dg_port d) relay) in *.
  assert (∀ r, relay = Some r → pinned = r) as Hpin by (by intros r ->).
  assert (server_ReadFrom allowedIP authorization limit storage (Some pinned) ds = (Some (payload, target), relay', rest) →
          allows authorization target = true ∧ (length payload <= limit)%nat
          ∧ (∀ r, relay = Some r → relay' = Some r)
          ∧ ∃ d0 p, d0 ∈ d :: ds ∧ relay' = Some p ∧ IP_Equal (dg_ip d0) allowedIP = true
              ∧ IP_Equal (dg_ip d0) p.1 = true ∧ dg_port d0 = p.2
              ∧ parseSOCKSUDPDatagram (dg_data d0) = Ok (payload, target)) as Hagain.
  { intros E'. destruct (IH _ E') as (? & ? & Hr & d' & pin & ? & ?). split; [done|]. split; [done|].
    split; [intros r Er; rewrite <- (Hpin r Er); by apply Hr|]. exists d', pin. split; [by right | done]. }
  destruct (IP_Equal (dg_ip d) pinned.1 && (dg_port d =? pinned.2)) eqn:Hrel; cbn [negb] in E; [|by apply Hagain].
  destruct (parseSOCKSUDPDatagram _) as [[payload' target']|e] eqn:Hp in E; [|by apply Hagain].
  destruct (negb (allows authorization target') || (limit <? length payload')%nat) eqn:Hok; [by apply Hagain|].
  injection E as -> -> <- <-. apply orb_false_elim in Hok as [Hal Hlim]. apply Nat.ltb_ge in Hlim. bools.
  split; [done|]. split; [done|]. split; [intros r Er; by rewrite (Hpin r Er)|].
  exists d, pinned. split; [by left|]. repeat (split; [done|]). by eapply truncated_rejected.
Qed.
End delivery.

(** ** Authentication *)
Lemma Write_Ok msg c u c' :
  Write msg c = (Ok u, c') → c_in c' = c_in c ∧ c_out c' = c_out c ++ [msg] ∧ c_writes c = S (c_writes c').
Proof. unfold Write. destruct (c_writes c) eqn:E; [done|]. by intros [= _ <-]. Qed.

Lemma byte_head (l : bytes) n : length l = S n → l = byte_at l 0 :: drop 1 l.
Proof. by destruct l. Qed.

(** The server admits a client only after it offered username/password and sent
    exactly the configured credentials; and it has then read exactly the two messages of the
    client and answered both. *)
Theorem server_auth_exact (username password : bytes) (c c' : conn) :
  authenticateSOCKSServer username password c = (Ok tt, c') →
  ∃ n methods ulen plen,
    c_in c = [socksVersion; n] ++ methods ++ [1; ulen] ++ username ++ [plen] ++ password ++ c_in c'
    ∧ socksAuthUserPass ∈ methods
    ∧ Z.to_nat n = length methods ∧ Z.to_nat ulen = length username ∧ Z.to_nat plen = length password
    ∧ c_out c' = c_out c ++ [[socksVersion; socksAuthUserPass]; [1; 0]].
Proof.
  unfold authenticateSOCKSServer. intros E.
  apply bind_Ok in E as (h & c1 & R1 & E). destruct (_ || _) eqn:Hh in E; [done|].
  apply bind_Ok in E as (methods & c2 & R2 & E). destruct (existsb _ methods) eqn:Hm in E; cbn [negb] in E.
  2: { apply bind_Ok in E as (? & ? & _ & E). done. }
  apply bind_Ok in E as (? & c3 & W1 & E). apply bind_Ok in E as (ah & c4 & R3 & E).
  destruct (_ || _) eqn:Ha in E; [done|].
  apply bind_Ok in E as (user & c5 & R4 & E). apply bind_Ok in E as (pl & c6 & R5 & E).
  destruct (byte_at pl 0 =? 0) eqn:Hpl in E; [done|].
  apply bind_Ok in E as (pass & c7 & R6 & E). apply bind_Ok in E as (? & c8 & W2 & E).
  destruct (bool_decide (user = username) && bool_decide (pass = password)) eqn:Hcred; [|done].
  injection E as <-. bools. subst user pass.
  apply ReadFull_Ok in R1 as (E1 & L1 & O1 & _), R2 as (E2 & L2 & O2 & _), R3 as (E3 & L3 & O3 & _),
    R4 as (E4 & L4 & O4 & _), R5 as (E5 & L5 & O5 & _), R6 as (E6 & L6 & O6 & _).
  apply Write_Ok in W1 as (EW1 & OW1 & _), W2 as (EW2 & OW2 & _).
  destruct h as [|v [|n [|]]]; try discriminate L1. destruct ah as [|v' [|ul [|]]]; try discriminate L3.
  destruct pl as [|pln [|]]; try discriminate L5. unfold byte_at in *. cbn [nth] in *. subst v v'.
  exists n, methods, ul, pln.
  split. { rewrite E1, E2, <- EW1, E3, E4, E5, E6, EW2. reflexivity. }
  split; [apply existsb_exists in Hm as (meth & Hx & Ex); bools; subst meth; by apply list_elem_of_In|].
  split; [done|]. split; [done|]. split; [done|]. by rewrite OW2, O6, O5, O4, O3, OW1, O2, O1, <- app_assoc.
Qed.

(** A client and a server that hold the same credentials of 1 to 255 bytes
    authenticate each other: each side accepts the messages the other writes. *)
Theorem handshake_meets (username password rest : bytes) (k : nat) :
  1 <= len username <= 255 → 1 <= len password <= 255 →
  let greeting := [socksVersion; 1; socksAuthUserPass] in
  let login := [1; len username] ++ username ++ [len password] ++ password in
  authenticateSOCKSServer username password (mkConn (greeting ++ login ++ rest) [] (2 + k))
  = (Ok tt, mkConn rest [[socksVersion; socksAuthUserPass]; [1; 0]] k)
  ∧ authenticateSOCKSClient username password
      (mkConn ([socksVersion; socksAuthUserPass] ++ [1; 0] ++ rest) [] (2 + k))
    = (Ok tt, mkConn rest [greeting; login] k).
Proof.
  intros Hu Hp greeting login. split.
  - unfold authenticateSOCKSServer, greeting.
    erewrite bind_run; [|apply (ReadFull_app_n 2 [5; 1]); done]. simpl.
    erewrite bind_run; [|apply (ReadFull_app_n 1 [2]); done]. simpl.
    erewrite bind_run; [|reflexivity]. unfold login. rewrite <- !app_assoc.
    erewrite bind_run; [|apply (ReadFull_app_n 2 [1; len username]); done].
    unfold byte_at. cbn [nth]. rewrite (proj2 (Z.eqb_neq (len username) 0)) by lia. cbn [orb negb Z.eqb Pos.eqb].
    erewrite bind_run; [|rewrite Nat2Z.id; apply ReadFull_app].
    erewrite bind_run; [|apply (ReadFull_app_n 1 [len password]); done]. cbn [nth].
    rewrite (proj2 (Z.eqb_neq (len password) 0)) by lia.
    erewrite bind_run; [|rewrite Nat2Z.id; apply ReadFull_app].
    rewrite !bool_decide_eq_true_2 by done. erewrite bind_run; [|reflexivity]. done.
  - unfold authenticateSOCKSClient.
    rewrite (bool_decide_eq_false_2 (username = [])), (bool_decide_eq_false_2 (password = [])) by (intros ->; simpl in *; lia).
    rewrite !(proj2 (Z.ltb_ge 255 _)) by lia. cbn [orb].
    erewrite bind_run; [|reflexivity]. erewrite bind_run; [|apply (ReadFull_app_n 2 [5; 2]); done].
    rewrite bool_decide_eq_true_2 by done. cbn [negb]. erewrite bind_run; [|reflexivity].
    erewrite bind_run; [|apply (ReadFull_app_n 2 [1; 0]); done]. simpl.
    rewrite !wrap_id by (change (2 ^ 8) with 256; lia). done.
Qed.

(** ** Concrete runs *)
Section socks_examples.
#[local] Instance socks_case : UnicodeCase := {| unicode_ToLower r := r; unicode_ToUpper r := r |}.

Definition sample_packet : bytes :=
  [0; 0; 0; 3; 15] ++ &"api.example.com" ++ [1; 187] ++ &"quic".

Lemma udp_roundtrip_witness :
  parseSOCKSUDPDatagram sample_packet = Ok (&"quic", mkTarget (wire_host (&"api.example.com")) 443).
Proof.
  apply (udp_roundtrip (mkTarget (&"api.example.com") 443) (&"quic") sample_packet). by vm_compute.
Defined.

Lemma resize_bounds_witness : b_cap (resizeSOCKSUDPBuffer (mkBuffer 0 1024) 1600) <= maxSOCKSUDPDatagramBytes.
Proof.
  destruct (resize_bounds (mkBuffer 0 1024) 1600 (mkTarget (&"a.example") 443) [] []) as (_ & [_ Hc] & _);
    [simpl; unfold maxSOCKSUDPDatagramBytes; lia | exact Hc].
Defined.

Lemma server_delivers_witness :
  allows (newInboundUDPAuthorization (one_extension [&"*.example.com"] [])) (mkTarget (&"api.example.com") 443) = true.
Proof.
  apply (server_delivers [127; 0; 0; 1] (newInboundUDPAuthorization (one_extension [&"*.example.com"] [])) 1200
           (mkBuffer 0 0) None (Some ([127; 0; 0; 1], 4000))
           [mkDatagram [10; 0; 0; 9] 1 sample_packet; mkDatagram [127; 0; 0; 1] 4000 sample_packet] []
           (&"quic") (mkTarget (&"api.example.com") 443)).
  - simpl. unfold maxSOCKSUDPDatagramBytes. lia.
  - apply (bool_decide_unpack _). by vm_compute.
  - by vm_compute.
Defined.

Definition sample_login : bytes :=
  [5; 2; 0; 2] ++ [1; 4] ++ &"user" ++ [4] ++ &"pass".

Lemma server_auth_exact_witness :
  ∃ methods : bytes, socksAuthUserPass ∈ methods ∧ [5; 2] ++ methods `prefix_of` sample_login ++ [0].
Proof.
  destruct (server_auth_exact (&"user") (&"pass") (mkConn sample_login [] 2)
    (mkConn [] [[5; 2]; [1; 0]] 0)) as (n & methods & ulen & plen & Hin & Hm & _); [by vm_compute|].
  exists methods. split; [exact Hm|]. cbn [c_in] in Hin. rewrite Hin.
  assert (n = 2) as -> by (vm_compute in Hin; by injection Hin).
  eexists. rewrite <- !app_assoc. reflexivity.
Defined.

Lemma handshake_meets_witness :
  authenticateSOCKSClient (&"user") (&"pass") (mkConn ([5; 2] ++ [1; 0] ++ []) [] (2 + 0))
  = (Ok tt, mkConn [] [[5; 1; 2]; [1; 4] ++ &"user" ++ [4] ++ &"pass"] 0).
Proof. apply (handshake_meets (&"user") (&"pass") [] 0); simpl; lia. Defined.
End socks_examples.
