(* ===== verification/ProxyServers.v ===== *)
(** * What stands in front of the proxy's handler ([proxy.go])

    The session of a SOCKS connection up to the server that takes it over, the
    listener of a single connection, the session ticket keys the servers share,
    the writer that keeps a slow transfer alive, and the reporter of handshake
    errors.  The servers themselves are [net/http]'s, [crypto/tls]'s and
    [quic-go]'s.  Times are in nanoseconds. *)
From stdpp Require Import sorting.
From S2P Require Import Prelude GoStrings GoBinary GoNet ConfigTypes HostPatterns TransportProjection Socks.

(** ** The session of a connection *)
Section sessions.
Context {U : UnicodeCase}.

(** The [socksServerPacketConn] of an association: whose datagrams it takes, and what they may ask for. *)
Record association := mkAssociation { as_allowedIP : bytes; as_authorization : inboundUDPAuthorization }.

(** Who serves the connection once the session is set up. *)
Inductive service :=
| ServePlainHTTP
| ServeTLS (target : bytes)
| DiscardQUIC (packets : association)
| ServeHTTP3 (packets : association).

(** What the session observes besides the bytes of the client: the configuration at the two points
    where it is read, the addresses of the connection, and the local address of the UDP socket, if
    one can be opened. *)
Record session_env := mkSessionEnv {
  se_config : option Config;
  se_udpConfig : option Config;
  se_localAddr : bytes;
  se_remoteAddr : bytes;
  se_udpAddr : option bytes;
}.

Definition serveUDPAssociation (e : session_env) : action conn serr service :=
  match SplitHostPort (se_localAddr e) with
  | None => refuse "split local address"
  | Some _ =>
      match se_udpAddr e with
      | None => _ ← attempt (E' := serr) (writeSOCKSReply 1 None); refuse "listen UDP"
      | Some udp =>
          match SplitHostPort (se_remoteAddr e), se_udpConfig e with
          | Some (remoteHost, _), Some cfg =>
              let packets := mkAssociation (default [] (ParseIP remoteHost)) (newInboundUDPAuthorization cfg) in
              _ ← writeSOCKSReply 0 (Some udp);
              mret (if mitm_QUICFallbackProtection (cfg_MITM cfg) then DiscardQUIC packets else ServeHTTP3 packets)
          | _, _ => refuse "association"
          end
      end
  end.

Definition handleSOCKSConnection (e : session_env) : action conn serr service :=
  match se_config e with
  | None => refuse "configuration"
  | Some cfg =>
      '(command, target) ← readSOCKSRequest (cfg_Username cfg) (cfg_Password cfg);
      if command =? socksCommandConnect then
        if negb (allowedInboundSOCKSTarget cfg target)
        then _ ← attempt (E' := serr) (writeSOCKSReply 2 None); refuse "SOCKS CONNECT target is outside the active extension allowlist"
        else
          _ ← writeSOCKSReply 0 (Some (se_localAddr e));
          mret (if t_Port target =? 80 then ServePlainHTTP else ServeTLS (t_Host target))
      else if command =? socksCommandUDP then serveUDPAssociation e
      else _ ← attempt (E' := serr) (writeSOCKSReply 7 None); refuse "unsupported SOCKS command"
  end.

Definition mitmTLSNextProtos (http2 : bool) : list bytes :=
  if http2 then [&"h2"; &"http/1.1"] else [&"http/1.1"].

(** The error a server returned that ends its connection in the ordinary way is none. *)
Inductive server_error := ErrServerClosed | ErrNetClosed | ErrConnEOF | ServerFailed (message : bytes).
Definition serve_outcome (e : option server_error) : option server_error :=
  match e with Some (ServerFailed m) => Some (ServerFailed m) | _ => None end.

(** ** Whom a session admits *)
Lemma reply_Ok status address c u c' : writeSOCKSReply status address c = (Ok u, c') →
  c_in c' = c_in c ∧ ∃ payload, c_out c' = c_out c ++ [[socksVersion; status; 0] ++ payload].
Proof.
  unfold writeSOCKSReply. intros E. apply bind_Ok in E as (target & c1 & Et & E). apply bind_Ok in E as (payload & c2 & Ep & E).
  apply Write_Ok in E as (E1 & E2 & _).
  assert (c1 = c) as -> by (destruct address as [text|]; [destruct (SplitHostPort text) as [[h p]|]; [destruct (Atoi p)|]|]; by inversion Et).
  assert (c2 = c) as -> by (unfold lift_res in Ep; by destruct (encodeSOCKSAddress target); inversion Ep).
  rewrite E1, E2. split; [done|]. by exists payload.
Qed.

Lemma readSOCKSAddress_out c t c' : readSOCKSAddress c = (Ok t, c') → c_out c' = c_out c.
Proof.
  unfold readSOCKSAddress. intros E. apply bind_Ok in E as (atyp & c1 & R1 & E). apply ReadFull_Ok in R1 as (_ & _ & O1 & _).
  apply bind_Ok in E as (host & c2 & Rh & E). apply bind_Ok in E as (port & c3 & R3 & E). apply ReadFull_Ok in R3 as (_ & _ & O3 & _).
  injection E as <- <-. rewrite O3, <- O1. clear -Rh.
  destruct (byte_at atyp 0 =? socksAddressIPv4); [apply bind_Ok in Rh as (? & ? & R & Rh); apply ReadFull_Ok in R as (_ & _ & O & _); injection Rh as <- <-; done|].
  destruct (byte_at atyp 0 =? socksAddressIPv6); [apply bind_Ok in Rh as (? & ? & R & Rh); apply ReadFull_Ok in R as (_ & _ & O & _); injection Rh as <- <-; done|].
  destruct (byte_at atyp 0 =? socksAddressDomain); [|done]. apply bind_Ok in Rh as (l & ? & R & Rh). apply ReadFull_Ok in R as (_ & _ & O & _).
  destruct (byte_at l 0 =? 0); [done|]. apply ReadFull_Ok in Rh as (_ & _ & O' & _). congruence.
Qed.

(** The packets of an association of the client at [remote] under [cfg]: whatever datagrams arrive, one
    is delivered only when it came from that client's address, for a target the configuration lets
    datagrams ask for, on port 443. *)
Definition admits_datagrams (remote : bytes) (cfg : Config) (a : association) : Prop :=
  ∃ host port, SplitHostPort remote = Some (host, port)
  ∧ ∀ limit storage relay relay' incoming rest payload target,
      0 <= b_cap storage <= maxSOCKSUDPDatagramBytes →
      Forall (λ d, is_bytes (dg_data d) ∧ len (dg_data d) <= maxSOCKSUDPDatagramBytes) incoming →
      server_ReadFrom (as_allowedIP a) (as_authorization a) limit storage relay incoming = (Some (payload, target), relay', rest) →
      allows (newInboundUDPAuthorization cfg) target = true ∧ t_Port target = 443
      ∧ ∃ d, d ∈ incoming ∧ IP_Equal (dg_ip d) (default [] (ParseIP host)) = true
             ∧ parseSOCKSUDPDatagram (dg_data d) = Ok (payload, target).

Lemma association_admits remote cfg host port : SplitHostPort remote = Some (host, port) →
  admits_datagrams remote cfg (mkAssociation (default [] (ParseIP host)) (newInboundUDPAuthorization cfg)).
Proof.
  intros Hs. exists host, port. split; [done|]. intros limit storage relay relay' incoming rest payload target Hc HF E.
  destruct (server_delivers _ _ _ _ _ _ _ _ _ _ Hc HF E) as (Ha & _ & _ & d & pinned & Hd & _ & Hip & _ & _ & Hp).
  split; [done|]. split; [|by exists d]. unfold allows in Ha.
  destruct (Z.eqb_spec (t_Port target) 443) as [|_]; [done|]. cbn [negb] in Ha. by rewrite orb_true_r in Ha.
Qed.

(** C13 (safety): a connection is handed to a server only for a client that sent exactly the configured credentials,
    and after the success reply: to the plain server for port 80 and to the TLS server for port 443 of
    a CONNECT target the active extensions allow, under the host the client named.  An association is
    set up for a client that asked for one, whatever target it named; its datagrams are dropped while
    the fallback protection is on and go to the HTTP/3 server otherwise, and of those only the ones
    from the client's address, for a target on port 443 the configuration allows datagrams to ask for. *)
Theorem session_admitted (e : session_env) (c c' : conn) (srv : service) :
  handleSOCKSConnection e c = (Ok srv, c') →
  ∃ cfg n methods ulen plen rest reply command target asked,
    se_config e = Some cfg
    ∧ readSOCKSRequest (cfg_Username cfg) (cfg_Password cfg) c = (Ok (command, target), asked)
    ∧ c_in c = [socksVersion; n] ++ methods ++ [1; ulen] ++ cfg_Username cfg ++ [plen] ++ cfg_Password cfg ++ rest
    ∧ socksAuthUserPass ∈ methods
    ∧ c_out c' = c_out c ++ [[socksVersion; socksAuthUserPass]; [1; 0]; [socksVersion; 0; 0] ++ reply]
    ∧ match srv with
      | ServePlainHTTP => command = socksCommandConnect ∧ allowedInboundSOCKSTarget cfg target = true ∧ t_Port target = 80
      | ServeTLS host => command = socksCommandConnect ∧ allowedInboundSOCKSTarget cfg target = true ∧ t_Port target = 443 ∧ host = t_Host target
      | DiscardQUIC packets => command = socksCommandUDP ∧ ∃ cfg', se_udpConfig e = Some cfg' ∧ mitm_QUICFallbackProtection (cfg_MITM cfg') = true
          ∧ admits_datagrams (se_remoteAddr e) cfg' packets
      | ServeHTTP3 packets => command = socksCommandUDP ∧ ∃ cfg', se_udpConfig e = Some cfg' ∧ mitm_QUICFallbackProtection (cfg_MITM cfg') = false
          ∧ admits_datagrams (se_remoteAddr e) cfg' packets
      end.
Proof.
  unfold handleSOCKSConnection. destruct (se_config e) as [cfg|]; [|done]. intros E.
  apply bind_Ok in E as ([command target] & c1 & Er & E). pose proof Er as Ereq. unfold readSOCKSRequest in Er.
  apply bind_Ok in Er as ([] & c2 & Ea & Er). apply server_auth_exact in Ea as (n & methods & ulen & plen & Hin & Hm & _ & _ & _ & Hout).
  apply bind_Ok in Er as (header & c3 & Eh & Er). destruct (_ || _); [done|].
  apply bind_Ok in Er as (target' & c4 & Et & Er). injection Er as <- <- <-.
  apply ReadFull_Ok in Eh as (_ & _ & Oh & _). pose proof (readSOCKSAddress_out _ _ _ Et) as Ot.
  assert (∀ srv', srv' = srv → c_out c4 = c_out c ++ [[socksVersion; socksAuthUserPass]; [1; 0]]) as Hc4 by (intros; congruence).
  exists cfg, n, methods, ulen, plen, (c_in c2).
  destruct (Z.eqb_spec (byte_at header 1) socksCommandConnect) as [Econ|_].
  - destruct (allowedInboundSOCKSTarget cfg target') eqn:Eal; cbn [negb] in E; [|apply bind_Ok in E as (? & ? & _ & E); done].
    apply bind_Ok in E as ([] & c5 & Ew & E). apply reply_Ok in Ew as (_ & payload & Ow). injection E as <- <-.
    exists payload, (byte_at header 1), target', c4. split; [done|]. split; [exact Ereq|]. split; [exact Hin|]. split; [done|].
    split; [rewrite Ow, (Hc4 _ eq_refl), <- app_assoc; done|].
    destruct (t_Port target' =? 80) eqn:E80; [split; [done|]; split; [done | lia]|].
    split; [done|]. split; [done|]. split; [|done]. unfold allowedInboundSOCKSTarget in Eal. destruct (_ || _) eqn:Ep in Eal; [done|]. bools. lia.
  - destruct (Z.eqb_spec (byte_at header 1) socksCommandUDP) as [Eudp|_]; [|apply bind_Ok in E as (? & ? & _ & E); done].
    unfold serveUDPAssociation in E. destruct (SplitHostPort (se_localAddr e)); [|done].
    destruct (se_udpAddr e) as [udp|]; [|apply bind_Ok in E as (? & ? & _ & E); done].
    destruct (SplitHostPort (se_remoteAddr e)) as [[remoteHost remotePort]|] eqn:Erem; [|done]. destruct (se_udpConfig e) as [cfg'|]; [|done].
    apply bind_Ok in E as ([] & c5 & Ew & E). apply reply_Ok in Ew as (_ & payload & Ow). injection E as <- <-.
    exists payload, (byte_at header 1), target', c4. split; [done|]. split; [exact Ereq|]. split; [exact Hin|]. split; [done|].
    split; [rewrite Ow, (Hc4 _ eq_refl), <- app_assoc; done|].
    pose proof (association_admits _ cfg' _ _ Erem) as Had.
    destruct (mitm_QUICFallbackProtection (cfg_MITM cfg')) eqn:Eq; (split; [done|]; by exists cfg').
Qed.
End sessions.

(** ** Session ticket keys *)
Definition mitmTicketKeyLifetime : Z := 24 * 3600 * 1000000000.
Definition mitmTicketKeyHistory : nat := 2.

Record ticketKeys := mkTicketKeys { tk_keys : list bytes; tk_set : Z }.
Definition no_keys : ticketKeys := mkTicketKeys [] 0.

(** [Time.Sub]: a [Duration] saturates. *)
Definition time_Sub (a b : Z) : Z := Z.max (- 2 ^ 63) (Z.min (2 ^ 63 - 1) (a - b)).

(** What one call observes: the clock at its test, a fresh key if the source of randomness gives one,
    and the clock when it is stored. *)
Record ticket_call := mkTicketCall { tc_test : Z; tc_fresh : option bytes; tc_stored : Z }.

Definition sessionTicketKeys (q : ticket_call) (s : ticketKeys) : res string (list bytes) * ticketKeys :=
  if (0 <? len (tk_keys s)) && (time_Sub (tc_test q) (tk_set s) <? mitmTicketKeyLifetime) then (Ok (tk_keys s), s)
  else match tc_fresh q with
       | None => (Err "session ticket key"%string, s)
       | Some fresh =>
           let rotated := fresh :: tk_keys s in
           let rotated := if (mitmTicketKeyHistory <? length rotated)%nat then take mitmTicketKeyHistory rotated else rotated in
           (Ok rotated, mkTicketKeys rotated (tc_stored q))
       end.

Fixpoint ticket_run (qs : list ticket_call) (s : ticketKeys) : list (res string (list bytes)) * ticketKeys :=
  match qs with
  | [] => ([], s)
  | q :: qs => let '(r, s) := sessionTicketKeys q s in let '(rs, s) := ticket_run qs s in (r :: rs, s)
  end.

(** The clock does not run backwards from [t]. *)
Fixpoint clocked (t : Z) (qs : list ticket_call) : Prop :=
  match qs with [] => True | q :: qs => t <= tc_test q <= tc_stored q ∧ clocked (tc_stored q) qs end.

Definition keeps (k : bytes) (t : Z) (s : ticketKeys) : Prop :=
  (length (tk_keys s) <= mitmTicketKeyHistory)%nat
  ∧ (head (tk_keys s) = Some k ∨ ∃ k', tk_keys s = [k'; k] ∧ t <= tk_set s).

Lemma ticket_step_size q s : (length (tk_keys s) <= mitmTicketKeyHistory)%nat →
  (length (tk_keys (sessionTicketKeys q s).2) <= mitmTicketKeyHistory)%nat
  ∧ ∀ keys, (sessionTicketKeys q s).1 = Ok keys → keys = tk_keys (sessionTicketKeys q s).2 ∧ keys ≠ [].
Proof.
  intros Hl. unfold sessionTicketKeys. destruct (_ && _) eqn:E; [|destruct (tc_fresh q) as [fresh|]; [|done]].
  - split; [done|]. intros keys [= <-]. split; [done|]. intros E0. rewrite E0 in E. done.
  - cbn [fst snd tk_keys]. split; [destruct (_ <? _)%nat eqn:El; [rewrite length_take; lia | apply Nat.ltb_ge in El; done]|].
    intros keys [= <-]. split; [done|]. by destruct (_ <? _)%nat.
Qed.

Lemma ticket_step_keeps k t q s : keeps k t s → t <= tc_test q <= tc_stored q → tc_test q < t + mitmTicketKeyLifetime →
  keeps k t (sessionTicketKeys q s).2 ∧ ∀ keys, (sessionTicketKeys q s).1 = Ok keys → k ∈ keys.
Proof.
  intros [Hl Hk] Ht Hlt. unfold sessionTicketKeys. destruct ((0 <? len (tk_keys s)) && _) eqn:E.
  { split; [done|]. cbn. intros keys [= <-]. destruct Hk as [Hk|(k' & -> & _)]; [|by right; left]. destruct (tk_keys s); [done|]. injection Hk as ->. left. }
  destruct (tc_fresh q) as [fresh|]; [|done]. cbn [fst snd].
  destruct Hk as [Hk|(k' & Hks & Hset)].
  - destruct (tk_keys s) as [|k1 rest] eqn:Eks; [done|]. injection Hk as ->.
    assert ((if (mitmTicketKeyHistory <? length (fresh :: k :: rest))%nat then take mitmTicketKeyHistory (fresh :: k :: rest) else fresh :: k :: rest) = [fresh; k]) as ->.
    { unfold mitmTicketKeyHistory in *. by destruct rest. }
    split; [split; [cbn; unfold mitmTicketKeyHistory; lia|]; right; exists fresh; split; [done | cbn; lia]|]. intros keys [= <-]. by right; left.
  - exfalso. rewrite Hks in E. cbn in E. apply Z.ltb_ge in E. unfold time_Sub, mitmTicketKeyLifetime in *. lia.
Qed.

(** A key that issues tickets is accepted by every later connection of the next 24 hours, through any
    rotation and any failure of the source of randomness; and an answer has one or two keys. *)
Theorem tickets_resume (s s1 : ticketKeys) (q : ticket_call) (k : bytes) (rest : list bytes) (qs : list ticket_call)
    (Hs : (length (tk_keys s) <= 2)%nat) (Hq : sessionTicketKeys q s = (Ok (k :: rest), s1))
    (Hclock : clocked (tc_test q) qs) (Hday : Forall (λ q', tc_test q' < tc_test q + mitmTicketKeyLifetime) qs) :
  Forall (λ r, match r with Ok keys => k ∈ keys ∧ (1 <= length keys <= 2)%nat | Err _ => True end) (ticket_run qs s1).1.
Proof.
  pose proof (ticket_step_size q s Hs) as [Hl1 Hk1]. rewrite Hq in Hl1, Hk1. destruct (Hk1 _ eq_refl) as [Ek _]. cbn [snd] in *.
  assert (keeps k (tc_test q) s1) as Hkeep by (split; [done|]; left; by rewrite <- Ek). clear Hq Hk1 Ek.
  set (t := tc_test q) in *. assert (∀ t0, t <= t0 → clocked t0 qs → Forall (λ r : res string (list bytes), match r with Ok keys => k ∈ keys ∧ (1 <= length keys <= 2)%nat | Err _ => True end) (ticket_run qs s1).1) as H; [|by apply (H t)].
  clear Hclock Hs Hl1. revert s1 Hkeep. induction qs as [|q' qs IH]; intros s1 Hkeep t0 Ht Hc; cbn [ticket_run]; [constructor|].
  destruct Hc as [Hq' Hc]. apply Forall_cons in Hday as [Hd Hday].
  destruct (ticket_step_keeps k t q' s1 Hkeep ltac:(lia) Hd) as [Hkeep' Hin]. destruct (ticket_step_size q' s1 (proj1 Hkeep)) as [Hl' Hans].
  destruct (sessionTicketKeys q' s1) as [r s2] eqn:Er. cbn [fst snd] in *. specialize (IH Hday s2 Hkeep' (tc_stored q') ltac:(lia) Hc).
  destruct (ticket_run qs s2) as [rs s3]. constructor; [|done]. destruct r as [keys|]; [|done]. split; [by apply Hin|].
  destruct (Hans keys eq_refl) as [-> Hne]. split; [destruct (tk_keys s2); [done | cbn; lia] | exact Hl'].
Qed.

(** ** The reporter of handshake errors *)
Section reporter.
Context {U : UnicodeCase}.

Definition interceptCertificateTrustLogInterval : Z := 60 * 1000000000.

(** What is written: the line of an error, and the warning that the client does not trust the certificate. *)
Inductive handshake_log := ErrorLine (target message : bytes) | TrustWarning (target : bytes).

#[export] Instance handshake_log_eq_dec : EqDecision handshake_log.
Proof. solve_decision. Defined.

Definition untrusted (message : bytes) : bool := Contains (ToLower message) (&"remote error: tls: unknown certificate").

(** [lastTrustWarning], none while it is the zero time. *)
Definition report (now : Z) (target message : bytes) (last : option Z) : list handshake_log * option Z :=
  if bool_decide (message = []) then ([], last)
  else if negb (untrusted message) then ([ErrorLine target message], last)
  else
    let warn := ([ErrorLine target message; TrustWarning target], Some now) in
    match last with
    | Some t => if now <? t + interceptCertificateTrustLogInterval then ([ErrorLine target message], last) else warn
    | None => warn
    end.

(** [tlsHandshakeErrorWriter.Write]. *)
Definition handshake_Write (now : Z) (target payload : bytes) (last : option Z) : Z * list handshake_log * option Z :=
  let '(logs, last) := report now target (TrimSpace payload) last in (len payload, logs, last).

(** A run of writes, with the clock each reads: the warnings it gives with their times. *)
Fixpoint report_run (qs : list (Z * bytes * bytes)) (last : option Z) : list handshake_log * list Z :=
  match qs with
  | [] => ([], [])
  | (now, target, payload) :: qs =>
      let '(_, logs, last') := handshake_Write now target payload last in
      let '(rest, times) := report_run qs last' in
      (logs ++ rest, if bool_decide (TrustWarning target ∈ logs) then now :: times else times)
  end.

Definition spaced (a b : Z) : Prop := a + interceptCertificateTrustLogInterval <= b.

Definition line_of (q : Z * bytes * bytes) : list handshake_log :=
  let '(_, target, payload) := q in
  if bool_decide (TrimSpace payload = []) then [] else [ErrorLine target (TrimSpace payload)].
Definition is_line (l : handshake_log) : bool := match l with ErrorLine _ _ => true | TrustWarning _ => false end.

(** One report: its lines, and when it warns. *)
Lemma report_cases now target message last :
  let '(logs, last') := report now target message last in
  List.filter is_line logs = (if bool_decide (message = []) then [] else [ErrorLine target message])
  ∧ (if bool_decide (TrustWarning target ∈ logs) then last' = Some now ∧ (∀ t, last = Some t → spaced t now)
     else last' = last ∧ (message ≠ [] → untrusted message = true → ∃ t, last = Some t ∧ now < t + interceptCertificateTrustLogInterval)).
Proof.
  unfold report, spaced. case_bool_decide as Em; [by split|]. destruct (untrusted message) eqn:Eu; cbn [negb].
  - destruct last as [t|]; [destruct (Z.ltb_spec now (t + interceptCertificateTrustLogInterval))|]; (split; [done|]).
    + rewrite bool_decide_false by (intros [?|?%elem_of_nil]%elem_of_cons; done). split; [done|]. by exists t.
    + rewrite bool_decide_true by (right; left). split; [done|]. by intros ? [= <-].
    + rewrite bool_decide_true by (right; left). by split.
  - split; [done|]. rewrite bool_decide_false by (intros [?|?%elem_of_nil]%elem_of_cons; done). by split.
Qed.

(** Every error a server reports is written, in order; the warnings it adds are at least a minute
    apart, whatever the clock does; and a handshake the client refused as untrusted is answered by a
    warning, or comes within a minute of the last one. *)
Theorem trust_warnings_spaced (qs : list (Z * bytes * bytes)) (last : option Z) :
  List.filter is_line (report_run qs last).1 = concat (map line_of qs)
  ∧ StronglySorted spaced (report_run qs last).2
  ∧ (∀ t w, last = Some t → w ∈ (report_run qs last).2 → spaced t w)
  ∧ (∀ now target payload, (now, target, payload) ∈ qs → TrimSpace payload ≠ [] → untrusted (TrimSpace payload) = true →
       ∃ w, (w ∈ (report_run qs last).2 ∨ last = Some w) ∧ now < w + interceptCertificateTrustLogInterval).
Proof.
  revert last. induction qs as [|[[now target] payload] qs IH]; intros last; cbn [report_run].
  { split; [done|]. split; [constructor|]. split; [by intros ? ? _ ?%elem_of_nil | by intros ? ? ? ?%elem_of_nil]. }
  unfold handshake_Write. pose proof (report_cases now target (TrimSpace payload) last) as Hr.
  destruct (report now target (TrimSpace payload) last) as [logs last'] eqn:Er. destruct Hr as [Hlines Hwarn].
  destruct (IH last') as (IHl & IHs & IHa & IHc). destruct (report_run qs last') as [rest times] eqn:Err. cbn [fst snd] in *.
  split; [cbn [map concat line_of]; rewrite List.filter_app, Hlines, IHl; done|]. case_bool_decide as Hw; destruct Hwarn as [-> Hlast].
  - split; [constructor; [done|]; apply Forall_forall; intros w Hin; by apply (IHa now)|]. split.
    + intros t w Ht [->|Hin]%elem_of_cons; [by apply Hlast|]. specialize (IHa now w eq_refl Hin). specialize (Hlast t Ht).
      unfold spaced, interceptCertificateTrustLogInterval in *. lia.
    + intros now' target' payload' [[= -> -> ->]|Hin]%elem_of_cons Hne Hu.
      * exists now. split; [left; left|]. unfold interceptCertificateTrustLogInterval. lia.
      * destruct (IHc _ _ _ Hin Hne Hu) as (w & [Hwi|[= <-]] & ?); [exists w | exists now]; (split; [left|done]); [by right | left].
  - split; [done|]. split; [done|]. intros now' target' payload' [[= -> -> ->]|Hin]%elem_of_cons Hne Hu; [|by eapply IHc].
    destruct (Hlast Hne Hu) as (t & Ht & ?). exists t. split; [by right | done].
Qed.
End reporter.

(** ** Writing to a slow client *)
Definition interceptTransferWriteChunk : Z := Z.shiftl 32 10.

Inductive write_error := UnderlyingError | ErrShortWrite.

Section transfer.
(** What the underlying writer answers to its [n]-th call: the count, and whether it failed. *)
Context (under : nat → bytes → Z * bool).

(** The chunks handed over, each after its own deadline, and the outcome; [None] without fuel. *)
Fixpoint transfer_loop (fuel n : nat) (payload : bytes) (written : Z) : option (list bytes * Z * option write_error) :=
  match fuel with
  | O => None
  | S fuel =>
      if written <? len payload then
        let chunk := drop (Z.to_nat written) payload in
        let chunk := if interceptTransferWriteChunk <? len chunk then take (Z.to_nat interceptTransferWriteChunk) chunk else chunk in
        let '(count, failed) := under n chunk in
        let written := written + count in
        if failed then Some ([chunk], written, Some UnderlyingError)
        else if count <? len chunk then Some ([chunk], written, Some ErrShortWrite)
        else '(chunks, w, e) ← transfer_loop fuel (S n) payload written; Some (chunk :: chunks, w, e)
      else Some ([], written, None)
  end.
Definition transfer_Write (payload : bytes) : option (list bytes * Z * option write_error) :=
  transfer_loop (S (length payload)) 0 payload 0.

(** The contract of [io.Writer] on the count. *)
Definition writer_ok : Prop := ∀ n chunk, 0 <= (under n chunk).1 <= len chunk.

Lemma transfer_loop_exact fuel n before rest : writer_ok → (length rest < fuel)%nat →
  ∃ chunks w e, transfer_loop fuel n (before ++ rest) (len before) = Some (chunks, w, e)
  ∧ Forall (λ c, c ≠ [] ∧ len c <= interceptTransferWriteChunk) chunks
  ∧ match e with
    | None => w = len (before ++ rest) ∧ concat chunks = rest
    | Some _ => ∃ placed last count, chunks = placed ++ [last] ∧ 0 <= count <= len last
        ∧ w = len before + len (concat placed) + count ∧ concat chunks `prefix_of` rest
    end.
Proof.
  intros Hok. revert n before rest. induction fuel as [|fuel IH]; intros n before rest Hf; [lia|]. cbn [transfer_loop].
  destruct (Z.ltb_spec (len before) (len (before ++ rest))) as [Hlt|Hge]; [rewrite length_app in Hlt | rewrite length_app in Hge].
  2: { assert (rest = []) as -> by (destruct rest; [done | cbn in Hge; lia]). exists [], (len before), None. split; [done|]. split; [constructor|].
       split; [by rewrite app_nil_r | done]. }
  replace (drop (Z.to_nat (len before)) (before ++ rest)) with rest by (rewrite Nat2Z.id; by rewrite drop_app_length).
  set (chunk := if interceptTransferWriteChunk <? len rest then _ else _).
  assert (∃ tail, rest = chunk ++ tail ∧ chunk ≠ [] ∧ len chunk <= interceptTransferWriteChunk) as (tail & Hr & Hne & Hlen).
  { unfold chunk, interceptTransferWriteChunk. change (Z.shiftl 32 10) with 32768. destruct (Z.ltb_spec 32768 (len rest)).
    - exists (drop (Z.to_nat 32768) rest). split; [by rewrite take_drop|]. split; [|rewrite length_take; lia].
      intros E. apply (f_equal length) in E. rewrite length_take in E. cbn [length] in E. lia.
    - exists []. rewrite app_nil_r. split; [done|]. split; [|done]. destruct rest; [cbn in Hlt; lia | done]. }
  clearbody chunk. subst rest. rewrite length_app in Hf. assert (0 < length chunk)%nat as Hpos by (destruct chunk; [done | cbn; lia]).
  pose proof (Hok n chunk) as Hcount. destruct (under n chunk) as [count failed]. cbn [fst] in Hcount.
  assert (∀ e' : write_error, ∃ chunks w (e : option write_error), Some ([chunk], len before + count, Some e') = Some (chunks, w, e)
    ∧ Forall (λ c, c ≠ [] ∧ len c <= interceptTransferWriteChunk) chunks
    ∧ match e with None => w = len (before ++ chunk ++ tail) ∧ concat chunks = chunk ++ tail
      | Some _ => ∃ placed last count, chunks = placed ++ [last] ∧ 0 <= count <= len last
          ∧ w = len before + len (concat placed) + count ∧ concat chunks `prefix_of` chunk ++ tail end) as Hstop.
  { intros e'. exists [chunk], (len before + count), (Some e'). split; [done|]. split; [by constructor|]. exists [], chunk, count.
    split; [done|]. split; [done|]. split; [cbn; lia|]. cbn. rewrite app_nil_r. by exists tail. }
  cbv zeta. destruct failed; [exact (Hstop UnderlyingError)|]. destruct (Z.ltb_spec count (len chunk)); [exact (Hstop ErrShortWrite)|].
  assert (count = len chunk) as -> by lia.
  destruct (IH (S n) (before ++ chunk) tail ltac:(lia)) as (chunks & w & e & E & Hf' & He).
  rewrite length_app, Nat2Z.inj_add, <- app_assoc in E. rewrite E. exists (chunk :: chunks), w, e. split; [done|]. split; [by constructor|].
  destruct e as [e|].
  - destruct He as (placed & last & count & -> & Hc & -> & [suffix Hp]). exists (chunk :: placed), last, count. split; [done|]. split; [done|].
    split; [cbn [concat]; rewrite !length_app; lia|]. exists suffix. cbn. by rewrite Hp, app_assoc.
  - destruct He as [-> Ec]. split; [by rewrite <- app_assoc|]. cbn. by rewrite Ec.
Qed.

(** A write always returns.  Without an error every byte of the payload was placed, in order; with one
    the count is that of the chunks placed before and of what the writer took of the last, all from
    the front of the payload.  No chunk is empty or longer than 32 KiB, and each has its own deadline. *)
Theorem transfer_write_exact (payload : bytes) (Hok : writer_ok) :
  ∃ chunks w e, transfer_Write payload = Some (chunks, w, e)
  ∧ Forall (λ c, c ≠ [] ∧ len c <= 32768) chunks
  ∧ match e with
    | None => w = len payload ∧ concat chunks = payload
    | Some _ => ∃ placed last count, chunks = placed ++ [last] ∧ 0 <= count <= len last
        ∧ w = len (concat placed) + count ∧ concat chunks `prefix_of` payload
    end.
Proof.
  destruct (transfer_loop_exact (S (length payload)) 0 [] payload Hok ltac:(lia)) as (chunks & w & e & E & Hf & He).
  exists chunks, w, e. split; [exact E|]. split; [exact Hf|]. destruct e as [e|]; [|exact He].
  destruct He as (placed & last & count & ? & ? & -> & ?). by exists placed, last, count.
Qed.
End transfer.

(** ** The listener of one connection *)
Record singleConnListener := mkSingle { sc_accepted : bool; sc_closed : bool }.
Definition newSingleConnListener : singleConnListener := mkSingle false false.

(** The connection, [net.ErrClosed], or an Accept that is blocked until the connection is closed. *)
Inductive accept_result := AcceptedConn | AcceptClosed | AcceptBlocked.
Definition single_Accept (l : singleConnListener) : accept_result * singleConnListener :=
  if negb (sc_accepted l) then (AcceptedConn, mkSingle true (sc_closed l))
  else (if sc_closed l then AcceptClosed else AcceptBlocked, l).
(** [closeNotifyConn.Close], of the server or of the listener. *)
Definition single_Close (l : singleConnListener) : singleConnListener := mkSingle (sc_accepted l) true.

Fixpoint single_run (ops : list bool) (l : singleConnListener) : list accept_result :=
  match ops with
  | [] => []
  | true :: ops => let '(r, l) := single_Accept l in r :: single_run ops l
  | false :: ops => single_run ops (single_Close l)
  end.

Lemma single_accepted ops closed : ∀ r, r ∈ single_run ops (mkSingle true closed) → r ≠ AcceptedConn.
Proof.
  revert closed. induction ops as [|[] ops IH]; intros closed r; cbn; [by intros ?%elem_of_nil | | apply IH].
  destruct closed; intros [->|Hr]%elem_of_cons; try done; by eapply IH.
Qed.

(** The connection is accepted by the first Accept and by no other. *)
Lemma accepted_once ops : ∀ first rest, single_run ops newSingleConnListener = first :: rest → first = AcceptedConn ∧ AcceptedConn ∉ rest.
Proof.
  intros first rest. assert (∀ closed, single_run ops (mkSingle false closed) = first :: rest → first = AcceptedConn ∧ AcceptedConn ∉ rest) as H; [|apply H].
  induction ops as [|[] ops IH]; intros closed; cbn; [done | | apply IH]. intros [= <- <-]. split; [done|]. intros Hin. by apply single_accepted in Hin.
Qed.

(** ** The theorems at concrete inputs *)
Section witnesses.
#[local] Instance ascii_case : UnicodeCase := {| unicode_ToLower r := r; unicode_ToUpper r := r |}.

Definition login_config : Config := mkConfig 6 None [] (&"user") (&"pass") [] [] (mkProxyConfig [] [] []) (mkMITMSettings true true true) [] None 0.
Definition login_env : session_env := mkSessionEnv (Some login_config) (Some login_config) (&"127.0.0.1:1080") (&"127.0.0.1:4000") None.
(** The client authenticates and connects to 192.0.2.1, port 80. *)
Definition login_bytes : bytes := [5; 1; 2; 1; 4] ++ &"user" ++ [4] ++ &"pass" ++ [5; 1; 0; 1; 192; 0; 2; 1; 0; 80].
Lemma session_admitted_witness :
  ∃ c', handleSOCKSConnection login_env (mkConn login_bytes [] 3) = (Ok ServePlainHTTP, c')
  ∧ ∃ target asked, readSOCKSRequest (cfg_Username login_config) (cfg_Password login_config) (mkConn login_bytes [] 3) = (Ok (socksCommandConnect, target), asked)
  ∧ allowedInboundSOCKSTarget login_config target = true ∧ t_Port target = 80.
Proof.
  destruct (handleSOCKSConnection login_env (mkConn login_bytes [] 3)) as [r c'] eqn:E. exists c'.
  assert (r = Ok ServePlainHTTP) as -> by (vm_compute in E; injection E as <- _; reflexivity).
  split; [reflexivity|].
  destruct (session_admitted login_env (mkConn login_bytes [] 3) c' ServePlainHTTP E) as (cfg & n & methods & ulen & plen & rest & reply & command & target & asked & Hc & Hr & _ & _ & _ & -> & Ht).
  injection Hc as <-. exists target, asked. exact (conj Hr Ht).
Defined.

(** The key of the first connection is accepted a day less a second later, after a rotation the next day. *)
Definition day_calls : list ticket_call :=
  [mkTicketCall 10 None 10; mkTicketCall (mitmTicketKeyLifetime - 1) (Some [8]) mitmTicketKeyLifetime].
Lemma tickets_resume_witness :
  Forall (λ r, match r with Ok keys => [7] ∈ keys ∧ (1 <= length keys <= 2)%nat | Err _ => True end)
    (ticket_run day_calls (mkTicketKeys [[7]] (-5))).1.
Proof.
  apply (tickets_resume (mkTicketKeys [[7]] (-5)) (mkTicketKeys [[7]] (-5)) (mkTicketCall 0 None 0) [7] [] day_calls).
  - cbn. lia.
  - vm_compute. reflexivity.
  - repeat split; vm_compute; discriminate.
  - repeat constructor; vm_compute; reflexivity.
Defined.

(** A writer that takes everything, and a payload of two chunks. *)
Lemma transfer_write_exact_witness :
  ∃ chunks w e, transfer_Write (λ _ chunk, (len chunk, false)) (repeat 7 40000) = Some (chunks, w, e)
  ∧ Forall (λ c, c ≠ [] ∧ len c <= 32768) chunks.
Proof.
  destruct (transfer_write_exact (λ _ chunk, (len chunk, false)) (repeat 7 40000) ltac:(intros n chunk; cbn; lia)) as (chunks & w & e & E & Hf & _).
  exists chunks, w, e. split; [exact E | exact Hf].
Defined.
End witnesses.
