(* ===== verification/UpstreamDial.v ===== *)
(** * The dials of an upstream leg ([proxy.go])

    The functions a transport dials with: the address the HTTP client asks for
    is looked up in the transport projection, and a connection to the gateway's
    proxy asks for the target the projection gives.  The connection to the proxy
    itself, and QUIC over the relay, are libraries. *)
From S2P Require Import Prelude GoStrings GoNet ConfigTypes HostPatterns ScriptConfig TransportProjection Socks.

Section dials.
Context {U : UnicodeCase}.

(** What [DialContext] and [Dial] do before a proxy is dialled. *)
Definition dial_target (projection : upstreamTransportProjection) (address : bytes) : option socksTarget :=
  '(host, portText) ← SplitHostPort address; upstreamTarget (up_targets projection) host portText.

(** [DialContext] of [newHTTPTransportForProjection]; [None] is refused without a connection. *)
Definition dial_TCP (projection : upstreamTransportProjection) (address : bytes) : option (action conn serr unit) :=
  dialSOCKS5TCP (up_proxy projection) <$> dial_target projection address.

(** [Dial] of [newHTTP3Transport]: the relay its datagrams go through, and their target. *)
Definition dial_UDP (lookup : bytes → option (list bytes)) (projection : upstreamTransportProjection) (address : bytes) :
    option (action conn serr (bytes * Z) * socksTarget) :=
  target ← dial_target projection address; Some (dialSOCKS5UDP lookup (up_proxy projection), target).
End dials.

(** ** What an action writes *)

(** The messages of an action are the first ones of a list, all of them when it succeeds. *)
Definition writes {A} (a : action conn serr A) (l : list bytes) : Prop :=
  ∀ c, ∃ w, c_out (a c).2 = c_out c ++ w ∧ w `prefix_of` l ∧ (is_ok (a c).1 = true → w = l).

Lemma writes_bind {A B} (a : action conn serr A) (f : A → action conn serr B) l1 l2 :
  writes a l1 → (∀ x, writes (f x) l2) → writes (a ≫= f) (l1 ++ l2).
Proof.
  intros Ha Hf c. destruct (Ha c) as (w1 & E1 & P1 & O1). unfold mbind, action_bind. destruct (a c) as [[x|e] c1]; cbn [fst snd is_ok] in *.
  - rewrite (O1 eq_refl) in E1. destruct (Hf x c1) as (w2 & E2 & P2 & O2). exists (l1 ++ w2). rewrite E2, E1, app_assoc.
    split; [done|]. split; [by apply prefix_app|]. intros Hok. by rewrite (O2 Hok).
  - exists w1. split; [done|]. split; [by apply prefix_app_r | done].
Qed.
Lemma writes_ret {A} (x : A) : writes (mret x) [].
Proof. intros c. exists []. by rewrite app_nil_r. Qed.
Lemma writes_Write m : writes (Write m) [m].
Proof.
  intros c. unfold Write. destruct (c_writes c); [exists []; rewrite app_nil_r; split; [done|]; split; [apply prefix_nil | done]|].
  by exists [m].
Qed.
Lemma writes_ReadFull n : writes (ReadFull n) [].
Proof. intros c. exists []. unfold ReadFull. rewrite app_nil_r. by destruct (_ <? _)%nat. Qed.
Lemma writes_refuse {A} m l : writes (refuse m : action conn serr A) l.
Proof. intros c. exists []. rewrite app_nil_r. split; [done|]. split; [apply prefix_nil | done]. Qed.
Lemma writes_refuse_with {A} e l : writes ((λ c, (Err e, c)) : action conn serr A) l.
Proof. intros c. exists []. rewrite app_nil_r. split; [done|]. split; [apply prefix_nil | done]. Qed.
Lemma writes_lift {A} (r : res serr A) : writes (lift_res r) [].
Proof. intros c. exists []. rewrite app_nil_r. by destruct r. Qed.

Lemma writes_silent {A B} (a : action conn serr A) (f : A → action conn serr B) l : writes a [] → (∀ x, writes (f x) l) → writes (a ≫= f) l.
Proof. apply (writes_bind a f [] l). Qed.
Lemma writes_lift_bind {A B} (r : res serr A) (f : A → action conn serr B) l : (∀ x, r = Ok x → writes (f x) l) → writes (lift_res r ≫= f) l.
Proof. destruct r as [x|e]; intros Hf; [exact (Hf x eq_refl) | exact (writes_refuse_with e l)]. Qed.
Lemma writes_if {A} (b : bool) (x y : action conn serr A) l : writes x l → writes y l → writes (if b then x else y) l.
Proof. by destruct b. Qed.

#[local] Hint Resolve writes_ret writes_ReadFull writes_refuse writes_lift writes_silent writes_if : core.

Lemma writes_readSOCKSAddress : writes readSOCKSAddress [].
Proof.
  apply writes_silent; [done|]. intros atyp. apply writes_silent; [|intros host; by apply writes_silent].
  repeat apply writes_if; [by apply writes_silent..| |done]. apply writes_silent; [done|]. intros n. by apply writes_if.
Qed.
Lemma writes_readSOCKSClientReply : writes readSOCKSClientReply [].
Proof.
  apply writes_silent; [done|]. intros header. apply writes_if; [done|].
  apply writes_silent; [apply writes_readSOCKSAddress|]. intros address. by apply writes_if.
Qed.

(** The greeting and the credentials of the proxy. *)
Definition login (proxy : ProxyConfig) : list bytes :=
  [[socksVersion; 1; socksAuthUserPass];
   [1; u8 (len (px_Username proxy))] ++ px_Username proxy ++ [u8 (len (px_Password proxy))] ++ px_Password proxy].

Lemma writes_login proxy : writes (authenticateSOCKSClient (px_Username proxy) (px_Password proxy)) (login proxy).
Proof.
  unfold authenticateSOCKSClient. apply writes_if; [done|]. apply (writes_bind _ _ [_] [_]); [apply writes_Write|]. intros _.
  apply writes_silent; [done|]. intros r. apply writes_if; [done|]. apply (writes_bind _ _ [_] []); [apply writes_Write|]. intros _.
  apply writes_silent; [done|]. intros r'. by apply writes_if.
Qed.

(** What is asked of the proxy, once it has let the sidecar in. *)
Definition connect_request (target : socksTarget) : list bytes :=
  match encodeSOCKSAddress target with Ok address => [[socksVersion; socksCommandConnect; 0] ++ address] | Err _ => [] end.

Lemma writes_dialSOCKS5TCP proxy target : writes (dialSOCKS5TCP proxy target) (login proxy ++ connect_request target).
Proof.
  unfold dialSOCKS5TCP, connect_request. apply writes_bind; [apply writes_login|]. intros _. apply writes_lift_bind.
  intros address ->. apply (writes_bind _ _ [_] []); [apply writes_Write|]. intros _.
  apply writes_silent; [apply writes_readSOCKSClientReply | done].
Qed.

(** The request for a relay. *)
Definition associate_request : bytes := [socksVersion; socksCommandUDP; 0; socksAddressIPv4; 0; 0; 0; 0; 0; 0].
Lemma writes_dialSOCKS5UDP lookup proxy : writes (dialSOCKS5UDP lookup proxy) (login proxy ++ [associate_request]).
Proof.
  unfold dialSOCKS5UDP. apply writes_bind; [apply writes_login|]. intros _. apply (writes_bind _ _ [_] []); [apply writes_Write|]. intros _.
  apply writes_silent; [apply writes_readSOCKSClientReply|]. intros relay. apply writes_lift.
Qed.

(** A datagram of a relayed connection is addressed to the connection's target. *)
Lemma fixed_WriteTo_addressed {U : UnicodeCase} target storage payload address packet :
  (fixed_WriteTo target storage payload address).1 = Ok packet →
  parseSOCKSUDPDatagram packet = Ok (payload, mkTarget (wire_host (t_Host target)) (t_Port target)).
Proof.
  unfold fixed_WriteTo, write_packet. destruct (negb _); [done|]. intros Hw. apply udp_roundtrip. unfold encodeSOCKSUDPDatagram.
  change ((encodeSOCKSUDPDatagramInto (mkBuffer 0 0) target payload).2) with ((encodeSOCKSUDPDatagramInto storage target payload).2).
  destruct (encodeSOCKSUDPDatagramInto storage target payload) as [grown [p|e]]; [cbn in *; congruence | done].
Qed.

Section authorized.
Context {U : UnicodeCase} {En : Engines}.

(** C40 (safety): A transport dials for the configuration its generation was made from, whichever is active by then,
    and for every host that stays the same when it is made canonical a second time.  For an address the active extensions of
    that configuration do not allow, nothing is said to the proxy.  For one they allow, a TCP dial asks,
    after the login, for a connection to the target their mappings give and for nothing else, whatever
    the proxy answers; a QUIC dial asks, after the login, for a relay and for nothing else, keeps that target, and
    every datagram it frames for the relay is addressed to it. *)
Theorem dial_authorized (cfg : Config) (lookup : bytes → option (list bytes)) (address host port : bytes)
    (Hs : own_snapshot cfg) (Hsplit : SplitHostPort address = Some (host, port)) (Hhost : canonicalHost (canonicalHost host) = canonicalHost host) :
  let projection := newUpstreamTransportProjection cfg in
  let proxy := cfg_UpstreamProxy cfg in
  match activeModuleUpstreamTarget cfg host port with
  | None => dial_TCP projection address = None ∧ dial_UDP lookup projection address = None
  | Some target =>
      (∃ a, dial_TCP projection address = Some a ∧ writes a (login proxy ++ connect_request target))
      ∧ ∃ a, dial_UDP lookup projection address = Some (a, target) ∧ writes a (login proxy ++ [associate_request])
             ∧ ∀ storage payload to packet, (fixed_WriteTo target storage payload to).1 = Ok packet →
                 parseSOCKSUDPDatagram packet = Ok (payload, mkTarget (wire_host (t_Host target)) (t_Port target))
  end.
Proof.
  cbv zeta. unfold dial_TCP, dial_UDP, dial_target. rewrite Hsplit. cbn [mbind option_bind]. rewrite (projection_agrees cfg host port Hs Hhost).
  destruct (activeModuleUpstreamTarget cfg host port) as [target|]; [|done]. cbn [mbind option_bind fmap option_fmap option_map].
  split; eexists; (split; [reflexivity|]); [apply writes_dialSOCKS5TCP|]. split; [apply writes_dialSOCKS5UDP|].
  intros storage payload to packet. apply fixed_WriteTo_addressed.
Qed.
End authorized.

(** One extension that maps its host, and a proxy that accepts: what a dial says to it. *)
#[local] Instance dial_case : UnicodeCase := {| unicode_ToLower r := r; unicode_ToUpper r := r |}.
#[local] Instance dial_engines : Engines :=
  {| regexp_Compile _ := true; regexp_MatchString p s := HasPrefix s p; goja_Compile _ body := Some body; gojq_Compile _ := true; render_value _ := [] |}.
Definition dial_config : Config :=
  mkConfig 6 (Some [&"ext"]) [] [] [] [] [] (mkProxyConfig (&"127.0.0.1:17890") (&"u") (&"p")) (mkMITMSettings true true true)
    [mkModule (&"ext") (&"1") (&"Ext") [] true [] (mkModuleSource [] [] []) [&"api.example.com"] (&"trust") [mkHostMapping (&"api.example.com") (&"edge.example.net")] [] [] []
       false false false []] None 0.
Definition willing_proxy : conn := mkConn ([5; 2] ++ [1; 0] ++ [5; 0; 0; 1; 0; 0; 0; 0; 0; 0]) [] 3.
Lemma dial_authorized_witness :
  ∃ a, dial_TCP (newUpstreamTransportProjection dial_config) (&"api.example.com:443") = Some a
  ∧ (a willing_proxy).1 = Ok tt
  ∧ c_out (a willing_proxy).2 = [[5; 1; 2]; [1; 1; #"u"; 1; #"p"]; [5; 1; 0; 3; 16] ++ &"edge.example.net" ++ [1; 187]].
Proof.
  pose proof (dial_authorized dial_config (λ _, None) (&"api.example.com:443") (&"api.example.com") (&"443") I
    ltac:(vm_compute; reflexivity) ltac:(vm_compute; reflexivity)) as H.
  cbv zeta in H. destruct (activeModuleUpstreamTarget dial_config (&"api.example.com") (&"443")) as [target|] eqn:Et; [|vm_compute in Et; discriminate Et].
  destruct H as [(a & Ha & Hw) _]. exists a. split; [exact Ha|].
  assert ((λ f : action conn serr unit, (f willing_proxy).1) <$> dial_TCP (newUpstreamTransportProjection dial_config) (&"api.example.com:443") = Some (Ok tt)) as Hrun
    by (vm_compute; reflexivity).
  assert ((a willing_proxy).1 = Ok tt) as Hok by (rewrite Ha in Hrun; injection Hrun as Hrun; exact Hrun).
  split; [exact Hok|]. destruct (Hw willing_proxy) as (w & E & _ & Hall). rewrite E, Hall by (by rewrite Hok).
  vm_compute in Et. injection Et as <-. vm_compute. reflexivity.
Defined.
