(* ===== verification/EngineLogHub.v ===== *)
(** * The engine log hub ([engine_logs.go])

    Producers, readers and the close of the hub interleave; every critical
    section under [h.mu] is one step.  [Publish] has two of them, with the
    event encoded in between, so an event is in flight from the first to the
    second.  A reader that found nothing waits on its one-slot channel. *)
From S2P Require Import Prelude GoStrings ConfigTypes Identifiers.

Definition engineLogRingCapacity : Z := 1000.
Definition maxEngineLogMessageBytes : nat := 2048.
Definition maxEngineLogURLBytes : nat := 4096.
Definition maxEngineLogJSONBytes : Z := 8 * 1024.

Record EngineLog := mkEngineLog {
  l_Time : bytes;
  l_Level : bytes;
  l_Source : bytes;
  l_Extension : bytes;
  l_Action : bytes;
  l_Phase : bytes;
  l_DurationMS : float64;
  l_URL : bytes;
  l_ScriptDigest : bytes;
  l_Message : bytes;
}.

(** [url.Parse], the stripping of credentials, query and fragment, and
    [URL.String]: none when the text does not parse or names no scheme or host. *)
Class LogEncoding := {
  strip_url : bytes → option bytes;
  json_Marshal : EngineLog → option bytes;
}.

(** ** Normalization *)
Definition validEngineLogDigest (value : bytes) : bool :=
  (len value =? 64) && forallb (λ r, is_digit r || ((#"a" <=? r) && (r <=? #"f"))) (runes value).

(** The loop that drops bytes until the text is valid; the fuel is its length. *)
Fixpoint shrink_valid (fuel : nat) (prefix : bytes) : bytes :=
  match fuel with
  | O => prefix
  | S fuel' => if (0 <? len prefix) && negb (ValidString prefix)
               then shrink_valid fuel' (take (length prefix - 1) prefix) else prefix
  end.

Definition replacement : bytes := [0xEF; 0xBF; 0xBD].

Definition truncateEngineLogField (value : bytes) (limit : nat) : bytes :=
  if (limit =? 0)%nat then []
  else
    let truncated := (limit <? length value)%nat in
    if truncated && (limit <=? 3)%nat then replicate limit #"."
    else
      let budget := if truncated then (limit - 3)%nat else limit in
      let value := take budget value in
      let value := ToValidUTF8 value replacement in
      let value := take budget value in
      let prefix := shrink_valid (length value) value in
      if truncated then prefix ++ &"..." else prefix.

Definition f64 (z : Z) : float64 := binary_normalize 53 1024 z 0 false.

Definition bad_duration (d : float64) : bool :=
  match d with
  | S754_nan => true
  | S754_infinity _ => true
  | _ => SFltb d (f64 0)
  end.

Section normalize.
Context {L : LogEncoding}.

Definition sanitizeEngineLogURL (raw : bytes) : bytes :=
  if bool_decide (raw = []) then []
  else match strip_url (truncateEngineLogField raw maxEngineLogURLBytes) with
       | None => []
       | Some text => truncateEngineLogField text maxEngineLogURLBytes
       end.

Definition normalizeEngineLog (event : EngineLog) (now : bytes) : res string EngineLog :=
  _ ← reject_if (negb (containsString [&"info"; &"warn"; &"error"] (l_Level event))) "level"%string;
  _ ← reject_if (negb (containsString [&"script"; &"engine"] (l_Source event))) "source"%string;
  _ ← reject_if (negb (bool_decide (l_Extension event = [])) && negb (validModuleID (l_Extension event))) "extension"%string;
  _ ← reject_if (negb (bool_decide (l_Action event = [])) && negb (validSettingKey (l_Action event))) "action"%string;
  _ ← reject_if (bool_decide (l_Source event = &"script")
                 && (bool_decide (l_Extension event = []) || bool_decide (l_Action event = []))) "script"%string;
  _ ← reject_if (negb (bool_decide (l_Phase event = [])) && negb (bool_decide (l_Phase event = &"request"))
                 && negb (bool_decide (l_Phase event = &"response"))) "phase"%string;
  _ ← reject_if (negb (bool_decide (l_ScriptDigest event = [])) && negb (validEngineLogDigest (l_ScriptDigest event))) "digest"%string;
  _ ← reject_if (bad_duration (l_DurationMS event)) "duration"%string;
  Ok (mkEngineLog now (l_Level event) (l_Source event) (l_Extension event) (l_Action event) (l_Phase event)
        (if SFltb (f64 300000) (l_DurationMS event) then f64 300000 else l_DurationMS event)
        (sanitizeEngineLogURL (l_URL event)) (l_ScriptDigest event)
        (truncateEngineLogField (l_Message event) maxEngineLogMessageBytes)).

(** The payload of an event, or none when the hub refuses it. *)
Definition encodeEvent (event : EngineLog) (now : bytes) : option bytes :=
  match normalizeEngineLog event now with
  | Err _ => None
  | Ok normalized =>
      match json_Marshal normalized with
      | None => None
      | Some payload => if maxEngineLogJSONBytes <? len payload then None else Some payload
      end
  end.
End normalize.

(** ** The hub *)
Record subscription := mkSubscription {
  s_cursor : Z;
  (** The one-slot channel: a token in it, and whether it is closed. *)
  s_token : bool;
  s_wake_closed : bool;
  s_closed : bool;
  (** Parked in the select of [Next]. *)
  s_waiting : bool;
  (** Indices of the events handed out so far, newest first. *)
  s_seen : list nat;
}.

Record hub := mkHub {
  h_ring : list bytes;
  h_next : Z;
  h_closed : bool;
  h_readers : gset nat;
  h_subscribers : Z;
  h_dropped : Z;
  h_subs : list subscription;
  (** Encoded events between the two critical sections of [Publish]. *)
  h_flight : list bytes;
  (** Every event ever put into the ring, oldest first. *)
  h_history : list bytes;
}.

Definition newEngineLogHub (capacity : Z) : hub :=
  let capacity := if (capacity <=? 0) || (engineLogRingCapacity <? capacity) then engineLogRingCapacity else capacity in
  mkHub (replicate (Z.to_nat capacity) []) 0 false ∅ 0 0 [] [] [].

Definition HasSubscribers (h : hub) : bool := 0 <? h_subscribers h.

(** First critical section: the event is encoded, counted as dropped, or ignored. *)
Definition publish_begin (payload : option bytes) (h : hub) : hub :=
  if negb (HasSubscribers h) then h
  else if h_closed h || (h_subscribers h =? 0) then h
  else match payload with
       | None => mkHub (h_ring h) (h_next h) (h_closed h) (h_readers h) (h_subscribers h)
                   (u64 (h_dropped h + 1)) (h_subs h) (h_flight h) (h_history h)
       | Some p => mkHub (h_ring h) (h_next h) (h_closed h) (h_readers h) (h_subscribers h)
                     (h_dropped h) (h_subs h) (h_flight h ++ [p]) (h_history h)
       end.

Definition wake (s : subscription) : subscription :=
  mkSubscription (s_cursor s) true (s_wake_closed s) (s_closed s) (s_waiting s) (s_seen s).

Definition wake_readers (readers : gset nat) (subs : list subscription) : list subscription :=
  imap (λ i s, if bool_decide (i ∈ readers) then wake s else s) subs.

Definition ring_slot (sequence : Z) (ring : list bytes) : nat := Z.to_nat (sequence mod len ring).

(** Second critical section, for the [k]-th event in flight. *)
Definition publish_end (k : nat) (h : hub) : hub :=
  match h_flight h !! k with
  | None => h
  | Some payload =>
      let flight := delete k (h_flight h) in
      if h_closed h then
        mkHub (h_ring h) (h_next h) (h_closed h) (h_readers h) (h_subscribers h) (h_dropped h) (h_subs h)
          flight (h_history h)
      else
        mkHub (<[ring_slot (h_next h) (h_ring h) := payload]> (h_ring h)) (u64 (h_next h + 1)) (h_closed h)
          (h_readers h) (h_subscribers h) (h_dropped h) (wake_readers (h_readers h) (h_subs h)) flight
          (h_history h ++ [payload])
  end.

(** A new subscription is the next index of [h_subs]; none on a closed hub. *)
Definition Subscribe (h : hub) : option nat * hub :=
  if h_closed h then (None, h)
  else (Some (length (h_subs h)),
        mkHub (h_ring h) (h_next h) (h_closed h) ({[length (h_subs h)]} ∪ h_readers h) (h_subscribers h + 1)
          (h_dropped h) (h_subs h ++ [mkSubscription (h_next h) false false false false []])
          (h_flight h) (h_history h)).

Inductive next_result := EOF | Payload (p : bytes) | Park.

Definition with_subs (subs : list subscription) (h : hub) : hub :=
  mkHub (h_ring h) (h_next h) (h_closed h) (h_readers h) (h_subscribers h) (h_dropped h) subs
    (h_flight h) (h_history h).

(** One pass of the loop of [Next], up to the unlock. *)
Definition next_try (i : nat) (h : hub) : next_result * hub :=
  match h_subs h !! i with
  | None => (EOF, h)
  | Some s =>
      if s_closed s || h_closed h then (EOF, h)
      else
        let oldest := if len (h_ring h) <? h_next h then h_next h - len (h_ring h) else 0 in
        let cursor := if s_cursor s <? oldest then oldest else s_cursor s in
        if cursor <? h_next h then
          (Payload (nth (ring_slot cursor (h_ring h)) (h_ring h) []),
           with_subs (<[i := mkSubscription (u64 (cursor + 1)) (s_token s) (s_wake_closed s) (s_closed s) false
                               (Z.to_nat cursor :: s_seen s)]> (h_subs h)) h)
        else
          (Park, with_subs (<[i := mkSubscription cursor (s_token s) (s_wake_closed s) (s_closed s) true
                                     (s_seen s)]> (h_subs h)) h)
  end.

(** The select of a parked reader takes the token, if there is one. *)
Definition take_token (i : nat) (h : hub) : hub :=
  match h_subs h !! i with
  | Some s => if s_waiting s && s_token s
              then with_subs (<[i := mkSubscription (s_cursor s) false (s_wake_closed s) (s_closed s) false
                                       (s_seen s)]> (h_subs h)) h
              else h
  | None => h
  end.

Definition close_sub (s : subscription) : subscription :=
  mkSubscription (s_cursor s) (s_token s) true true (s_waiting s) (s_seen s).

(** [engineLogSubscription.Close]. *)
Definition sub_Close (i : nat) (h : hub) : hub :=
  match h_subs h !! i with
  | Some s => if s_closed s then h
              else mkHub (h_ring h) (h_next h) (h_closed h) (h_readers h ∖ {[i]}) (h_subscribers h - 1)
                     (h_dropped h) (<[i := close_sub s]> (h_subs h)) (h_flight h) (h_history h)
  | None => h
  end.

(** [engineLogHub.Close]. *)
Definition hub_Close (h : hub) : hub :=
  if h_closed h then h
  else mkHub (h_ring h) (h_next h) true ∅ 0 (h_dropped h)
         (imap (λ i s, if bool_decide (i ∈ h_readers h) then close_sub s else s) (h_subs h))
         (h_flight h) (h_history h).

Inductive hub_step : hub → hub → Prop :=
| hs_begin payload h : hub_step h (publish_begin payload h)
| hs_end k h : hub_step h (publish_end k h)
| hs_subscribe h : hub_step h (Subscribe h).2
| hs_next i h : hub_step h (next_try i h).2
| hs_token i h : hub_step h (take_token i h)
| hs_close i h : hub_step h (sub_Close i h)
| hs_close_hub h : hub_step h (hub_Close h).

(** ** The invariant of the hub *)
Definition cap (h : hub) : Z := len (h_ring h).

Definition sub_ok (next : Z) (s : subscription) : Prop :=
  0 <= s_cursor s <= next
  ∧ StronglySorted (λ a b, b < a)%nat (s_seen s)
  ∧ Forall (λ k, Z.of_nat k < s_cursor s) (s_seen s)
  ∧ s_wake_closed s = s_closed s
  ∧ (s_waiting s = true → s_closed s = false → s_cursor s < next → s_token s = true).

Record hub_inv (h : hub) : Prop := {
  hi_cap : 0 < cap h <= engineLogRingCapacity;
  hi_readers : ∀ i, i ∈ h_readers h ↔ ∃ s, h_subs h !! i = Some s ∧ s_closed s = false;
  hi_count : h_subscribers h = Z.of_nat (size (h_readers h));
  hi_closed : h_closed h = true → h_readers h = ∅;
  hi_next : len (h_history h) < 2 ^ 64 → h_next h = len (h_history h);
  hi_ring : len (h_history h) < 2 ^ 64 →
    ∀ k : nat, len (h_history h) - cap h <= Z.of_nat k →
      (k < length (h_history h))%nat →
      h_ring h !! ring_slot (Z.of_nat k) (h_ring h) = h_history h !! k;
  hi_subs : len (h_history h) < 2 ^ 64 → Forall (sub_ok (len (h_history h))) (h_subs h);
}.

Lemma slot_range seq ring : 0 < len ring → (ring_slot seq ring < length ring)%nat.
Proof. unfold ring_slot. intros Hc. pose proof (Z.mod_pos_bound seq _ Hc). lia. Qed.

Lemma slot_ne (n k : Z) ring :
  0 < len ring → k < n → n - k < len ring → ring_slot k ring ≠ ring_slot n ring.
Proof.
  unfold ring_slot. intros Hc Hk Hn E. pose proof (Z.mod_pos_bound k _ Hc). pose proof (Z.mod_pos_bound n _ Hc).
  assert (k mod len ring = n mod len ring) as Em by lia.
  assert ((n - k) mod len ring = 0) as Ez by (rewrite Zminus_mod, Em, Z.sub_diag; by apply Z.mod_0_l; lia).
  rewrite Z.mod_small in Ez; lia.
Qed.

Lemma sub_ok_closed next s : sub_ok next s → sub_ok next (close_sub s).
Proof. intros (? & ? & ? & ? & ?). repeat split; simpl; try done; lia. Qed.

Lemma sub_ok_woken next s : sub_ok next s → sub_ok (next + 1) (wake s).
Proof. intros ([? ?] & ? & ? & ? & ?). split; [simpl; lia|]. split; [done|]. split; [done|]. by split. Qed.

Lemma sub_ok_closed_later next s : sub_ok next s → s_closed s = true → sub_ok (next + 1) s.
Proof. intros ([? ?] & ? & ? & ? & ?) Hc. split; [lia|]. split; [done|]. split; [done|]. split; [done|]. congruence. Qed.

Lemma new_hub_inv capacity : hub_inv (newEngineLogHub capacity).
Proof.
  unfold newEngineLogHub, engineLogRingCapacity. split; unfold cap; simpl; try done; try lia.
  - rewrite length_replicate. unfold engineLogRingCapacity.
    destruct ((capacity <=? 0) || (1000 <? capacity)) eqn:E; [lia|]. apply orb_false_elim in E as [??]. bools. lia.
  - intros i. split; [by intros ?%elem_of_empty | by intros (s & E & _)].
Qed.

(** Steps that leave the events and the readers alone. *)
Lemma inv_same_events h h' :
  hub_inv h → h_ring h' = h_ring h → h_next h' = h_next h → h_closed h' = h_closed h →
  h_readers h' = h_readers h → h_subscribers h' = h_subscribers h → h_history h' = h_history h →
  (∀ i, (∃ s, h_subs h' !! i = Some s ∧ s_closed s = false) ↔ ∃ s, h_subs h !! i = Some s ∧ s_closed s = false) →
  (len (h_history h) < 2 ^ 64 → Forall (sub_ok (len (h_history h))) (h_subs h')) →
  hub_inv h'.
Proof.
  intros [I1 I2 I3 I4 I5 I6 I7] E1 E2 E3 E4 E5 E6 Hr Hs. unfold cap in *.
  split; unfold cap; rewrite ?E1, ?E2, ?E3, ?E4, ?E5, ?E6; auto. intros i. rewrite I2. by rewrite Hr.
Qed.

Lemma subs_update_open (subs : list subscription) i s s' j :
  subs !! i = Some s → s_closed s' = s_closed s →
  (∃ x, <[i := s']> subs !! j = Some x ∧ s_closed x = false) ↔ ∃ x, subs !! j = Some x ∧ s_closed x = false.
Proof.
  intros Hi Hc. destruct (decide (i = j)) as [<-|Hne].
  - rewrite list_lookup_insert_eq by (by eapply lookup_lt_Some). naive_solver congruence.
  - by rewrite list_lookup_insert_ne.
Qed.

Lemma publish_begin_inv payload h : hub_inv h → hub_inv (publish_begin payload h).
Proof.
  intros Hi. unfold publish_begin. destruct (negb _); [done|]. destruct (_ || _); [done|].
  destruct payload; (apply (inv_same_events h); try done; apply Hi).
Qed.

Lemma publish_end_inv k h : hub_inv h → hub_inv (publish_end k h).
Proof.
  intros Hi. unfold publish_end. destruct (h_flight h !! k) as [payload|]; [|done].
  destruct (h_closed h) eqn:Hcl; [apply (inv_same_events h); try done; apply Hi|].
  destruct Hi as [I1 I2 I3 I4 I5 I6 I7]. unfold cap in *.
  split; unfold cap; simpl; rewrite ?length_insert; try done.
  - intros i. rewrite I2. unfold wake_readers. rewrite list_lookup_imap. split.
    + intros (s & E & Ho). rewrite E. simpl. eexists. split; [done|]. by case_bool_decide.
    + intros (s & E & Ho). apply fmap_Some in E as (s0 & E & ->). rewrite E. eexists. split; [done|].
      by case_bool_decide.
  - rewrite length_app. simpl. intros Hb. rewrite I5 by lia. unfold wrap. rewrite Z.mod_small; lia.
  - rewrite length_app. simpl. intros Hb j Hj Hlt. rewrite I5 by lia.
    assert (ring_slot (Z.of_nat j) (<[ring_slot (len (h_history h)) (h_ring h) := payload]> (h_ring h))
            = ring_slot (Z.of_nat j) (h_ring h)) as -> by (unfold ring_slot; by rewrite length_insert).
    destruct (decide (j = length (h_history h))) as [->|Hne].
    + rewrite list_lookup_insert_eq by (apply slot_range; lia). by rewrite list_lookup_middle.
    + rewrite list_lookup_insert_ne by (apply not_eq_sym, slot_ne; lia).
      rewrite I6 by lia. by rewrite lookup_app_l by lia.
  - rewrite length_app. simpl. intros Hb. specialize (I7 ltac:(lia)).
    replace (Z.of_nat (length (h_history h) + 1)) with (len (h_history h) + 1) by lia.
    apply Forall_lookup. intros i s E. unfold wake_readers in E. rewrite list_lookup_imap in E.
    apply fmap_Some in E as (s0 & E & ->). pose proof (proj1 (Forall_lookup _ _) I7 i s0 E) as Hok.
    case_bool_decide as Hin; [by apply sub_ok_woken|]. apply sub_ok_closed_later; [done|].
    destruct (s_closed s0) eqn:Hs; [done|]. exfalso. apply Hin, I2. eauto.
Qed.

Lemma Subscribe_inv h : hub_inv h → hub_inv (Subscribe h).2.
Proof.
  intros Hi. unfold Subscribe. destruct (h_closed h) eqn:Hcl; [done|].
  destruct Hi as [I1 I2 I3 I4 I5 I6 I7]. split; simpl; try done.
  - intros i. rewrite elem_of_union, elem_of_singleton, I2. split.
    + intros [->|(s & E & Ho)].
      * eexists. rewrite list_lookup_middle by done. done.
      * exists s. split; [by apply lookup_app_l_Some | done].
    + intros (s & E & Ho). apply lookup_app_Some in E as [E|[Hl E]]; [right; eauto|].
      destruct (i - length (h_subs h))%nat as [|] eqn:Ei; [left; lia | done].
  - rewrite I3, size_union, size_singleton; [lia|].
    intros x ->%elem_of_singleton Hx. apply I2 in Hx as (s & E & _). apply lookup_lt_Some in E. lia.
  - intros Hb. apply Forall_app. split; [auto|]. apply Forall_singleton. rewrite (I5 Hb).
    repeat split; simpl; try constructor; lia.
Qed.

(** The event a reader is given, and where. *)
Definition next_index (h : hub) (s : subscription) : Z :=
  Z.max (s_cursor s) (Z.max 0 (len (h_history h) - cap h)).

Lemma next_try_cases i h s :
  hub_inv h → len (h_history h) < 2 ^ 64 → h_subs h !! i = Some s →
  s_closed s = false → h_closed h = false →
  let c := next_index h s in
  (c < len (h_history h) ∧ ∃ p, h_history h !! Z.to_nat c = Some p ∧
     next_try i h = (Payload p,
       with_subs (<[i := mkSubscription (c + 1) (s_token s) (s_wake_closed s) false false
                           (Z.to_nat c :: s_seen s)]> (h_subs h)) h))
  ∨ (c = len (h_history h) ∧
     next_try i h = (Park, with_subs (<[i := mkSubscription c (s_token s) (s_wake_closed s) false true
                                          (s_seen s)]> (h_subs h)) h)).
Proof.
  intros Hi Hb Hs Ho Hc c. destruct Hi as [I1 I2 I3 I4 I5 I6 I7].
  pose proof (proj1 (Forall_lookup _ _) (I7 Hb) i s Hs) as (Hcur & _).
  unfold next_try. rewrite Hs, Ho, Hc. cbn [orb]. unfold cap in *. rewrite (I5 Hb).
  set (o := if len (h_ring h) <? len (h_history h) then len (h_history h) - len (h_ring h) else 0).
  assert ((if s_cursor s <? o then o else s_cursor s) = c) as Ec.
  { unfold c, next_index, cap, o. destruct (Z.ltb_spec (len (h_ring h)) (len (h_history h)));
      match goal with |- context [s_cursor s <? ?z] => destruct (Z.ltb_spec (s_cursor s) z) end; lia. }
  cbv zeta. rewrite !Ec.
  assert (0 <= c <= len (h_history h)) by (unfold c, next_index, cap; lia).
  destruct (Z.ltb_spec c (len (h_history h))) as [Hlt|Hge]; [left | right; split; [lia | done]].
  split; [done|]. destruct (lookup_lt_is_Some_2 (h_history h) (Z.to_nat c)) as [p Hp]; [lia|].
  exists p. split; [done|]. f_equal.
  - f_equal. specialize (I6 Hb (Z.to_nat c)). rewrite Z2Nat.id, Hp in I6 by lia.
    apply nth_lookup_Some. apply I6; [unfold c, next_index, cap; lia | lia].
  - by rewrite wrap_id by lia.
Qed.

Lemma next_try_inv i h : hub_inv h → hub_inv (next_try i h).2.
Proof.
  intros Hi. destruct (h_subs h !! i) as [s|] eqn:Hs; [|unfold next_try; by rewrite Hs].
  destruct (s_closed s || h_closed h) eqn:Hc; [unfold next_try; by rewrite Hs, Hc|].
  apply orb_false_elim in Hc as [Ho Hc].
  apply (inv_same_events h); [done|unfold next_try; rewrite Hs, Ho, Hc; cbn [orb]; by destruct (_ <? h_next h)..| |].
  - intros j. unfold next_try. rewrite Hs, Ho, Hc. cbn [orb].
    destruct (_ <? h_next h); simpl; by apply (subs_update_open _ _ s).
  - intros Hb. pose proof (proj1 (Forall_lookup _ _) (hi_subs _ Hi Hb) i s Hs) as (Hcur & Hso & Hal & Hw & Hwk).
    destruct (next_try_cases i h s Hi Hb Hs Ho Hc) as [(Hlt & p & _ & ->)|(He & ->)]; simpl;
      (apply Forall_insert; [by apply hi_subs|]); unfold next_index in *.
    + repeat split; simpl; try done; try lia; try congruence.
      * constructor; [done|]. eapply Forall_impl; [exact Hal|]. simpl. intros k Hk. lia.
      * constructor; [lia|]. eapply Forall_impl; [exact Hal|]. simpl. intros k Hk. lia.
    + repeat split; simpl; try lia; try done; try congruence.
      eapply Forall_impl; [exact Hal|]. simpl. intros k Hk. lia.
Qed.

Lemma take_token_inv i h : hub_inv h → hub_inv (take_token i h).
Proof.
  intros Hi. unfold take_token. destruct (h_subs h !! i) as [s|] eqn:Hs; [|done].
  destruct (s_waiting s && s_token s); [|done]. apply (inv_same_events h); try done; simpl.
  - intros j. by apply (subs_update_open _ _ s).
  - intros Hb. apply Forall_insert; [by apply hi_subs|].
    pose proof (proj1 (Forall_lookup _ _) (hi_subs _ Hi Hb) i s Hs) as (? & ? & ? & ? & _).
    by repeat split; simpl; try lia.
Qed.

Lemma sub_Close_inv i h : hub_inv h → hub_inv (sub_Close i h).
Proof.
  intros Hi. unfold sub_Close. destruct (h_subs h !! i) as [s|] eqn:Hs; [|done].
  destruct (s_closed s) eqn:Ho; [done|]. destruct Hi as [I1 I2 I3 I4 I5 I6 I7].
  assert (i ∈ h_readers h) as Hin by (apply I2; eauto).
  split; simpl; try done.
  - intros j. rewrite elem_of_difference, elem_of_singleton, I2. destruct (decide (i = j)) as [<-|Hne].
    + rewrite list_lookup_insert_eq by (by eapply lookup_lt_Some). naive_solver.
    + rewrite list_lookup_insert_ne by done. naive_solver.
  - rewrite I3, size_difference, size_singleton by set_solver.
    assert (size (h_readers h) ≠ 0%nat). { intros Hz. apply size_empty_inv in Hz. set_solver. } lia.
  - intros Hc. rewrite (I4 Hc) in Hin. set_solver.
  - intros Hb. apply Forall_insert; [auto|]. apply sub_ok_closed. by eapply (proj1 (Forall_lookup _ _) (I7 Hb)).
Qed.

Lemma hub_Close_inv h : hub_inv h → hub_inv (hub_Close h).
Proof.
  intros Hi. unfold hub_Close. destruct (h_closed h) eqn:Hc; [done|]. destruct Hi as [I1 I2 I3 I4 I5 I6 I7].
  split; simpl; try done.
  - intros i. split; [by intros ?%elem_of_empty|]. intros (s & E & Ho). rewrite list_lookup_imap in E.
    apply fmap_Some in E as (s0 & E & ->). case_bool_decide as Hin; [done|]. exfalso. apply Hin, I2. eauto.
  - intros Hb. apply Forall_lookup. intros i s E. rewrite list_lookup_imap in E.
    apply fmap_Some in E as (s0 & E & ->). pose proof (proj1 (Forall_lookup _ _) (I7 Hb) i s0 E).
    case_bool_decide; [by apply sub_ok_closed | done].
Qed.

Lemma hub_step_inv h h' : hub_inv h → hub_step h h' → hub_inv h'.
Proof.
  intros Hi Hs. destruct Hs; auto using publish_begin_inv, publish_end_inv, Subscribe_inv, next_try_inv,
    take_token_inv, sub_Close_inv, hub_Close_inv.
Qed.

Lemma hub_reachable_inv capacity h : rtc hub_step (newEngineLogHub capacity) h → hub_inv h.
Proof.
  intros Hr. assert (hub_inv (newEngineLogHub capacity)) as Hi by apply new_hub_inv.
  induction Hr as [|h1 h2 h3 Hs _ IH]; [done|]. by eapply IH, hub_step_inv.
Qed.

(** ** Properties *)

(** A hub of two slots: one reader subscribes and parks, three events are published. *)
Definition publish (p : bytes) (h : hub) : hub := publish_end 0 (publish_begin (Some p) h).
Definition example_parked : hub := (next_try 0 (Subscribe (newEngineLogHub 2)).2).2.
Definition example_hub : hub := publish &"c" (publish &"b" (publish &"a" example_parked)).
Definition example_reader : subscription := mkSubscription 0 true false false true [].

Lemma publish_steps p h h' : rtc hub_step h h' → rtc hub_step h (publish p h').
Proof. intros Hr. eapply rtc_r; [eapply rtc_r; [exact Hr | apply hs_begin] | apply hs_end]. Qed.

Lemma example_hub_reachable : rtc hub_step (newEngineLogHub 2) example_hub.
Proof.
  do 3 apply publish_steps. eapply rtc_l; [apply hs_subscribe|]. eapply rtc_l; [apply hs_next|]. apply rtc_refl.
Qed.

(** C34 (refinement): in every state the hub can reach, through any interleaving of producers,
    readers and closes, a reader that asks for an event gets exactly the published event its
    position names, and its positions only grow: events arrive in publication order and never
    twice.  An event is skipped only when the ring has overwritten it: the reader resumes at its
    own position or, if that is gone, at the oldest event still in the ring.  A reader that has
    seen everything parks. *)
Theorem next_in_order (capacity : Z) (h : hub) (i : nat) (s : subscription) :
  rtc hub_step (newEngineLogHub capacity) h → len (h_history h) < 2 ^ 64 →
  h_subs h !! i = Some s → s_closed s = false → h_closed h = false →
  let at_ := Z.max (s_cursor s) (Z.max 0 (len (h_history h) - cap h)) in
  StronglySorted (λ a b, b < a)%nat (s_seen s) ∧ Forall (λ k, Z.of_nat k < at_) (s_seen s)
  ∧ ((at_ < len (h_history h) ∧ ∃ p s', h_history h !! Z.to_nat at_ = Some p
        ∧ (next_try i h).1 = Payload p ∧ h_subs (next_try i h).2 !! i = Some s'
        ∧ s_cursor s' = at_ + 1 ∧ s_seen s' = Z.to_nat at_ :: s_seen s)
     ∨ (at_ = len (h_history h) ∧ (next_try i h).1 = Park)).
Proof.
  intros Hr%hub_reachable_inv Hb Hs Ho Hc at_.
  pose proof (proj1 (Forall_lookup _ _) (hi_subs _ Hr Hb) i s Hs) as (_ & Hso & Hal & _).
  split; [done|]. split; [eapply Forall_impl; [exact Hal|]; simpl; intros k Hk; unfold at_; lia|].
  destruct (next_try_cases i h s Hr Hb Hs Ho Hc) as [(Hlt & p & Hp & E)|(He & E)]; rewrite E; [left|right; done].
  split; [done|]. exists p. eexists. split; [done|]. split; [done|]. simpl.
  rewrite list_lookup_insert_eq by (by eapply lookup_lt_Some). done.
Qed.

(** The first event is gone from the ring, the reader is given the second. *)
Lemma next_in_order_witness :
  (next_try 0 example_hub).1 = Payload &"b".
Proof.
  destruct (next_in_order 2 example_hub 0 example_reader example_hub_reachable) as (_ & _ & H);
    [by vm_compute | reflexivity | reflexivity | reflexivity |].
  destruct H as [(_ & p & s' & Hp & E & _)|(E & _)]; [|by vm_compute in E].
  rewrite E. vm_compute in Hp. by injection Hp as <-.
Defined.

(** No wake-up is lost.  In every reachable state, a parked reader that has an
    event to read has a token in its channel, so it is not blocked: taking the token and trying
    again yields the event. *)
Theorem no_lost_wakeup (capacity : Z) (h : hub) (i : nat) (s : subscription) :
  rtc hub_step (newEngineLogHub capacity) h → len (h_history h) < 2 ^ 64 →
  h_subs h !! i = Some s → s_closed s = false → h_closed h = false →
  s_waiting s = true → s_cursor s < len (h_history h) →
  s_token s = true ∧ ∃ p, p ∈ h_history h ∧ (next_try i (take_token i h)).1 = Payload p.
Proof.
  intros Hr%hub_reachable_inv Hb Hs Ho Hc Hw Hlt.
  pose proof (proj1 (Forall_lookup _ _) (hi_subs _ Hr Hb) i s Hs) as (Hcu & _ & _ & _ & Htok).
  assert (s_token s = true) as Ht by auto. split; [done|].
  set (h2 := take_token i h). assert (hub_inv h2) as Hi2 by (by apply take_token_inv).
  set (s2 := mkSubscription (s_cursor s) false (s_wake_closed s) (s_closed s) false (s_seen s)).
  assert (h2 = with_subs (<[i := s2]> (h_subs h)) h) as E2.
  { unfold h2, take_token. by rewrite Hs, Hw, Ht. }
  assert (h_subs h2 !! i = Some s2) as Hs2.
  { rewrite E2. simpl. apply list_lookup_insert_eq. by eapply lookup_lt_Some. }
  assert (h_history h2 = h_history h) as Eh by by rewrite E2.
  destruct (next_try_cases i h2 s2 Hi2) as [(_ & p & Hp & E)|(He & _)];
    [by rewrite Eh | done | done | by rewrite E2 | |].
  - exists p. rewrite E. split; [|done]. rewrite <- Eh. by eapply list_elem_of_lookup_2.
  - exfalso. unfold next_index in He. rewrite Eh in He. simpl in He.
    pose proof (hi_cap _ Hi2). lia.
Qed.

Lemma no_lost_wakeup_witness :
  s_token example_reader = true
  ∧ ∃ p, p ∈ h_history example_hub ∧ (next_try 0 (take_token 0 example_hub)).1 = Payload p.
Proof.
  apply (no_lost_wakeup 2 example_hub 0 example_reader example_hub_reachable);
    [by vm_compute | reflexivity | reflexivity | reflexivity | reflexivity | by vm_compute].
Defined.

(** The subscriber count is the number of open readers, a closed hub has none,
    and with no subscriber a publication costs nothing: the hub does not change. *)
Theorem subscriber_count (capacity : Z) (h : hub) (payload : option bytes) :
  rtc hub_step (newEngineLogHub capacity) h →
  h_subscribers h = Z.of_nat (size (h_readers h))
  ∧ (∀ i, i ∈ h_readers h ↔ ∃ s, h_subs h !! i = Some s ∧ s_closed s = false)
  ∧ (h_closed h = true → h_readers h = ∅)
  ∧ (h_readers h = ∅ → publish_begin payload h = h).
Proof.
  intros Hr%hub_reachable_inv. split; [apply Hr|]. split; [apply Hr|]. split; [apply Hr|].
  intros He. unfold publish_begin, HasSubscribers. rewrite (hi_count _ Hr), He, size_empty. done.
Qed.

Lemma subscriber_count_witness :
  h_subscribers example_hub = 1 ∧ publish_begin (Some []) (hub_Close example_hub) = hub_Close example_hub.
Proof.
  split.
  - destruct (subscriber_count 2 example_hub None example_hub_reachable) as (E & _). rewrite E. reflexivity.
  - apply (subscriber_count 2 (hub_Close example_hub) (Some [])); [|reflexivity].
    eapply rtc_r; [apply example_hub_reachable | apply hs_close_hub].
Defined.

Lemma shrink_valid_spec n s :
  (length s <= n)%nat → ValidString (shrink_valid n s) = true ∧ shrink_valid n s `prefix_of` s.
Proof.
  revert s. induction n as [|n IH]; intros s Hn.
  - destruct s; [by split | simpl in Hn; lia].
  - cbn [shrink_valid]. destruct (ValidString s) eqn:Hv; [rewrite andb_false_r; by split|].
    destruct (Z.ltb_spec 0 (len s)); simpl.
    + destruct (IH (take (length s - 1) s)) as [? Hp]; [rewrite length_take; lia|].
      split; [done|]. etrans; [exact Hp|]. apply prefix_take.
    + destruct s; [by split | simpl in *; lia].
Qed.

Lemma shrink_valid_id n s : ValidString s = true → shrink_valid n s = s.
Proof. intros Hv. destruct n; simpl; [done|]. by rewrite Hv, andb_false_r. Qed.

(** A field of a log event is at most [limit] bytes of valid UTF-8, whatever bytes
    a script handed over, and text that is already valid and short is not touched. *)
Theorem truncated_field (value : bytes) (limit : nat) :
  (length (truncateEngineLogField value limit) <= limit)%nat
  ∧ ValidString (truncateEngineLogField value limit) = true
  ∧ (ValidString value = true → (length value <= limit)%nat → truncateEngineLogField value limit = value).
Proof.
  unfold truncateEngineLogField. destruct (Nat.eqb_spec limit 0) as [->|Hl].
  { repeat split; [done|]. intros _ H. destruct value; [done | simpl in H; lia]. }
  destruct (Nat.ltb_spec limit (length value)) as [Hlt|Hge]; cbn [andb].
  - destruct (Nat.leb_spec limit 3) as [H3|H3].
    + rewrite length_replicate. split; [lia|]. split; [|intros _ H; lia].
      apply ascii_ValidString, Forall_replicate. lia.
    + match goal with |- context [shrink_valid ?n ?s] => destruct (shrink_valid_spec n s) as [Hv Hp]; [done|]; set (p := shrink_valid n s) in * end.
      apply prefix_length in Hp. rewrite length_take in Hp.
      split; [rewrite length_app; simpl; lia|]. split; [|intros _ H; lia]. by apply ValidString_app.
  - match goal with |- context [shrink_valid ?n ?s] => destruct (shrink_valid_spec n s) as [Hv Hp]; [done|]; set (p := shrink_valid n s) in * end.
    apply prefix_length in Hp. rewrite length_take in Hp. split; [lia|]. split; [done|].
    intros Hok _. unfold p. rewrite (take_ge value), ToValidUTF8_id, take_ge by done. by apply shrink_valid_id.
Qed.
