(* ===== verification/ScriptHost.v ===== *)
(** * What an action reports ([module_runtime.go]), and the watchdog of the process ([main.go])

    The console of a script publishes into the engine log within a budget; an
    action reports how it ended; the process stops itself when there is nothing
    to intercept.  A string of the interpreter is the number of its UTF-16 units
    and the text of its prefixes. *)
From S2P Require Import Prelude GoStrings ConfigTypes Identifiers HostPatterns EngineLogHub.

Definition maxConsoleLogsPerAction : Z := 128.
Definition maxConsoleLogArguments : nat := 16.
Definition maxConsoleArgumentBytes : nat := 512.

(** ** The console *)
Inductive console_arg := ConsoleString (units : nat) (prefix : nat → bytes) | ConsoleOther (text : bytes).

(** [strings.ReplaceAll] of the two line breaks by their escapes. *)
Definition escape_breaks (s : bytes) : bytes :=
  concat (map (λ c, if c =? 13 then [92; #"r"] else if c =? 10 then [92; #"n"] else [c]) s).

Definition boundedConsoleArgument (a : console_arg) (limit : nat) : bytes :=
  if (limit =? 0)%nat then []
  else match a with
       | ConsoleOther text => truncateEngineLogField text limit
       | ConsoleString units prefix => truncateEngineLogField (escape_breaks (prefix (Nat.min units limit))) limit
       end.

(** The message of a call: what the loop over the arguments has built. *)
Fixpoint console_message (index : nat) (message : bytes) (args : list console_arg) : bytes :=
  match args with
  | [] => message
  | a :: rest =>
      if (maxConsoleLogArguments <=? index)%nat || (maxEngineLogMessageBytes <=? length message)%nat then message
      else
        let message := if (0 <? index)%nat then message ++ [32] else message in
        let remaining := Nat.min (maxEngineLogMessageBytes - length message) maxConsoleArgumentBytes in
        console_message (S index) (message ++ boundedConsoleArgument a remaining) rest
  end.

Section console.
Context {L : LogEncoding}.

Record console := mkConsole { co_metadata : EngineLog; co_published : Z; co_limitReported : bool; co_normalized : bool }.
Definition installConsoleAPI (metadata : EngineLog) : console := mkConsole metadata 0 false false.

Definition with_level_message (source level message : bytes) (e : EngineLog) : EngineLog :=
  mkEngineLog (l_Time e) level source (l_Extension e) (l_Action e) (l_Phase e) (l_DurationMS e) (l_URL e) (l_ScriptDigest e) message.
Definition with_url (url : bytes) (e : EngineLog) : EngineLog :=
  mkEngineLog (l_Time e) (l_Level e) (l_Source e) (l_Extension e) (l_Action e) (l_Phase e) (l_DurationMS e) url (l_ScriptDigest e) (l_Message e).

Definition limit_message : bytes := &"console output limit reached; further messages suppressed".

(** One call: [enabled] is whether anyone publishes; the events it publishes. *)
Definition console_call (enabled : bool) (level : bytes) (args : list console_arg) (c : console) : console * list EngineLog :=
  if negb enabled then (c, [])
  else
    let c := if co_normalized c then c
             else mkConsole (with_url (sanitizeEngineLogURL (l_URL (co_metadata c))) (co_metadata c)) (co_published c) (co_limitReported c) true in
    let metadata := co_metadata c in
    if maxConsoleLogsPerAction <=? co_published c then
      if co_limitReported c then (c, [])
      else (mkConsole metadata (co_published c) true (co_normalized c), [with_level_message (&"engine") (&"warn") limit_message metadata])
    else
      let message := truncateEngineLogField (console_message 0 [] args) maxEngineLogMessageBytes in
      (mkConsole metadata (co_published c + 1) (co_limitReported c) (co_normalized c), [with_level_message (l_Source metadata) level message metadata]).

Fixpoint console_run (calls : list (bool * bytes * list console_arg)) (c : console) : list EngineLog :=
  match calls with
  | [] => []
  | (enabled, level, args) :: calls => let '(c, events) := console_call enabled level args c in events ++ console_run calls c
  end.

Definition is_script (e : EngineLog) : bool := bool_decide (l_Source e = &"script").

(** What a console has still to publish: messages, and the warning. *)
Definition allowance (c : console) : Z := Z.max 0 (maxConsoleLogsPerAction - co_published c) + (if co_limitReported c then 0 else 1).

Lemma console_call_spec enabled level args c : 0 <= co_published c → (co_limitReported c = true → maxConsoleLogsPerAction <= co_published c) →
  let '(c', events) := console_call enabled level args c in
  0 <= co_published c' ∧ (co_limitReported c' = true → maxConsoleLogsPerAction <= co_published c')
  ∧ l_Source (co_metadata c') = l_Source (co_metadata c)
  ∧ allowance c' + len events <= allowance c
  ∧ Forall (λ e, (length (l_Message e) <= maxEngineLogMessageBytes)%nat ∧ ValidString (l_Message e) = true) events.
Proof.
  intros H0 Hr. unfold console_call. destruct enabled; cbn [negb]; [|by repeat split; try done; cbn; lia].
  set (c1 := if co_normalized c then c else _).
  assert (co_published c1 = co_published c ∧ co_limitReported c1 = co_limitReported c ∧ l_Source (co_metadata c1) = l_Source (co_metadata c)) as (E1 & E2 & E3)
    by (unfold c1; by destruct (co_normalized c)).
  rewrite E1, E2. clearbody c1. destruct (Z.leb_spec maxConsoleLogsPerAction (co_published c)) as [Hfull|Hroom].
  - destruct (co_limitReported c) eqn:Er.
    + unfold allowance. rewrite E1, E2, Er. repeat split; try done; cbn; lia.
    + unfold allowance. cbn [co_published co_limitReported co_metadata]. rewrite Er. repeat split; try done; [cbn [length]; lia|].
      apply Forall_singleton. cbn [l_Message with_level_message]. split; [|by vm_compute]. unfold maxEngineLogMessageBytes. vm_compute. lia.
  - unfold allowance. cbn [co_published co_limitReported co_metadata length]. repeat split; try done; [lia | | |].
    + intros Hl. specialize (Hr Hl). lia.
    + destruct (co_limitReported c); lia.
    + apply Forall_singleton. cbn [l_Message with_level_message]. destruct (truncated_field (console_message 0 [] args) maxEngineLogMessageBytes) as (? & ? & _). done.
Qed.

(** However a script uses its console, the action publishes at most 129 events, room for 128 messages
    and the warning that the rest is suppressed; every message is at most 2048 bytes of valid UTF-8. *)
Theorem console_bounded (metadata : EngineLog) (calls : list (bool * bytes * list console_arg)) :
  len (console_run calls (installConsoleAPI metadata)) <= 129
  ∧ Forall (λ e, (length (l_Message e) <= 2048)%nat ∧ ValidString (l_Message e) = true) (console_run calls (installConsoleAPI metadata)).
Proof.
  assert (∀ c, 0 <= co_published c → (co_limitReported c = true → maxConsoleLogsPerAction <= co_published c) →
    len (console_run calls c) <= allowance c
    ∧ Forall (λ e, (length (l_Message e) <= maxEngineLogMessageBytes)%nat ∧ ValidString (l_Message e) = true) (console_run calls c)) as H.
  { induction calls as [|[[enabled level] args] calls IH]; intros c H0 Hr; cbn [console_run].
    - split; [|constructor]. unfold allowance. cbn. destruct (co_limitReported c); lia.
    - pose proof (console_call_spec enabled level args c H0 Hr) as Hc. destruct (console_call enabled level args c) as [c' events].
      destruct Hc as (H0' & Hr' & _ & Hal & Hm). destruct (IH c' H0' Hr') as [Hl Hf]. rewrite length_app. split; [lia|]. by apply Forall_app. }
  destruct (H (installConsoleAPI metadata)) as [Hl Hf]; [cbn; lia | done|]. split; [exact Hl | exact Hf].
Qed.
End console.

(** ** How an action ended *)

(** What the deferred [recover] of [execute] found. *)
Inductive recovered := NoPanic | InterpreterPanic (text : bytes) | OtherPanic.

Section outcome.
Context {A : Type} (empty : A).

(** The result and the error of an action after its deferred calls; none is a panic that goes on. *)
Definition recover_action (inner : A * option bytes) (prefix : bytes) (p : recovered) : option (A * option bytes) :=
  match p with
  | NoPanic => Some inner
  | InterpreterPanic text => Some (empty, Some (prefix ++ text))
  | OtherPanic => None
  end.

(** The level and the message of the event that reports it. *)
Definition action_report (deadlineExceeded parentCanceled : bool) (err : option bytes) : bytes * bytes :=
  match err with
  | None => (&"info", &"action completed")
  | Some e => if deadlineExceeded then (&"warn", &"action timed out")
              else if parentCanceled then (&"warn", &"action canceled")
              else (&"error", &"action failed: " ++ e)
  end.
End outcome.

(** ** The watchdog of the process *)
Section watchdog.
Context {U : UnicodeCase}.

Record watchdog := mkWatchdog { wd_reported : bool; wd_observedActive : bool }.
Definition fresh_watchdog : watchdog := mkWatchdog false false.

Definition intercepting (cfg : Config) : bool := mitm_Enabled (cfg_MITM cfg) && hasActiveExtensions cfg.

(** One tick of [stopWhenMITMDisabled]: the configuration, if it can be had, and the clock.  The
    results are the state, whether the failure is reported, and whether the process stops. *)
Definition watchdog_tick (deadline : Z) (cfg : option Config) (now : Z) (w : watchdog) : watchdog * bool * bool :=
  match cfg with
  | None => if wd_reported w then (w, false, false) else (mkWatchdog true (wd_observedActive w), true, false)
  | Some cfg =>
      let w := mkWatchdog false (wd_observedActive w) in
      if negb (mitm_Enabled (cfg_MITM cfg)) || negb (hasActiveExtensions cfg)
      then if negb (wd_observedActive w) && (now <? deadline) then (w, false, false) else (w, false, true)
      else (mkWatchdog false true, false, false)
  end.

(** The ticks that pass before the process stops, [None] when it does not; and the failures reported. *)
Fixpoint stopWhenMITMDisabled (deadline : Z) (ticks : list (option Config * Z)) (w : watchdog) : option nat * nat :=
  match ticks with
  | [] => (None, O)
  | (cfg, now) :: ticks =>
      let '(w, report, stop) := watchdog_tick deadline cfg now w in
      if stop then (Some O, Nat.b2n report)
      else let '(at_, reports) := stopWhenMITMDisabled deadline ticks w in (S <$> at_, Nat.b2n report + reports)%nat
  end.

Definition idle_tick (tick : option Config * Z) : bool := match tick.1 with Some cfg => negb (intercepting cfg) | None => false end.
Definition active_tick (tick : option Config * Z) : bool := match tick.1 with Some cfg => intercepting cfg | None => false end.
(** The process may stop at a tick: nothing to intercept, and this is news or the grace is over. *)
Definition stops_at (deadline : Z) (before : list (option Config * Z)) (observed : bool) (tick : option Config * Z) : bool :=
  idle_tick tick && (observed || existsb active_tick before || (deadline <=? tick.2)).

Lemma tick_cases deadline cfg now w :
  let '(w', report, stop) := watchdog_tick deadline cfg now w in
  stop = idle_tick (cfg, now) && (wd_observedActive w || (deadline <=? now))
  ∧ (stop = false → wd_observedActive w' = wd_observedActive w || active_tick (cfg, now)).
Proof.
  unfold watchdog_tick, idle_tick, active_tick, intercepting. cbn [fst]. destruct cfg as [cfg|].
  - destruct (mitm_Enabled (cfg_MITM cfg)), (hasActiveExtensions cfg), (wd_observedActive w) eqn:Ew; cbn; try (split; [done|]; cbn; by rewrite ?Ew);
      destruct (Z.ltb_spec now deadline), (Z.leb_spec deadline now); cbn; try lia; split; try done.
  - destruct (wd_reported w); cbn; (split; [done|]); by rewrite orb_false_r.
Qed.

Lemma watchdog_run deadline ticks n reported observed :
  (stopWhenMITMDisabled deadline ticks (mkWatchdog reported observed)).1 = Some n ↔
  (∃ tick, ticks !! n = Some tick ∧ stops_at deadline (take n ticks) observed tick = true)
  ∧ ∀ m tick, (m < n)%nat → ticks !! m = Some tick → stops_at deadline (take m ticks) observed tick = false.
Proof.
  revert n reported observed.
  induction ticks as [|[cfg now] ticks IH]; intros n reported observed; cbn [stopWhenMITMDisabled].
  { split; [done|]. by intros [(? & ? & _) _]. }
  pose proof (tick_cases deadline cfg now (mkWatchdog reported observed)) as Ht.
  destruct (watchdog_tick deadline cfg now (mkWatchdog reported observed)) as [[[reported' observed'] report] stop]. cbn [wd_observedActive] in Ht.
  destruct Ht as [Hs Ho]. assert (stops_at deadline [] observed (cfg, now) = stop) as H0 by (unfold stops_at; cbn [existsb snd]; by rewrite orb_false_r, Hs).
  destruct stop; cbn [fst].
  - split.
    + intros [= <-]. split; [by exists (cfg, now)|]. intros m tick Hm. lia.
    + intros [_ Hb]. destruct n as [|n]; [done|]. specialize (Hb O (cfg, now) ltac:(lia) eq_refl). discriminate (eq_trans (eq_sym H0) Hb).
  - specialize (Ho eq_refl). specialize (IH (pred n) reported' observed').
    assert (∀ m tick, stops_at deadline (take m ticks) observed' tick = stops_at deadline (take (S m) ((cfg, now) :: ticks)) observed tick) as Hshift.
    { intros m tick. unfold stops_at. rewrite Ho. cbn [take existsb]. by rewrite orb_assoc. }
    destruct (stopWhenMITMDisabled deadline ticks (mkWatchdog reported' observed')) as [at_ reports]. cbn [fst] in *.
    destruct n as [|n].
    + split; [by destruct at_|]. intros [(tick & [= <-] & Hst) _]. discriminate (eq_trans (eq_sym Hst) H0).
    + cbn [pred] in IH. rewrite fmap_Some. split.
      * intros (k & -> & [= <-]). destruct (proj1 IH eq_refl) as [(tick & Hl & Hst) Hb]. split; [exists tick; split; [done | by rewrite <- Hshift]|].
        intros [|m] tick' Hm Hl'; [injection Hl' as <-; exact H0|]. rewrite <- Hshift. apply Hb; [lia | done].
      * intros [(tick & Hl & Hst) Hb]. exists n. split; [|done]. apply IH. split; [exists tick; split; [done | by rewrite Hshift]|].
        intros m tick' Hm Hl'. rewrite Hshift. apply (Hb (S m)); [lia | done].
Qed.
(** The process stops at the first tick that finds nothing to intercept once it had been intercepting,
    or once the grace its coordinator is given is over; before that it never stops, and a
    configuration it cannot read never stops it. *)
Theorem watchdog_exact (deadline : Z) (ticks : list (option Config * Z)) (n : nat) :
  (stopWhenMITMDisabled deadline ticks fresh_watchdog).1 = Some n ↔
  (∃ tick, ticks !! n = Some tick ∧ stops_at deadline (take n ticks) false tick = true)
  ∧ ∀ m tick, (m < n)%nat → ticks !! m = Some tick → stops_at deadline (take m ticks) false tick = false.
Proof. apply watchdog_run. Qed.
End watchdog.
