(* ===== verification/WebSocket.v ===== *)
(** * The log stream's WebSocket ([engine_logs.go])

    The upgrade request, the frames of both directions, the admission of
    streams, and the writers of one stream, which race for its close frame. *)
From S2P Require Import Prelude GoStrings GoBinary ConfigTypes EngineLogHub.

Definition maxEngineLogWebSockets : Z := 8.
Definition maxWebSocketClientFrameBytes : Z := 4 * 1024.
Definition maxWebSocketServerFrameBytes : Z := 16 * 1024.

(** ** The upgrade request *)
Record Request := mkRequest {
  q_Method : bytes;
  q_ProtoMajor : Z;
  q_ProtoMinor : Z;
  q_RawQuery : bytes;
  q_ContentLength : Z;
  q_TransferEncoding : list bytes;
  q_hasBody : bool;
  (** [Header.Values], by canonical key. *)
  q_Header : bytes → list bytes;
}.

Definition headerContainsToken (values : list bytes) (want : bytes) : bool :=
  existsb (λ value, existsb (λ token, EqualFold (TrimSpace token) want) (Split value #",")) values.

Inductive ws_error := ErrMethod | ErrQuery | ErrConnection | ErrUpgrade | ErrVersion | ErrKey.

Definition validateEngineLogWebSocketRequest (request : Request) : res ws_error bytes :=
  _ ← reject_if (negb (bool_decide (q_Method request = &"GET")) || negb (q_ProtoMajor request =? 1)
                 || (q_ProtoMinor request <? 1)) ErrMethod;
  _ ← reject_if (negb (bool_decide (q_RawQuery request = [])) || negb (q_ContentLength request =? 0)
                 || (0 <? len (q_TransferEncoding request)) || q_hasBody request) ErrQuery;
  _ ← reject_if (negb (headerContainsToken (q_Header request &"Connection") &"upgrade")) ErrConnection;
  _ ← match q_Header request &"Upgrade" with
      | [u] => reject_if (negb (EqualFold (TrimSpace u) &"websocket")) ErrUpgrade
      | _ => Err ErrUpgrade
      end;
  _ ← match q_Header request &"Sec-Websocket-Version" with
      | [v] => reject_if (negb (bool_decide (TrimSpace v = &"13"))) ErrVersion
      | _ => Err ErrVersion
      end;
  match q_Header request &"Sec-Websocket-Key" with
  | [k] =>
      let key := TrimSpace k in
      match base64_DecodeString key with
      | None => Err ErrKey
      | Some decoded =>
          if negb (len decoded =? 16) || negb (bool_decide (base64_EncodeToString decoded = key))
          then Err ErrKey else Ok key
      end
  | _ => Err ErrKey
  end.

Definition webSocketAccept (key : bytes) : bytes :=
  base64_EncodeToString (SHA1 (key ++ &"258EAFA5-E914-47DA-95CA-C5AB0DC85B11")).

(** ** Frames *)
Inductive frame_error :=
| ShortRead | FrameFlags | FrameOpcode | FrameLength | ControlTooLong | FrameTooLong | ClosePayload | CloseCode.

(** [io.ReadFull] of [n] bytes of the buffered input. *)
Definition take_bytes (n : nat) (input : bytes) : res frame_error (bytes * bytes) :=
  if (length input <? n)%nat then Err ShortRead else Ok (take n input, drop n input).

Definition take_byte (input : bytes) : res frame_error (Z * bytes) :=
  match input with [] => Err ShortRead | b :: rest => Ok (b, rest) end.

Definition validWebSocketCloseCode (code : Z) : bool :=
  if (3000 <=? code) && (code <=? 4999) then true
  else if (code <? 1000) || (1014 <? code) then false
  else negb (code =? 1004) && negb (code =? 1005) && negb (code =? 1006).

Definition unmask (mask payload : bytes) : bytes :=
  imap (λ i b, Z.lxor b (nth (i mod length mask) mask 0)) payload.

Definition known_opcode (opcode : Z) : bool :=
  (opcode =? 0x1) || (opcode =? 0x2) || (opcode =? 0x8) || (opcode =? 0x9) || (opcode =? 0xA).

(** The declared length, from the seven bits of the second byte. *)
Definition read_length (short : Z) (input : bytes) : res frame_error (Z * bytes) :=
  if short =? 126 then
    '(encoded, rest) ← take_bytes 2 input;
    let length := Uint16 encoded in
    if length <? 126 then Err FrameLength else Ok (length, rest)
  else if short =? 127 then
    '(encoded, rest) ← take_bytes 8 input;
    let length := Uint64 encoded in
    if (length <=? 65535) || negb (Z.shiftr length 63 =? 0) then Err FrameLength else Ok (length, rest)
  else Ok (short, input).

Definition check_close (payload : bytes) : res frame_error unit :=
  _ ← reject_if ((len payload =? 1) || ((2 <? len payload) && negb (ValidString (drop 2 payload)))) ClosePayload;
  reject_if ((2 <=? len payload) && negb (validWebSocketCloseCode (Uint16 (take 2 payload)))) CloseCode.

(** Opcode, payload and the input left. *)
Definition readWebSocketClientFrame (input : bytes) : res frame_error (Z * bytes * bytes) :=
  '(first, input) ← take_byte input;
  '(second, input) ← take_byte input;
  _ ← reject_if (negb (Z.land first 0x70 =? 0) || (Z.land first 0x80 =? 0) || (Z.land second 0x80 =? 0)) FrameFlags;
  let opcode := Z.land first 0x0f in
  _ ← reject_if (negb (known_opcode opcode)) FrameOpcode;
  '(length, input) ← read_length (Z.land second 0x7f) input;
  _ ← reject_if ((0x8 <=? opcode) && (125 <? length)) ControlTooLong;
  _ ← reject_if (maxWebSocketClientFrameBytes <? length) FrameTooLong;
  '(mask, input) ← take_bytes 4 input;
  '(payload, input) ← take_bytes (Z.to_nat length) input;
  let payload := unmask mask payload in
  _ ← (if opcode =? 0x8 then check_close payload else Ok tt);
  Ok (opcode, payload, input).

Definition length_prefix (n : Z) (mask_bit : Z) : bytes :=
  if n <? 126 then [Z.lor mask_bit n]
  else if n <=? 65535 then Z.lor mask_bit 126 :: PutUint16 n
  else Z.lor mask_bit 127 :: PutUint64 n.

(** The bytes written, when every write succeeds. *)
Definition writeWebSocketFrame (opcode : Z) (payload : bytes) : res frame_error bytes :=
  _ ← reject_if ((0x8 <=? opcode) && (125 <? len payload)) ControlTooLong;
  _ ← reject_if (maxWebSocketServerFrameBytes <? len payload) FrameTooLong;
  Ok ([Z.lor 0x80 opcode] ++ length_prefix (len payload) 0 ++ payload).

Definition webSocketClosePayload (code : Z) (reason : bytes) : bytes :=
  PutUint16 code ++ truncateEngineLogField reason 123.

(** ** RFC 6455 frames, as a client sends them: final, masked, shortest length *)
Definition client_frame (opcode : Z) (mask payload : bytes) : bytes :=
  [Z.lor 0x80 opcode] ++ length_prefix (len payload) 0x80 ++ mask ++ unmask mask payload.

(** A close frame says nothing, or a status and a reason in UTF-8.  The statuses are those of RFC 6455
    (7.4.1) and its registry that may be sent, and the ranges for libraries and applications. *)
Definition close_status (code : Z) : Prop :=
  code ∈ [1000; 1001; 1002; 1003; 1007; 1008; 1009; 1010; 1011; 1012; 1013; 1014] ∨ 3000 <= code < 5000.
Definition close_payload (payload : bytes) : Prop :=
  payload = [] ∨ ∃ hi lo reason, payload = hi :: lo :: reason ∧ close_status (256 * hi + lo) ∧ ValidString reason = true.

Definition acceptable (opcode : Z) (payload : bytes) : Prop :=
  opcode ∈ [0x1; 0x2; 0x8; 0x9; 0xA]
  ∧ len payload <= (if 0x8 <=? opcode then 125 else maxWebSocketClientFrameBytes)
  ∧ (opcode = 0x8 → close_payload payload).

(** Reads one unmasked, final frame. *)
Definition read_server_frame (input : bytes) : res frame_error (Z * bytes * bytes) :=
  '(first, input) ← take_byte input;
  '(second, input) ← take_byte input;
  _ ← reject_if (negb (Z.land first 0x70 =? 0) || (Z.land first 0x80 =? 0) || negb (Z.land second 0x80 =? 0)) FrameFlags;
  '(length, input) ← read_length (Z.land second 0x7f) input;
  '(payload, input) ← take_bytes (Z.to_nat length) input;
  Ok (Z.land first 0x0f, payload, input).

(** ** Lemmas on frames *)
Lemma take_bytes_app n a b : length a = n → take_bytes n (a ++ b) = Ok (a, b).
Proof.
  intros <-. unfold take_bytes. rewrite take_app_length, drop_app_length, length_app.
  by rewrite (proj2 (Nat.ltb_ge _ _)) by lia.
Qed.

Lemma take_bytes_Ok n input a b : take_bytes n input = Ok (a, b) → input = a ++ b ∧ length a = n.
Proof.
  unfold take_bytes. destruct (Nat.ltb_spec (length input) n); [done|]. intros [= <- <-].
  rewrite take_drop, length_take. split; [done | lia].
Qed.

Lemma length_unmask mask p : length (unmask mask p) = length p.
Proof. apply length_imap. Qed.

Lemma unmask_involutive mask p : unmask mask (unmask mask p) = p.
Proof.
  unfold unmask. apply list_eq. intros i. rewrite !list_lookup_imap. destruct (p !! i); simpl; [|done].
  by rewrite Z.lxor_assoc, Z.lxor_nilpotent, Z.lxor_0_r.
Qed.

(** ** Bytes of a frame header *)
Lemma short_length n : 0 <= n < 128 →
  is_byte (Z.lor 0x80 n) ∧ Z.land (Z.lor 0x80 n) 0x80 = 0x80 ∧ Z.land (Z.lor 0x80 n) 0x7f = n
  ∧ Z.land n 0x80 = 0 ∧ Z.land n 0x7f = n.
Proof.
  intros Hn.
  pose proof (byte_forall (λ n, (128 <=? n) || ((Z.lor 0x80 n <? 256) && (0 <=? Z.lor 0x80 n)
    && (Z.land (Z.lor 0x80 n) 0x80 =? 0x80) && (Z.land (Z.lor 0x80 n) 0x7f =? n)
    && (Z.land n 0x80 =? 0) && (Z.land n 0x7f =? n)))
    ltac:(vm_compute; reflexivity) n ltac:(unfold is_byte; lia)) as H.
  apply orb_true_iff in H as [H|H]; [bools; lia|]. bools. unfold is_byte. repeat split; done.
Qed.

Lemma first_byte b : is_byte b → Z.land b 0x70 = 0 → Z.land b 0x80 ≠ 0 → b = Z.lor 0x80 (Z.land b 0x0f).
Proof.
  intros Hb H1 H2.
  pose proof (byte_forall (λ b, negb (Z.land b 0x70 =? 0) || (Z.land b 0x80 =? 0)
    || (b =? Z.lor 0x80 (Z.land b 0x0f))) ltac:(vm_compute; reflexivity) b Hb) as H.
  apply orb_true_iff in H as [H|H]; [|by bools]. apply orb_true_iff in H as [H|H]; bools; done.
Qed.

Lemma second_byte b : is_byte b → Z.land b 0x80 ≠ 0 →
  b = Z.lor 0x80 (Z.land b 0x7f) ∧ 0 <= Z.land b 0x7f < 128.
Proof.
  intros Hb H2.
  pose proof (byte_forall (λ b, (Z.land b 0x80 =? 0) || ((b =? Z.lor 0x80 (Z.land b 0x7f))
    && (0 <=? Z.land b 0x7f) && (Z.land b 0x7f <? 128))) ltac:(vm_compute; reflexivity) b Hb) as H.
  apply orb_true_iff in H as [H|H]; bools; done.
Qed.

Lemma known_opcode_true op : known_opcode op = true ↔ op ∈ [0x1; 0x2; 0x8; 0x9; 0xA].
Proof.
  unfold known_opcode. rewrite !orb_true_iff, !Z.eqb_eq, !elem_of_cons, elem_of_nil. naive_solver.
Qed.

Lemma opcode_byte op : 0 <= op < 16 →
  Z.land (Z.lor 0x80 op) 0x70 = 0 ∧ Z.land (Z.lor 0x80 op) 0x80 ≠ 0 ∧ Z.land (Z.lor 0x80 op) 0x0f = op.
Proof.
  intros Hop.
  pose proof (byte_forall (λ b, (16 <=? b) || ((Z.land (Z.lor 0x80 b) 0x70 =? 0)
    && (Z.land (Z.lor 0x80 b) 0x80 =? 128) && (Z.land (Z.lor 0x80 b) 0x0f =? b)))
    ltac:(vm_compute; reflexivity) op ltac:(unfold is_byte; lia)) as H.
  apply orb_true_iff in H as [H|H]; bools; [lia|]. repeat split; lia.
Qed.

(** The length field is read back, and only its shortest form is read. *)
Lemma read_length_prefix n mb rest :
  (mb = 0 ∨ mb = 0x80) → 0 <= n < 2 ^ 63 →
  ∃ second tail, length_prefix n mb = second :: tail ∧ Z.land second 0x80 = mb
    ∧ read_length (Z.land second 0x7f) (tail ++ rest) = Ok (n, rest).
Proof.
  intros Hmb Hn. unfold length_prefix.
  assert (∀ k, 0 <= k < 128 → Z.land (Z.lor mb k) 0x80 = mb ∧ Z.land (Z.lor mb k) 0x7f = k) as Hk.
  { intros k Hk. destruct (short_length k Hk) as (_ & ? & ? & ? & ?).
    destruct Hmb as [->| ->]; [by rewrite Z.lor_0_l | done]. }
  destruct (Z.ltb_spec n 126); [|destruct (Z.leb_spec n 65535)]; eexists _, _; (split; [reflexivity|]).
  - destruct (Hk n) as [-> ->]; [lia|]. split; [done|]. unfold read_length.
    by rewrite (proj2 (Z.eqb_neq n 126)), (proj2 (Z.eqb_neq n 127)) by lia.
  - destruct (Hk 126) as [-> ->]; [lia|]. split; [done|]. unfold read_length.
    rewrite (take_bytes_app 2) by apply length_be_split. cbn [mbind res_bind Z.eqb].
    change (126 =? 126) with true. cbn iota. rewrite Uint16_PutUint16 by lia.
    by rewrite (proj2 (Z.ltb_ge n 126)) by lia.
  - destruct (Hk 127) as [-> ->]; [lia|]. split; [done|]. unfold read_length.
    rewrite (take_bytes_app 8) by apply length_be_split.
    change (127 =? 126) with false. change (127 =? 127) with true. cbn iota. cbn [mbind res_bind].
    unfold Uint64, PutUint64. rewrite be_combine_split, Z.mod_small by (change (256 ^ Z.of_nat 8) with (2 ^ 64); lia).
    rewrite (proj2 (Z.leb_gt n 65535)) by lia. rewrite Z.shiftr_div_pow2, Z.div_small by lia. done.
Qed.

Lemma read_length_inv short input n rest :
  0 <= short < 128 → is_bytes input → read_length short input = Ok (n, rest) →
  ∃ tail, input = tail ++ rest ∧ 0 <= n < 2 ^ 63 ∧ ∀ mb, length_prefix n mb = Z.lor mb short :: tail.
Proof.
  intros Hs Hb. unfold read_length.
  destruct (Z.eqb_spec short 126) as [->|H1]; [|destruct (Z.eqb_spec short 127) as [->|H2]].
  - intros H. apply bind_Ok_inv in H as ([enc r] & (-> & El)%take_bytes_Ok & H).
    destruct (Z.ltb_spec (Uint16 enc) 126); [done|]. injection H as <- <-.
    apply Forall_app in Hb as [Hb _]. pose proof (be_combine_range enc Hb) as Hr. rewrite El in Hr.
    pose proof (be_split_combine enc Hb) as Hsp. rewrite El in Hsp.
    exists enc. unfold length_prefix, Uint16, PutUint16 in *. change (256 ^ Z.of_nat 2) with 65536 in Hr.
    split; [done|]. split; [lia|]. intros mb.
    rewrite (proj2 (Z.ltb_ge (be_combine enc) 126)), (proj2 (Z.leb_le (be_combine enc) 65535)) by lia. by rewrite Hsp.
  - intros H. apply bind_Ok_inv in H as ([enc r] & (-> & El)%take_bytes_Ok & H).
    destruct (Z.leb_spec (Uint64 enc) 65535); [done|].
    destruct (Z.shiftr (Uint64 enc) 63 =? 0) eqn:Hsh; [|done]. injection H as <- <-. bools.
    apply Forall_app in Hb as [Hb _]. pose proof (be_combine_range enc Hb) as Hr.
    pose proof (be_split_combine enc Hb) as Hsp. rewrite El in Hsp.
    exists enc. unfold length_prefix, Uint64, PutUint64 in *.
    rewrite Z.shiftr_div_pow2 in Hsh by lia. apply Z.div_small_iff in Hsh; [|lia].
    split; [done|]. split; [lia|]. intros mb.
    rewrite (proj2 (Z.ltb_ge (be_combine enc) 126)), (proj2 (Z.leb_gt (be_combine enc) 65535)) by lia. by rewrite Hsp.
  - intros [= <- <-]. exists []. split; [done|]. split; [lia|]. intros mb. unfold length_prefix.
    by rewrite (proj2 (Z.ltb_lt short 126)) by lia.
Qed.

Lemma close_code_valid code : validWebSocketCloseCode code = true ↔ close_status code.
Proof.
  unfold validWebSocketCloseCode, close_status. rewrite !elem_of_cons, elem_of_nil.
  destruct ((3000 <=? code) && (code <=? 4999)) eqn:E1; [bools; split; [right; lia | done]|].
  destruct ((code <? 1000) || (1014 <? code)) eqn:E2; bools; [split; [done | lia]|]. rewrite !andb_true_iff, !negb_true_iff, !Z.eqb_neq. lia.
Qed.

Lemma check_close_spec p : check_close p = Ok tt ↔ close_payload p.
Proof.
  unfold close_payload. destruct p as [|hi [|lo reason]].
  - split; [by left | done].
  - split; [done|]. intros [?|(? & ? & ? & ? & _)]; done.
  - unfold check_close. assert (Uint16 (take 2 (hi :: lo :: reason)) = 256 * hi + lo) as ->
      by (unfold Uint16, be_combine; cbn; rewrite take_0; cbn; lia).
    rewrite (proj2 (Z.eqb_neq (len (hi :: lo :: reason)) 1)), (proj2 (Z.leb_le 2 (len (hi :: lo :: reason)))) by (cbn [length]; lia).
    cbn [orb andb drop]. rewrite drop_0.
    assert ((2 <? len (hi :: lo :: reason)) && negb (ValidString reason) = negb (ValidString reason)) as ->.
    { destruct reason as [|c reason]; [done|]. by rewrite (proj2 (Z.ltb_lt 2 _)) by (cbn [length]; lia). }
    split.
    + destruct (ValidString reason) eqn:Ev; [|done]. destruct (validWebSocketCloseCode _) eqn:Ec; [|done]. intros _. right.
      eexists _, _, _. split; [done|]. split; [by apply close_code_valid | done].
    + intros [?|(? & ? & ? & [= <- <- <-] & Hc & ->)]; [done|]. apply close_code_valid in Hc. by rewrite Hc.
Qed.

Lemma acceptable_opcode op p : acceptable op p → known_opcode op = true ∧ 0 <= op < 16.
Proof.
  intros (Ho & _). split; [by apply known_opcode_true|].
  rewrite !elem_of_cons, elem_of_nil in Ho. lia.
Qed.

Lemma acceptable_length op p : acceptable op p → len p <= 4096 ∧ (0x8 <= op → len p <= 125).
Proof.
  intros (_ & Hl & _). unfold maxWebSocketClientFrameBytes in Hl.
  destruct (Z.leb_spec 8 op); split; intros; lia.
Qed.

Lemma read_client_frame op mask p rest :
  length mask = 4%nat → acceptable op p →
  readWebSocketClientFrame (client_frame op mask p ++ rest) = Ok (op, p, rest).
Proof.
  intros Hm Ha. destruct (acceptable_opcode op p Ha) as [Hk Hop], (acceptable_length op p Ha) as [Hl Hc].
  destruct (read_length_prefix (len p) 0x80 (mask ++ unmask mask p ++ rest)) as (second & tail & Ep & Hs & Hr);
    [by right | lia|].
  destruct (opcode_byte op Hop) as (B1 & B2 & B3).
  unfold client_frame. rewrite Ep, <- !app_assoc. cbn [app]. unfold readWebSocketClientFrame.
  cbn [take_byte mbind res_bind]. rewrite B1, Hs, B3, Hk, (proj2 (Z.eqb_neq _ _) B2). cbn [Z.eqb negb orb reject_if].
  rewrite Hr. cbn [mbind res_bind]. unfold maxWebSocketClientFrameBytes.
  assert ((8 <=? op) && (125 <? len p) = false) as -> by (destruct (Z.leb_spec 8 op); simpl; lia).
  rewrite (proj2 (Z.ltb_ge (4 * 1024) (len p))) by lia. cbn [reject_if].
  rewrite (take_bytes_app 4) by done. cbn [mbind res_bind].
  rewrite (take_bytes_app (Z.to_nat (len p))) by (rewrite length_unmask; lia). cbn [mbind res_bind].
  rewrite unmask_involutive. destruct (Z.eqb_spec op 8) as [->|]; [|done].
  destruct Ha as (_ & _ & Hclose). by rewrite (proj2 (check_close_spec p) (Hclose eq_refl)).
Qed.

Lemma read_client_frame_inv input op p rest :
  is_bytes input → readWebSocketClientFrame input = Ok (op, p, rest) →
  ∃ mask, length mask = 4%nat ∧ acceptable op p ∧ input = client_frame op mask p ++ rest.
Proof.
  intros Hb H. unfold readWebSocketClientFrame in H.
  destruct input as [|first [|second input]]; try discriminate H. cbn [take_byte mbind res_bind] in H.
  apply Forall_cons in Hb as [Hb1 [Hb2 Hb]%Forall_cons].
  apply bind_Ok_inv in H as (? & Hf%reject_if_Ok & H). bools.
  apply bind_Ok_inv in H as (? & Ho%reject_if_Ok & H). bools.
  apply bind_Ok_inv in H as ([n input1] & Hn & H).
  destruct (second_byte second) as [E2 Hs]; [done..|].
  apply read_length_inv in Hn as (tail & -> & Hn & Hp); [|done..].
  apply bind_Ok_inv in H as (? & H125%reject_if_Ok & H).
  apply bind_Ok_inv in H as (? & Hmax%reject_if_Ok & H). unfold maxWebSocketClientFrameBytes in Hmax. bools.
  apply bind_Ok_inv in H as ([mask input2] & (-> & Em)%take_bytes_Ok & H).
  apply bind_Ok_inv in H as ([masked input3] & (-> & El)%take_bytes_Ok & H).
  apply bind_Ok_inv in H as (? & Hclose & [= <- <- <-]).
  exists mask. split; [done|]. split.
  - split; [by apply known_opcode_true|]. rewrite length_unmask, El. unfold maxWebSocketClientFrameBytes. split.
    + destruct (Z.leb_spec 8 (Z.land first 15)); simpl in H125; bools; lia.
    + intros E8. rewrite E8 in Hclose. cbn in Hclose. apply check_close_spec. by destruct x3.
  - unfold client_frame. rewrite unmask_involutive, length_unmask, El, Z2Nat.id, (Hp 0x80), <- E2 by lia.
    rewrite <- first_byte by done. by rewrite <- !app_assoc.
Qed.

(** ** Properties *)

(** C35 (roundtrip): the server reads exactly the frames RFC 6455 lets a client send it.  Reading
    [input] yields [opcode] and [payload], leaving [rest], if and only if [input] is the masked
    encoding of an acceptable frame followed by [rest]: of the known opcodes, at most 125 bytes
    for control frames and 4096 for the others, the shortest length encoding, for a close frame nothing
    or a status that may be sent with a reason in UTF-8, for some four-byte mask. *)
Theorem client_frames_exact (input : bytes) (opcode : Z) (payload rest : bytes) :
  is_bytes input →
  readWebSocketClientFrame input = Ok (opcode, payload, rest)
  ↔ ∃ mask, length mask = 4%nat ∧ acceptable opcode payload
            ∧ input = client_frame opcode mask payload ++ rest.
Proof.
  intros Hb. split; [by apply read_client_frame_inv|].
  intros (mask & Hm & Ha & ->). by apply read_client_frame.
Qed.

Lemma client_frames_exact_witness :
  readWebSocketClientFrame [0x89; 0x82; 1; 2; 3; 4; 0x69; 0x6b; 7] = Ok (0x9, &"hi", [7]).
Proof.
  apply (client_frames_exact [0x89; 0x82; 1; 2; 3; 4; 0x69; 0x6b; 7]).
  - repeat constructor; by vm_compute.
  - exists [1; 2; 3; 4]. split; [done|]. split; [|reflexivity].
    split; [by apply known_opcode_true|]. split; [by vm_compute | done].
Defined.

(** A frame the server writes is read back by a client as the same opcode and
    payload, whatever follows it, and the server writes every frame within its limits: 125 bytes
    for a control frame, 16384 for the others. *)
Theorem server_frames_read_back (opcode : Z) (payload rest : bytes) :
  0 <= opcode < 16 →
  len payload <= (if 0x8 <=? opcode then 125 else maxWebSocketServerFrameBytes) →
  ∃ frame, writeWebSocketFrame opcode payload = Ok frame
    ∧ read_server_frame (frame ++ rest) = Ok (opcode, payload, rest).
Proof.
  intros Hop Hl. assert (len payload <= 16384 ∧ (0x8 <= opcode → len payload <= 125)) as [Hmax Hc].
  { unfold maxWebSocketServerFrameBytes in Hl. destruct (Z.leb_spec 8 opcode); split; intros; lia. }
  unfold writeWebSocketFrame, maxWebSocketServerFrameBytes.
  assert ((8 <=? opcode) && (125 <? len payload) = false) as ->
    by (destruct (Z.leb_spec 8 opcode); simpl; lia).
  rewrite (proj2 (Z.ltb_ge (16 * 1024) (len payload))) by lia. cbn [reject_if mbind res_bind].
  eexists. split; [reflexivity|].
  destruct (read_length_prefix (len payload) 0 (payload ++ rest)) as (second & tail & Ep & Hs & Hr);
    [by left | lia|].
  destruct (opcode_byte opcode Hop) as (B1 & B2 & B3).
  rewrite Ep, <- !app_assoc. cbn [app]. unfold read_server_frame. cbn [take_byte mbind res_bind].
  rewrite B1, Hs, B3, (proj2 (Z.eqb_neq _ _) B2). cbn [Z.eqb negb orb reject_if].
  rewrite Hr. cbn [mbind res_bind]. by rewrite take_bytes_app by lia.
Qed.

Lemma server_frames_read_back_witness :
  ∃ frame, writeWebSocketFrame 0x1 &"{}" = Ok frame ∧ read_server_frame (frame ++ [9]) = Ok (0x1, &"{}", [9]).
Proof. apply (server_frames_read_back 0x1 &"{}" [9]); by vm_compute. Defined.
