(* ===== verification/EngineLogService.v ===== *)
(** * The service of the engine log ([engine_logs.go])

    The handlers with the slots of the streams, and the frames of one stream.
    A stream has three goroutines that write frames; a step is what happens
    between two operations on the flag [closing], on [writeMu] or on the
    connection.  What the connection does is an argument. *)
From stdpp Require Import gmap.
From S2P Require Import Prelude GoStrings ConfigTypes HostPatterns EngineLogHub WebSocket.

(** ** Handlers *)
Definition activeExtensionCount (cfg : Config) : Z :=
  if negb (mitm_Enabled (cfg_MITM cfg)) then 0 else len (List.filter mod_Enabled (cfg_Modules cfg)).

(** An error with its status, and whether it names the version that is supported. *)
Inductive log_reply :=
| HealthReply (status : Z) (running : bool) (activeExtensions : Z)
| ErrorReply (status : Z) (webSocketVersion : bool)
| Upgraded (accept : bytes).

(** [method_ok]: a GET without a query. *)
Definition serveHealth (method_ok : bool) (cfg : option Config) : log_reply :=
  if negb method_ok then ErrorReply 405 false
  else match cfg with None => HealthReply 503 true 0 | Some cfg => HealthReply 200 true (activeExtensionCount cfg) end.

(** ** The streams of the service *)
Module Service.

(** A request inside [serveLogs] holds a slot, and then a subscription; the key of its upgrade. *)
Inductive log_call := Entered (key : bytes) | Subscribed (key : bytes) (reader : nat).
Record service := mkService { sv_hub : hub; sv_slots : Z; sv_calls : gmap nat log_call }.
Definition newEngineLogService (h : hub) : service := mkService h 0 ∅.

(** The request is checked and takes a slot, or is answered. *)
Definition admit_logs (c : nat) (request : Request) (s : service) : option log_reply * service :=
  match validateEngineLogWebSocketRequest request with
  | Err ErrVersion => (Some (ErrorReply 426 true), s)
  | Err _ => (Some (ErrorReply 400 false), s)
  | Ok key => if sv_slots s <? maxEngineLogWebSockets
              then (None, mkService (sv_hub s) (sv_slots s + 1) (<[c := Entered key]> (sv_calls s)))
              else (Some (ErrorReply 503 false), s)
  end.
(** The end of the handler: its deferred calls. *)
Definition end_logs (c : nat) (s : service) : service :=
  match sv_calls s !! c with
  | Some (Entered _) => mkService (sv_hub s) (sv_slots s - 1) (delete c (sv_calls s))
  | Some (Subscribed _ i) => mkService (sub_Close i (sv_hub s)) (sv_slots s - 1) (delete c (sv_calls s))
  | None => s
  end.
Definition subscribe_logs (c : nat) (s : service) : option log_reply * service :=
  match sv_calls s !! c with
  | Some (Entered key) =>
      match Subscribe (sv_hub s) with
      | (None, _) => (Some (ErrorReply 503 false), end_logs c s)
      | (Some i, h) => (None, mkService h (sv_slots s) (<[c := Subscribed key i]> (sv_calls s)))
      end
  | _ => (None, s)
  end.
(** The connection is taken over, or not: the answer of the handler, none when the connection is lost. *)
Inductive hijack := NotHijacker | HijackFails | ReplyFails | Hijacked.
Definition upgrade_reply (key : bytes) (j : hijack) : option log_reply :=
  match j with
  | NotHijacker => Some (ErrorReply 500 false)
  | HijackFails | ReplyFails => None
  | Hijacked => Some (Upgraded (webSocketAccept key))
  end.
Definition upgrade_logs (c : nat) (j : hijack) (s : service) : option log_reply * service :=
  match sv_calls s !! c with
  | Some (Subscribed key _) => (upgrade_reply key j, match j with Hijacked => s | _ => end_logs c s end)
  | _ => (None, s)
  end.

(** What happens to the service: the handlers, and the hub under them. *)
Inductive service_step : service → service → Prop :=
| vs_admit c request s : sv_calls s !! c = None → service_step s (admit_logs c request s).2
| vs_subscribe c s : service_step s (subscribe_logs c s).2
| vs_upgrade c j s : service_step s (upgrade_logs c j s).2
| vs_end c s : service_step s (end_logs c s)
| vs_begin payload s : service_step s (mkService (publish_begin payload (sv_hub s)) (sv_slots s) (sv_calls s))
| vs_publish k s : service_step s (mkService (publish_end k (sv_hub s)) (sv_slots s) (sv_calls s))
| vs_next i s : service_step s (mkService (next_try i (sv_hub s)).2 (sv_slots s) (sv_calls s))
| vs_token i s : service_step s (mkService (take_token i (sv_hub s)) (sv_slots s) (sv_calls s))
| vs_close s : service_step s (mkService (hub_Close (sv_hub s)) (sv_slots s) (sv_calls s)).

Definition reader_of (c : log_call) : option nat := match c with Subscribed _ i => Some i | Entered _ => None end.
Record service_inv (s : service) : Prop := mkServiceInv {
  vi_hub : hub_inv (sv_hub s);
  vi_slots : sv_slots s = Z.of_nat (size (sv_calls s));
  vi_bound : sv_slots s <= maxEngineLogWebSockets;
  vi_readers : ∀ i, i ∈ h_readers (sv_hub s) → ∃ c x, sv_calls s !! c = Some x ∧ reader_of x = Some i;
}.

Lemma hub_moves s h : service_inv s → hub_inv h → h_readers h ⊆ h_readers (sv_hub s) → service_inv (mkService h (sv_slots s) (sv_calls s)).
Proof. intros [H1 H2 H3 H4] Hh Hr. split; cbn; try done. intros i Hi. apply H4. set_solver. Qed.

Lemma size_deleted {A} (m : gmap nat A) c x : m !! c = Some x → Z.of_nat (size (delete c m)) = Z.of_nat (size m) - 1.
Proof.
  intros Hc. rewrite map_size_delete_Some by (by eexists). assert (size m ≠ 0%nat); [|lia].
  intros E%map_size_empty_inv. by rewrite E, lookup_empty in Hc.
Qed.

Lemma end_inv c s : service_inv s → service_inv (end_logs c s).
Proof.
  intros [H1 H2 H3 H4]. unfold end_logs. destruct (sv_calls s !! c) as [[key|key i]|] eqn:Hc; [| |done].
  - pose proof (size_deleted _ _ _ Hc). split; cbn; [done | lia | lia|].
    intros j (c' & x & Hx & Hr)%H4. exists c', x. split; [|done]. apply lookup_delete_Some. split; [|done]. intros <-. rewrite Hc in Hx. by injection Hx as <-.
  - pose proof (size_deleted _ _ _ Hc). split; cbn; [by apply sub_Close_inv | lia | lia|].
    intros j Hj. assert (j ∈ h_readers (sv_hub s) ∧ j ≠ i) as [Hj1 Hj2].
    { pose proof (hi_readers _ H1 j) as Hopen. unfold sub_Close in Hj. destruct (h_subs (sv_hub s) !! i) as [sub|] eqn:Es.
      - destruct (s_closed sub) eqn:Ec; [|cbn in Hj; set_solver]. split; [done|]. intros ->. apply Hopen in Hj as (? & ? & ?). congruence.
      - split; [done|]. intros ->. apply Hopen in Hj as (? & ? & ?). congruence. }
    destruct (H4 j Hj1) as (c' & x & Hx & Hr). exists c', x. split; [|done]. apply lookup_delete_Some. split; [|done]. intros <-. rewrite Hc in Hx. injection Hx as <-. by injection Hr as ->.
Qed.

Lemma service_step_inv s s' : service_step s s' → service_inv s → service_inv s'.
Proof.
  intros Hs Hi. pose proof Hi as [H1 H2 H3 H4]. destruct Hs as [c request s Hc|c s|c j s|c s|payload s|k s|i s|i s|s].
  - unfold admit_logs. destruct (validateEngineLogWebSocketRequest request) as [key|[]]; try done. destruct (Z.ltb_spec (sv_slots s) maxEngineLogWebSockets); [|done].
    split; cbn; [done | rewrite map_size_insert_None by done; lia | lia|].
    intros i (c' & x & Hx & Hr)%H4. exists c', x. split; [|done]. rewrite lookup_insert_ne; [done|]. congruence.
  - unfold subscribe_logs. destruct (sv_calls s !! c) as [[key|]|] eqn:Hc; try done. pose proof (Subscribe_inv _ H1) as Hsub. unfold Subscribe in *.
    destruct (h_closed (sv_hub s)); [by apply end_inv|]. split; cbn; [done | rewrite map_size_insert_Some by (by eexists); done | done|].
    intros i [->%elem_of_singleton|Hx]%elem_of_union; [exists c; eexists; split; [apply lookup_insert_eq | done]|].
    destruct (H4 i Hx) as (c' & x & Hx' & Hr). exists c', x. split; [|done]. rewrite lookup_insert_ne; [done|]. intros <-. rewrite Hc in Hx'. by injection Hx' as <-.
  - unfold upgrade_logs. destruct (sv_calls s !! c) as [[|key i]|]; try done. destruct j; cbn [snd]; try by apply end_inv. done.
  - by apply end_inv.
  - apply hub_moves; [done | by apply publish_begin_inv|]. unfold publish_begin. destruct (negb _); [done|]. destruct (_ || _); [done|]. by destruct payload.
  - apply hub_moves; [done | by apply publish_end_inv|]. unfold publish_end. destruct (h_flight _ !! k); [|done]. by destruct (h_closed _).
  - apply hub_moves; [done | by apply next_try_inv|]. unfold next_try. destruct (h_subs _ !! i); [|done]. destruct (_ || _); [done|]. by destruct (_ <? h_next _).
  - apply hub_moves; [done | by apply take_token_inv|]. unfold take_token. destruct (h_subs _ !! i); [|done]. by destruct (_ && _).
  - apply hub_moves; [done | by apply hub_Close_inv|]. unfold hub_Close. destruct (h_closed _); [done|]. cbn. set_solver.
Qed.

Lemma service_run_inv s s' : rtc service_step s s' → service_inv s → service_inv s'.
Proof. induction 1; [done|]. intros Hi. eauto using service_step_inv. Qed.

Lemma size_of_list (l : list nat) : (size (list_to_set l : gset nat) <= length l)%nat.
Proof. induction l as [|x l IH]; cbn; [done|]. rewrite size_union_alt, size_singleton. pose proof (subseteq_size (list_to_set l ∖ {[x]} : gset nat) (list_to_set l) ltac:(set_solver)). lia. Qed.

Lemma omap_length {A B} (f : A → option B) (l : list A) : (length (omap f l) <= length l)%nat.
Proof. induction l as [|x l IH]; [done|]. change (omap f (x :: l)) with (match f x with Some y => y :: omap f l | None => omap f l end). destruct (f x); cbn [length]; lia. Qed.

Lemma few_readers s : service_inv s → Z.of_nat (size (h_readers (sv_hub s))) <= sv_slots s.
Proof.
  intros [H1 H2 H3 H4]. set (ids := omap (λ m, reader_of m.2) (map_to_list (sv_calls s))).
  assert (h_readers (sv_hub s) ⊆ (list_to_set ids : gset nat)) as Hsub.
  { intros i (c & x & Hx & Hr)%H4. apply elem_of_list_to_set, list_elem_of_omap. exists (c, x). split; [by apply elem_of_map_to_list | done]. }
  apply subseteq_size in Hsub. pose proof (size_of_list ids).
  pose proof (omap_length (λ m : nat * log_call, reader_of m.2) (map_to_list (sv_calls s))) as Hlen. change (length ids <= length (map_to_list (sv_calls s)))%nat in Hlen.
  rewrite length_map_to_list in Hlen. lia.
Qed.

(** At most 8 requests are inside the stream handler and at most 8 readers are open, whatever their
    requests and connections do; every reader belongs to such a request, so when the last one has
    ended publishing costs nothing. *)
Theorem streams_bounded (capacity : Z) (s : service) (Hs : rtc service_step (newEngineLogService (newEngineLogHub capacity)) s) :
  sv_slots s = Z.of_nat (size (sv_calls s)) ∧ sv_slots s <= 8 ∧ h_subscribers (sv_hub s) <= sv_slots s
  ∧ (sv_calls s = ∅ → ∀ payload, publish_begin payload (sv_hub s) = sv_hub s).
Proof.
  assert (service_inv s) as Hi.
  { apply (service_run_inv _ _ Hs).
    split; cbn; [apply new_hub_inv | done | done | by intros i ?%elem_of_empty]. }
  pose proof (few_readers s Hi) as Hfew. pose proof Hi as [H1 H2 H3 H4]. rewrite <- (hi_count _ H1) in Hfew. split; [done|]. split; [done|]. split; [done|].
  intros He payload. unfold publish_begin, HasSubscribers. rewrite He, map_size_empty in H2. destruct (Z.ltb_spec 0 (h_subscribers (sv_hub s))); [lia | done].
Qed.

(** A stream is upgraded and ends. *)
Definition an_upgrade : Request :=
  mkRequest (&"GET") 1 1 [] 0 [] false (λ k,
    if decide (k = &"Connection") then [&"keep-alive, Upgrade"] else if decide (k = &"Upgrade") then [&"websocket"]
    else if decide (k = &"Sec-Websocket-Version") then [&"13"] else [&"MDEyMzQ1Njc4OWFiY2RlZg=="]).
Definition streaming : service := (subscribe_logs 0 (admit_logs 0 an_upgrade (newEngineLogService (newEngineLogHub 4))).2).2.
Lemma streams_bounded_witness : sv_slots streaming = 1 ∧ publish_begin (Some []) (sv_hub (end_logs 0 streaming)) = sv_hub (end_logs 0 streaming).
Proof.
  assert (rtc service_step (newEngineLogService (newEngineLogHub 4)) streaming) as Hr
    by (eapply rtc_l; [by apply (vs_admit 0 an_upgrade)|]; apply rtc_once, vs_subscribe).
  split.
  - destruct (streams_bounded 4 streaming Hr) as [E _]. rewrite E. vm_compute. reflexivity.
  - apply (streams_bounded 4 (end_logs 0 streaming)); [eapply rtc_r; [exact Hr | apply vs_end] | by vm_compute].
Defined.
End Service.

(** ** The frames of a stream *)
Module Stream.

(** Before the lock; holding it, before the second test of [closing]; and writing. *)
Inductive phase := Waiting (opcode : Z) | Locked (opcode : Z) | Writing (opcode : Z).
Record stream := mkStream {
  st_closing : bool;
  st_writers : gmap nat phase;      (** the goroutines inside [writeFrame] *)
  st_mutex : option nat;            (** who holds [writeMu] *)
  st_broken : bool;                 (** a write failed: the buffered writer keeps its error *)
  st_wire : list Z;                 (** the opcodes of the frames written whole, in order *)
}.
Definition new_stream : stream := mkStream false ∅ None false [].

Definition is_close (opcode : Z) : bool := opcode =? 8.

(** The test of [closing] before the lock; a close frame sets it, and only the first does. *)
Definition enter (w : nat) (opcode : Z) (s : stream) : option stream :=
  match st_writers s !! w with
  | Some _ => None
  | None => Some (if st_closing s then s
                  else mkStream (is_close opcode) (<[w := Waiting opcode]> (st_writers s)) (st_mutex s) (st_broken s) (st_wire s))
  end.
Definition lock (w : nat) (s : stream) : option stream :=
  match st_writers s !! w, st_mutex s with
  | Some (Waiting opcode), None => Some (mkStream (st_closing s) (<[w := Locked opcode]> (st_writers s)) (Some w) (st_broken s) (st_wire s))
  | _, _ => None
  end.
Definition leave (w : nat) (s : stream) : stream := mkStream (st_closing s) (delete w (st_writers s)) None (st_broken s) (st_wire s).
(** The test under the lock: only a close frame is written once [closing] is set. *)
Definition check (w : nat) (s : stream) : option stream :=
  match st_writers s !! w with
  | Some (Locked opcode) =>
      Some (if negb (is_close opcode) && st_closing s then leave w s
            else mkStream (st_closing s) (<[w := Writing opcode]> (st_writers s)) (st_mutex s) (st_broken s) (st_wire s))
  | _ => None
  end.
(** The write and the unlock; [ok] is whether the connection takes the whole frame. *)
Definition put (w : nat) (ok : bool) (s : stream) : option stream :=
  match st_writers s !! w with
  | Some (Writing opcode) =>
      Some (mkStream (st_closing s) (delete w (st_writers s)) None (st_broken s || negb ok)
              (if ok && negb (st_broken s) then st_wire s ++ [opcode] else st_wire s))
  | _ => None
  end.

Inductive frame_event := FEnter (w : nat) (opcode : Z) | FLock (w : nat) | FCheck (w : nat) | FPut (w : nat) (ok : bool).
Definition frame_step (s : stream) (e : frame_event) : option stream :=
  match e with FEnter w opcode => enter w opcode s | FLock w => lock w s | FCheck w => check w s | FPut w ok => put w ok s end.
Fixpoint frame_run (s : stream) (es : list frame_event) : option stream :=
  match es with [] => Some s | e :: es => s' ← frame_step s e; frame_run s' es end.

Definition phase_opcode (p : phase) : Z := match p with Waiting o | Locked o | Writing o => o end.
Definition holds (p : phase) : bool := match p with Waiting _ => false | _ => true end.
Definition closer (p : phase) : bool := is_close (phase_opcode p).

Record stream_inv (s : stream) : Prop := mkStreamInv {
  si_mutex : ∀ w p, st_writers s !! w = Some p → holds p = true → st_mutex s = Some w;
  si_one : ∀ w1 w2 p1 p2, st_writers s !! w1 = Some p1 → st_writers s !! w2 = Some p2 → closer p1 = true → closer p2 = true → w1 = w2;
  si_closing : ∀ w p, st_writers s !! w = Some p → closer p = true → st_closing s = true;
  si_last : 8 ∈ st_wire s → st_closing s = true ∧ (∃ data, st_wire s = data ++ [8] ∧ 8 ∉ data)
            ∧ ∀ w p, st_writers s !! w = Some p → closer p = false ∧ ∀ o, p ≠ Writing o;
}.

(** One writer changes its phase, and nothing else. *)
Lemma frame_inv_phase s w p q mutex : stream_inv s → st_writers s !! w = Some p → phase_opcode q = phase_opcode p →
  (holds p = true → mutex = st_mutex s) → (holds p = false → st_mutex s = None) → mutex = Some w →
  (8 ∈ st_wire s → ∀ o, q ≠ Writing o) →
  stream_inv (mkStream (st_closing s) (<[w := q]> (st_writers s)) mutex (st_broken s) (st_wire s)).
Proof.
  intros [Hm Ho Hc Hl] Hw Hq Hkeep Hfree -> Hnw. assert (closer q = closer p) as Ecl by (unfold closer; by rewrite Hq).
  assert (∀ v x, v ≠ w → st_writers s !! v = Some x → holds x = false) as Hothers.
  { intros v x Hne Hv. destruct (holds x) eqn:Ex; [|done]. pose proof (Hm v x Hv Ex) as Hv'. destruct (holds p) eqn:Ep.
    - pose proof (Hm w p Hw Ep). congruence.
    - rewrite (Hfree eq_refl) in Hv'. done. }
  split; cbn [st_writers st_mutex st_wire st_closing].
  - intros v x [[<- <-]|[Hne Hv]]%lookup_insert_Some Hx; [done|]. by rewrite (Hothers v x) in Hx.
  - intros w1 w2 p1 p2 [[<- <-]|[Hne1 H1]]%lookup_insert_Some [[<- <-]|[Hne2 H2]]%lookup_insert_Some C1 C2; [done | | |by eapply Ho].
    + rewrite Ecl in C1. by eapply Ho.
    + rewrite Ecl in C2. by eapply Ho.
  - intros v x [[<- <-]|[Hne Hv]]%lookup_insert_Some Hx; [rewrite Ecl in Hx; by apply (Hc w p) | by apply (Hc v x)].
  - intros H8. destruct (Hl H8) as (? & ? & Hall). split; [done|]. split; [done|].
    intros v x [[<- <-]|[Hne Hv]]%lookup_insert_Some; [|by apply (Hall v x)].
    split; [rewrite Ecl; exact (proj1 (Hall _ _ Hw)) | by apply Hnw].
Qed.

Lemma frame_inv_leave s w p : stream_inv s → st_writers s !! w = Some p → holds p = true → stream_inv (leave w s).
Proof.
  intros [Hm Ho Hc Hl] Hw Hp. split; cbn [leave st_writers st_mutex st_wire st_closing].
  - intros v x [Hne Hv]%lookup_delete_Some Hx. pose proof (Hm v x Hv Hx). pose proof (Hm w p Hw Hp). congruence.
  - intros w1 w2 p1 p2 [_ H1]%lookup_delete_Some [_ H2]%lookup_delete_Some. by apply Ho.
  - intros v x [_ Hv]%lookup_delete_Some. by apply (Hc v x).
  - intros H8. destruct (Hl H8) as (? & ? & Hall). split; [done|]. split; [done|]. intros v x [_ Hv]%lookup_delete_Some. by eapply Hall.
Qed.

Lemma frame_inv_enter s w opcode s' : stream_inv s → enter w opcode s = Some s' → stream_inv s'.
Proof.
  intros Hs. unfold enter. destruct (st_writers s !! w) eqn:Hw; [done|]. destruct (st_closing s) eqn:Ec; intros [= <-]; [done|].
  destruct Hs as [Hm Ho Hc Hl]. assert (∀ v x, st_writers s !! v = Some x → closer x = false) as Hno.
  { intros v x Hv. destruct (closer x) eqn:Ex; [|done]. pose proof (Hc v x Hv Ex). congruence. }
  split; cbn [st_writers st_mutex st_wire st_closing].
  - intros v x [[<- <-]|[Hne Hv]]%lookup_insert_Some Hx; [done | by eapply Hm].
  - intros w1 w2 p1 p2 [[<- <-]|[_ H1]]%lookup_insert_Some [[<- <-]|[_ H2]]%lookup_insert_Some C1 C2; try done;
      [by rewrite (Hno _ _ H2) in C2 | by rewrite (Hno _ _ H1) in C1 | by eapply Ho].
  - intros v x [[<- <-]|[_ Hv]]%lookup_insert_Some Hx; [done|]. by rewrite (Hno _ _ Hv) in Hx.
  - intros H8. destruct (Hl H8) as [? _]. congruence.
Qed.

Lemma frame_inv_put s w ok s' : stream_inv s → put w ok s = Some s' → stream_inv s'.
Proof.
  intros Hs. unfold put. destruct (st_writers s !! w) as [[o|o|o]|] eqn:Hw; try done. intros [= <-].
  pose proof (frame_inv_leave s w _ Hs Hw eq_refl) as [Hm' Ho' Hc' Hl']. destruct Hs as [Hm Ho Hc Hl].
  split; [exact Hm' | exact Ho' | exact Hc' |]. cbn [st_writers st_mutex st_wire st_closing].
  assert (8 ∉ st_wire s) as Hfresh by (intros H8; destruct (Hl H8) as (_ & _ & Hall); by destruct (Hall w _ Hw) as [_ Hno]; destruct (Hno o)).
  destruct (ok && negb (st_broken s)); [|done]. intros [?|<-%list_elem_of_singleton]%elem_of_app; [done|].
  split; [by apply (Hc w _ Hw)|]. split; [by exists (st_wire s)|].
  intros v x [Hne Hv]%lookup_delete_Some. split.
  - destruct (closer x) eqn:Ex; [|done]. by destruct (Hne (Ho w v _ _ Hw Hv eq_refl Ex)).
  - intros o ->. pose proof (Hm v _ Hv eq_refl). pose proof (Hm w _ Hw eq_refl). congruence.
Qed.

Lemma frame_inv_step s e s' : stream_inv s → frame_step s e = Some s' → stream_inv s'.
Proof.
  intros Hs. destruct e as [w opcode|w|w|w ok]; cbn [frame_step].
  - by apply frame_inv_enter.
  - unfold lock. destruct (st_writers s !! w) as [[o|o|o]|] eqn:Hw; try done. destruct (st_mutex s) eqn:Em; [done|]. intros [= <-].
    by eapply frame_inv_phase.
  - unfold check. destruct (st_writers s !! w) as [[o|o|o]|] eqn:Hw; try done. destruct (negb (is_close o) && st_closing s) eqn:Er; intros [= <-].
    + by eapply frame_inv_leave.
    + pose proof (si_mutex s Hs w _ Hw eq_refl) as Hm. rewrite Hm. eapply frame_inv_phase; try done.
      intros H8. destruct (si_last s Hs H8) as (Hcl & _ & Hall). destruct (Hall w _ Hw) as [Hnc _]. unfold closer in Hnc. cbn in Hnc.
      rewrite Hnc, Hcl in Er. done.
  - by apply frame_inv_put.
Qed.

Lemma frame_run_inv es s s' : stream_inv s → frame_run s es = Some s' → stream_inv s'.
Proof.
  revert s. induction es as [|e es IH]; intros s Hs; cbn [frame_run]; [by intros [= <-]|].
  destruct (frame_step s e) as [s1|] eqn:E; [|done]. apply IH. by eapply frame_inv_step.
Qed.

(** C26 (invariant): however the reader, the pinger and the sender of a stream interleave and whatever writes fail: at
    most one close frame is ever written, nothing is written after it, and at most one goroutine
    writes at a time. *)
Theorem close_is_last (es : list frame_event) (s : stream) (Hrun : frame_run new_stream es = Some s) :
  (8 ∈ st_wire s → ∃ data, st_wire s = data ++ [8] ∧ 8 ∉ data)
  ∧ (8 ∈ st_wire s → ∀ es' s', frame_run s es' = Some s' → st_wire s' = st_wire s)
  ∧ ∀ w1 w2 o1 o2, st_writers s !! w1 = Some (Writing o1) → st_writers s !! w2 = Some (Writing o2) → w1 = w2.
Proof.
  assert (stream_inv s) as Hs.
  { eapply frame_run_inv; [|exact Hrun]. split; cbn; try (intros *; rewrite !lookup_empty; done). by intros ?%elem_of_nil. }
  split; [intros H8; by destruct (si_last s Hs H8) as (_ & ? & _)|]. split.
  - intros H8 es'. clear Hrun. revert s Hs H8. induction es' as [|e es' IH]; intros s Hs H8 s'; cbn [frame_run]; [by intros [= <-]|].
    destruct (frame_step s e) as [s1|] eqn:E; [|done]. intros Hr.
    assert (st_wire s1 = st_wire s) as Ew.
    { destruct e as [w opcode|w|w|w ok]; cbn [frame_step] in E; unfold enter, lock, check, put in E.
      - destruct (st_writers s !! w); [done|]. destruct (st_closing s); by injection E as <-.
      - destruct (st_writers s !! w) as [[]|]; try done. destruct (st_mutex s); [done|]. by injection E as <-.
      - destruct (st_writers s !! w) as [[]|]; try done. destruct (_ && _); by injection E as <-.
      - destruct (st_writers s !! w) as [[]|] eqn:Hw; try done. destruct (si_last s Hs H8) as (_ & _ & Hall). by destruct (Hall w _ Hw) as [_ Hno]; destruct (Hno opcode). }
    rewrite <- Ew. apply (IH s1); [by eapply frame_inv_step | by rewrite Ew | done].
  - intros w1 w2 o1 o2 H1 H2. pose proof (si_mutex s Hs _ _ H1 eq_refl). pose proof (si_mutex s Hs _ _ H2 eq_refl). congruence.
Qed.

(** An event waits for the lock while the client closes: it is dropped. *)
Definition client_closes : list frame_event :=
  [FEnter 0 1; FEnter 1 8; FLock 1; FCheck 1; FPut 1 true; FLock 0; FCheck 0; FEnter 2 9].
Lemma close_is_last_witness : ∃ s, frame_run new_stream client_closes = Some s ∧ ∃ data, st_wire s = data ++ [8] ∧ 8 ∉ data.
Proof.
  destruct (frame_run new_stream client_closes) as [s|] eqn:E; [|vm_compute in E; discriminate E].
  exists s. split; [reflexivity|]. apply (close_is_last client_closes s E).
  vm_compute in E. injection E as <-. left.
Defined.
End Stream.
