(* ===== verification/EngineLogStream.v ===== *)
(** * The goroutines of a log stream ([serveEngineLogWebSocket])

    One goroutine reads what the client sends, one pings it, and the handler
    sends the events.  How their frames interleave is in [EngineLogService];
    here is what each of them does with what it meets.  The client's input ends
    where the connection fails or its deadline passes; [ok] says whether a write
    succeeds, by the number of writes before it. *)
From S2P Require Import Prelude GoStrings GoBinary Json EngineLogHub WebSocket.

(** Opcode and payload of a [writeFrame]. *)
Abbreviation frame := (Z * bytes)%type.

(** The frames written, and whether the deadline was moved by a pong, for each frame read. *)
Fixpoint stream_reader (fuel : nat) (ok : nat → bool) (input : bytes) : option (list frame * nat) :=
  match fuel with
  | O => None
  | S fuel =>
      match readWebSocketClientFrame input with
      | Err _ => Some ([(0x8, webSocketClosePayload 1002 (lit "protocol error"))], O)
      | Ok (opcode, payload, rest) =>
          if opcode =? 0x8 then Some ([(0x8, payload)], O)
          else if opcode =? 0x9 then
            if ok O then '(writes, pongs) ← stream_reader fuel (λ n, ok (S n)) rest; Some ((0xA, payload) :: writes, pongs)
            else Some ([(0xA, payload)], O)
          else if opcode =? 0xA then '(writes, pongs) ← stream_reader fuel ok rest; Some (writes, S pongs)
          else Some ([(0x8, webSocketClosePayload 1003 (lit "read-only stream"))], O)
      end
  end.

(** The pinger: the ticks before its context is done. *)
Fixpoint stream_pinger (ok : nat → bool) (ticks : nat) : list frame :=
  match ticks with O => [] | S ticks => (0x9, []) :: if ok O then stream_pinger (λ n, ok (S n)) ticks else [] end.

(** The handler: the results of [Next], up to its first error. *)
Fixpoint stream_sender (ok : nat → bool) (results : list (option bytes)) : list frame :=
  match results with
  | Some payload :: results =>
      if maxWebSocketServerFrameBytes <? len payload then []
      else (0x1, payload) :: if ok O then stream_sender (λ n, ok (S n)) results else []
  | _ => []
  end.

(** ** The reader *)
Definition pong (f : frame) : option frame := if f.1 =? 0x9 then Some (0xA, f.2) else None.
(** What the reader says last. *)
Definition last_words (input : bytes) : frame :=
  match readWebSocketClientFrame input with
  | Err _ => (0x8, webSocketClosePayload 1002 (lit "protocol error"))
  | Ok (opcode, payload, _) => (0x8, if opcode =? 0x8 then payload else webSocketClosePayload 1003 (lit "read-only stream"))
  end.
(** Neither a ping nor a pong comes next. *)
Definition ends_here (input : bytes) : Prop :=
  match readWebSocketClientFrame input with Ok (opcode, _, _) => opcode ≠ 0x9 ∧ opcode ≠ 0xA | Err _ => True end.
(** The client's frames, each with its mask. *)
Definition wire_of (fs : list (bytes * frame)) : bytes := concat (map (λ f, client_frame f.2.1 f.1 f.2.2) fs).
Definition keeps_alive (f : bytes * frame) : Prop := length f.1 = 4%nat ∧ acceptable f.2.1 f.2.2 ∧ (f.2.1 = 0x9 ∨ f.2.1 = 0xA).

Lemma client_frame_length op mask p : (2 <= length (client_frame op mask p))%nat.
Proof. unfold client_frame. rewrite !length_app. cbn. unfold length_prefix. destruct (_ <? _); [cbn; lia|]. destruct (_ <=? _); cbn; lia. Qed.

Lemma reader_runs fuel input : is_bytes input → (length input < fuel)%nat →
  ∃ fs tail, input = wire_of fs ++ tail ∧ Forall keeps_alive fs ∧ ends_here tail
    ∧ stream_reader fuel (λ _, true) input = Some (omap pong (map snd fs) ++ [last_words tail], length (filter (λ f, f.2.1 = 0xA) fs)).
Proof.
  revert input. induction fuel as [|fuel IH]; [lia|]. intros input Hb Hl. cbn [stream_reader].
  destruct (readWebSocketClientFrame input) as [[[op p] rest]|e] eqn:E.
  - destruct (read_client_frame_inv input op p rest Hb E) as (mask & Hm & Ha & Hi).
    destruct (decide (op = 0x9 ∨ op = 0xA)) as [Hop|Hop].
    + pose proof (client_frame_length op mask p) as Hlen. assert (is_bytes rest) as Hbr by (rewrite Hi in Hb; by apply Forall_app in Hb as [_ ?]).
      destruct (IH rest Hbr) as (fs & tail & -> & Hfs & Ht & Hr); [rewrite Hi, length_app in Hl; lia|].
      exists ((mask, (op, p)) :: fs), tail. split; [rewrite Hi; cbn; by rewrite app_assoc|]. split; [by constructor|]. split; [done|]. rewrite Hr.
      destruct Hop as [-> | ->]; done.
    + exists [], input. split; [done|]. split; [constructor|]. unfold ends_here, last_words. rewrite E. split; [by split; intros ->; apply Hop; [left|right]|].
      destruct (Z.eqb_spec op 0x8) as [->|H8]; [done|]. destruct (Z.eqb_spec op 0x9) as [->|H9]; [destruct Hop; by left|].
      destruct (Z.eqb_spec op 0xA) as [->|HA]; [destruct Hop; by right | done].
  - exists [], input. split; [done|]. split; [constructor|]. unfold ends_here, last_words. by rewrite E.
Qed.

Lemma last_words_close input : is_bytes input → (last_words input).1 = 0x8 ∧ len (last_words input).2 <= 125.
Proof.
  intros Hb. unfold last_words. destruct (readWebSocketClientFrame input) as [[[op p] rest]|e] eqn:E; cbn [fst snd]; [|split; [done | by vm_compute]].
  split; [done|]. destruct (Z.eqb_spec op 0x8) as [->|]; [|by vm_compute]. destruct (read_client_frame_inv input _ p rest Hb E) as (_ & _ & Ha & _).
  apply (proj2 (acceptable_length _ _ Ha)). lia.
Qed.

(** C27 (termination): the reader of a stream answers its client and goes.  Whatever bytes the
    client sends, the reader ends: each ping so far is answered with a pong of
    its payload, in order, each pong moves the deadline, and the first thing
    that is neither is answered with one close frame, the last thing the reader
    writes: the client's own close, or 1002 for what is no frame, or 1003 for
    data.  Every one of these frames is one the writer takes. *)
Theorem reader_answers_exact input (Hb : is_bytes input) :
  ∃ fs tail, input = wire_of fs ++ tail ∧ Forall keeps_alive fs ∧ ends_here tail
    ∧ stream_reader (S (length input)) (λ _, true) input
      = Some (omap pong (map snd fs) ++ [last_words tail], length (filter (λ f, f.2.1 = 0xA) fs))
    ∧ (last_words tail).1 = 0x8
    ∧ Forall (λ f, is_ok (writeWebSocketFrame f.1 f.2) = true) (omap pong (map snd fs) ++ [last_words tail]).
Proof.
  destruct (reader_runs (S (length input)) input Hb) as (fs & tail & Hi & Hfs & Ht & Hr); [lia|]. exists fs, tail.
  assert (is_bytes tail) as Hbt by (rewrite Hi in Hb; by apply Forall_app in Hb as [_ ?]). destruct (last_words_close tail Hbt) as [H8 Hl].
  assert (∀ op p, len p <= 125 → is_ok (writeWebSocketFrame op p) = true) as Hw.
  { intros op p Hp. unfold writeWebSocketFrame. rewrite (proj2 (Z.ltb_ge 125 (len p))) by done. rewrite andb_false_r.
    unfold maxWebSocketServerFrameBytes. by rewrite (proj2 (Z.ltb_ge _ (len p))) by lia. }
  split; [done|]. split; [done|]. split; [done|]. split; [done|]. split; [done|]. apply Forall_app. split.
  - apply Forall_forall. intros f (g & Hg & Hf)%list_elem_of_omap. apply list_elem_of_In, in_map_iff in Hg as (x & <- & Hx).
    rewrite Forall_forall in Hfs. destruct (Hfs x) as (_ & Ha & Hop); [by apply list_elem_of_In|]. unfold pong in Hf. destruct (_ =? _); [|done]. injection Hf as <-.
    apply Hw. apply (acceptable_length _ _ Ha). destruct Hop as [-> | ->]; lia.
  - constructor; [by apply Hw | constructor].
Qed.

Lemma reader_answers_exact_witness :
  ∃ fs tail, client_frame 0x9 [1; 2; 3; 4] (lit "hi") ++ client_frame 0x1 [1; 2; 3; 4] (lit "x") = wire_of fs ++ tail ∧ Forall keeps_alive fs ∧ ends_here tail.
Proof.
  destruct (reader_answers_exact (client_frame 0x9 [1; 2; 3; 4] (lit "hi") ++ client_frame 0x1 [1; 2; 3; 4] (lit "x"))) as (fs & tail & H1 & H2 & H3 & _).
  - apply (bool_decide_unpack _). vm_compute. exact I.
  - exists fs, tail. split; [exact H1|]. split; [exact H2 | exact H3].
Defined.
Example reader_example :
  stream_reader 99 (λ _, true) (client_frame 0x9 [1; 2; 3; 4] (lit "hi") ++ client_frame 0x1 [1; 2; 3; 4] (lit "x"))
  = Some ([(0xA, lit "hi"); (0x8, webSocketClosePayload 1003 (lit "read-only stream"))], O).
Proof. vm_compute. reflexivity. Qed.

(** ** The sender *)
(** An event the hub encodes is never too long for a frame. *)
Lemma sender_all ok events : (∀ n, ok n = true) → Forall (λ p, len p <= maxEngineLogJSONBytes) events →
  stream_sender ok (map Some events ++ [None]) = map (λ p, (0x1, p)) events.
Proof.
  intros Hok Hl. revert ok Hok. induction Hl as [|p events Hp _ IH]; intros ok Hok; [done|]. cbn.
  unfold maxEngineLogJSONBytes in Hp. unfold maxWebSocketServerFrameBytes. rewrite (proj2 (Z.ltb_ge _ (len p))) by lia. rewrite Hok. f_equal. by apply IH.
Qed.
