(* ===== verification/EngineLogSocket.v ===== *)
(** * The socket of the engine log ([engine_logs.go])

    Several processes may start on the same path.  The claim of the path is a
    lock file; a process that holds it clears a stale socket, listens, and takes
    everything away when it closes.  A step is one system call of one process;
    what the kernel answers is in the event.  A process may crash between any
    two calls: its files stay, its listener ends. *)
From stdpp Require Import gmap.
From S2P Require Import Prelude.

(** What a path names: a socket with its identity, or something else. *)
Inductive entry := Sock (i : nat) | OtherFile.

(** Where a process is in [listenEngineLogsSocketAt] or [Close], with the identities it remembers:
    of its lock file, and of the socket it saw or made. *)
Inductive phase :=
| Opened (l : nat)            (** the lock file is created *)
| Claimed (l : nat)           (** and its identity is known *)
| Saw (l i : nat)             (** a socket is at the path *)
| Refused (l i : nat)         (** nobody listens on it *)
| Verified (l i : nat)        (** and it is still the same *)
| Cleared (l : nat)           (** nothing is at the path *)
| Named (l i : nat)           (** bound, inside [net.Listen] *)
| Listening (l i : nat)       (** listening, before the mode is set *)
| Serving (l i : nat)
| Closing (l i : nat)         (** inside the listener's [Close] *)
| Unlinked (l i : nat)        (** its name is gone *)
| Releasing (l : nat)         (** the lock file is to be given back *)
| Unlocking (l : nat).        (** and it is still this process's *)

Definition lock_of (ph : phase) : nat :=
  match ph with
  | Opened l | Claimed l | Cleared l | Releasing l | Unlocking l => l
  | Saw l _ | Refused l _ | Verified l _ | Named l _ | Listening l _ | Serving l _ | Closing l _ | Unlinked l _ => l
  end.

Record sockets := mkSockets {
  sk_lock : option nat;         (** the file at [path + ".lock"] *)
  sk_path : option entry;
  sk_live : gset nat;           (** the sockets that somebody listens on *)
  sk_procs : gmap nat phase;
  sk_next : nat;                (** the next identity *)
}.

Inductive dial_answer := DialAccepted | DialRefused | DialGone | DialFailed.

(** [ok] is whether the call succeeds; a failure of a call that only reads is its error. *)
Inductive sock_event :=
| EOpen (p : nat)
| EStat (p : nat) (ok : bool)
| ELook (p : nat) (ok : bool)                 (** [Lstat] of the path *)
| EDial (p : nat) (a : dial_answer)
| ELookAgain (p : nat) (ok : bool)
| ERemove (p : nat) (ok : bool)
| EBind (p : nat)
| EListen (p : nat) (ok : bool)
| EChmod (p : nat) (ok : bool)
| EClose (p : nat)
| EUnlink (p : nat) (ok : bool)
| ECloseSocket (p : nat)
| ELookLock (p : nat) (ok : bool)
| EUnlock (p : nat) (ok : bool)
| ECrash (p : nat)
| EForeignEnds (i : nat).                     (** a listener of another program ends *)

Definition at_phase (p : nat) (ph : phase) (s : sockets) : sockets :=
  mkSockets (sk_lock s) (sk_path s) (sk_live s) (<[p := ph]> (sk_procs s)) (sk_next s).
Definition gone (p : nat) (s : sockets) : sockets :=
  mkSockets (sk_lock s) (sk_path s) (sk_live s) (delete p (sk_procs s)) (sk_next s).
Definition set_lock (l : option nat) (s : sockets) : sockets := mkSockets l (sk_path s) (sk_live s) (sk_procs s) (sk_next s).
Definition set_path (e : option entry) (s : sockets) : sockets := mkSockets (sk_lock s) e (sk_live s) (sk_procs s) (sk_next s).
Definition set_live (live : gset nat) (s : sockets) : sockets := mkSockets (sk_lock s) (sk_path s) live (sk_procs s) (sk_next s).

(** [os.OpenFile] with [O_CREATE|O_EXCL]; a process that finds the lock returns at once. *)
Definition open_lock (p : nat) (s : sockets) : option sockets :=
  match sk_procs s !! p with
  | Some _ => None
  | None => Some match sk_lock s with
                 | Some _ => s
                 | None => at_phase p (Opened (sk_next s)) (mkSockets (Some (sk_next s)) (sk_path s) (sk_live s) (sk_procs s) (S (sk_next s)))
                 end
  end.

(** The second [Lstat] finds a socket, and the same one. *)
Definition same_socket (i : nat) (e : option entry) : bool := match e with Some (Sock j) => bool_decide (i = j) | _ => false end.

(** [removeStaleEngineLogsSocket], one call at a time. *)
Definition stale_step (p : nat) (e : sock_event) (s : sockets) : option sockets :=
  match sk_procs s !! p, e with
  | Some (Claimed l), ELook _ ok =>
      Some (at_phase p (if ok then match sk_path s with
                                   | None => Cleared l
                                   | Some OtherFile => Releasing l
                                   | Some (Sock i) => Saw l i
                                   end else Releasing l) s)
  | Some (Saw l i), EDial _ a =>
      match a, sk_path s with
      | DialRefused, Some (Sock j) => if decide (j ∈ sk_live s) then None else Some (at_phase p (Refused l i) s)
      | DialRefused, Some OtherFile => Some (at_phase p (Refused l i) s)
      | DialRefused, None => None
      | DialGone, None => Some (at_phase p (Cleared l) s)
      | DialGone, Some _ => None
      | _, _ => Some (at_phase p (Releasing l) s)
      end
  | Some (Refused l i), ELookAgain _ ok =>
      Some (at_phase p (if ok && same_socket i (sk_path s) then Verified l i else Releasing l) s)
  | Some (Verified l i), ERemove _ ok =>
      Some (if ok then at_phase p (Cleared l) (set_path None s) else at_phase p (Releasing l) s)
  | _, _ => None
  end.

(** [net.Listen] and [os.Chmod]; a name that is taken is not bound. *)
Definition listen_step (p : nat) (e : sock_event) (s : sockets) : option sockets :=
  match sk_procs s !! p, e with
  | Some (Opened l), EStat _ ok => Some (at_phase p (if ok then Claimed l else Unlocking l) s)
  | Some (Cleared l), EBind _ =>
      Some match sk_path s with
           | Some _ => at_phase p (Releasing l) s
           | None => at_phase p (Named l (sk_next s)) (mkSockets (sk_lock s) (Some (Sock (sk_next s))) (sk_live s) (sk_procs s) (S (sk_next s)))
           end
  | Some (Named l i), EListen _ ok => Some (if ok then at_phase p (Listening l i) (set_live ({[i]} ∪ sk_live s) s) else at_phase p (Releasing l) s)
  | Some (Listening l i), EChmod _ ok => Some (at_phase p (if ok then Serving l i else Closing l i) s)
  | _, _ => None
  end.

(** [engineLogsLockedListener.Close] and [releaseLock]; the listener removes its name before it closes. *)
Definition close_step (p : nat) (e : sock_event) (s : sockets) : option sockets :=
  match sk_procs s !! p, e with
  | Some (Serving l i), EClose _ => Some (at_phase p (Closing l i) s)
  | Some (Closing l i), EUnlink _ ok => Some (at_phase p (Unlinked l i) (if ok then set_path None s else s))
  | Some (Unlinked l i), ECloseSocket _ => Some (at_phase p (Releasing l) (set_live (sk_live s ∖ {[i]}) s))
  | Some (Releasing l), ELookLock _ ok => Some (if ok && bool_decide (sk_lock s = Some l) then at_phase p (Unlocking l) s else gone p s)
  | Some (Unlocking l), EUnlock _ ok => Some (gone p (if ok then set_lock None s else s))
  | _, _ => None
  end.

(** The sockets a process listens on. *)
Definition listens (ph : phase) : gset nat :=
  match ph with Listening _ i | Serving _ i | Closing _ i | Unlinked _ i => {[i]} | _ => ∅ end.

Definition sock_step (s : sockets) (e : sock_event) : option sockets :=
  match e with
  | EOpen p => open_lock p s
  | ELook p _ | EDial p _ | ELookAgain p _ | ERemove p _ => stale_step p e s
  | EStat p _ | EBind p | EListen p _ | EChmod p _ => listen_step p e s
  | EClose p | EUnlink p _ | ECloseSocket p | ELookLock p _ | EUnlock p _ => close_step p e s
  | ECrash p => ph ← sk_procs s !! p; Some (gone p (set_live (sk_live s ∖ listens ph) s))
  | EForeignEnds i => if decide (map_Exists (λ _ ph, i ∈ listens ph) (sk_procs s)) then None else Some (set_live (sk_live s ∖ {[i]}) s)
  end.
Fixpoint sock_run (s : sockets) (es : list sock_event) : option sockets :=
  match es with [] => Some s | e :: es => s' ← sock_step s e; sock_run s' es end.

(** ** The lock excludes *)

(** The socket that is at the path as long as only its process touches the path. *)
Definition sock_of (ph : phase) : option nat :=
  match ph with
  | Saw _ i | Refused _ i | Verified _ i | Named _ i | Listening _ i | Serving _ i | Closing _ i => Some i
  | _ => None
  end.
(** The socket that nobody listens on. *)
Definition silent_of (ph : phase) : option nat := match ph with Refused _ i | Verified _ i | Named _ i => Some i | _ => None end.

(** What holds of the process that holds the lock. *)
Definition owner_ok (s : sockets) (ph : phase) : Prop :=
  sk_lock s = Some (lock_of ph)
  ∧ (∀ i, sock_of ph = Some i → sk_path s = Some (Sock i))
  ∧ (∀ i, silent_of ph = Some i → i ∉ sk_live s)
  ∧ listens ph ⊆ sk_live s.
Definition fresh (s : sockets) : Prop := (∀ i, i ∈ sk_live s → (i < sk_next s)%nat) ∧ ∀ i, sk_path s = Some (Sock i) → (i < sk_next s)%nat.
Definition sock_inv (s : sockets) : Prop :=
  fresh s ∧ (sk_procs s = ∅ ∨ ∃ p ph, sk_procs s = {[p := ph]} ∧ owner_ok s ph).

(** Only the owner has a step to take. *)
Definition actor (e : sock_event) : option nat :=
  match e with
  | EStat p _ | ELook p _ | EDial p _ | ELookAgain p _ | ERemove p _ | EBind p | EListen p _ | EChmod p _
  | EClose p | EUnlink p _ | ECloseSocket p | ELookLock p _ | EUnlock p _ | ECrash p => Some p
  | EOpen _ | EForeignEnds _ => None
  end.
Lemma step_actor s e p s' : actor e = Some p → sock_step s e = Some s' → is_Some (sk_procs s !! p).
Proof.
  destruct (sk_procs s !! p) eqn:Hp; [by intros _ _; eexists|].
  destruct e; intros [= ->]; cbn [sock_step]; unfold stale_step, listen_step, close_step; by rewrite Hp.
Qed.

Lemma fresh_live live s : live ⊆ sk_live s → fresh s → fresh (set_live live s).
Proof. intros Hl [H1 H2]. split; cbn; [intros i Hi; apply H1; set_solver | done]. Qed.

Lemma only_one (p : nat) (x y : phase) : <[p := x]> ({[p := y]} : gmap nat phase) = {[p := x]}.
Proof. apply insert_insert_eq. Qed.

(** A process that moves on and leaves the files alone. *)
Lemma owner_moves s p ph ph' : sock_inv s → sk_procs s !! p = Some ph → lock_of ph' = lock_of ph →
  (∀ i, sock_of ph' = Some i → sk_path s = Some (Sock i)) → (∀ i, silent_of ph' = Some i → i ∉ sk_live s) → listens ph' ⊆ sk_live s →
  sock_inv (at_phase p ph' s).
Proof.
  intros [Hf Ho] Hp Hl H1 H2 H3. split; [done|]. right. exists p, ph'.
  destruct Ho as [Ho|(q & phq & Ho & Hlock & _)]; [rewrite Ho in Hp; by rewrite lookup_empty in Hp|].
  rewrite Ho in Hp. apply lookup_singleton_Some in Hp as [<- <-]. split; [cbn; rewrite Ho; apply only_one|].
  split; [by rewrite Hl|]. done.
Qed.

Lemma owner s p ph : sock_inv s → sk_procs s !! p = Some ph → sk_procs s = {[p := ph]} ∧ owner_ok s ph.
Proof.
  intros [_ [Ho|(q & phq & Ho & Hok)]] Hp; rewrite Ho in Hp; [by rewrite lookup_empty in Hp|].
  apply lookup_singleton_Some in Hp as [<- <-]. done.
Qed.

Lemma owner_leaves s p ph s' : sock_inv s → sk_procs s !! p = Some ph → fresh s' → sk_procs s' = sk_procs s → sock_inv (gone p s').
Proof. intros Hi Hp Hf Hs. destruct (owner s p ph Hi Hp) as [Ho _]. split; [done|]. left. cbn. rewrite Hs, Ho. apply delete_singleton_eq. Qed.

Lemma sock_inv_listen s p e s' : sock_inv s → listen_step p e s = Some s' → sock_inv s'.
Proof.
  intros Hi. unfold listen_step. destruct (sk_procs s !! p) as [ph|] eqn:Hp; [|done].
  destruct (owner s p ph Hi Hp) as (Ho & Hl & Hs & Hq & Hn). pose proof Hi as [[Hf1 Hf2] _].
  destruct ph; try done; destruct e; try done; intros [= <-].
  - destruct ok; eapply owner_moves; done.
  - destruct (sk_path s) eqn:Ep; [by eapply owner_moves|]. split.
    + split; cbn; [intros i Hx%Hf1; lia | intros i [= <-]; lia].
    + right. eexists p, _. split; [cbn; rewrite Ho; apply only_one|]. split; [exact Hl|]. cbn. split; [by intros i [= <-]|].
      split; [intros i [= <-] Hx%Hf1; lia | done].
  - destruct ok; [|by eapply owner_moves]. split; [split; cbn; [|done]|].
    + intros j [->%elem_of_singleton|Hx%Hf1]%elem_of_union; [|done]. by apply Hf2, Hs.
    + right. eexists p, _. split; [cbn; rewrite Ho; apply only_one|]. split; [exact Hl|]. cbn. split; [exact Hs|]. split; [done | set_solver].
  - destruct ok; by eapply owner_moves.
Qed.

Lemma sock_inv_stale s p e s' : sock_inv s → stale_step p e s = Some s' → sock_inv s'.
Proof.
  intros Hi. unfold stale_step. destruct (sk_procs s !! p) as [ph|] eqn:Hp; [|done].
  destruct (owner s p ph Hi Hp) as (Ho & Hl & Hs & Hq & Hn). pose proof Hi as [[Hf1 Hf2] _].
  destruct ph; try done; destruct e; try done.
  - intros [= <-]. destruct ok; [|by eapply owner_moves]. destruct (sk_path s) as [[i|]|] eqn:Ep; (eapply owner_moves; [done..| | |]); try done. by intros j [= <-].
  - cbn in Hs. pose proof (Hs i eq_refl) as Ep. rewrite Ep. destruct a; try done; [| |]; try (intros [= <-]; by eapply owner_moves).
    destruct (decide _); [done|]. intros [= <-]. eapply owner_moves; try done. by intros j [= <-].
  - intros [= <-]. destruct (ok && _); eapply owner_moves; done.
  - intros [= <-]. destruct ok; [|by eapply owner_moves]. split; [by split; cbn|]. right. eexists p, _.
    split; [cbn; rewrite Ho; apply only_one|]. split; [exact Hl | done].
Qed.

Lemma sock_inv_close s p e s' : sock_inv s → close_step p e s = Some s' → sock_inv s'.
Proof.
  intros Hi. unfold close_step. destruct (sk_procs s !! p) as [ph|] eqn:Hp; [|done].
  destruct (owner s p ph Hi Hp) as (Ho & Hl & Hs & Hq & Hn). pose proof Hi as [[Hf1 Hf2] _].
  destruct ph; try done; destruct e; try done; intros [= <-].
  - by eapply owner_moves.
  - destruct ok; [|by eapply owner_moves]. split; [by split; cbn|]. right. eexists p, _.
    split; [cbn; rewrite Ho; apply only_one|]. done.
  - split; [by apply fresh_live; [set_solver|]|]. right. eexists p, _. split; [cbn; rewrite Ho; apply only_one|]. split; [exact Hl | done].
  - destruct (ok && _); [by eapply owner_moves|]. by eapply owner_leaves.
  - eapply owner_leaves; [done | done | |]; by destruct ok.
Qed.

Lemma sock_inv_step s e s' : sock_inv s → sock_step s e = Some s' → sock_inv s'.
Proof.
  intros Hi. pose proof Hi as [Hf Ho]. destruct e; cbn [sock_step]; try (by apply sock_inv_listen); try (by apply sock_inv_stale); try (by apply sock_inv_close).
  - unfold open_lock. destruct (sk_procs s !! p); [done|]. intros [= <-]. destruct (sk_lock s) eqn:El; [done|].
    destruct Hf as [Hf1 Hf2]. split; [split; cbn; intros i Hx; [apply Hf1 in Hx | apply Hf2 in Hx]; lia|]. right. eexists p, _.
    destruct Ho as [Ho|(q & ph & _ & Hl & _)]; [|congruence]. split; [cbn; rewrite Ho; apply insert_empty | done].
  - destruct (sk_procs s !! p) as [ph|] eqn:Hp; [|done]. intros [= <-]. eapply owner_leaves; [done | done | by apply fresh_live; [set_solver|] | done].
  - destruct (decide _) as [|Hno]; [done|]. intros [= <-]. split; [by apply fresh_live; [set_solver|]|].
    destruct Ho as [Ho|(p & ph & Ho & Hl & Hs & Hq & Hn)]; [by left|]. right. exists p, ph. split; [done|]. split; [done|]. split; [done|]. cbn.
    split; [intros j Hj; pose proof (Hq j Hj); set_solver|]. assert (i ∉ listens ph); [|set_solver].
    intros Hx. apply Hno. exists p, ph. rewrite Ho. by rewrite lookup_singleton_eq.
Qed.

Lemma sock_run_inv es s s' : sock_inv s → sock_run s es = Some s' → sock_inv s'.
Proof.
  revert s. induction es as [|e es IH]; intros s Hs; cbn [sock_run]; [by intros [= <-]|].
  destruct (sock_step s e) as [s1|] eqn:E; [|done]. apply IH. by eapply sock_inv_step.
Qed.

(** Nobody has started yet; the path and the listeners of other programs are what they are. *)
Definition idle (path : option entry) (live : gset nat) (next : nat) : sockets := mkSockets None path live ∅ next.

Lemma idle_inv path live next : fresh (idle path live next) → sock_inv (idle path live next).
Proof. split; [done | by left]. Qed.

Lemma path_kept s e s' i : sock_inv s → sock_step s e = Some s' → sk_path s = Some (Sock i) → i ∈ sk_live s → sk_path s' ≠ sk_path s →
  ∃ p l, e = EUnlink p true ∧ sk_procs s !! p = Some (Closing l i).
Proof.
  intros Hi E Hp Hlive Hne. destruct e; cbn [sock_step] in E.
  1: { unfold open_lock in E. destruct (sk_procs s !! p), (sk_lock s); try done; by injection E as <-. }
  all: try (destruct (decide _); [done | by injection E as <-]).
  all: destruct (sk_procs s !! p) as [ph|] eqn:Hq; [|unfold stale_step, listen_step, close_step in E; by rewrite ?Hq in E].
  all: destruct (owner s p ph Hi Hq) as (_ & _ & Hs & Hn & _).
  all: unfold stale_step, listen_step, close_step in E; rewrite ?Hq in E; destruct ph; try done; rewrite Hp in *; cbn in E;
    repeat match type of E with context [match ?x with _ => _ end] => destruct x; try done end; injection E as <-; try done.
  - pose proof (Hs _ eq_refl) as [= <-]. by destruct (Hn _ eq_refl).
  - pose proof (Hs _ eq_refl) as [= <-]. eauto.
Qed.

(** C23 (safety): however processes start, close and crash on one path, at most one of them holds the lock; the name
    of the one that serves leads to the socket it listens on; and a name that somebody listens on, a
    foreign program included, is taken away only by its own process when it closes. *)
Theorem socket_is_claimed (path : option entry) (live : gset nat) (next : nat) (es : list sock_event) (s : sockets)
    (Hidle : fresh (idle path live next)) (Hrun : sock_run (idle path live next) es = Some s) :
  (∀ p q, is_Some (sk_procs s !! p) → is_Some (sk_procs s !! q) → p = q)
  ∧ (∀ p l i, sk_procs s !! p = Some (Serving l i) → sk_lock s = Some l ∧ sk_path s = Some (Sock i) ∧ i ∈ sk_live s)
  ∧ ∀ e s' i, sock_step s e = Some s' → sk_path s = Some (Sock i) → i ∈ sk_live s → sk_path s' ≠ sk_path s →
      ∃ p l, e = EUnlink p true ∧ sk_procs s !! p = Some (Closing l i).
Proof.
  pose proof (sock_run_inv es _ s (idle_inv _ _ _ Hidle) Hrun) as Hi. split; [|split].
  - intros p q [ph Hp] [ph' Hq]. destruct (owner s p ph Hi Hp) as [Ho _]. rewrite Ho in Hq. by apply lookup_singleton_Some in Hq as [? _].
  - intros p l i Hp. destruct (owner s p _ Hi Hp) as (_ & Hl & Hs & _ & Hn). split; [done|]. split; [by apply Hs|]. apply Hn. cbn. set_solver.
  - intros e s' i. by apply path_kept.
Qed.

(** A start that clears a stale socket, while another is refused. *)
Definition stale_start : list sock_event :=
  [EOpen 1; EStat 1 true; EOpen 2; ELook 1 true; EDial 1 DialRefused; ELookAgain 1 true; ERemove 1 true; EBind 1; EListen 1 true; EOpen 2; EChmod 1 true].
Lemma stale_fresh : fresh (idle (Some (Sock 0)) ∅ 1).
Proof. split; cbn; [by intros i ?%elem_of_empty | intros i [= <-]; lia]. Qed.
Lemma socket_is_claimed_witness : ∃ s, sock_run (idle (Some (Sock 0)) ∅ 1) stale_start = Some s ∧ sk_path s = Some (Sock 2) ∧ 2%nat ∈ sk_live s.
Proof.
  destruct (sock_run (idle (Some (Sock 0)) ∅ 1) stale_start) as [s|] eqn:E; [|vm_compute in E; discriminate E].
  exists s. split; [reflexivity|]. destruct (socket_is_claimed (Some (Sock 0)) ∅ 1 stale_start s stale_fresh E) as (_ & H & _).
  exact (proj2 (H 1%nat 1%nat 2%nat ltac:(vm_compute in E; injection E as <-; vm_compute; reflexivity))).
Defined.

Lemma orphan_lock l e s s' : sk_procs s = ∅ → sk_lock s = Some l → sock_step s e = Some s' →
  sk_procs s' = ∅ ∧ sk_lock s' = Some l ∧ sk_path s' = sk_path s.
Proof.
  intros Hp Hl E. destruct (actor e) as [p|] eqn:Ha.
  - destruct (step_actor s e p s' Ha E) as [ph Hq]. by rewrite Hp, lookup_empty in Hq.
  - destruct e; try done; cbn [sock_step] in E.
    + unfold open_lock in E. rewrite Hp, lookup_empty, Hl in E. by injection E as <-.
    + destruct (decide _); [done|]. by injection E as <-.
Qed.

(** A service that crashed leaves its lock with its socket: no later start gets past the lock, so none
    removes the stale socket, which is what [removeStaleEngineLogsSocket] is for. *)
Theorem crash_locks_out (path : option entry) (live : gset nat) (next : nat) (es : list sock_event) (s s' : sockets) (p l i : nat)
    (Hidle : fresh (idle path live next)) (Hrun : sock_run (idle path live next) es = Some s)
    (Hserving : sk_procs s !! p = Some (Serving l i)) (Hcrash : sock_step s (ECrash p) = Some s') :
  ∀ es' s'', sock_run s' es' = Some s'' → sk_procs s'' = ∅ ∧ sk_lock s'' = Some l ∧ sk_path s'' = Some (Sock i).
Proof.
  pose proof (sock_run_inv es _ s (idle_inv _ _ _ Hidle) Hrun) as Hi. destruct (owner s p _ Hi Hserving) as (Ho & Hl & Hs & _).
  assert (sk_procs s' = ∅ ∧ sk_lock s' = Some l ∧ sk_path s' = Some (Sock i)) as H.
  { cbn [sock_step] in Hcrash. rewrite Hserving in Hcrash. injection Hcrash as <-. cbn. rewrite Ho. split; [apply delete_singleton_eq|]. split; [done | by apply Hs]. }
  intros es'. clear Hi Ho Hl Hs Hcrash. revert s' H. induction es' as [|e es' IH]; intros s' H s'' Hr; cbn [sock_run] in Hr; [by injection Hr as <-|].
  destruct (sock_step s' e) as [s1|] eqn:E; [|done]. destruct H as (H1 & H2 & H3).
  apply (IH s1); [|done]. destruct (orphan_lock l e s' s1 H1 H2 E) as (? & ? & ->). done.
Qed.

Lemma crash_locks_out_witness : ∃ s s', sock_run (idle (Some (Sock 0)) ∅ 1) stale_start = Some s ∧ sock_step s (ECrash 1) = Some s'
  ∧ ∀ es' s'', sock_run s' es' = Some s'' → sk_procs s'' = ∅ ∧ sk_lock s'' = Some 1%nat ∧ sk_path s'' = Some (Sock 2).
Proof.
  destruct (sock_run (idle (Some (Sock 0)) ∅ 1) stale_start) as [s|] eqn:E; [|vm_compute in E; discriminate E].
  destruct (sock_step s (ECrash 1)) as [s'|] eqn:E'; [|vm_compute in E; injection E as <-; vm_compute in E'; discriminate E'].
  exists s, s'. split; [reflexivity|]. split; [exact E'|].
  exact (crash_locks_out (Some (Sock 0)) ∅ 1 stale_start s s' 1 1 2 stale_fresh E ltac:(vm_compute in E; injection E as <-; vm_compute; reflexivity) E').
Defined.
