(* ===== verification/ConfigStore.v ===== *)
(** * The configuration store ([configStore] of [config.go])

    What one call of [Current] observes outside the store is its view: what
    the bundle source reports, the stat of the file, and the read of the
    document.  The store keeps the last good snapshot, the identities that
    suppress repeated work, and one generation counter for both sources.

    The bundle is compared by the identity of its allocation.  The store keeps
    the bundle it last served reachable, so an address equal to the kept one
    is the same allocation, which is what the address of a [cfg_ptr] says. *)
From S2P Require Import Prelude GoStrings GoBinary FileSystem BundleStore ConfigTypes BundleManager BundleSpec.

(** [os.FileInfo]; the identity is what [os.SameFile] compares, when it can be told. *)
Record FileInfo := mkFileInfo { fi_Size : Z; fi_ModTime : Z; fi_ID : option Z }.

Definition SameFile (a b : FileInfo) : bool :=
  match fi_ID a, fi_ID b with Some x, Some y => x =? y | _, _ => false end.

Record configStore := mkStore {
  cs_goodFile : option FileInfo;
  cs_badFile : option FileInfo;
  cs_readErrorFile : option FileInfo;
  cs_readErrorUnstatable : bool;
  cs_contentDigest : bytes;
  cs_cfg : Config;
  (** The bundle source is installed. *)
  cs_hasSource : bool;
  cs_bundle : option cfg_ptr;
  cs_generation : Z;
}.

Record view := mkView {
  (** [manager.Active()] and [manager.Migrated()]. *)
  v_active : option cfg_ptr;
  v_migrated : bool;
  v_stat : option FileInfo;
  (** The document and the file it was read from, none when the read fails. *)
  v_read : option (bytes * option FileInfo);
}.

Inductive store_error := errNoActiveBundle.

Definition same_ptr (a : cfg_ptr) (b : option cfg_ptr) : bool :=
  match b with Some p => (ptr_addr a =? ptr_addr p)%nat | None => false end.

(** The size and the time kept beside a file are those of the file. *)
Definition matchesFile (info : FileInfo) (kept : option FileInfo) : bool :=
  match kept with
  | Some k => (fi_Size info =? fi_Size k) && (fi_ModTime info =? fi_ModTime k) && SameFile info k
  | None => false
  end.

Definition rememberFile (info : FileInfo) : option FileInfo := if SameFile info info then Some info else None.

Definition matchesGoodFile (s : configStore) (info : FileInfo) : bool := matchesFile info (cs_goodFile s).
Definition matchesBadFile (s : configStore) (info : FileInfo) : bool := matchesFile info (cs_badFile s).
Definition matchesReadErrorFile (s : configStore) (info : FileInfo) : bool := matchesFile info (cs_readErrorFile s).

Definition set_bundle (b : option cfg_ptr) (g : Z) (s : configStore) : configStore :=
  mkStore (cs_goodFile s) (cs_badFile s) (cs_readErrorFile s) (cs_readErrorUnstatable s) (cs_contentDigest s)
    (cs_cfg s) (cs_hasSource s) b g.

Definition set_read_error (file : option FileInfo) (unstatable : bool) (s : configStore) : configStore :=
  mkStore (cs_goodFile s) (cs_badFile s) file unstatable (cs_contentDigest s) (cs_cfg s) (cs_hasSource s)
    (cs_bundle s) (cs_generation s).

Definition rememberGoodFile (info : option FileInfo) (s : configStore) : configStore :=
  mkStore (info ≫= rememberFile) (cs_badFile s) (cs_readErrorFile s) (cs_readErrorUnstatable s) (cs_contentDigest s)
    (cs_cfg s) (cs_hasSource s) (cs_bundle s) (cs_generation s).

Definition set_bad (file : option FileInfo) (s : configStore) : configStore :=
  mkStore (cs_goodFile s) file (cs_readErrorFile s) (cs_readErrorUnstatable s) (cs_contentDigest s)
    (cs_cfg s) (cs_hasSource s) (cs_bundle s) (cs_generation s).
Definition rememberBadFile (info : option FileInfo) (s : configStore) : configStore := set_bad (info ≫= rememberFile) s.
Definition clearBadFile (s : configStore) : configStore := set_bad None s.

Definition set_document (cfg : Config) (g : Z) (digest : bytes) (s : configStore) : configStore :=
  mkStore (cs_goodFile s) (cs_badFile s) (cs_readErrorFile s) (cs_readErrorUnstatable s) digest cfg (cs_hasSource s)
    (cs_bundle s) g.

Definition setBundleSource (s : configStore) : configStore :=
  mkStore (cs_goodFile s) (cs_badFile s) (cs_readErrorFile s) (cs_readErrorUnstatable s) (cs_contentDigest s)
    (cs_cfg s) true (cs_bundle s) (cs_generation s).

Section store.
Context {D : ConfigDecoder}.

Definition newConfigStore (body : bytes) (info : FileInfo) : res string configStore :=
  cfg ← decodeConfig body;
  Ok (mkStore (rememberFile info) None None false (Sum256 body) (set_generation 1 cfg) false None 1).

(** A read that failed: one report per identity, or one while the path cannot be stat'd. *)
Definition read_failed (info : option FileInfo) (s : configStore) : configStore * bool :=
  match info with
  | Some i => if matchesReadErrorFile s i then (s, false)
              else (set_read_error (rememberFile i) (cs_readErrorUnstatable s) s, true)
  | None => if cs_readErrorUnstatable s then (s, false) else (set_read_error None true s, true)
  end.

(** The part of [Current] that serves the file. *)
Definition current_file (v : view) (s : configStore) : Config * configStore :=
  if from_option (λ i, matchesGoodFile s i || matchesBadFile s i) false (v_stat v) then (cs_cfg s, s)
  else
    match v_read v with
    | None => (cs_cfg s, (read_failed (v_stat v) s).1)
    | Some (body, readInfo) =>
        let s := set_read_error None false s in
        let readInfo := match readInfo with Some i => Some i | None => v_stat v end in
        let digest := Sum256 body in
        if bool_decide (digest = cs_contentDigest s) then (cs_cfg s, clearBadFile (rememberGoodFile readInfo s))
        else
          match decodeConfig body with
          | Err _ => (cs_cfg s, rememberBadFile readInfo s)
          | Ok cfg =>
              let g := u64 (cs_generation s + 1) in
              let cfg := set_generation g cfg in
              (cfg, clearBadFile (rememberGoodFile readInfo (set_document cfg g digest s)))
          end
    end.

Definition Current (v : view) (s : configStore) : res store_error Config * configStore :=
  let file := let '(cfg, s) := current_file v s in (Ok cfg, s) in
  if negb (cs_hasSource s) then file
  else
    match v_active v with
    | Some ptr =>
        let s := if same_ptr ptr (cs_bundle s) then s else set_bundle (Some ptr) (u64 (cs_generation s + 1)) s in
        (Ok (set_generation (cs_generation s) (ptr_cfg ptr)), s)
    | None => if v_migrated v then (Err errNoActiveBundle, set_bundle None (cs_generation s) s) else file
    end.

(** A run of calls: what each returned, in order. *)
Fixpoint run (views : list view) (s : configStore) : list (res store_error Config) * configStore :=
  match views with
  | [] => ([], s)
  | v :: rest =>
      let '(r, s1) := Current v s in
      let '(rs, s2) := run rest s1 in
      (r :: rs, s2)
  end.
End store.

(** ** What a sequence of views may be *)

(** A bundle is live in this view, or has been. *)
Definition live (v : view) : bool := match v_active v with Some _ => true | None => v_migrated v end.

(** The migration latches. *)
Fixpoint latched (migrated : bool) (views : list view) : Prop :=
  match views with
  | [] => True
  | v :: rest => (migrated = true → live v = true) ∧ latched (migrated || live v) rest
  end.

(** An activation is one allocation: an address names one configuration. *)
Definition agrees (p : cfg_ptr) (views : list view) : Prop :=
  ∀ v q, v ∈ views → v_active v = Some q → ptr_addr q = ptr_addr p → q = p.
Fixpoint allocated (views : list view) : Prop :=
  match views with
  | [] => True
  | v :: rest => (∀ p, v_active v = Some p → agrees p rest) ∧ allocated rest
  end.

(** ** The generations *)
Definition store_inv (migrated : bool) (s : configStore) : Prop :=
  cs_hasSource s = true
  ∧ (migrated = false → cs_bundle s = None ∧ cfg_generation (cs_cfg s) = cs_generation s).

(** The snapshot the store would hand out again under the same generation. *)
Definition snapshot (migrated : bool) (s : configStore) : option Config :=
  if migrated then (λ p, set_generation (cs_generation s) (ptr_cfg p)) <$> cs_bundle s else Some (cs_cfg s).

Section facts.
Context {D : ConfigDecoder}.

Lemma u64_next g : 0 <= g < 2 ^ 64 - 1 → u64 (g + 1) = g + 1.
Proof. intros. apply wrap_id. lia. Qed.

(** Serving the file: the old snapshot under the old generation, or a new one under the next. *)
Lemma current_file_step v s c s1 :
  current_file v s = (c, s1) → cfg_generation (cs_cfg s) = cs_generation s → 0 <= cs_generation s < 2 ^ 64 - 1 →
  cs_cfg s1 = c ∧ cfg_generation c = cs_generation s1 ∧ cs_bundle s1 = cs_bundle s ∧ cs_hasSource s1 = cs_hasSource s
  ∧ ((cs_generation s1 = cs_generation s ∧ c = cs_cfg s)
     ∨ (cs_generation s1 = cs_generation s + 1 ∧ ∃ body info cfg, v_read v = Some (body, info)
          ∧ decodeConfig body = Ok cfg ∧ Sum256 body ≠ cs_contentDigest s ∧ c = set_generation (cs_generation s1) cfg
          ∧ cs_contentDigest s1 = Sum256 body)).
Proof.
  intros H Hg Hw. unfold current_file in H.
  destruct (from_option _ _ _); [injection H as <- <-; by repeat split; auto|].
  destruct (v_read v) as [[body info]|] eqn:Hr.
  2: { injection H as <- <-. unfold read_failed. destruct (v_stat v) as [i|];
       [destruct (matchesReadErrorFile s i) | destruct (cs_readErrorUnstatable s)]; by repeat split; auto. }
  case_bool_decide as Hd; [injection H as <- <-; by repeat split; auto|].
  destruct (decodeConfig body) as [cfg|] eqn:Hdec; [|injection H as <- <-; by repeat split; auto].
  injection H as <- <-. cbn. rewrite u64_next by done. repeat split; try done.
  right. split; [done|]. exists body, info, cfg. by repeat split.
Qed.

Lemma Current_step migrated v s r s1 :
  Current v s = (r, s1) → store_inv migrated s → (migrated = true → live v = true) →
  0 <= cs_generation s < 2 ^ 64 - 1 →
  (∀ p q, cs_bundle s = Some p → v_active v = Some q → ptr_addr q = ptr_addr p → q = p) →
  let migrated1 := migrated || live v in
  store_inv migrated1 s1 ∧ (cs_bundle s1 = None ∨ cs_bundle s1 = v_active v)
  ∧ cs_generation s <= cs_generation s1 <= cs_generation s + 1
  ∧ match r with
    | Ok c => snapshot migrated1 s1 = Some c ∧ cfg_generation c = cs_generation s1
              ∧ (cs_generation s1 = cs_generation s → snapshot migrated s = Some c)
    | Err _ => cs_generation s1 = cs_generation s ∧ snapshot migrated1 s1 = None
    end.
Proof.
  intros H [Hsrc Hfile] Hlive Hw Hptr. unfold Current in H. rewrite Hsrc in H. cbn [negb] in H.
  unfold live in *. destruct (v_active v) as [q|] eqn:Ha.
  - rewrite orb_true_r. injection H as <- <-. destruct (cs_bundle s) as [p|] eqn:Hb; cbn [same_ptr].
    + destruct (Nat.eqb_spec (ptr_addr q) (ptr_addr p)) as [E|E].
      * pose proof (Hptr p q eq_refl eq_refl E) as ->. rewrite Hb. split; [by split|]. split; [by right|].
        split; [lia|]. unfold snapshot. rewrite Hb. split; [done|]. split; [done|]. intros _.
        destruct migrated; [done|]. by destruct (Hfile eq_refl) as [? _].
      * cbn. rewrite u64_next by done. split; [by split|]. split; [by right|]. split; [lia|].
        split; [done|]. split; [done|]. lia.
    + cbn. rewrite u64_next by done. split; [by split|]. split; [by right|]. split; [lia|].
      split; [done|]. split; [done|]. lia.
  - destruct (v_migrated v) eqn:Hm.
    + rewrite orb_true_r. injection H as <- <-. cbn. split; [by split|]. split; [by left|]. split; [lia|]. by split.
    + destruct migrated; [by specialize (Hlive eq_refl)|]. destruct (Hfile eq_refl) as [Hb Hg].
      destruct (current_file v s) as [c s2] eqn:Hc. injection H as <- <-.
      apply current_file_step in Hc as (E1 & E2 & E3 & E4 & E5); [|done..]. cbn [orb].
      rewrite E3, Hb. split; [split; [congruence|]; intros _; split; congruence|]. split; [by left|].
      split; [destruct E5 as [[? _]|[? _]]; lia|]. cbn [snapshot]. rewrite E1. split; [done|]. split; [done|].
      intros Eg. destruct E5 as [[_ ->]|[? _]]; [done | lia].
Qed.

(** A later snapshot against an earlier one. *)
Definition not_before (c1 c2 : Config) : Prop :=
  cfg_generation c1 <= cfg_generation c2 ∧ (cfg_generation c1 = cfg_generation c2 → c1 = c2).

Definition served (results : list (res store_error Config)) : list Config :=
  concat (map (λ r, match r with Ok c => [c] | Err _ => [] end) results).

Lemma run_ordered views migrated s :
  store_inv migrated s → latched migrated views → allocated views →
  (∀ p, cs_bundle s = Some p → agrees p views) →
  0 <= cs_generation s → cs_generation s + len views < 2 ^ 64 →
  Forall (λ c, cs_generation s <= cfg_generation c
               ∧ (cfg_generation c = cs_generation s → snapshot migrated s = Some c)) (served (run views s).1)
  ∧ StronglySorted not_before (served (run views s).1).
Proof.
  revert migrated s. induction views as [|v views IH]; intros migrated s Hi Hl Ha Hb Hg Hw; [by split; constructor|].
  destruct Hl as [Hlive Hl], Ha as [Hnew Ha]. cbn [run length] in *.
  destruct (Current v s) as [r s1] eqn:Hc. destruct (run views s1) as [rs s2] eqn:Hr.
  apply (Current_step migrated) in Hc as (Hi1 & Hb1 & Hg1 & Hres); [|done|done|lia|].
  2: { intros p q Hp Hq. apply (Hb p Hp v q); [left | done]. }
  destruct (IH (migrated || live v) s1) as [Hf Hs]; [done|done|done| |lia|lia|].
  { intros p Hp. destruct Hb1 as [Hn|Hn]; [congruence|]. apply Hnew. congruence. }
  rewrite Hr in Hf, Hs. cbn [fst served map concat] in *. fold (served rs) in *.
  assert (∀ c, c ∈ served rs → cs_generation s <= cfg_generation c) as Hmono.
  { intros c Hin. pose proof (proj1 (Forall_forall _ _) Hf c Hin) as [? _]. lia. }
  destruct r as [c|e].
  - destruct Hres as (Hsnap & Hgc & Hold). split.
    + constructor; [split; [lia|]; intros E; apply Hold; lia|]. apply Forall_forall. intros c' Hin.
      split; [by apply Hmono|]. intros E. pose proof (proj1 (Forall_forall _ _) Hf c' Hin) as [? Heq].
      assert (cs_generation s1 = cs_generation s) as Es by lia. rewrite (Hold Es).
      rewrite <- Hsnap. apply Heq. lia.
    + constructor; [done|]. eapply Forall_impl; [exact Hf|]. cbn. intros c' [Hle Heq]. split; [lia|].
      intros E. rewrite Hsnap in Heq. assert (Some c = Some c') as [=->] by (apply Heq; lia). done.
  - destruct Hres as [Eg Hsnap]. cbn [app]. split; [|done]. eapply Forall_impl; [exact Hf|]. cbn.
    intros c' [Hle Heq]. split; [lia|]. intros E. rewrite Hsnap in Heq. discriminate Heq. lia.
Qed.
End facts.

(** ** Polling

    What [Current] would do on the file without the identities it keeps: read
    and decode the document at every call. *)
Section polling.
Context {D : ConfigDecoder}.

Record polled := mkPolled { po_cfg : Config; po_digest : bytes; po_generation : Z }.

Definition poll (read : option bytes) (p : polled) : polled :=
  match read with
  | None => p
  | Some body =>
      if bool_decide (Sum256 body = po_digest p) then p
      else match decodeConfig body with
           | Err _ => p
           | Ok cfg => let g := u64 (po_generation p + 1) in mkPolled (set_generation g cfg) (Sum256 body) g
           end
  end.

Fixpoint polls (reads : list (option bytes)) (p : polled) : list Config :=
  match reads with
  | [] => []
  | read :: rest => let p1 := poll read p in po_cfg p1 :: polls rest p1
  end.

(** The size, the time and the identity of a file determine its content, as the store supposes. *)
Definition identifies (content : FileInfo → bytes) : Prop :=
  ∀ i k, matchesFile i (Some k) = true → content i = content k.

(** One call: the file is there and does not change during the call; the read succeeds when
    [ok]. *)
Definition file_view (content : FileInfo → bytes) (i : FileInfo) (ok : bool) : view :=
  mkView None false (Some i) (if ok then Some (content i, Some i) else None).

(** Recognizing a file says what its content is. *)
Definition remembered (content : FileInfo → bytes) (s : configStore) : Prop :=
  (∀ k, cs_goodFile s = Some k → Sum256 (content k) = cs_contentDigest s)
  ∧ (∀ k, cs_badFile s = Some k → ∃ e, decodeConfig (content k) = Err e).

Definition polled_of (s : configStore) : polled := mkPolled (cs_cfg s) (cs_contentDigest s) (cs_generation s).

Lemma rememberFile_Some i k : rememberFile i = Some k → k = i.
Proof. unfold rememberFile. destruct (SameFile i i); congruence. Qed.

Lemma current_file_polls content i ok s : identifies content → remembered content s →
  let '(c, s1) := current_file (file_view content i ok) s in
  remembered content s1 ∧ cs_hasSource s1 = cs_hasSource s ∧ c = cs_cfg s1
  ∧ polled_of s1 = poll (if ok then Some (content i) else None) (polled_of s).
Proof.
  intros Hid [Hgood Hbad]. unfold current_file, file_view. cbn [v_stat v_read from_option].
  destruct (matchesGoodFile s i) eqn:Eg; cbn [orb].
  { split; [done|]. split; [done|]. split; [done|]. destruct ok; [|done]. cbn. rewrite bool_decide_true; [done|].
    unfold matchesGoodFile in Eg. destruct (cs_goodFile s) as [k|]; [|done]. rewrite (Hid _ _ Eg). by apply Hgood. }
  destruct (matchesBadFile s i) eqn:Eb.
  { split; [done|]. split; [done|]. split; [done|]. destruct ok; [|done]. cbn. case_bool_decide; [done|].
    unfold matchesBadFile in Eb. destruct (cs_badFile s) as [k|]; [|done]. rewrite (Hid _ _ Eb).
    by destruct (Hbad k eq_refl) as [e ->]. }
  destruct ok; cbn.
  - case_bool_decide as Hd; [|destruct (decodeConfig (content i)) as [cfg|e] eqn:Hdec]; (split; [split|done]); cbn;
      try done; intros k Hk%rememberFile_Some; subst k; [done | done | by exists e].
  - unfold read_failed. destruct (matchesReadErrorFile s i); done.
Qed.

(** Where size, time and identity determine the content of a file, the
    identities the store keeps change no answer: a deployment without bundles is served, call by
    call, what reading and decoding the document at every call would serve, none of the calls
    fails, and an unreadable or refused document leaves the last one in place. *)
Theorem polling_caches_transparent content i0 s calls :
  identifies content → newConfigStore (content i0) i0 = Ok s →
  (run (map (λ c, file_view content c.1 c.2) calls) (setBundleSource s)).1
  = map Ok (polls (map (λ c : FileInfo * bool, if c.2 then Some (content c.1) else None) calls) (polled_of s)).
Proof.
  intros Hid Hnew.
  assert (remembered content (setBundleSource s) ∧ polled_of (setBundleSource s) = polled_of s) as [Hr <-].
  { unfold newConfigStore in Hnew. destruct (decodeConfig (content i0)) as [cfg|]; [|done]. injection Hnew as <-.
    split; [split; [by intros k ->%rememberFile_Some | done] | done]. }
  assert (cs_hasSource (setBundleSource s) = true) as Hs by done. revert Hr Hs. generalize (setBundleSource s). clear Hnew.
  induction calls as [|[i ok] calls IH]; intros t Hr Hs; [done|]. cbn [map run polls fst snd].
  unfold Current. rewrite Hs. cbn [negb v_active v_migrated file_view].
  pose proof (current_file_polls content i ok t Hid Hr) as Hc.
  destruct (current_file _ t) as [c t1]. destruct Hc as (Hr1 & Hs1 & -> & Hp). rewrite Hs in Hs1.
  specialize (IH t1 Hr1 Hs1). destruct (run _ t1) as [rs t2]. cbn [fst] in *. by rewrite IH, <- Hp.
Qed.
End polling.

(** ** The store beside the manager it observes

    [Current] reads [Active] and then [Migrated], and operations of the
    manager may run before, between and after the two reads. *)
Section observed.
Context `{Codec bundleRecord, Codec bundlePointer, Codec bundleStoreMeta} {D : ConfigDecoder}.

Inductive managed : sys → sys → Prop :=
| managed_serve q s : managed s (serve q s)
| managed_purge s : managed s (Purge s).2.

Inductive observed : sys → list view → Prop :=
| observed_end s : observed s []
| observed_call s s1 s2 stat read vs :
    rtc managed s s1 → rtc managed s1 s2 → observed s2 vs →
    observed s (mkView (m_active (s_mgr s1)) (m_migrated (s_mgr s2)) stat read :: vs).

(** What an operation may do to what [Active] and [Migrated] read. *)
Definition mgr_wf (m : manager) : Prop :=
  ∀ p, m_active m = Some p → m_migrated m = true ∧ (ptr_addr p < m_allocs m)%nat.
Definition mgr_le (m m' : manager) : Prop :=
  (mgr_wf m → mgr_wf m') ∧ (m_migrated m = true → m_migrated m' = true) ∧ (m_allocs m <= m_allocs m')%nat
  ∧ (m_active m' = None ∨ m_active m' = m_active m
     ∨ ∀ p, m_active m' = Some p → (m_allocs m <= ptr_addr p)%nat).

Lemma mgr_le_refl m : mgr_le m m.
Proof. split; [done|]. split; [done|]. split; [lia|]. right. by left. Qed.

Lemma mgr_le_trans m1 m2 m3 : mgr_le m1 m2 → mgr_le m2 m3 → mgr_le m1 m3.
Proof.
  intros (W1 & M1 & A1 & C1) (W2 & M2 & A2 & C2). split; [auto|]. split; [auto|]. split; [lia|].
  destruct C2 as [?|[E|C2]]; [by left | | right; right; intros p Hp; specialize (C2 p Hp); lia].
  rewrite E. destruct C1 as [?|[?|?]]; auto.
Qed.

Lemma mgr_le_set id digest cfg m : mgr_le m (setActive id digest cfg m).
Proof.
  split; [intros _ p [= <-]; cbn; split; [done | lia]|]. split; [done|]. split; [cbn; lia|].
  right. right. by intros p [= <-].
Qed.

(** An action that does no more to the manager. *)
Definition keeps {E A} (m : action sys E A) : Prop := ∀ s, mgr_le (s_mgr s) (s_mgr (m s).2).

Lemma keeps_ret {E A} (a : A) : keeps (mret a : action sys E A).
Proof. intros s. apply mgr_le_refl. Qed.
Lemma keeps_fail {E A} (e : E) : keeps (fail e : action sys E A).
Proof. intros s. apply mgr_le_refl. Qed.
Lemma keeps_lift {E A} (r : res E A) : keeps (lift_res r).
Proof. intros s. apply mgr_le_refl. Qed.
Lemma keeps_the_manager {E} : keeps (the_manager : action sys E manager).
Proof. intros s. apply mgr_le_refl. Qed.
Lemma keeps_on_world {E A} (m : action world E A) : keeps (on_world m).
Proof. intros s. unfold on_world. destruct (m (s_world s)). apply mgr_le_refl. Qed.
Lemma keeps_decode_or e document : keeps (decode_or e document).
Proof. intros s. unfold decode_or. destruct (decodeConfig document); apply mgr_le_refl. Qed.
Lemma keeps_update {E} f : (∀ m, mgr_le m (f m)) → keeps (update f : action sys E unit).
Proof. intros Hf s. apply Hf. Qed.
Lemma keeps_attempt {E E' A} (m : action sys E A) : keeps m → keeps (attempt m : action sys E' _).
Proof. intros Hm s. specialize (Hm s). unfold attempt. by destruct (m s). Qed.
Lemma keeps_bind {E A B} (m : action sys E A) (f : A → action sys E B) : keeps m → (∀ a, keeps (f a)) → keeps (m ≫= f).
Proof.
  intros Hm Hf s. specialize (Hm s). unfold mbind, action_bind. destruct (m s) as [[a|e] s1]; [|done].
  eapply mgr_le_trans; [exact Hm | apply Hf].
Qed.
Lemma keeps_unchanged {E} f :
  (∀ m, m_active (f m) = m_active m ∧ m_migrated (f m) = m_migrated m ∧ m_allocs (f m) = m_allocs m) →
  keeps (update f : action sys E unit).
Proof.
  intros Hf. apply keeps_update. intros m. destruct (Hf m) as (E1 & E2 & E3). unfold mgr_le, mgr_wf.
  rewrite E1, E2, E3. repeat split; naive_solver.
Qed.

Ltac keeps_step :=
  match goal with
  | |- keeps (mbind _ _) => apply keeps_bind; [|intros ?]
  | |- keeps (mret _) => apply keeps_ret
  | |- keeps (fail _) => apply keeps_fail
  | |- keeps (lift_res _) => apply keeps_lift
  | |- keeps the_manager => apply keeps_the_manager
  | |- keeps (on_world _) => apply keeps_on_world
  | |- keeps (publish _ _) => apply keeps_on_world
  | |- keeps (decode_or _ _) => apply keeps_decode_or
  | |- keeps (update (setActive _ _ _)) => apply keeps_update, mgr_le_set
  | |- keeps (update _) => apply keeps_unchanged; done
  | |- keeps (attempt _) => apply keeps_attempt
  | |- keeps (if ?b then _ else _) => destruct b
  | |- keeps (match ?x with _ => _ end) => destruct x
  | |- keeps (let _ := _ in _) => cbv zeta
  end.

Lemma keeps_superseded_of ids just : keeps (superseded_of ids just).
Proof. induction ids as [|id ids IH]; cbn [superseded_of]; repeat (keeps_step || exact IH). Qed.
Lemma keeps_prune_list ids : keeps (prune_list ids).
Proof. induction ids as [|id ids IH]; cbn [prune_list]; repeat (keeps_step || exact IH). Qed.

Lemma managed_le s s' : managed s s' → mgr_le (s_mgr s) (s_mgr s').
Proof.
  destruct 1 as [q s|s].
  - destruct q as [id document|id expected|id]; cbn [serve].
    + revert s. change (keeps (Stage id document)). unfold Stage. repeat keeps_step.
    + revert s. change (keeps (Commit id expected)). unfold Commit, supersede, pruneSuperseded.
      repeat (keeps_step || apply keeps_superseded_of || apply keeps_prune_list).
    + revert s. change (keeps (Abort_ id)). unfold Abort_. repeat keeps_step.
  - revert s. change (keeps Purge). unfold Purge. repeat (keeps_step || apply keeps_update).
    split; [by intros _ p [=]|]. split; [done|]. split; [cbn; lia|]. by left.
Qed.

Lemma managed_run s s' : rtc managed s s' → mgr_le (s_mgr s) (s_mgr s').
Proof.
  induction 1 as [s|s1 s2 s3 Hs _ IH]; [apply mgr_le_refl|]. eapply mgr_le_trans; [by apply managed_le | done].
Qed.

Lemma latched_weaken b b' vs : (b = true → b' = true) → latched b' vs → latched b vs.
Proof.
  revert b b'. induction vs as [|v vs IH]; [done|]. intros b b' Hb [Hl Hr]. split; [auto|].
  eapply IH; [|exact Hr]. intros [?|?]%orb_true_iff; apply orb_true_iff; auto.
Qed.

(** What the views of one process are. *)
Lemma observed_views s vs : observed s vs → mgr_wf (s_mgr s) →
  latched (m_migrated (s_mgr s)) vs ∧ allocated vs
  ∧ ∀ v q, v ∈ vs → v_active v = Some q → m_active (s_mgr s) = Some q ∨ (m_allocs (s_mgr s) <= ptr_addr q)%nat.
Proof.
  induction 1 as [s|s s1 s2 stat read vs Hr1 Hr2 _ IH]; intros W.
  { split; [done|]. split; [done|]. by intros v q ?%not_elem_of_nil. }
  apply managed_run in Hr1 as (W1 & M1 & A1 & C1), Hr2 as (W2 & M2 & A2 & C2).
  specialize (W1 W). specialize (W2 W1). destruct (IH W2) as (Hl & Ha & Hq).
  split; [split|split; [split|]]; cbn [v_active v_migrated live]; try done.
  - unfold live. cbn. destruct (m_active (s_mgr s1)); auto.
  - eapply latched_weaken; [|exact Hl]. unfold live. cbn. intros [?|E]%orb_true_iff; [by auto|].
    destruct (m_active (s_mgr s1)) as [p|] eqn:Ep; [|done]. by apply M2, (W1 p).
  - intros p Hp v q Hin Hv Eaddr. destruct (W1 p Hp) as [_ Hlt]. destruct (Hq v q Hin Hv) as [E|?]; [|lia].
    destruct C2 as [?|[E2|C2]]; [congruence | congruence | specialize (C2 q E); lia].
  - intros v q Hin Hv. apply elem_of_cons in Hin as [->|Hin].
    + cbn in Hv. destruct C1 as [?|[E1|C1]]; [congruence | left; congruence | right; auto].
    + destruct (Hq v q Hin Hv) as [E|?]; [|right; lia].
      destruct C2 as [?|[E2|C2]]; [congruence | | right; specialize (C2 q E); lia].
      destruct C1 as [?|[E1|C1]]; [congruence | left; congruence | right; apply C1; congruence].
Qed.

Lemma start_mgr_wf d clock faults listening nano : mgr_wf (s_mgr (start d clock faults listening nano)).
Proof.
  unfold start. assert (keeps Recover) as Hk by (unfold Recover; repeat keeps_step).
  destruct (Hk (Sys (newBundleManager nano) (World d clock 0 faults 0 [] listening []))) as [W _].
  apply W. by intros p [=].
Qed.

(** The process of [main]: a store on the file, with the manager as its bundle source. *)
Definition opened (body : bytes) (info : FileInfo) (s : configStore) : Prop :=
  newConfigStore body info = Ok s.

Lemma opened_inv body info s : opened body info s →
  store_inv false (setBundleSource s) ∧ cs_bundle (setBundleSource s) = None ∧ cs_generation (setBundleSource s) = 1.
Proof.
  unfold opened, newConfigStore. intros Ho. destruct (decodeConfig body) as [cfg|]; [|done]. by injection Ho as <-.
Qed.

(** C8 (invariant): in one process, whatever the manager does between and during the calls of
    [Current], snapshots come in the order of their generations, and two snapshots of the same
    generation are the same configuration, across the handover from the file to a bundle. *)
Theorem generation_names_snapshot d clock faults listening nano body info s vs :
  opened body info s → observed (start d clock faults listening nano) vs → len vs < 2 ^ 64 - 1 →
  StronglySorted not_before (served (run vs (setBundleSource s)).1).
Proof.
  intros (Hi & Hb & Hg)%opened_inv (Hl & Ha & _)%observed_views Hw; [|apply start_mgr_wf].
  apply (run_ordered vs false); [done | by eapply latched_weaken, Hl | done | by rewrite Hb | lia | lia].
Qed.

Lemma run_lookup vs s j r : (run vs s).1 !! j = Some r → ∃ v s1, vs !! j = Some v ∧ (Current v s1).1 = r
  ∧ cs_hasSource s1 = cs_hasSource s.
Proof.
  revert s j. induction vs as [|v vs IH]; intros s j; [done|]. cbn [run].
  destruct (Current v s) as [r1 s1] eqn:Hc. destruct (run vs s1) as [rs s2] eqn:Hr. destruct j as [|j]; cbn.
  - intros [= <-]. exists v, s. by rewrite Hc.
  - intros Hj. destruct (IH s1 j) as (w & s3 & ? & ? & E); [by rewrite Hr|]. exists w, s3. split; [done|]. split; [done|].
    rewrite E. unfold Current, current_file, read_failed in Hc. clear -Hc.
    repeat (case_match; simplify_eq/=; try done).
Qed.

Lemma latched_live vs j w : latched true vs → vs !! j = Some w → live w = true.
Proof.
  revert j. induction vs as [|v vs IH]; [done|]. intros [|j] [Hv Hl] Hj; [injection Hj as ->; by apply Hv|].
  by apply (IH j).
Qed.

Lemma latched_later b vs i j v w : latched b vs → vs !! i = Some v → live v = true → (i <= j)%nat →
  vs !! j = Some w → live w = true.
Proof.
  revert b i j. induction vs as [|x vs IH]; [done|]. intros b i j [_ Hl] Hi Hv Hij Hj. destruct i as [|i].
  - injection Hi as ->. destruct j as [|j]; [by injection Hj as ->|].
    rewrite Hv, orb_true_r in Hl. by apply (latched_live vs j).
  - destruct j as [|j]; [lia|]. apply (IH (b || live x) i j); [done..|lia|done].
Qed.

(** Once one call of [Current] saw a bundle, or saw that there had been one, no
    later call serves the file: it serves the bundle that is active, or fails because it was
    withdrawn. *)
Theorem handover_one_way d clock faults listening nano body info s vs i j v w r :
  opened body info s → observed (start d clock faults listening nano) vs →
  vs !! i = Some v → live v = true → (i <= j)%nat → vs !! j = Some w → (run vs (setBundleSource s)).1 !! j = Some r →
  match v_active w with
  | Some p => ∃ g, r = Ok (set_generation g (ptr_cfg p))
  | None => r = Err errNoActiveBundle
  end.
Proof.
  intros (Hi & _)%opened_inv (Hl & _)%observed_views Hv Hlive Hij Hw Hr; [|apply start_mgr_wf].
  assert (live w = true) as Hlw by exact (latched_later _ vs i j v w Hl Hv Hlive Hij Hw).
  apply run_lookup in Hr as (w' & s1 & Hw' & <- & Hsrc). assert (w' = w) as -> by congruence.
  unfold Current. rewrite Hsrc, (proj1 Hi). cbn [negb]. unfold live in Hlw.
  destruct (v_active w) as [p|]; [by eexists|]. by rewrite Hlw.
Qed.

(** When the recovery of a bundle fails, the process has no bundle and no record
    that one was ever live, so [Current] serves the file instead of failing closed. *)
Theorem failed_recovery_serves_file w nano e body info s stat read :
  let booted := Recover (Sys (newBundleManager nano) w) in
  booted.1 = Err e → opened body info s →
  let v := mkView (m_active (s_mgr booted.2)) (m_migrated (s_mgr booted.2)) stat read in
  ∃ c, (Current v (setBundleSource s)).1 = Ok c.
Proof.
  intros booted He _ v.
  assert (v_active v = None ∧ v_migrated v = false) as [Ea Em].
  { subst booted v. cbn [v_active v_migrated]. revert He. unfold Recover, mbind, action_bind, on_world, decode_or, fail,
      mret, action_ret, update, publish, publish_log.
    cbn [s_world s_mgr]. destruct (Pointer w) as [[p|?] w1]; [|done].
    case_bool_decide; [done|]. cbn [s_world s_mgr]. destruct (Get _ w1) as [[rec|?] w2]; [|done].
    cbn [s_world s_mgr]. by destruct (decodeConfig (rDocument rec)). }
  unfold Current. rewrite Ea, Em. cbn. destruct (current_file v _) as [c s1]. by exists c.
Qed.
End observed.

(** ** The theorems at concrete inputs *)
Section witnesses.
Import FieldCodec.

#[local] Instance file_decoder : ConfigDecoder :=
  {| decodeConfig document := if bool_decide (document = []) then Err "empty"%string else Ok tiny_config |}.

(** A document that becomes empty, then another one, and the reads of its files. *)
Definition some_file (size : Z) : FileInfo := mkFileInfo size 0 (Some size).
Definition file_content (i : FileInfo) : bytes := repeat 32 (Z.to_nat (fi_Size i)).
Definition first_store : configStore :=
  match newConfigStore (file_content (some_file 2)) (some_file 2) with Ok s => s | Err _ => mkStore None None None false [] tiny_config false None 0 end.

Lemma first_opened : opened (file_content (some_file 2)) (some_file 2) first_store.
Proof. reflexivity. Qed.

Lemma file_content_identified : identifies file_content.
Proof.
  intros i k H. unfold matchesFile in H. bools. unfold file_content. by replace (fi_Size k) with (fi_Size i).
Qed.

Lemma polling_caches_transparent_witness :
  map (λ r : res store_error Config, match r with Ok c => cfg_generation c | Err _ => 0 end)
    (run (map (λ c, file_view file_content c.1 c.2)
            [(some_file 2, true); (some_file 0, true); (some_file 0, false); (some_file 3, true)])
       (setBundleSource first_store)).1 = [1; 1; 1; 2].
Proof.
  rewrite (polling_caches_transparent file_content (some_file 2) first_store);
    [vm_compute; reflexivity | exact file_content_identified | exact first_opened].
Defined.

(** A process that starts with nothing staged, commits [a], is purged; a call before, between and
    after. *)
Definition one_bundle : disk := store_of [BundleRecord 0 (&"a") bundleStaged (digestText [1]) [1] 5 0 []].
Definition empty_process : sys := start one_bundle (λ _, 1700000000) (λ _, Pass) true 0.
Definition committed_process : sys := serve (ReqCommit (&"a") []) empty_process.
Definition look (s : sys) : view := mkView (m_active (s_mgr s)) (m_migrated (s_mgr s)) (Some (some_file 2)) None.
Definition looks : list view := [look empty_process; look committed_process; look (Purge committed_process).2].

Lemma looks_observed : observed empty_process looks.
Proof.
  apply (observed_call _ empty_process empty_process); [apply rtc_refl..|].
  apply (observed_call _ committed_process committed_process); [|apply rtc_refl|].
  { apply rtc_once, managed_serve. }
  apply (observed_call _ (Purge committed_process).2 (Purge committed_process).2); [|apply rtc_refl|].
  { apply rtc_once, managed_purge. }
  apply observed_end.
Qed.

Lemma looks_results :
  map (λ r : res store_error Config, match r with Ok c => cfg_generation c | Err _ => 0 end)
    (run looks (setBundleSource first_store)).1 = [1; 2; 0].
Proof. vm_compute. reflexivity. Qed.

Lemma generation_names_snapshot_witness :
  StronglySorted not_before (served (run looks (setBundleSource first_store)).1).
Proof.
  apply (generation_names_snapshot one_bundle (λ _, 1700000000) (λ _, Pass) true 0
           (file_content (some_file 2)) (some_file 2)); [exact first_opened | exact looks_observed | reflexivity].
Defined.

Lemma handover_one_way_witness : (run looks (setBundleSource first_store)).1 !! 2%nat = Some (Err errNoActiveBundle).
Proof.
  destruct ((run looks (setBundleSource first_store)).1 !! 2%nat) as [r|] eqn:E; [|vm_compute in E; discriminate E].
  f_equal.
  exact (handover_one_way one_bundle (λ _, 1700000000) (λ _, Pass) true 0 (file_content (some_file 2)) (some_file 2)
           first_store looks 1 2 (look committed_process) (look (Purge committed_process).2) r
           first_opened looks_observed eq_refl ltac:(vm_compute; reflexivity) ltac:(lia) eq_refl E).
Defined.

(** The startup pointer of this disk does not decode. *)
Definition torn_disk : disk := Disk {[ InRoot bundlePointerFile := [1] ]} ∅ true.

Lemma failed_recovery_serves_file_witness :
  let w := World torn_disk (λ _, 0) 0 (λ _, Pass) 0 [] true [] in
  ∃ e c, (Recover (Sys (newBundleManager 0) w)).1 = Err e
    ∧ (Current (mkView (m_active (s_mgr (Recover (Sys (newBundleManager 0) w)).2))
                 (m_migrated (s_mgr (Recover (Sys (newBundleManager 0) w)).2)) None None)
         (setBundleSource first_store)).1 = Ok c.
Proof.
  intros w. destruct (Recover (Sys (newBundleManager 0) w)).1 as [u|e] eqn:E; [vm_compute in E; discriminate E|].
  destruct (failed_recovery_serves_file w 0 e (file_content (some_file 2)) (some_file 2) first_store None None E first_opened)
    as [c Hc].
  by exists e, c.
Defined.
End witnesses.
