(* ===== verification/ConfigFile.v ===== *)
(** * Reading the configuration document ([config.go], [readConfigBounded])

    The path may be renamed, replaced or linked between any two calls, so each
    of the four calls of a read observes files of its own.  [Lstat] looks at
    the path itself, [Open] follows links, and the rest goes by the file that
    was opened. *)
From S2P Require Import Prelude GoStrings GoBinary FileSystem BundleStore ConfigTypes HostPatterns ScriptConfig RoutingRules.
From S2P Require Import Settings ConfigValidate ConfigDecode ConfigStore.

Definition maxConfigBytes : Z := Z.shiftl 16 20.

(** What a name leads to: a file, a link, or anything else with an identity. *)
Inductive dirent := Regular (ino : Z) | Symlink (target : bytes) | Special (ino : Z).
Record inode := mkInode { in_Content : option bytes; in_Size : Z; in_ModTime : Z }.
Record files := mkFiles { fs_names : bytes → option dirent; fs_inode : Z → option inode }.

(** What the platform can tell of the identity of a file; [os.SameFile] compares it. *)
Class FileIdentity := { file_ID : Z → option Z }.
Class FileIdentityLaws {I : FileIdentity} := { file_ID_inj i j a : file_ID i = Some a → file_ID j = Some a → i = j }.

(** A [FileInfo], and whether its mode is that of a regular file. *)
Abbreviation stat := (FileInfo * bool)%type.

(** The links a path may lead through. *)
Definition maxLinks : nat := 40.

(** The four observations of a read. *)
Record reading := mkReading { r_lstat : files; r_open : files; r_fstat : files; r_read : files }.

Section files.
Context {I : FileIdentity}.

Definition info_of (ino : Z) (f : files) : option FileInfo :=
  x ← fs_inode f ino; Some (mkFileInfo (in_Size x) (in_ModTime x) (file_ID ino)).
Definition Lstat (path : bytes) (f : files) : option stat :=
  match fs_names f path with
  | Some (Regular ino) => i ← info_of ino f; Some (i, true)
  | Some (Special ino) => i ← info_of ino f; Some (i, false)
  | Some (Symlink target) => Some (mkFileInfo (len target) 0 None, false)
  | None => None
  end.
(** [os.Open]: the file, and whether it is a regular one. *)
Fixpoint Open (links : nat) (path : bytes) (f : files) : option (Z * bool) :=
  match fs_names f path with
  | Some (Regular ino) => Some (ino, true)
  | Some (Special ino) => Some (ino, false)
  | Some (Symlink target) => match links with O => None | S links => Open links target f end
  | None => None
  end.
Definition Fstat (file : Z * bool) (f : files) : option stat := i ← info_of file.1 f; Some (i, file.2).
(** [io.ReadAll] of [io.LimitReader]. *)
Definition ReadLimited (limit : Z) (file : Z * bool) (f : files) : option bytes :=
  x ← fs_inode f file.1; body ← in_Content x; Some (take (Z.to_nat limit) body).

Definition readConfigBoundedWithOpenInfo (path : bytes) (r : reading) : res string (bytes * FileInfo) :=
  match Lstat path (r_lstat r) with
  | None => Err "lstat"%string
  | Some (pathInfo, regular) =>
      _ ← reject_if (negb regular) "config path is not a regular file"%string;
      _ ← reject_if (negb (SameFile pathInfo pathInfo)) "could not establish config file identity"%string;
      match Open maxLinks path (r_open r) with
      | None => Err "open"%string
      | Some file =>
          match Fstat file (r_fstat r) with
          | None => Err "stat"%string
          | Some (openedInfo, regular) =>
              _ ← reject_if (negb regular) "opened config is not a regular file"%string;
              _ ← reject_if (negb (SameFile pathInfo openedInfo)) "config path changed while opening"%string;
              match ReadLimited (maxConfigBytes + 1) file (r_read r) with
              | None => Err "read"%string
              | Some body => _ ← reject_if (maxConfigBytes <? len body) "config exceeds the limit"%string; Ok (body, openedInfo)
              end
          end
      end
  end.

Definition readConfigBounded (path : bytes) (r : reading) : res string bytes :=
  '(body, _) ← readConfigBoundedWithOpenInfo path r; Ok body.

Section documents.
Context {D : ConfigDecoder}.
Definition loadConfig (path : bytes) (r : reading) : res string Config := body ← readConfigBounded path r; decodeConfig body.
(** [newConfigStore], the read of the document included. *)
Definition openConfigStore (path : bytes) (r : reading) : res string configStore :=
  '(body, info) ← readConfigBoundedWithOpenInfo path r; newConfigStore body info.
End documents.

(** The read of the file by one call of [Current]. *)
Definition view_read (path : bytes) (r : reading) : option (bytes * option FileInfo) :=
  match readConfigBoundedWithOpenInfo path r with Ok (body, info) => Some (body, Some info) | Err _ => None end.
End files.

Section certificate.
Context {I : FileIdentity} {U : UnicodeCase} {En : Engines} {P : TextParsers}.
Definition loadCertificateConfig (path : bytes) (r : reading) : res string Config :=
  body ← readConfigBounded path r; decode_certificate_config body.
End certificate.

(** ** What a read returns *)
Section facts.
Context {I : FileIdentity} {IL : FileIdentityLaws}.

Lemma SameFile_refl info : SameFile info info = true ↔ ∃ a, fi_ID info = Some a.
Proof. unfold SameFile. destruct (fi_ID info) as [a|]; split; [by exists a | intros _; apply Z.eqb_refl | done | by intros [? ?]]. Qed.
Lemma SameFile_iff x y : SameFile x y = true ↔ ∃ a, fi_ID x = Some a ∧ fi_ID y = Some a.
Proof.
  unfold SameFile. destruct (fi_ID x) as [a|], (fi_ID y) as [a'|]; rewrite ?Z.eqb_eq; naive_solver.
Qed.
Lemma info_of_ID ino f i : info_of ino f = Some i → fi_ID i = file_ID ino.
Proof. unfold info_of. destruct (fs_inode f ino); [|done]. by intros [= <-]. Qed.

Lemma Lstat_regular path f i : Lstat path f = Some (i, true) ↔ ∃ ino, fs_names f path = Some (Regular ino) ∧ info_of ino f = Some i.
Proof.
  unfold Lstat. destruct (fs_names f path) as [[ino|t|ino]|]; cbn; try destruct (info_of ino f) as [i'|] eqn:E; cbn; split; try naive_solver.
Qed.

(** C9 (safety): A document is read from the file the path named.  A read returns a
    document exactly when the path itself, not a link, named a regular file the
    platform can identify, what opened was that file and still regular, and its
    content is within sixteen MiB; it returns the whole content with the identity
    of the file it was read from, however the path moves between the calls. *)
Theorem config_read_exact path r body info :
  readConfigBoundedWithOpenInfo path r = Ok (body, info) ↔
  ∃ ino a x, fs_names (r_lstat r) path = Some (Regular ino) ∧ file_ID ino = Some a ∧ is_Some (fs_inode (r_lstat r) ino)
    ∧ Open maxLinks path (r_open r) = Some (ino, true) ∧ info_of ino (r_fstat r) = Some info
    ∧ fs_inode (r_read r) ino = Some x ∧ in_Content x = Some body ∧ len body <= maxConfigBytes.
Proof.
  unfold readConfigBoundedWithOpenInfo. split.
  - destruct (Lstat path (r_lstat r)) as [[pi [|]]|] eqn:El; [|done|done]. cbn [reject_if negb mbind].
    intros H. apply Lstat_regular in El as (ino & Hn & Hi). 
    destruct (SameFile pi pi) eqn:Es; [|done]. destruct (Open maxLinks path (r_open r)) as [[ino' reg]|] eqn:Eo; [|done].
    unfold Fstat in H. cbn [fst snd] in H. destruct (info_of ino' (r_fstat r)) as [oi|] eqn:Ef; [|done]. cbn in H. destruct reg; [|done]. cbn in H.
    destruct (SameFile pi oi) eqn:Es2; [|done]. cbn in H. unfold ReadLimited in H. cbn [fst] in H.
    destruct (fs_inode (r_read r) ino') as [x|] eqn:Ex; [|done]. cbn in H. destruct (in_Content x) as [content|] eqn:Ec; [|done]. cbn in H.
    destruct (maxConfigBytes <? len (take (Z.to_nat (maxConfigBytes + 1)) content)) eqn:Eb; [done|]. injection H as <- <-.
    apply SameFile_iff in Es2 as (a & Ha & Ha'). rewrite (info_of_ID _ _ _ Hi) in Ha. rewrite (info_of_ID _ _ _ Ef) in Ha'.
    assert (ino' = ino) as -> by (by apply (file_ID_inj ino' ino a)).
    apply Z.ltb_ge in Eb. rewrite length_take in Eb. assert (0 <= maxConfigBytes) by done.
    assert (len content <= maxConfigBytes) as Hlen by lia. rewrite take_ge by lia.
    exists ino, a, x. split_and!; try done. unfold info_of in Hi. by destruct (fs_inode (r_lstat r) ino).
  - intros (ino & a & x & Hn & Ha & [y Hy] & Ho & Hi & Hx & Hc & Hlen).
    set (pi := mkFileInfo (in_Size y) (in_ModTime y) (file_ID ino)). assert (fi_ID pi = Some a) as Hpi by done. assert (fi_ID info = Some a) as Hinfo by (by rewrite (info_of_ID _ _ _ Hi)).
    assert (Lstat path (r_lstat r) = Some (pi, true)) as -> by (apply Lstat_regular; exists ino; split; [done|]; unfold info_of; by rewrite Hy).
    rewrite (proj2 (SameFile_refl pi)) by (by exists a). cbn [reject_if negb mbind res_bind]. rewrite Ho. unfold Fstat. cbn [fst snd]. rewrite Hi. cbn [mbind option_bind negb reject_if res_bind].
    rewrite (proj2 (SameFile_iff pi info)) by (by exists a). unfold ReadLimited. cbn [fst]. rewrite Hx. cbn. rewrite Hc. cbn.
    assert (0 <= maxConfigBytes) by done. rewrite take_ge by lia. by rewrite (proj2 (Z.ltb_ge _ _)).
Qed.
End facts.

(** ** Concrete files *)
Section witnesses.
#[local] Instance inode_numbers : FileIdentity := {| file_ID i := Some i |}.
#[local] Instance inode_numbers_laws : FileIdentityLaws.
Proof. split. intros i j a Hi Hj. injection Hi as <-. injection Hj as <-. done. Qed.

(** File 1 is the document; the path is a link to it later on. *)
Definition document_files (e : dirent) : files :=
  mkFiles (λ name, if bool_decide (name = lit "config.json") then Some e else if bool_decide (name = lit "real") then Some (Regular 1) else None)
    (λ ino, if ino =? 1 then Some (mkInode (Some (lit "document")) 8 7) else None).
Definition steady : reading :=
  mkReading (document_files (Regular 1)) (document_files (Symlink (lit "real"))) (document_files (Regular 1)) (document_files (Regular 1)).

Lemma config_read_exact_witness :
  readConfigBoundedWithOpenInfo (lit "config.json") steady = Ok (lit "document", mkFileInfo 8 7 (Some 1))
  ∧ fs_names (r_lstat steady) (lit "config.json") = Some (Regular 1).
Proof.
  split; [|vm_compute; reflexivity].
  apply (config_read_exact (lit "config.json") steady (lit "document") (mkFileInfo 8 7 (Some 1))).
  exists 1, 1, (mkInode (Some (lit "document")) 8 7). split_and!; try (vm_compute; reflexivity); [eexists; vm_compute; reflexivity | vm_compute; discriminate].
Defined.

(** A path that is a link when it is looked at is refused. *)
Example link_refused :
  readConfigBoundedWithOpenInfo (lit "config.json") (mkReading (document_files (Symlink (lit "real"))) (document_files (Regular 1)) (document_files (Regular 1)) (document_files (Regular 1)))
  = Err "config path is not a regular file"%string.
Proof. reflexivity. Qed.
End witnesses.
