(* ===== verification/CommandLine.v ===== *)
(** * The command line ([main.go], with the [flag] and [strconv] packages it reads it with)

    Flags are declared with a default whose kind says how the text of a flag is read.  Parsing stops at
    the first argument that is no flag; a flag that is not declared or not well formed ends the process,
    as does a request for help. *)
From stdpp Require Import gmap.
From S2P Require Import Prelude GoStrings.

(** ** Values *)
Inductive flag_value := VString (s : bytes) | VBool (b : bool) | VInt (n : Z).

(** [strconv.ParseBool]. *)
Definition ParseBool (s : bytes) : option bool :=
  if bool_decide (s ∈ [&"1"; &"t"; &"T"; &"TRUE"; &"true"; &"True"]) then Some true
  else if bool_decide (s ∈ [&"0"; &"f"; &"F"; &"FALSE"; &"false"; &"False"]) then Some false
  else None.

(** The base a prefix names, and what follows it. *)
Definition split_base (s : bytes) : Z * bytes :=
  match s with
  | z :: c :: d :: rest =>
      if negb (z =? #"0") then (10, s)
      else if lower_byte c =? #"b" then (2, d :: rest)
      else if lower_byte c =? #"o" then (8, d :: rest)
      else if lower_byte c =? #"x" then (16, d :: rest)
      else (8, c :: d :: rest)
  | z :: rest => if z =? #"0" then (8, rest) else (10, s)
  | [] => (10, [])
  end.

Definition digit_value (c : Z) : option Z :=
  if is_digit c then Some (c - #"0")
  else if (#"a" <=? lower_byte c) && (lower_byte c <=? #"z") then Some (lower_byte c - #"a" + 10)
  else None.

(** The digits of [s] after [n]; underscores are skipped. *)
Fixpoint read_digits (base : Z) (s : bytes) (n : Z) : option Z :=
  match s with
  | [] => Some n
  | c :: s =>
      if c =? #"_" then read_digits base s n
      else match digit_value c with
           | Some d => if base <=? d then None else read_digits base s (n * base + d)
           | None => None
           end
  end.

(** [underscoreOK]: underscores only between digits, the prefix counting as one. *)
Inductive saw := SawStart | SawDigit | SawUnderscore | SawOther.
Fixpoint underscores (hex : bool) (s : bytes) (last : saw) : bool :=
  match s with
  | [] => match last with SawUnderscore => false | _ => true end
  | c :: s =>
      if is_digit c || hex && (#"a" <=? lower_byte c) && (lower_byte c <=? #"f") then underscores hex s SawDigit
      else if c =? #"_" then match last with SawDigit => underscores hex s SawUnderscore | _ => false end
      else match last with SawUnderscore => false | _ => underscores hex s SawOther end
  end.
Definition underscoreOK (s : bytes) : bool :=
  match s with
  | z :: c :: rest =>
      if (z =? #"0") && ((lower_byte c =? #"b") || (lower_byte c =? #"o") || (lower_byte c =? #"x"))
      then underscores (lower_byte c =? #"x") rest SawDigit else underscores false s SawStart
  | _ => underscores false s SawStart
  end.

(** [strconv.ParseInt(s, 0, 64)]. *)
Definition ParseInt (s : bytes) : option Z :=
  let '(neg, body) :=
    match s with
    | c :: rest => if c =? #"-" then (true, rest) else if c =? #"+" then (false, rest) else (false, s)
    | [] => (false, [])
    end in
  if bool_decide (body = []) then None
  else
    let '(base, digits) := split_base body in
    n ← read_digits base digits 0;
    if existsb (λ c, c =? #"_") digits && negb (underscoreOK body) then None
    else if neg : bool then (if 2 ^ 63 <? n then None else Some (- n))
    else if 2 ^ 63 <=? n then None else Some n.

(** [Value.Set]. *)
Definition set_value (v : flag_value) (text : bytes) : option flag_value :=
  match v with
  | VString _ => Some (VString text)
  | VBool _ => VBool <$> ParseBool text
  | VInt _ => VInt <$> ParseInt text
  end.

(** ** Parsing *)
Abbreviation values := (gmap bytes flag_value).
Inductive parse_result := Parsed (m : values) | ErrHelp | Malformed.

(** The name of a flag and the value after its first [=], which is not the first byte. *)
Fixpoint cut_value (name : bytes) : bytes * option bytes :=
  match name with
  | [] => ([], None)
  | c :: rest => if c =? #"=" then ([], Some rest) else let '(n, v) := cut_value rest in (c :: n, v)
  end.

(** The text after the dashes; [None] is an argument that ends the flags. *)
Definition flag_text (s : bytes) : option bytes :=
  match s with
  | d :: c :: rest =>
      if negb (d =? #"-") then None
      else if c =? #"-" then (if bool_decide (rest = []) then None else Some rest)
      else Some (c :: rest)
  | _ => None
  end.

Fixpoint Parse (args : list bytes) (m : values) : parse_result :=
  match args with
  | [] => Parsed m
  | s :: rest =>
      match flag_text s with
      | None => Parsed m
      | Some [] => Malformed
      | Some ((c :: _) as text) =>
          if (c =? #"-") || (c =? #"=") then Malformed
          else
            let '(name, value) := cut_value text in
            match m !! name with
            | None => if bool_decide (name = &"help") || bool_decide (name = &"h") then ErrHelp else Malformed
            | Some old =>
                match value, old with
                | Some text, _ => match set_value old text with Some v => Parse rest (<[name := v]> m) | None => Malformed end
                | None, VBool _ => Parse rest (<[name := VBool true]> m)
                | None, _ =>
                    match rest with
                    | [] => Malformed
                    | text :: rest => match set_value old text with Some v => Parse rest (<[name := v]> m) | None => Malformed end
                    end
                end
            end
      end
  end.

(** ** What is written is what is read *)

(** The argument that gives a flag a value. *)
Definition written (a : bytes * bytes) : bytes := &"--" ++ a.1 ++ &"=" ++ a.2.

(** The values after the assignments, if each flag is declared and takes its text. *)
Fixpoint assign (l : list (bytes * bytes)) (m : values) : option values :=
  match l with
  | [] => Some m
  | (name, text) :: l => old ← m !! name; v ← set_value old text; assign l (<[name := v]> m)
  end.

Lemma cut_value_written name value : #"=" ∉ name → cut_value (name ++ &"=" ++ value) = (name, Some value).
Proof.
  induction name as [|c name IH]; intros Hn; [done|]. apply not_elem_of_cons in Hn as [Hc Hn]. cbn [app cut_value].
  rewrite (proj2 (Z.eqb_neq c #"=")) by congruence. by rewrite IH.
Qed.

(** Flags written with their values are read with those values, up to the first argument that is no flag. *)
Theorem written_flags_read (l : list (bytes * bytes)) (m m' : values) (rest : list bytes) :
  (∀ name text, (name, text) ∈ l → #"=" ∉ name ∧ ∃ c name', name = c :: name' ∧ c ≠ #"-") →
  assign l m = Some m' → match rest with s :: _ => flag_text s = None | [] => True end →
  Parse (map written l ++ rest) m = Parsed m'.
Proof.
  revert m. induction l as [|[name text] l IH]; intros m Hl Ha Hr; cbn [assign map app] in *.
  - injection Ha as <-. destruct rest as [|s rest]; [done|]. cbn [Parse]. by rewrite Hr.
  - destruct (Hl name text) as (Hn & c & name' & -> & Hc); [left|].
    destruct (m !! (c :: name')) as [old|] eqn:Eo; [|done]. cbn in Ha. destruct (set_value old text) as [v|] eqn:Ev; [|done]. cbn in Ha.
    cbn [Parse]. change (flag_text (written (c :: name', text))) with (Some (c :: name' ++ &"=" ++ text)).
    assert (c ≠ #"=") as Hq by (intros ->; apply Hn; left).
    cbv iota beta. rewrite (proj2 (Z.eqb_neq c #"-")), (proj2 (Z.eqb_neq c #"=")) by done. cbn [orb].
    change (c :: name' ++ &"=" ++ text) with ((c :: name') ++ &"=" ++ text).
    rewrite (cut_value_written _ _ Hn). cbv iota beta. rewrite Eo, Ev. apply IH; [|done|done]. intros n t Hin. apply (Hl n t). by right.
Qed.

Example ints : ParseInt (&"990") = Some 990 ∧ ParseInt (&"-1") = Some (-1) ∧ ParseInt (&"0x1F") = Some 31 ∧ ParseInt (&"017") = Some 15
  ∧ ParseInt (&"1_000") = Some 1000 ∧ ParseInt (&"1__0") = None ∧ ParseInt (&"0") = Some 0 ∧ ParseInt (&"08") = None
  ∧ ParseInt (&"9223372036854775807") = Some (2 ^ 63 - 1) ∧ ParseInt (&"9223372036854775808") = None
  ∧ ParseInt (&"-9223372036854775808") = Some (- 2 ^ 63) ∧ ParseInt [] = None ∧ ParseInt (&"0x_1") = Some 1 ∧ ParseInt (&"0x") = None.
Proof. vm_compute. done. Qed.
