(* ===== verification/ProcessStart.v ===== *)
(** * The process ([main.go])

    What the process does from its arguments on: the tools, which print or decide
    and leave, and the service.  Each call to another part is an event of the
    trace, with its outcome in the environment; what is written to the process
    log is left out.  [log.Fatal] and [os.Exit] end the process where they stand,
    so the deferred calls run only when [main] returns. *)
From S2P Require Import Prelude GoStrings GoBinary FileSystem BundleStore ConfigTypes BundleManager HostPatterns ScriptConfig.
From S2P Require Import RoutingRules Settings ConfigValidate ConfigDecode ConfigSpec ConfigStore ConfigFile.
From S2P Require Import ControlAPI Certificates ScriptHost EngineLogService CommandLine.

Record flags := mkFlags {
  (** [--version] alone. *)
  fl_version : bool;
  fl_config : bytes;
  fl_checkConfig : bool;
  fl_checkEnabled : bool;
  fl_printMihomoFields : bool;
  fl_printCertificateHosts : bool;
  fl_printCertificateDigest : bool;
  fl_printCertificateRequest : bool;
  fl_healthcheck : bool;
  fl_bundleStore : bytes;
  fl_controlSocket : bytes;
  fl_controlPeerUID : Z;
  fl_controlPeerGID : Z;
  fl_controlPeerUser : bytes;
  fl_controlPeerGroup : bytes;
}.

(** The flags of the process with their defaults. *)
Definition declared : values :=
  list_to_map [(&"config", VString (&"/etc/5gpn/intercept/config.json")); (&"check-config", VBool false); (&"check-enabled", VBool false);
               (&"print-mihomo-fields", VBool false); (&"print-certificate-hosts", VBool false); (&"print-certificate-digest", VBool false);
               (&"print-certificate-request", VBool false); (&"healthcheck", VBool false);
               (&"bundle-store", VString (&"/var/lib/5gpn-intercept")); (&"control-socket", VString (&"/run/5gpn-intercept/control.sock"));
               (&"control-peer-uid", VInt (-1)); (&"control-peer-gid", VInt (-1)); (&"control-peer-user", VString []); (&"control-peer-group", VString [])].

Definition string_flag (m : values) (name : bytes) : bytes := match m !! name with Some (VString s) => s | _ => [] end.
Definition bool_flag (m : values) (name : bytes) : bool := match m !! name with Some (VBool b) => b | _ => false end.
Definition int_flag (m : values) (name : bytes) : Z := match m !! name with Some (VInt n) => n | _ => 0 end.

Definition flags_of (version : bool) (m : values) : flags :=
  mkFlags version (string_flag m (&"config")) (bool_flag m (&"check-config")) (bool_flag m (&"check-enabled")) (bool_flag m (&"print-mihomo-fields"))
    (bool_flag m (&"print-certificate-hosts")) (bool_flag m (&"print-certificate-digest")) (bool_flag m (&"print-certificate-request"))
    (bool_flag m (&"healthcheck")) (string_flag m (&"bundle-store")) (string_flag m (&"control-socket"))
    (int_flag m (&"control-peer-uid")) (int_flag m (&"control-peer-gid")) (string_flag m (&"control-peer-user")) (string_flag m (&"control-peer-group")).

(** What the arguments after the program's name ask for. *)
Inductive usage := Run (f : flags) | ShowHelp | BadUsage.
Definition command_line (args : list bytes) : usage :=
  if bool_decide (args = [&"--version"]) then Run (flags_of true declared)
  else match Parse args declared with
       | Parsed m => Run (flags_of false m)
       | ErrHelp => ShowHelp
       | Malformed => BadUsage
       end.

(** What the calls of the process meet. *)
Record environment := mkEnv {
  e_version : bytes;
  (** The read of the configuration, and the view of the first [Current]. *)
  e_config : reading;
  e_view : view;
  (** Whether the SOCKS5 probe of a host succeeds. *)
  e_probe : bytes → bool;
  e_certificates : certView;
  e_listens : bool;
  e_logService : bool;
  e_bundleStore : bool;
  (** [proxy.Serve] returned no error. *)
  e_served : bool;
}.

Inductive event :=
  | Print (line : bytes)
  | LoadCertificates | Listen | StartLogService | OpenBundleStore | RecoverBundles | InstallSource | ServeControl
  | StartWatchdog | Started (extensions : Z) | ServeLogs | ServeProxy | Stopping | StopRuntime
  | CloseLogService | WaitLogService | CloseHub | CloseControl | StopSignals.
#[export] Instance event_eq_dec : EqDecision event.
Proof. solve_decision. Defined.

(** [main] returned, or the process was ended with a status. *)
Inductive leaving := Returned | Exited (status : Z).

(** The trace, and the deferred calls, the last one first. *)
Abbreviation proc := (action (list event * list event) leaving).
Definition emit (x : event) : proc unit := λ s, (Ok tt, (s.1 ++ [x], s.2)).
Definition defer (x : event) : proc unit := λ s, (Ok tt, (s.1, x :: s.2)).
Definition fatal {A} : proc A := fail (Exited 1).
Definition leave_main {A} : proc A := fail Returned.
Definition or_fatal {E A} (r : res E A) : proc A := match r with Ok a => mret a | Err _ => fatal end.

Section process.
Context {I : FileIdentity} {U : UnicodeCase} {En : Engines} {P : TextParsers} {X : X509} {W : Users}.

(** [None]: the index is out of range. *)
Definition checkInterceptHealth (probe : bytes → bool) (cfg : Config) : option bool :=
  host ← head (activeHostPatterns cfg); Some (probe (probe_host host)).

Definition print_certificates (f : flags) (cfg : Config) : list event :=
  if fl_printCertificateRequest f then Print (certificateDigest cfg) :: map Print (certificateHostPatterns cfg)
  else if fl_printCertificateHosts f then map Print (certificateHostPatterns cfg)
  else [Print (certificateDigest cfg)].

(** The configuration of the process. *)
Definition configured (f : flags) (e : environment) : proc Config :=
  store ← or_fatal (openConfigStore (fl_config f) (e_config e));
  cfg ← or_fatal (Current (e_view e) store).1;
  _ ← or_fatal (ValidateDeployment cfg);
  mret cfg.

(** The tools that need the configuration. *)
Definition tools (f : flags) (e : environment) (cfg : Config) : proc unit :=
  if fl_checkConfig f then leave_main
  else if fl_printMihomoFields f then
    _ ← emit (Print (Join [cfg_Username cfg; cfg_Password cfg; px_Username (cfg_UpstreamProxy cfg); px_Password (cfg_UpstreamProxy cfg)] [9])); leave_main
  else if fl_checkEnabled f then (if negb (intercepting cfg) then fail (Exited 3) else leave_main)
  else if fl_healthcheck f then
    if negb (intercepting cfg) then fatal
    else match checkInterceptHealth (e_probe e) cfg with
         | None => fail (Exited 2)
         | Some true => leave_main
         | Some false => fatal
         end
  else mret tt.

(** The control API and what it serves; a recovery that fails is logged. *)
Definition start_control (f : flags) (e : environment) : proc unit :=
  if bool_decide (fl_controlSocket f = []) then mret tt
  else
    _ ← emit OpenBundleStore;
    _ ← (if bool_decide (fl_bundleStore f = []) || negb (e_bundleStore e) then fatal else mret tt);
    _ ← emit RecoverBundles;
    _ ← emit InstallSource;
    _ ← emit ServeControl;
    defer CloseControl.

(** The service: from the certificate to the end of the proxy. *)
Definition service (f : flags) (e : environment) (cfg : Config) : proc unit :=
  _ ← emit LoadCertificates;
  _ ← or_fatal (newCertificateStore (e_certificates e));
  _ ← emit Listen;
  _ ← (if e_listens e then mret tt else fatal);
  _ ← defer StopSignals;
  _ ← defer StopRuntime;
  _ ← (if e_logService e then emit StartLogService else mret tt);
  _ ← start_control f e;
  _ ← (if bool_decide (fl_bundleStore f = []) then fatal else mret tt);
  _ ← emit StartWatchdog;
  _ ← emit (Started (activeExtensionCount cfg));
  _ ← (if e_logService e then emit ServeLogs else mret tt);
  _ ← emit ServeProxy;
  _ ← emit Stopping;
  _ ← emit StopRuntime;
  _ ← (if e_logService e then _ ← emit CloseLogService; emit WaitLogService else emit CloseHub);
  if e_served e then mret tt else fatal.

Definition main_body (f : flags) (e : environment) : proc unit :=
  if fl_version f then _ ← emit (Print (e_version e)); leave_main
  else
    match resolvePeerIdentity (fl_controlPeerUser f) (fl_controlPeerGroup f) (fl_controlPeerUID f) (fl_controlPeerGID f) with
    | None => fatal
    | Some _ =>
        if fl_printCertificateHosts f || fl_printCertificateDigest f || fl_printCertificateRequest f then
          cfg ← or_fatal (loadCertificateConfig (fl_config f) (e_config e));
          _ ← iter_list emit (print_certificates f cfg);
          leave_main
        else
          cfg ← configured f e;
          _ ← tools f e cfg;
          if negb (intercepting cfg) then leave_main else service f e cfg
    end.

(** The trace and the exit status. *)
Definition main (f : flags) (e : environment) : list event * Z :=
  let '(r, (trace, deferred)) := main_body f e ([], []) in
  match r with Err (Exited status) => (trace, status) | _ => (trace ++ deferred, 0) end.

(** The process from its arguments; a command line that cannot be read ends it there. *)
Definition main_args (args : list bytes) (e : environment) : list event * Z :=
  match command_line args with
  | Run f => main f e
  | ShowHelp => ([], 0)
  | BadUsage => ([], 2)
  end.
End process.

(** ** The order of a trace *)
(** Every [y] of the trace comes after an [x]. *)
Definition precedes (x y : event) (t : list event) : Prop := ∀ t1 t2, t = t1 ++ y :: t2 → x ∈ t1.
Fixpoint precedesb (x y : event) (t : list event) : bool :=
  match t with [] => true | z :: t => if decide (z = y) then false else if decide (z = x) then true else precedesb x y t end.
Lemma precedesb_spec x y t : precedesb x y t = true → precedes x y t.
Proof.
  induction t as [|z t IH]; cbn; intros Hb t1 t2 E; [by destruct t1|]. destruct (decide (z = y)) as [->|Hy]; [done|].
  destruct t1 as [|z' t1]; [by injection E as -> _|]. injection E as <- E. destruct (decide (z = x)) as [->|Hx]; [left|]. right. by apply (IH Hb t1 t2).
Qed.
Lemma precedes_absent x y t : y ∉ t → precedes x y t.
Proof. intros Hy t1 t2 ->. destruct Hy. apply elem_of_app. right. left. Qed.

(** The mode flags. *)
Definition with_modes (check healthcheck : bool) (f : flags) : flags :=
  mkFlags false (fl_config f) false check false false false false healthcheck (fl_bundleStore f) (fl_controlSocket f)
    (fl_controlPeerUID f) (fl_controlPeerGID f) (fl_controlPeerUser f) (fl_controlPeerGroup f).

Section facts.
Context {I : FileIdentity} {U : UnicodeCase} {En : Engines} {P : TextParsers} {X : X509} {W : Users}.

Lemma or_fatal_bind {E A B} (r : res E A) (k : A → proc B) s :
  (or_fatal r ≫= k) s = match r with Ok a => k a s | Err _ => (Err (Exited 1), s) end.
Proof. by destruct r. Qed.
Lemma configured_cases f e s : (∃ cfg, configured f e s = (Ok cfg, s)) ∨ configured f e s = (Err (Exited 1), s).
Proof.
  unfold configured. rewrite or_fatal_bind. destruct (openConfigStore (fl_config f) (e_config e)) as [st|]; [|by right].
  rewrite or_fatal_bind. destruct (Current (e_view e) st).1 as [cfg|]; [|by right].
  rewrite or_fatal_bind. destruct (ValidateDeployment cfg); [left; by exists cfg | by right].
Qed.

(** A configuration that intercepts has a host to probe. *)
Lemma intercepting_host cfg probe : intercepting cfg = true → is_Some (checkInterceptHealth probe cfg).
Proof.
  unfold intercepting, hasActiveExtensions, checkInterceptHealth, activeHostPatterns. destruct (mitm_Enabled (cfg_MITM cfg)); [|done]. cbn.
  destruct (cfg_runtime cfg) as [r|].
  - destruct (cc_activePatterns r); [done | by eexists].
  - destruct (uniqueSorted _); [done | by eexists].
Qed.

(** The traces of the service, by what it met. *)
Definition service_trace (f : flags) (e : environment) (cfg : Config) : list event * Z :=
  let control := negb (bool_decide (fl_controlSocket f = [])) in
  let stored := negb (bool_decide (fl_bundleStore f = [])) in
  let logs := if e_logService e then [StartLogService] else [] in
  let api := if control then [RecoverBundles; InstallSource; ServeControl] else [] in
  let opening := if control then [OpenBundleStore] else [] in
  if negb (is_ok (newCertificateStore (e_certificates e))) then ([LoadCertificates], 1)
  else if negb (e_listens e) then ([LoadCertificates; Listen], 1)
  else if negb stored || control && negb (e_bundleStore e) then ([LoadCertificates; Listen] ++ logs ++ opening, 1)
  else
    let t := [LoadCertificates; Listen] ++ logs ++ opening ++ api ++ [StartWatchdog; Started (activeExtensionCount cfg)]
      ++ (if e_logService e then [ServeLogs] else []) ++ [ServeProxy; Stopping; StopRuntime]
      ++ (if e_logService e then [CloseLogService; WaitLogService] else [CloseHub]) in
    if e_served e then (t ++ (if control then [CloseControl] else []) ++ [StopRuntime; StopSignals], 0) else (t, 1).

Lemma service_exact f e cfg :
  (let '(r, (trace, deferred)) := service f e cfg ([], []) in
   match r with Err (Exited status) => (trace, status) | _ => (trace ++ deferred, 0) end) = service_trace f e cfg.
Proof.
  unfold service, service_trace, start_control. destruct (newCertificateStore (e_certificates e)) as [cs|ce]; [|done].
  destruct (e_listens e); [|done]. destruct (e_logService e), (bool_decide (fl_controlSocket f = [])), (bool_decide (fl_bundleStore f = [])), (e_bundleStore e), (e_served e);
    reflexivity.
Qed.

(** What the process does in a mode. *)
Lemma main_modes c h f e :
  main (with_modes c h f) e =
  match resolvePeerIdentity (fl_controlPeerUser f) (fl_controlPeerGroup f) (fl_controlPeerUID f) (fl_controlPeerGID f) with
  | None => ([], 1)
  | Some _ =>
      match (configured f e ([], [])).1 with
      | Err _ => ([], 1)
      | Ok cfg =>
          if c then ([], if intercepting cfg then 0 else 3)
          else if h then ([], if intercepting cfg && from_option (e_probe e) false (probe_host <$> head (activeHostPatterns cfg)) then 0 else 1)
          else if intercepting cfg then service_trace f e cfg else ([], 0)
      end
  end.
Proof.
  unfold main, main_body. cbn [fl_version with_modes fl_controlPeerUser fl_controlPeerGroup fl_controlPeerUID fl_controlPeerGID fl_printCertificateHosts fl_printCertificateDigest fl_printCertificateRequest orb].
  destruct (resolvePeerIdentity _ _ _ _); [|done]. change (configured (with_modes c h f) e) with (configured f e).
  unfold mbind, action_bind. destruct (configured_cases f e ([], [])) as [[cfg ->]| ->]; [|done]. cbn [fst].
  unfold tools. cbn [fl_checkConfig fl_printMihomoFields fl_checkEnabled fl_healthcheck with_modes].
  destruct c; [by destruct (intercepting cfg)|]. destruct h.
  - destruct (intercepting cfg) eqn:Ei; [|done]. cbn [negb andb]. destruct (intercepting_host cfg (e_probe e) Ei) as [b Hb]. rewrite Hb.
    unfold checkInterceptHealth in Hb. destruct (head (activeHostPatterns cfg)) as [host|]; [|done]. injection Hb as <-. cbn. by destruct (e_probe e (probe_host host)).
  - change (service (with_modes false false f) e cfg) with (service f e cfg). cbn [mret action_ret].
    destruct (intercepting cfg); [|done]. cbn [negb]. apply service_exact.
Qed.

Definition prints_only (t : list event) : Prop := Forall (λ x, ∃ line, x = Print line) t.
Lemma emit_prints l s : (∀ x, x ∈ l → ∃ line, x = Print line) → prints_only s.1 → ∃ t, iter_list emit l s = (Ok tt, (t, s.2)) ∧ prints_only t.
Proof.
  revert s. induction l as [|x l IH]; intros s Hl Hs; [by exists s.1; destruct s|]. 
  change (iter_list emit (x :: l) s) with (iter_list emit l (s.1 ++ [x], s.2)). apply (IH (s.1 ++ [x], s.2)); [intros y Hy; apply Hl; by right|].
  cbn. apply Forall_app. split; [done|]. constructor; [apply Hl; left | constructor].
Qed.
Lemma certificates_print f cfg x : x ∈ print_certificates f cfg → ∃ line, x = Print line.
Proof.
  unfold print_certificates. intros Hx. assert (x ∈ map Print (certificateDigest cfg :: certificateHostPatterns cfg)) as Hin.
  { destruct (fl_printCertificateRequest f); [done|]. destruct (fl_printCertificateHosts f); [by right|]. apply list_elem_of_singleton in Hx as ->. left. }
  apply list_elem_of_In, in_map_iff in Hin as (line & <- & _). by exists line.
Qed.

(** Every run prints and leaves, or is the service's. *)
Lemma main_cases f e : (prints_only (main f e).1 ∧ ((main f e).2 = 0 ∨ (main f e).2 = 1 ∨ (main f e).2 = 3)) ∨ ∃ cfg, main f e = service_trace f e cfg.
Proof.
  unfold main, main_body. destruct (fl_version f); [left; split; [by repeat econstructor | by left]|].
  destruct (resolvePeerIdentity _ _ _ _); [|left; split; [constructor | right; by left]].
  destruct (_ || _).
  - rewrite or_fatal_bind. destruct (loadCertificateConfig _ _) as [cfg|]; [|left; split; [constructor | right; by left]].
    unfold mbind, action_bind. destruct (emit_prints (print_certificates f cfg) ([], [])) as (t & -> & Ht); [intros x; apply certificates_print | constructor|].
    left. cbn. rewrite app_nil_r. split; [done | by left].
  - unfold mbind, action_bind. destruct (configured_cases f e ([], [])) as [[cfg ->]| ->]; [|left; split; [constructor | right; by left]].
    unfold tools. destruct (fl_checkConfig f); [left; split; [constructor | by left]|]. destruct (fl_printMihomoFields f); [left; split; [by repeat econstructor | by left]|].
    destruct (fl_checkEnabled f); [left; destruct (intercepting cfg); (split; [apply Forall_nil_2|]); [by left | right; by right]|].
    destruct (fl_healthcheck f).
    + left. destruct (intercepting cfg) eqn:Ei; [|split; [constructor | right; by left]]. cbn [negb].
      destruct (intercepting_host cfg (e_probe e) Ei) as [b ->]. destruct b; (split; [constructor|]); [by left | right; by left].
    + cbn [mret action_ret]. destruct (intercepting cfg); cbn [negb]; [|left; split; [constructor | by left]]. right. exists cfg. apply service_exact.
Qed.

Lemma service_first f e cfg : LoadCertificates ∈ (service_trace f e cfg).1.
Proof. unfold service_trace. repeat case_match; left. Qed.

(** C24 (equivalence): the gate in front of the service tells what the service would do.  On
    one configuration [--check-enabled] leaves with 0 exactly when the service
    gets as far as its certificate, with 3 exactly when the service would stay
    stopped, and with 1 exactly when it would fail; and the health check succeeds
    exactly when there is something to intercept and its first host answers.
    Neither touches anything. *)
Theorem check_enabled_exact f e (check := main (with_modes true false f) e) (probe := main (with_modes false true f) e)
    (run := main (with_modes false false f) e) :
  check.1 = [] ∧ probe.1 = []
  ∧ (check.2 = 0 ↔ LoadCertificates ∈ run.1)
  ∧ (check.2 = 3 ↔ run = ([], 0))
  ∧ (check.2 = 1 ↔ run = ([], 1))
  ∧ (check.2 = 0 ∨ check.2 = 1 ∨ check.2 = 3)
  ∧ (probe.2 = 0 ↔ check.2 = 0 ∧ ∃ cfg host, (configured f e ([], [])).1 = Ok cfg ∧ head (activeHostPatterns cfg) = Some host
                                           ∧ e_probe e (probe_host host) = true)
  ∧ (probe.2 = 0 ∨ probe.2 = 1).
Proof.
  subst check probe run. rewrite !main_modes.
  destruct (resolvePeerIdentity _ _ _ _); [|cbn; rewrite elem_of_nil; naive_solver].
  destruct (configured f e ([], [])).1 as [cfg|]; [|cbn; rewrite elem_of_nil; naive_solver].
  destruct (intercepting cfg) eqn:Ei.
  - pose proof (service_first f e cfg) as Hf. destruct (intercepting_host cfg (e_probe e) Ei) as [b Hb]. unfold checkInterceptHealth in Hb.
    destruct (head (activeHostPatterns cfg)) as [host|] eqn:Eh; [|done]. cbn [fmap option_fmap option_map from_option andb].
    destruct (service_trace f e cfg) as [t c]. cbn [fst snd] in *. assert (t ≠ []) as Ht by (by intros ->; apply elem_of_nil in Hf).
    destruct (e_probe e (probe_host host)) eqn:Ep; cbn; split_and!; try naive_solver congruence.
  - cbn. rewrite elem_of_nil. naive_solver.
Qed.

Lemma main_ordered f e (t := (main f e).1) :
  ((main f e).2 = 0 ∨ (main f e).2 = 1 ∨ (main f e).2 = 3)
  ∧ precedes LoadCertificates Listen t ∧ precedes Listen OpenBundleStore t ∧ precedes Listen ServeProxy t ∧ precedes StartWatchdog ServeProxy t
  ∧ precedes RecoverBundles InstallSource t ∧ precedes InstallSource ServeControl t
  ∧ (fl_controlSocket f = [] ∨ precedes ServeControl ServeProxy t)
  ∧ precedes ServeProxy StopRuntime t ∧ precedes StopRuntime CloseLogService t ∧ precedes CloseLogService WaitLogService t
  ∧ (StartLogService ∈ t → CloseLogService ∈ t ↔ ServeProxy ∈ t)
  ∧ ((main f e).2 = 0 → ServeControl ∈ t → CloseControl ∈ t).
Proof.
  subst t. destruct (main_cases f e) as [[Hp Hc]|[cfg ->]].
  - assert (∀ x, (∀ line, x ≠ Print line) → x ∉ (main f e).1) as Hno.
    { intros x Hx Hin. unfold prints_only in Hp. rewrite Forall_forall in Hp. destruct (Hp x Hin) as [line ->]. by destruct (Hx line). }
    split; [done|]. split_and!; try (by apply precedes_absent, Hno); [right; by apply precedes_absent, Hno | |].
    + intros Hin. by apply Hno in Hin.
    + intros _ Hin. by apply Hno in Hin.
  - unfold service_trace. destruct (is_ok (newCertificateStore (e_certificates e))), (e_listens e), (e_logService e), (bool_decide (fl_controlSocket f = [])) eqn:Ec,
      (bool_decide (fl_bundleStore f = [])), (e_bundleStore e), (e_served e); cbn [negb orb andb app fst snd].
    all: split_and!; try (by apply precedesb_spec); try (by left); try (by right; left).
    all: try (left; by apply bool_decide_eq_true in Ec); try (right; by apply precedesb_spec).
    all: rewrite !list_elem_of_In; cbn; intuition congruence.
Qed.

(** C25 (safety): the process starts and stops in order.  Whatever its arguments and whatever
    fails: nothing listens before the certificate is good, the bundle store is
    touched only by the process that listens, the control API
    serves only after recovery and after the configuration comes from it, the
    proxy serves only with its listener, its watchdog and, with a control API,
    the bundles in place, and what it told to stop is stopped before the logs
    close.  Arguments that cannot be read end the process with 2 before it does anything, and nothing
    else does, so the probe's index is in range; a request for help ends it there with 0; every other
    status is 0, 1 or 3.  And a log service that was started is closed exactly when the proxy came to
    serve: a bundle store that cannot be opened ends the process with the socket and its lock in place. *)
Theorem process_ordered args e (t := (main_args args e).1) (status := (main_args args e).2) :
  (status = 2 ↔ command_line args = BadUsage) ∧ (status = 0 ∨ status = 1 ∨ status = 2 ∨ status = 3)
  ∧ (command_line args = BadUsage ∨ command_line args = ShowHelp → t = [])
  ∧ precedes LoadCertificates Listen t ∧ precedes Listen OpenBundleStore t ∧ precedes Listen ServeProxy t ∧ precedes StartWatchdog ServeProxy t
  ∧ precedes RecoverBundles InstallSource t ∧ precedes InstallSource ServeControl t
  ∧ (∀ f, command_line args = Run f → fl_controlSocket f = [] ∨ precedes ServeControl ServeProxy t)
  ∧ precedes ServeProxy StopRuntime t ∧ precedes StopRuntime CloseLogService t ∧ precedes CloseLogService WaitLogService t
  ∧ (StartLogService ∈ t → CloseLogService ∈ t ↔ ServeProxy ∈ t)
  ∧ (status = 0 → ServeControl ∈ t → CloseControl ∈ t).
Proof.
  subst t status. unfold main_args. destruct (command_line args) as [f| |] eqn:Ec.
  - destruct (main_ordered f e) as (Hst & H). split; [split; [lia | done]|]. split; [lia|]. split; [by intros [?|?]|].
    destruct H as (? & ? & ? & ? & ? & ? & Hc & ?). do 6 (split; [done|]). split; [by intros ? [= <-] | done].
  - cbn. split; [done|]. split; [by left|]. split; [done|]. split_and!; try done; try (by apply precedes_absent, not_elem_of_nil); rewrite !elem_of_nil; tauto.
  - cbn. split; [done|]. split; [auto|]. split; [done|]. split_and!; try done; try (by apply precedes_absent, not_elem_of_nil); rewrite !elem_of_nil; tauto.
Qed.
End facts.

(** ** A process *)
Section examples.
#[local] Instance demo_files : FileIdentity := {| file_ID i := Some i |}.
#[local] Instance demo_case : UnicodeCase := {| unicode_ToLower r := r; unicode_ToUpper r := r |}.
#[local] Instance demo_engines : Engines :=
  {| regexp_Compile _ := true; regexp_MatchString p s := bool_decide (p = s); goja_Compile _ body := Some body;
     gojq_Compile _ := true; render_value _ := [] |}.
#[local] Instance demo_parsers : TextParsers := {| url_Parse _ := None; time_Parse_RFC3339 t := (len t =? 20) |}.
#[local] Instance demo_x509 : X509 := {| VerifyHostname _ _ := true |}.
#[local] Instance demo_users : Users := {| user_Lookup _ := None; user_LookupGroup _ := None |}.

Definition demo_flags : flags :=
  mkFlags false (lit "config.json") false false false false false false false (lit "/var/lib") (lit "/run/control.sock") (-1) (-1) [] [].
Definition demo_disk : files :=
  mkFiles (λ name, if bool_decide (name = lit "config.json") then Some (Regular 1) else None)
    (λ ino, if ino =? 1 then Some (mkInode (Some document_text) (len document_text) 7) else None).
(** An environment where everything but the bundle store is as it should be. *)
Definition demo_env (stored : bool) : environment :=
  mkEnv (lit "dev") (mkReading demo_disk demo_disk demo_disk demo_disk) (mkView None false None None) (λ host, bool_decide (host = lit "probe.example.com"))
    (mkCertView (Some document) (Some 1) (Some 1) (LoadedLeaf (mkLeaf [] false 0 9)) 5 5) true true stored true.

Example process_serves :
  main demo_flags (demo_env true)
  = ([LoadCertificates; Listen; StartLogService; OpenBundleStore; RecoverBundles; InstallSource; ServeControl; StartWatchdog; Started 1;
      ServeLogs; ServeProxy; Stopping; StopRuntime; CloseLogService; WaitLogService; CloseControl; StopRuntime; StopSignals], 0)
  ∧ main (with_modes true false demo_flags) (demo_env true) = ([], 0) ∧ main (with_modes false true demo_flags) (demo_env true) = ([], 0).
Proof. vm_compute. by split_and!. Qed.

(** The same process from its arguments; and arguments that end it. *)
Example process_arguments :
  main_args [&"--config=config.json"; &"-bundle-store"; &"/var/lib"; &"--control-socket"; &"/run/control.sock"; &"--check-enabled=F"] (demo_env true)
  = main demo_flags (demo_env true)
  ∧ main_args [&"--version"] (demo_env true) = ([Print (&"dev")], 0)
  ∧ main_args [&"--version"; &"--check-config"] (demo_env true) = ([], 2)
  ∧ main_args [&"--control-peer-uid=990x"] (demo_env true) = ([], 2) ∧ main_args [&"-config"] (demo_env true) = ([], 2)
  ∧ main_args [&"-h"] (demo_env true) = ([], 0).
Proof. vm_compute. by split_and!. Qed.

(** The bundle store cannot be opened: the log service is left behind, its socket and its lock with it. *)
Example log_service_abandoned :
  main demo_flags (demo_env false) = ([LoadCertificates; Listen; StartLogService; OpenBundleStore], 1).
Proof. vm_compute. reflexivity. Qed.
End examples.
