(* ===== verification/HttpHeaders.v ===== *)
(** * Header maps ([net/http]'s [Header] as [proxy.go], [module_runtime.go] and
      [module_network.go] use it)

    A header is a finite map from a name to its values.  [Header.Clone] and
    the copies of the code are the identity here.  Where a loop over a map
    gives an outcome that depends on its order the names are sorted by the
    code, and otherwise the order does not matter. *)
From S2P Require Import Prelude GoStrings.

Abbreviation Header := (gmap bytes (list bytes)).

Definition maxModuleNetworkHeaderBytes : Z := 65536.
Definition maxScriptHeaderFields : Z := 256.
Definition maxScriptHeaderValues : Z := 512.
Definition maxScriptHeaderValueBytes : Z := 16384.

Definition isModuleNetworkTokenByte (c : Z) : bool :=
  is_digit c || ((#"a" <=? c) && (c <=? #"z")) || ((#"A" <=? c) && (c <=? #"Z")) || ContainsByte (&"!#$%&'*+-.^_`|~") c.

Definition validModuleNetworkHeaderName (name : bytes) : bool :=
  negb (bool_decide (name = [])) && forallb isModuleNetworkTokenByte name.

(** [http.CanonicalHeaderKey]: the bytes of a header name are the token bytes. *)
Fixpoint canonical_case (upper : bool) (s : bytes) : bytes :=
  match s with
  | [] => []
  | c :: s' => (if upper then upper_byte c else lower_byte c) :: canonical_case (c =? #"-") s'
  end.
Definition CanonicalHeaderKey (s : bytes) : bytes :=
  if forallb isModuleNetworkTokenByte s then canonical_case true s else s.

Definition header_Values (h : Header) (name : bytes) : list bytes := default [] (h !! CanonicalHeaderKey name).
Definition header_Set (name value : bytes) (h : Header) : Header := <[CanonicalHeaderKey name := [value]]> h.
Definition header_Add (name value : bytes) (h : Header) : Header :=
  <[CanonicalHeaderKey name := header_Values h name ++ [value]]> h.
Definition header_Del (name : bytes) (h : Header) : Header := delete (CanonicalHeaderKey name) h.
Definition header_names (h : Header) : list bytes := map fst (map_to_list h).

Section headers.
Context {U : UnicodeCase}.

Definition isHopByHopHeader (name : bytes) : bool :=
  containsString [&"connection"; &"proxy-connection"; &"keep-alive"; &"proxy-authenticate"; &"proxy-authorization";
                  &"te"; &"trailer"; &"transfer-encoding"; &"upgrade"] (ToLower name).

(** The names the Connection fields list. *)
Definition connection_names (h : Header) : list bytes :=
  concat (map (λ value, map TrimSpace (Split value #",")) (header_Values h (&"Connection"))).

Definition connectionListsHeader (h : Header) (want : bytes) : bool :=
  existsb (λ name, EqualFold name want) (connection_names h).

Definition removeHopByHopHeaders (h : Header) : Header :=
  let h1 := fold_left (λ h name, if validModuleNetworkHeaderName name then header_Del name h else h) (connection_names h) h in
  fold_left (λ h name, if isHopByHopHeader name then header_Del name h else h) (header_names h1) h1.

Definition copyResponseHeaders (destination source : Header) : Header :=
  filter (λ kv, negb (isHopByHopHeader kv.1 || connectionListsHeader source kv.1) = true) source ∪ destination.

(** The fields whose name is TE in some spelling. *)
Definition te_fields (h : Header) : list (bytes * list bytes) := List.filter (λ kv, EqualFold kv.1 (&"Te")) (map_to_list h).

Definition is_trailers (value : bytes) : bool := EqualFold (TrimSpace value) (&"trailers").

Definition requestTEIsTrailers (h : Header) : bool :=
  match te_fields h with [(_, [value])] => is_trailers value | _ => false end.

Definition sanitizeForwardRequestHeaders (h : Header) : Header :=
  let preserveTrailers := requestTEIsTrailers h in
  let h := removeHopByHopHeaders h in
  if preserveTrailers then header_Set (&"Te") (&"trailers") h else h.

Inductive header_error :=
| ErrTooManyFields | ErrHeaderName | ErrDuplicateName | ErrHeaderBytes | ErrHeaderValue | ErrHeaderValueBytes
| ErrTooManyValues | ErrTE | ErrHopByHop | ErrTrailerName.

Definition normalizeRequestTEHeader (h : Header) : res header_error Header :=
  match te_fields h with
  | [] => Ok h
  | [(name, [value])] => if is_trailers value then Ok (header_Set (&"Te") (&"trailers") (delete name h)) else Err ErrTE
  | _ => Err ErrTE
  end.

Definition validateNativePatchHeaders (h : Header) (response : bool) : res header_error Header :=
  h ← (if response then Ok h else normalizeRequestTEHeader h);
  _ ← reject_if (existsb (λ name, isHopByHopHeader name && negb (negb response && EqualFold name (&"Te"))) (header_names h)) ErrHopByHop;
  Ok h.

(** ** Trailers *)
Definition unsafe_trailers : list bytes :=
  [&"Authorization"; &"Cache-Control"; &"Connection"; &"Content-Encoding"; &"Content-Length"; &"Content-Range";
   &"Content-Type"; &"Expect"; &"Host"; &"Keep-Alive"; &"Max-Forwards"; &"Pragma"; &"Proxy-Authenticate";
   &"Proxy-Authorization"; &"Proxy-Connection"; &"Range"; &"Realm"; &"Te"; &"Trailer"; &"Transfer-Encoding";
   &"Www-Authenticate"].

Definition validResponseTrailerName (name : bytes) : bool :=
  validModuleNetworkHeaderName name
  && (let canonical := CanonicalHeaderKey name in
      negb (HasPrefix canonical (&"If-")) && negb (containsString unsafe_trailers canonical)).

Definition responseTrailerNames (trailers : Header) : list bytes :=
  sort_Strings (remove_dups (List.filter validResponseTrailerName (map CanonicalHeaderKey (header_names trailers)))).

Definition declareResponseTrailers (header trailers : Header) : Header * list bytes :=
  let header := header_Del (&"Trailer") header in
  match responseTrailerNames trailers with
  | [] => (header, [])
  | names => (header_Set (&"Trailer") (Join names (&", ")) (header_Del (&"Content-Length") header), names)
  end.

(** The values of a name in any spelling, in the order of the map. *)
Definition responseTrailerValues (trailers : Header) (name : bytes) : list bytes :=
  concat (map snd (List.filter (λ kv, EqualFold kv.1 name) (map_to_list trailers))).

Definition TrailerPrefix : bytes := &"Trailer:".

Definition publishResponseTrailers (header trailers : Header) (declared : list bytes) : Header :=
  fold_left (λ header name,
      <[(if bool_decide (name ∈ declared) then name else TrailerPrefix ++ name) := responseTrailerValues trailers name]> header)
    (responseTrailerNames trailers) header.

Definition responseCanHaveBody (method : bytes) (status : Z) : bool :=
  if bool_decide (method = &"HEAD") || ((100 <=? status) && (status <=? 199)) then false
  else negb (status =? 204) && negb (status =? 304).

(** ** Headers a script or an origin hands over *)
Definition validHTTPHeaderValue (value : bytes) : bool :=
  forallb (λ c, negb ((c =? 0x7f) || ((c <? 32) && negb (c =? 9)))) value.

Record scriptHeaderBudget := mkBudget { hb_values : Z; hb_bytes : Z }.

Definition addField (name : bytes) (b : scriptHeaderBudget) : res header_error scriptHeaderBudget :=
  let n := hb_bytes b + len name in
  if maxModuleNetworkHeaderBytes <? n then Err ErrHeaderBytes else Ok (mkBudget (hb_values b) n).

Definition addValue (value : bytes) (b : scriptHeaderBudget) : res header_error scriptHeaderBudget :=
  if negb (validHTTPHeaderValue value) then Err ErrHeaderValue
  else if maxScriptHeaderValueBytes <? len value then Err ErrHeaderValueBytes
  else if maxScriptHeaderValues <? hb_values b + 1 then Err ErrTooManyValues
  else if maxModuleNetworkHeaderBytes <? hb_bytes b + len value then Err ErrHeaderBytes
  else Ok (mkBudget (hb_values b + 1) (hb_bytes b + len value)).

Fixpoint add_values (values : list bytes) (b : scriptHeaderBudget) : res header_error scriptHeaderBudget :=
  match values with
  | [] => Ok b
  | value :: rest => b ← addValue value b; add_values rest b
  end.

Definition exportedHeaderValues (values : list bytes) (b : scriptHeaderBudget) : res header_error scriptHeaderBudget :=
  if maxScriptHeaderValues - hb_values b <? len values then Err ErrTooManyValues else add_values values b.

(** The loop over the sorted names; [seen] holds the folded names. *)
Fixpoint check_names (names seen : list bytes) : res header_error unit :=
  match names with
  | [] => Ok tt
  | name :: rest =>
      if negb (validModuleNetworkHeaderName name) then Err ErrHeaderName
      else if containsString seen (ToLower name) then Err ErrDuplicateName
      else check_names rest (ToLower name :: seen)
  end.

Definition validatedScriptHeaderNames (names : list bytes) : res header_error (list bytes) :=
  if maxScriptHeaderFields <? len names then Err ErrTooManyFields
  else
    let names := sort_Strings names in
    _ ← check_names names [];
    Ok names.

Fixpoint export_fields (values : Header) (names : list bytes) (b : scriptHeaderBudget) (headers : Header) :
    res header_error Header :=
  match names with
  | [] => Ok headers
  | name :: rest =>
      b ← addField name b;
      let field := default [] (values !! name) in
      b ← exportedHeaderValues field b;
      export_fields values rest b (<[CanonicalHeaderKey name := field]> headers)
  end.

Definition exportedStringSliceHeaders (values : Header) : res header_error Header :=
  names ← validatedScriptHeaderNames (header_names values);
  export_fields values names (mkBudget 0 0) ∅.

Definition exportedTrailers (values : Header) : res header_error Header :=
  trailers ← exportedStringSliceHeaders values;
  _ ← reject_if (negb (forallb validResponseTrailerName (header_names trailers))) ErrTrailerName;
  Ok trailers.

Definition wireTrailers (source : Header) : res header_error Header :=
  trailers ← exportedStringSliceHeaders source;
  Ok (filter (λ kv, validResponseTrailerName kv.1 = true) trailers).

(** [flatHeaders], the projection a script sees. *)
Definition flatHeaders (h : Header) : gmap bytes bytes := (λ values, Join values (&", ")) <$> h.

(** ** Content codings ([content_encoding.go]) *)
Definition isGzip (body : bytes) : bool :=
  match body with a :: b :: _ => (a =? 0x1f) && (b =? 0x8b) | _ => false end.

Definition normalizedContentEncoding (h : Header) : option bytes :=
  match header_Values h (&"Content-Encoding") with
  | [] => Some []
  | [value] =>
      let encoding := ToLower (TrimSpace value) in
      if bool_decide (encoding = []) || ContainsByte encoding #"," then None else Some encoding
  | _ => None
  end.
End headers.

(** ** Canonical names *)
Lemma token_ascii c : isModuleNetworkTokenByte c = true → 0 <= c < 128.
Proof.
  unfold isModuleNetworkTokenByte, is_digit. intros [[[?|?]%orb_true_iff|?]%orb_true_iff|Hin]%orb_true_iff; bools; [lia..|].
  apply ContainsByte_true in Hin. repeat (apply elem_of_cons in Hin as [->|Hin]; [done|]). by apply elem_of_nil in Hin.
Qed.

Lemma upper_lower_byte c : upper_byte (lower_byte c) = upper_byte c.
Proof. unfold upper_byte, lower_byte. repeat case_match; bools; lia. Qed.
Lemma lower_lower_byte c : lower_byte (lower_byte c) = lower_byte c.
Proof. unfold lower_byte. repeat case_match; bools; lia. Qed.
Lemma lower_upper_byte c : lower_byte (upper_byte c) = lower_byte c.
Proof. unfold upper_byte, lower_byte. repeat case_match; bools; lia. Qed.
Lemma upper_upper_byte c : upper_byte (upper_byte c) = upper_byte c.
Proof. unfold upper_byte. repeat case_match; bools; lia. Qed.
Lemma lower_hyphen c : (lower_byte c =? #"-") = (c =? #"-").
Proof. unfold lower_byte. case_match; [|done]. bools. apply eq_true_iff_eq. rewrite !Z.eqb_eq. lia. Qed.
Lemma upper_hyphen c : (upper_byte c =? #"-") = (c =? #"-").
Proof. unfold upper_byte. case_match; [|done]. bools. apply eq_true_iff_eq. rewrite !Z.eqb_eq. lia. Qed.

Lemma canonical_case_lower u s : canonical_case u (map lower_byte s) = canonical_case u s.
Proof.
  revert u. induction s as [|c s IH]; intros u; [done|]. cbn [map canonical_case]. rewrite lower_hyphen, IH.
  destruct u; by rewrite ?upper_lower_byte, ?lower_lower_byte.
Qed.
Lemma lower_canonical_case u s : map lower_byte (canonical_case u s) = map lower_byte s.
Proof.
  revert u. induction s as [|c s IH]; intros u; [done|]. cbn [map canonical_case]. rewrite IH.
  destruct u; by rewrite ?lower_upper_byte, ?lower_lower_byte.
Qed.

Lemma token_lower c : isModuleNetworkTokenByte c = true → isModuleNetworkTokenByte (lower_byte c) = true.
Proof.
  intros H. pose proof (token_ascii c H) as Hc. revert c Hc H.
  assert (∀ c, is_byte c → implb (isModuleNetworkTokenByte c) (isModuleNetworkTokenByte (lower_byte c)) = true) as Hall
    by (apply byte_forall; vm_compute; reflexivity).
  intros c Hc H. specialize (Hall c ltac:(unfold is_byte; lia)). by rewrite H in Hall.
Qed.
Lemma token_upper c : isModuleNetworkTokenByte c = true → isModuleNetworkTokenByte (upper_byte c) = true.
Proof.
  intros H. pose proof (token_ascii c H) as Hc. revert c Hc H.
  assert (∀ c, is_byte c → implb (isModuleNetworkTokenByte c) (isModuleNetworkTokenByte (upper_byte c)) = true) as Hall
    by (apply byte_forall; vm_compute; reflexivity).
  intros c Hc H. specialize (Hall c ltac:(unfold is_byte; lia)). by rewrite H in Hall.
Qed.
Lemma token_canonical u s : forallb isModuleNetworkTokenByte s = true →
  forallb isModuleNetworkTokenByte (canonical_case u s) = true.
Proof.
  revert u. induction s as [|c s IH]; intros u H; [done|]. cbn in *. bools. apply andb_true_iff. split; [|by apply IH].
  destruct u; [by apply token_upper | by apply token_lower].
Qed.

(** Names compare by their canonical form. *)
Lemma canonical_eq a b : forallb isModuleNetworkTokenByte a = true → forallb isModuleNetworkTokenByte b = true →
  CanonicalHeaderKey a = CanonicalHeaderKey b ↔ map lower_byte a = map lower_byte b.
Proof.
  intros Ha Hb. unfold CanonicalHeaderKey. rewrite Ha, Hb. split; intros E.
  - by rewrite <- (lower_canonical_case true a), E, lower_canonical_case.
  - by rewrite <- (canonical_case_lower true a), E, canonical_case_lower.
Qed.

Lemma canonical_idemp s : CanonicalHeaderKey (CanonicalHeaderKey s) = CanonicalHeaderKey s.
Proof.
  unfold CanonicalHeaderKey. destruct (forallb isModuleNetworkTokenByte s) eqn:E; [|by rewrite E].
  rewrite token_canonical by done. by rewrite <- (canonical_case_lower true (canonical_case _ _)), lower_canonical_case, canonical_case_lower.
Qed.

Lemma tokens_ascii s : forallb isModuleNetworkTokenByte s = true → Forall (λ c, 0 <= c < 128) s.
Proof. intros H. apply Forall_forall. intros c Hc. apply token_ascii. rewrite forallb_forall in H. by apply H, list_elem_of_In. Qed.

(** The headers [net/http] hands over: valid names under their canonical spelling. *)
Definition canonical (h : Header) : Prop :=
  ∀ k v, h !! k = Some v → validModuleNetworkHeaderName k = true ∧ CanonicalHeaderKey k = k.

Lemma runes_fuel_of_ascii n s : Forall (λ c, 0 <= c < 128) s → (length s <= n)%nat → runes_fuel n s = s.
Proof.
  intros H. revert n. induction H as [|c s Hc _ IH]; intros n Hn; [by destruct n|].
  destruct n as [|n]; cbn [length] in Hn; [lia|]. cbn [runes_fuel].
  assert (DecodeRune (c :: s) = (c, 1%nat)) as ->.
  { cbn [DecodeRune]. by rewrite (proj2 (Z.ltb_lt c 0x80)) by lia. }
  cbn [drop]. f_equal. apply IH. lia.
Qed.

Lemma EqualFold_ascii s t : Forall (λ c, 0 <= c < 128) s → EqualFold s t = bool_decide (map lower_byte s = map lower_byte t).
Proof.
  intros H. unfold EqualFold, runes. rewrite runes_fuel_of_ascii by (done || lia).
  replace (map fold_rune s) with (map lower_byte s); [done|].
  apply map_ext_in. intros c Hc. pose proof (proj1 (Forall_forall _ _) H c (proj2 (list_elem_of_In _ _) Hc)) as Hr. cbn beta in Hr.
  unfold fold_rune. by rewrite (proj2 (Z.eqb_neq c 0x17F)), (proj2 (Z.eqb_neq c 0x212A)) by lia.
Qed.

Lemma ToLower_ascii {U : UnicodeCase} s : Forall (λ c, 0 <= c < 128) s → ToLower s = map lower_byte s.
Proof.
  intros H. unfold ToLower. replace (is_ascii s) with true; [done|]. symmetry. apply forallb_forall. intros c Hc.
  pose proof (proj1 (Forall_forall _ _) H c (proj2 (list_elem_of_In _ _) Hc)) as Hr. cbn beta in Hr. unfold RuneSelf. lia.
Qed.

Lemma valid_name_tokens name : validModuleNetworkHeaderName name = true → forallb isModuleNetworkTokenByte name = true.
Proof. unfold validModuleNetworkHeaderName. intros. by bools. Qed.

(** A canonical name equal to [want] but for case is [want]. *)
Lemma canonical_fold k want : validModuleNetworkHeaderName k = true → CanonicalHeaderKey k = k →
  forallb isModuleNetworkTokenByte want = true → CanonicalHeaderKey want = want → EqualFold k want = bool_decide (k = want).
Proof.
  intros Hk%valid_name_tokens Ek Hw Ew. rewrite EqualFold_ascii by by apply tokens_ascii.
  apply bool_decide_ext. rewrite <- canonical_eq by done. by rewrite Ek, Ew.
Qed.

Section forwarding.
Context {U : UnicodeCase}.

Lemma header_names_spec h k : k ∈ header_names h ↔ is_Some (h !! k).
Proof.
  unfold header_names. split.
  - intros Hin%list_elem_of_In%in_map_iff. destruct Hin as ([k' v] & <- & Hin%list_elem_of_In%elem_of_map_to_list). by exists v.
  - intros [v Hv]. apply list_elem_of_In, in_map_iff. exists (k, v). split; [done|]. by apply list_elem_of_In, elem_of_map_to_list.
Qed.

Lemma fold_del (p : bytes → bool) l h k :
  fold_left (λ h name, if p name then header_Del name h else h) l h !! k
  = if existsb (λ n, p n && bool_decide (CanonicalHeaderKey n = k)) l then None else h !! k.
Proof.
  revert h. induction l as [|n l IH]; intros h; [done|]. cbn [fold_left existsb]. rewrite IH. unfold header_Del.
  destruct (p n); cbn [andb]; [|done]. case_bool_decide as E; cbn [orb]; case_match; try done.
  - by rewrite <- E, lookup_delete_eq.
  - by rewrite lookup_delete_ne.
Qed.

(** The Connection fields name [k]. *)
Definition listed (h : Header) (k : bytes) : bool :=
  existsb (λ n, validModuleNetworkHeaderName n && bool_decide (CanonicalHeaderKey n = k)) (connection_names h).

Lemma removeHopByHop_lookup h k : canonical h →
  removeHopByHopHeaders h !! k = if isHopByHopHeader k || listed h k then None else h !! k.
Proof.
  intros Hc. unfold removeHopByHopHeaders. rewrite fold_del.
  set (h1 := fold_left _ (connection_names h) h).
  assert (∀ j, h1 !! j = if listed h j then None else h !! j) as H1 by (intros j; apply fold_del).
  destruct (existsb _ (header_names h1)) eqn:E.
  - apply existsb_exists in E as (n & Hin & Hn). bools. apply list_elem_of_In, header_names_spec in Hin as [v Hv].
    assert (h !! n = Some v) as Hn by (rewrite H1 in Hv; by destruct (listed h n)).
    destruct (Hc n v Hn) as [_ En]. assert (n = k) as -> by congruence.
    by replace (isHopByHopHeader k) with true.
  - rewrite H1. destruct (isHopByHopHeader k) eqn:Eh; cbn [orb]; [|done]. destruct (listed h k) eqn:El; [done|].
    destruct (h !! k) as [v|] eqn:Ek; [|done]. destruct (Hc k v Ek) as [_ Eck].
    assert (existsb (λ n, isHopByHopHeader n && bool_decide (CanonicalHeaderKey n = k)) (header_names h1) = true) as Ht; [|congruence].
    apply existsb_exists. exists k. split; [|by rewrite Eh, bool_decide_true by done].
    apply list_elem_of_In, header_names_spec. rewrite H1, El, Ek. by exists v.
Qed.

Lemma te_fields_canonical h : canonical h →
  te_fields h = match h !! (&"Te") with Some v => [(&"Te", v)] | None => [] end.
Proof.
  intros Hc. assert (∀ kv, kv ∈ te_fields h → kv.1 = &"Te" ∧ h !! (&"Te") = Some kv.2) as Hin.
  { intros [k v] Hkv. unfold te_fields in Hkv. apply list_elem_of_In, filter_In in Hkv as [Hkv E].
    apply list_elem_of_In, elem_of_map_to_list in Hkv. destruct (Hc k v Hkv) as [Hv Ek]. cbn in *.
    rewrite canonical_fold in E by done. bools. by subst. }
  assert (NoDup (te_fields h)) as Hnd.
  { unfold te_fields. apply NoDup_ListNoDup, List.NoDup_filter, NoDup_ListNoDup, NoDup_map_to_list. }
  destruct (h !! (&"Te")) as [v|] eqn:Ev.
  - assert ((&"Te", v) ∈ te_fields h) as Hte.
    { apply list_elem_of_In, filter_In. split; [by apply list_elem_of_In, elem_of_map_to_list | done]. }
    destruct (te_fields h) as [|kv1 [|kv2 l]]; [by apply elem_of_nil in Hte | by apply list_elem_of_singleton in Hte as <- |].
    destruct (Hin kv1) as [E1 V1]; [left|]. destruct (Hin kv2) as [E2 V2]; [right; left|].
    apply NoDup_cons in Hnd as [Hn _]. destruct kv1 as [a b], kv2 as [c d]. cbn in *. simplify_eq. by destruct Hn; left.
  - destruct (te_fields h) as [|kv l]; [done|]. destruct (Hin kv) as [_ ?]; [left | congruence].
Qed.

(** What is forwarded of a request's header: no hop-by-hop field and no field that Connection lists,
    except TE when it asks for trailers and nothing else. *)
Definition end_to_end (h : Header) (k : bytes) : option (list bytes) :=
  if bool_decide (k = &"Te") then
    match h !! k with
    | Some [value] => if is_trailers value then Some [&"trailers"] else None
    | _ => None
    end
  else if isHopByHopHeader k || listed h k then None else h !! k.

Lemma sanitize_lookup h k : canonical h → sanitizeForwardRequestHeaders h !! k = end_to_end h k.
Proof.
  unfold end_to_end.
  intros Hc. unfold sanitizeForwardRequestHeaders, requestTEIsTrailers. rewrite te_fields_canonical by done.
  assert (isHopByHopHeader (&"Te") = true) as Hte by (vm_compute; reflexivity).
  assert (removeHopByHopHeaders h !! (&"Te") = None) as Hno by by rewrite removeHopByHop_lookup, Hte.
  case_bool_decide as Ek; [subst k|].
  - destruct (h !! (&"Te")) as [[|v [|]]|]; try done. destruct (is_trailers v); [|done]. apply lookup_insert_eq.
  - rewrite <- removeHopByHop_lookup by done.
    destruct (h !! (&"Te")) as [[|v [|]]|]; try done. destruct (is_trailers v); [|done].
    unfold header_Set. by rewrite lookup_insert_ne by (change (CanonicalHeaderKey (&"Te")) with (&"Te"); congruence).
Qed.
End forwarding.

(** ** What a script may hand over *)
Definition total (l : list Z) : Z := foldr Z.add 0 l.
Definition value_ok (v : bytes) : Prop := validHTTPHeaderValue v = true ∧ len v <= maxScriptHeaderValueBytes.
Definition field_bytes (m : Header) (k : bytes) : Z := len k + total (map (λ v, len v) (default [] (m !! k))).
Definition field_values (m : Header) (k : bytes) : Z := len (default [] (m !! k)).

#[export] Instance total_perm : Proper ((≡ₚ) ==> (=)) total.
Proof. unfold total. induction 1; cbn; lia. Qed.

Lemma total_nonneg l : Forall (λ z, 0 <= z) l → 0 <= total l.
Proof. unfold total. induction 1; cbn; lia. Qed.

Lemma Forall_perm_iff {A} (P : A → Prop) l k : l ≡ₚ k → Forall P l ↔ Forall P k.
Proof. by intros ->. Qed.

(** Headers within the limits of a script. *)
Definition acceptable {U : UnicodeCase} (m : Header) : Prop :=
  len (header_names m) <= maxScriptHeaderFields
  ∧ Forall (λ k, validModuleNetworkHeaderName k = true) (header_names m)
  ∧ NoDup (map ToLower (header_names m))
  ∧ (∀ k vs, m !! k = Some vs → Forall value_ok vs)
  ∧ total (map (field_values m) (header_names m)) <= maxScriptHeaderValues
  ∧ total (map (field_bytes m) (header_names m)) <= maxModuleNetworkHeaderBytes.

Section exporting.
Context {U : UnicodeCase}.

Lemma add_values_exact vs b b' :
  hb_values b <= maxScriptHeaderValues → hb_bytes b <= maxModuleNetworkHeaderBytes →
  add_values vs b = Ok b' ↔
  Forall value_ok vs ∧ hb_values b + len vs <= maxScriptHeaderValues
  ∧ hb_bytes b + total (map (λ v, len v) vs) <= maxModuleNetworkHeaderBytes
  ∧ b' = mkBudget (hb_values b + len vs) (hb_bytes b + total (map (λ v, len v) vs)).
Proof.
  revert b. induction vs as [|v vs IH]; intros b Hv Hb.
  - cbn. rewrite !Z.add_0_r. destruct b; cbn in *. naive_solver.
  - cbn [add_values map length]. unfold addValue. rewrite Forall_cons. unfold value_ok at 1.
    assert (0 <= total (map (λ v, len v) vs)) as Hn by (apply total_nonneg, Forall_map, Forall_forall; cbn; lia).
    change (total (len v :: map (λ v, len v) vs)) with (len v + total (map (λ v, len v) vs)).
    destruct (validHTTPHeaderValue v); cbn [negb]; [|naive_solver].
    destruct (Z.ltb_spec maxScriptHeaderValueBytes (len v)); [split; [done|]; intros ([[? ?] ?] & ?); lia|].
    destruct (Z.ltb_spec maxScriptHeaderValues (hb_values b + 1)); [split; [done|]; intros (_ & ? & _); lia|].
    destruct (Z.ltb_spec maxModuleNetworkHeaderBytes (hb_bytes b + len v)); [split; [done|]; intros (_ & _ & ? & _); lia|].
    unfold mbind, res_bind. rewrite IH by (cbn; lia). cbn [hb_values hb_bytes].
    rewrite Nat2Z.inj_succ, <- Z.add_1_r, !Z.add_assoc.
    replace (hb_values b + len vs + 1) with (hb_values b + 1 + len vs) by lia. intuition.
Qed.

Lemma exportedHeaderValues_exact vs b b' :
  hb_values b <= maxScriptHeaderValues → hb_bytes b <= maxModuleNetworkHeaderBytes →
  exportedHeaderValues vs b = Ok b' ↔
  Forall value_ok vs ∧ hb_values b + len vs <= maxScriptHeaderValues
  ∧ hb_bytes b + total (map (λ v, len v) vs) <= maxModuleNetworkHeaderBytes
  ∧ b' = mkBudget (hb_values b + len vs) (hb_bytes b + total (map (λ v, len v) vs)).
Proof.
  intros Hv Hb. unfold exportedHeaderValues.
  destruct (Z.ltb_spec (maxScriptHeaderValues - hb_values b) (len vs)); [|by apply add_values_exact].
  split; [done|]. intros (_ & ? & _). lia.
Qed.

Definition exported (m : Header) (names : list bytes) (headers : Header) : Header :=
  fold_left (λ h n, <[CanonicalHeaderKey n := default [] (m !! n)]> h) names headers.

Lemma export_fields_exact m names b headers h :
  hb_values b <= maxScriptHeaderValues → hb_bytes b <= maxModuleNetworkHeaderBytes →
  export_fields m names b headers = Ok h ↔
  Forall (λ k, Forall value_ok (default [] (m !! k))) names
  ∧ hb_values b + total (map (field_values m) names) <= maxScriptHeaderValues
  ∧ hb_bytes b + total (map (field_bytes m) names) <= maxModuleNetworkHeaderBytes
  ∧ h = exported m names headers.
Proof.
  revert b headers. induction names as [|k names IH]; intros b headers Hv Hb.
  - cbn. rewrite !Z.add_0_r. naive_solver.
  - cbn [export_fields map]. rewrite Forall_cons. cbn [exported fold_left]. fold (exported m names).
    change (total (field_values m k :: map (field_values m) names)) with (field_values m k + total (map (field_values m) names)).
    change (total (field_bytes m k :: map (field_bytes m) names)) with (field_bytes m k + total (map (field_bytes m) names)).
    assert (0 <= total (map (field_values m) names)) as Hn1
      by (apply total_nonneg, Forall_map, Forall_forall; unfold field_values; cbn; lia).
    assert (∀ vs : list bytes, 0 <= total (map (λ v, len v) vs)) as Hn2
      by (intros; apply total_nonneg, Forall_map, Forall_forall; cbn; lia).
    assert (0 <= total (map (field_bytes m) names)) as Hn3.
    { apply total_nonneg, Forall_map, Forall_forall. unfold field_bytes. cbn. intros x _. specialize (Hn2 (default [] (m !! x))). lia. }
    unfold addField. unfold field_bytes at 1, field_values at 1. specialize (Hn2 (default [] (m !! k))).
    set (vs := default [] (m !! k)) in *.
    destruct (Z.ltb_spec maxModuleNetworkHeaderBytes (hb_bytes b + len k)).
    { split; [done|]. intros (_ & _ & ? & _). lia. }
    unfold mbind, res_bind. cbv zeta.
    destruct (exportedHeaderValues vs (mkBudget (hb_values b) (hb_bytes b + len k))) as [b'|e] eqn:E.
    + apply exportedHeaderValues_exact in E as (Hok & Hle1 & Hle2 & ->); [|cbn; lia..]. cbn [hb_values hb_bytes] in *.
      rewrite IH by (cbn; lia). cbn [hb_values hb_bytes]. rewrite !Z.add_assoc. naive_solver.
    + split; [done|]. intros ([Hok _] & ? & ? & _).
      assert (exportedHeaderValues vs (mkBudget (hb_values b) (hb_bytes b + len k))
              = Ok (mkBudget (hb_values b + len vs) (hb_bytes b + len k + total (map (λ v, len v) vs)))) as E'; [|congruence].
      apply exportedHeaderValues_exact; cbn; repeat split; try done; lia.
Qed.

Lemma check_names_exact names seen : check_names names seen = Ok tt ↔
  Forall (λ k, validModuleNetworkHeaderName k = true) names ∧ NoDup (map ToLower names)
  ∧ ∀ k, k ∈ names → ToLower k ∉ seen.
Proof.
  revert seen. induction names as [|k names IH]; intros seen; cbn [check_names map].
  { split; [|done]. intros _. split; [constructor|]. split; [constructor|]. by intros k ?%elem_of_nil. }
  rewrite Forall_cons, NoDup_cons. destruct (validModuleNetworkHeaderName k); cbn [negb]; [|naive_solver].
  destruct (containsString seen (ToLower k)) eqn:Es.
  { apply containsString_true in Es. split; [done|]. intros (_ & _ & H). by destruct (H k); [left|]. }
  assert (ToLower k ∉ seen) as Hk by (rewrite <- containsString_true; congruence).
  rewrite IH. split.
  - intros (Hv & Hnd & Hs). split; [done|]. split; [split; [|done]|].
    + intros (j & E & Hj)%list_elem_of_fmap. apply (Hs j Hj). rewrite <- E. left.
    + intros j [->|Hj]%elem_of_cons; [done|]. intros ?. apply (Hs j Hj). by right.
  - intros ([_ Hv] & [Hn Hnd] & Hs). split; [done|]. split; [done|]. intros j Hj [E|?]%elem_of_cons.
    + apply Hn. rewrite <- E. by apply list_elem_of_fmap_2.
    + apply (Hs j); [by right | done].
Qed.

Lemma exported_in m names h0 n : NoDup (map CanonicalHeaderKey names) → n ∈ names →
  exported m names h0 !! CanonicalHeaderKey n = Some (default [] (m !! n)).
Proof.
  revert h0. induction names as [|k names IH]; intros h0 Hnd Hn; [by apply elem_of_nil in Hn|].
  apply NoDup_cons in Hnd as [Hk Hnd]. apply elem_of_cons in Hn as [->|Hn]; [|by apply IH].
  cbn [exported fold_left]. clear IH Hnd.
  assert (∀ h : Header, h !! CanonicalHeaderKey k = Some (default [] (m !! k)) →
            exported m names h !! CanonicalHeaderKey k = Some (default [] (m !! k))) as Hkeep; [|apply Hkeep, lookup_insert_eq].
  induction names as [|j names IH]; intros h Hh; [done|]. cbn [exported fold_left map] in *.
  apply not_elem_of_cons in Hk as [? ?]. apply IH; [done|]. by rewrite lookup_insert_ne.
Qed.

Lemma exported_out m names h0 x : x ∉ map CanonicalHeaderKey names → exported m names h0 !! x = h0 !! x.
Proof.
  unfold exported. revert h0. induction names as [|k names IH]; intros h0 Hx; [done|]. cbn [fold_left map] in *.
  apply not_elem_of_cons in Hx as [? ?]. rewrite IH by done. by rewrite lookup_insert_ne.
Qed.

Lemma canonical_names_NoDup m :
  Forall (λ k, validModuleNetworkHeaderName k = true) (header_names m) →
  NoDup (map ToLower (header_names m)) → ∀ names, names ≡ₚ header_names m → NoDup (map CanonicalHeaderKey names).
Proof.
  intros Hv Hnd names Hp. apply NoDup_map_on.
  - intros x y Hx Hy E. rewrite Hp in Hx, Hy. rewrite Forall_forall in Hv.
    pose proof (valid_name_tokens x (Hv x Hx)) as Tx. pose proof (valid_name_tokens y (Hv y Hy)) as Ty.
    apply canonical_eq in E; [|done..]. rewrite <- !ToLower_ascii in E by by apply tokens_ascii.
    apply list_elem_of_lookup in Hx as [i Hi], Hy as [j Hj]. assert (i = j) as ->; [|congruence].
    eapply (NoDup_lookup _ i j (ToLower x) Hnd); [|rewrite E]; by apply list_lookup_fmap_Some_2.
  - rewrite Hp. apply NoDup_fst_map_to_list.
Qed.

(** The headers of a script are accepted exactly when there are at most 256 fields
    and 512 values, names are tokens that differ in more than case, values carry no control
    character and at most 16 KiB each, and names and values come to at most 64 KiB; then every
    field is kept, under its canonical name. *)
Theorem exported_headers_exact m h :
  exportedStringSliceHeaders m = Ok h ↔
  acceptable m ∧ ∀ x vs, h !! x = Some vs ↔ ∃ k, m !! k = Some vs ∧ CanonicalHeaderKey k = x.
Proof.
  unfold exportedStringSliceHeaders, validatedScriptHeaderNames, acceptable.
  pose proof (sort_Strings_perm (header_names m)) as Hp.
  destruct (Z.ltb_spec maxScriptHeaderFields (len (header_names m))) as [?|Hlen]; [split; [done|]; intros ((? & _) & _); lia|].
  set (names := sort_Strings (header_names m)) in *. clearbody names. unfold mbind, res_bind, mret, res_ret.
  assert (check_names names [] = Ok tt ↔ Forall (λ k, validModuleNetworkHeaderName k = true) (header_names m)
            ∧ NoDup (map ToLower (header_names m))) as Hnames.
  { rewrite check_names_exact, Hp. split; [by intros (? & ? & _)|]. intros [? ?]. split; [done|]. split; [done|].
    intros k _. apply not_elem_of_nil. }
  destruct (check_names names []) as [[]|e].
  2: { split; [done|]. intros ((_ & Hv & Hn & _) & _). discriminate (proj2 Hnames (conj Hv Hn)). }
  destruct (proj1 Hnames eq_refl) as [Hvalid Hnd]. clear Hnames.
  pose proof (canonical_names_NoDup m Hvalid Hnd names Hp) as Hcn.
  rewrite export_fields_exact by (cbn; unfold maxScriptHeaderValues, maxModuleNetworkHeaderBytes; lia).
  cbn [hb_values hb_bytes Z.add].
  rewrite (total_perm _ _ (Permutation_map (field_values m) Hp)), (total_perm _ _ (Permutation_map (field_bytes m) Hp)).
  rewrite (Forall_perm_iff _ _ _ Hp).
  assert (Forall (λ k, Forall value_ok (default [] (m !! k))) (header_names m) ↔ ∀ k vs, m !! k = Some vs → Forall value_ok vs) as ->.
  { rewrite Forall_forall. split.
    - intros H k vs Hk. specialize (H k). rewrite Hk in H. apply H, header_names_spec. by exists vs.
    - intros H k [vs Hk]%header_names_spec. rewrite Hk. by eapply H. }
  assert (∀ x vs, exported m names ∅ !! x = Some vs ↔ ∃ k, m !! k = Some vs ∧ CanonicalHeaderKey k = x) as Hex.
  { intros x vs. split.
    - intros Hx. destruct (decide (x ∈ map CanonicalHeaderKey names)) as [Hin|Hout].
      + apply list_elem_of_fmap in Hin as (k & -> & Hk). rewrite exported_in in Hx by done. exists k. split; [|done].
        rewrite Hp in Hk. apply header_names_spec in Hk as [v Hv]. rewrite Hv in *. by injection Hx as <-.
      + by rewrite exported_out, lookup_empty in Hx.
    - intros (k & Hk & <-). rewrite exported_in; [by rewrite Hk | done |]. rewrite Hp. apply header_names_spec. by exists vs. }
  split.
  - intros (? & ? & ? & ->). split; [|done]. by repeat split.
  - intros ((_ & _ & _ & ? & ? & ?) & Hh). repeat split; [done..|]. apply map_eq. intros x. apply option_eq. intros vs.
    by rewrite Hh, Hex.
Qed.
End exporting.

(** ** The theorems at concrete inputs *)
Section witnesses.
#[local] Instance ascii_case : UnicodeCase := {| unicode_ToLower r := r; unicode_ToUpper r := r |}.

Definition request_headers : Header :=
  list_to_map [(&"Accept", [&"a"; &"b"]); (&"Te", [&" Trailers "]); (&"Connection", [&"X-Token, te"]); (&"X-Token", [&"1"]);
               (&"Upgrade", [&"h2c"])].

Lemma request_headers_canonical : canonical request_headers.
Proof.
  intros k v H. apply elem_of_map_to_list in H.
  assert (Forall (λ kv, validModuleNetworkHeaderName kv.1 = true ∧ CanonicalHeaderKey kv.1 = kv.1) (map_to_list request_headers)) as Hall.
  { vm_compute. repeat constructor. }
  rewrite Forall_forall in Hall. exact (Hall _ H).
Qed.

Example sanitized_request :
  sanitizeForwardRequestHeaders request_headers !! (&"Te") = Some [&"trailers"]
  ∧ sanitizeForwardRequestHeaders request_headers !! (&"X-Token") = None
  ∧ sanitizeForwardRequestHeaders request_headers !! (&"Accept") = Some [&"a"; &"b"].
Proof. rewrite !sanitize_lookup by exact request_headers_canonical. vm_compute. done. Qed.
End witnesses.
