(* ===== verification/Templates.v ===== *)
(** * Replacement templates

    [expandSettingsTemplate] of [module_rewrite.go], and [Expand] and
    [ReplaceAll] of [regexp], which read the template it returns.  A match is
    the list of its groups, each a pair of offsets when the group took part. *)
From S2P Require Import Prelude GoStrings ConfigTypes Json ScriptConfig.

Fixpoint Index (s sub : bytes) : option nat :=
  if HasPrefix s sub then Some O
  else match s with [] => None | _ :: s' => S <$> Index s' sub end.

(** [strings.ReplaceAll(value, "$", "$$")]. *)
Definition escape_dollars (value : bytes) : bytes :=
  concat (map (λ c, if c =? #"$" then [36; 36] else [c]) value).

(** ** Expansion of settings *)
Definition hole_open : bytes := Eval vm_compute in &"{{settings.".
Definition hole_close : bytes := Eval vm_compute in &"}}".

Section settings.
Context {En : Engines}.

(** The text of a setting for a template: its value, or the substitution the action declares for
    it; none when there is no value or no substitution for it. *)
Definition setting_text (valueMap : gmap bytes (gmap bytes bytes)) (settings : gmap bytes jvalue) (key : bytes) : option bytes :=
  raw ← settings !! key;
  let value := compatArgumentText raw in
  match valueMap !! key with
  | Some mapping => mapping !! value
  | None => Some value
  end.

(** The loop; each round consumes a hole, so the length of the template is fuel enough. *)
Fixpoint expand_settings (fuel : nat) (lookup : bytes → option bytes) (out rest : bytes) : option bytes :=
  match fuel with
  | O => Some (out ++ rest)
  | S fuel' =>
      match Index rest hole_open with
      | None => Some (out ++ rest)
      | Some start =>
          match Index (drop start rest) hole_close with
          | None => Some (out ++ rest)
          | Some stop =>
              let key := take (stop - length hole_open) (drop (start + length hole_open) rest) in
              value ← lookup key;
              expand_settings fuel' lookup (out ++ take start rest ++ escape_dollars value) (drop (start + stop + 2) rest)
          end
      end
  end.

Definition expandSettingsTemplate (template : bytes) (valueMap : gmap bytes (gmap bytes bytes))
    (settings : gmap bytes jvalue) : option bytes :=
  expand_settings (length template) (setting_text valueMap settings) [] template.
End settings.

(** ** [regexp] templates *)
Class UnicodeWords := { unicode_IsWord : Z → bool }.

Section expand.
Context {W : UnicodeWords}.

(** A rune of a group name: a letter, a digit or an underscore. *)
Definition name_rune (r : Z) : bool :=
  if r <? RuneSelf
  then is_digit r || ((#"a" <=? r) && (r <=? #"z")) || ((#"A" <=? r) && (r <=? #"Z")) || (r =? #"_")
  else unicode_IsWord r.

(** The length of the longest name a text starts with. *)
Fixpoint name_length (fuel : nat) (s : bytes) : nat :=
  match fuel with
  | O => O
  | S fuel' =>
      match s with
      | [] => O
      | _ => let '(r, w) := DecodeRune s in if name_rune r then (w + name_length fuel' (drop w s))%nat else O
      end
  end.

(** The number of a name that is one, by [extract]'s loop. *)
Fixpoint name_number (name : bytes) (n : Z) : option Z :=
  match name with
  | [] => Some n
  | c :: rest => if negb (is_digit c) || (100000000 <=? n) then None else name_number rest (n * 10 + (c - #"0"))
  end.

Inductive group_ref := RefNumber (n : Z) | RefName (name : bytes).

Definition group_of (name : bytes) : group_ref :=
  match name with
  | c :: _ :: _ => if c =? #"0" then RefName name
                   else match name_number name 0 with Some n => RefNumber n | None => RefName name end
  | _ => match name_number name 0 with Some n => RefNumber n | None => RefName name end
  end.

(** [extract]: the reference after a dollar sign, and the rest of the template. *)
Definition extract (s : bytes) : option (group_ref * bytes) :=
  match s with
  | [] => None
  | c :: s' =>
      let brace := c =? #"{" in
      let s := if brace then s' else s in
      let i := name_length (length s) s in
      if bool_decide (i = O) then None
      else if brace then
        match drop i s with
        | d :: rest => if d =? #"}" then Some (group_of (take i s), rest) else None
        | [] => None
        end
      else Some (group_of (take i s), drop i s)
  end.

(** The text of a reference in a match of [src]. *)
Definition slice (src : bytes) (g : nat * nat) : bytes := take (g.2 - g.1) (drop g.1 src).

Definition group_text (names : list bytes) (src : bytes) (groups : list (option (nat * nat))) (ref : group_ref) : bytes :=
  match ref with
  | RefNumber n => match groups !! Z.to_nat n with Some (Some g) => slice src g | _ => [] end
  | RefName name =>
      match List.find (λ p : bytes * option (nat * nat), bool_decide (p.1 = name) && bool_decide (is_Some p.2)) (zip names groups) with
      | Some (_, Some g) => slice src g
      | _ => []
      end
  end.

(** [Regexp.expand]; each step takes a byte of the template at least. *)
Fixpoint expand_fuel (fuel : nat) (text : group_ref → bytes) (template : bytes) : bytes :=
  match fuel with
  | O => template
  | S fuel' =>
      match template with
      | [] => []
      | c :: after =>
          if negb (c =? #"$") then c :: expand_fuel fuel' text after
          else match after with
               | d :: rest => if d =? #"$" then #"$" :: expand_fuel fuel' text rest
                              else match extract after with
                                   | Some (ref, rest) => text ref ++ expand_fuel fuel' text rest
                                   | None => #"$" :: expand_fuel fuel' text after
                                   end
               | [] => [36]
               end
      end
  end.

Definition expand (text : group_ref → bytes) (template : bytes) : bytes := expand_fuel (length template) text template.

(** *** The length of the template is fuel enough *)
Lemma name_length_le fuel s : (name_length fuel s <= length s)%nat.
Proof.
  revert s. induction fuel as [|fuel IH]; intros s; cbn [name_length]; [lia|]. destruct s as [|c s]; [cbn; lia|].
  pose proof (DecodeRune_width (c :: s) ltac:(done)) as Hw. destruct (DecodeRune (c :: s)) as [r w]. cbn [snd] in Hw.
  destruct (name_rune r); [|lia]. specialize (IH (drop w (c :: s))). rewrite length_drop in IH. lia.
Qed.

Lemma extract_rest s ref rest : extract s = Some (ref, rest) → (length rest < length s)%nat.
Proof.
  unfold extract. destruct s as [|c s]; [done|]. cbv zeta. destruct (c =? #"{").
  - generalize (name_length (length s) s). intros i. case_bool_decide; [done|].
    destruct (drop i s) as [|d r] eqn:E; [done|]. destruct (d =? #"}"); [|done]. intros [= _ <-].
    pose proof (drop_length_le i s) as Hl. rewrite E in Hl. cbn in *. lia.
  - generalize (name_length (length (c :: s)) (c :: s)). intros i. case_bool_decide; [done|]. intros [= _ <-].
    rewrite length_drop. cbn [length]. lia.
Qed.

Lemma expand_fuel_enough text f1 f2 s : (length s <= f1)%nat → (length s <= f2)%nat →
  expand_fuel f1 text s = expand_fuel f2 text s.
Proof.
  revert f2 s. induction f1 as [|f1 IH]; intros f2 s H1 H2; [destruct s; [by destruct f2 | cbn in *; lia]|].
  destruct f2 as [|f2]; [destruct s; [done | cbn in *; lia]|]. cbn [expand_fuel].
  destruct s as [|c after]; [done|]. cbn [length] in *. destruct (negb _); [f_equal; apply IH; lia|].
  destruct after as [|d rest]; [done|]. cbn [length] in *. destruct (d =? #"$"); [f_equal; apply IH; lia|].
  destruct (extract (d :: rest)) as [[ref r]|] eqn:E; [|f_equal; apply IH; cbn; lia].
  apply extract_rest in E. cbn [length] in E. f_equal. apply IH; lia.
Qed.

Lemma expand_plain text c s : c ≠ #"$" → expand text (c :: s) = c :: expand text s.
Proof. intros Hc. unfold expand. cbn [length expand_fuel]. by rewrite (proj2 (Z.eqb_neq _ _) Hc). Qed.

Lemma expand_ref text s :
  expand text (#"$" :: s) =
  match s with
  | [] => [36]
  | d :: rest => if d =? #"$" then #"$" :: expand text rest
                 else match extract s with
                      | Some (ref, rest) => text ref ++ expand text rest
                      | None => #"$" :: expand text s
                      end
  end.
Proof.
  unfold expand at 1. cbn [length expand_fuel]. rewrite Z.eqb_refl. cbn [negb]. destruct s as [|d rest]; [done|].
  destruct (d =? #"$"); [f_equal; apply expand_fuel_enough; cbn; lia|].
  destruct (extract (d :: rest)) as [[ref r]|] eqn:E; [|done]. apply extract_rest in E. f_equal.
  apply expand_fuel_enough; cbn in *; lia.
Qed.

Lemma expand_dollar text s : expand text (#"$" :: #"$" :: s) = #"$" :: expand text s.
Proof. by rewrite expand_ref. Qed.

(** A text whose dollar signs are escaped stands for itself. *)
Lemma expand_escaped text v s : expand text (escape_dollars v ++ s) = v ++ expand text s.
Proof.
  induction v as [|c v IH]; [done|]. unfold escape_dollars in *. cbn [map concat].
  destruct (Z.eqb_spec c #"$") as [->|Hc]; cbn [app].
  - by rewrite expand_dollar, IH.
  - by rewrite expand_plain, IH.
Qed.

(** *** Where a template may be cut *)

(** Expanding a text with something after it expands both. *)
Definition closed (t : bytes) : Prop := ∀ text s, expand text (t ++ s) = expand text t ++ expand text s.

(** An ASCII byte at which no reference goes on. *)
Definition stops (c : Z) : bool := (0 <=? c) && (c <? 128) && negb (name_rune c) && negb (c =? #"$") && negb (c =? #"{").

Lemma closed_nil : closed [].
Proof. done. Qed.

Lemma closed_plain t : #"$" ∉ t → closed t.
Proof.
  intros Ht text s. induction t as [|c t IH]; [done|]. apply not_elem_of_cons in Ht as [Hc Ht]. cbn [app].
  rewrite !expand_plain by congruence. by rewrite IH.
Qed.

Lemma name_length_enough f1 f2 s : (length s <= f1)%nat → (length s <= f2)%nat → name_length f1 s = name_length f2 s.
Proof.
  revert f2 s. induction f1 as [|f1 IH]; intros f2 s H1 H2; [destruct s; [by destruct f2 | cbn in *; lia]|].
  destruct f2 as [|f2]; [destruct s; [done | cbn in *; lia]|]. cbn [name_length]. destruct s as [|c s]; [done|].
  pose proof (DecodeRune_width (c :: s) ltac:(done)) as Hw. destruct (DecodeRune (c :: s)) as [r w]. cbn [snd] in Hw.
  destruct (name_rune r); [|done]. f_equal. apply IH; rewrite length_drop; lia.
Qed.

Lemma ascii_no_cont c : 0 <= c < 128 → is_cont c = false.
Proof. intros. unfold is_cont. rewrite andb_false_iff, !Z.leb_gt. lia. Qed.
Lemma ascii_not_accepted a c : 0 <= c < 128 → in_accept a c = false.
Proof.
  intros Hc. unfold in_accept, accept_range. repeat case_match; simplify_eq/=; rewrite andb_false_iff, !Z.leb_gt; lia.
Qed.

(** Decoding stops at an ASCII byte, whatever follows it. *)
Lemma DecodeRune_cut v c t : v ≠ [] → 0 <= c < 128 → DecodeRune (v ++ c :: t) = DecodeRune (v ++ [c]).
Proof.
  intros Hv Hc. pose proof (ascii_no_cont c Hc) as H1. pose proof (λ a, ascii_not_accepted a c Hc) as H2.
  destruct v as [|a [|b [|d [|e v]]]]; [done| | | |]; unfold DecodeRune; cbn [app]; rewrite ?H1, ?H2; cbn [andb];
    repeat case_match; try done; rewrite ?andb_false_r in *; cbn [andb] in *; congruence.
Qed.

Lemma name_length_cut f v c t : stops c = true → (length (v ++ c :: t) <= f)%nat →
  name_length f (v ++ c :: t) = name_length (length (v ++ [c])) (v ++ [c]) ∧ (name_length f (v ++ c :: t) <= length v)%nat.
Proof.
  unfold stops. intros Hs. bools. revert v. induction f as [|f IH]; intros v Hf; [rewrite length_app in Hf; cbn in Hf; lia|].
  destruct v as [|a v].
  { cbn. rewrite (proj2 (Z.ltb_lt c 0x80)) by lia. by replace (name_rune c) with false. }
  assert (DecodeRune ((a :: v) ++ c :: t) = DecodeRune ((a :: v) ++ [c])) as E by (apply DecodeRune_cut; [done | lia]).
  pose proof (DecodeRune_width ((a :: v) ++ [c]) ltac:(done)) as Hw.
  pose proof (DecodeRune_wide_ascii ((a :: v) ++ [c]) c) as Hin.
  rewrite (name_length_enough (length ((a :: v) ++ [c])) (S (length ((a :: v) ++ [c])))) by lia.
  set (m := length ((a :: v) ++ [c])) in *.
  assert (m = S (S (length v))) as Hm by (subst m; rewrite length_app; cbn; lia).
  cbn [name_length]. change ((a :: v) ++ c :: t) with (a :: (v ++ c :: t)) in *. change ((a :: v) ++ [c]) with (a :: (v ++ [c])) in *.
  cbv beta iota. rewrite E. destruct (DecodeRune (a :: v ++ [c])) as [r w] eqn:Ed. cbn [fst snd] in *.
  destruct (name_rune r) eqn:Er; [|split; [done | lia]].
  assert (w <= length (a :: v))%nat as Hwv.
  { destruct (decide (w <= length (a :: v))%nat) as [?|Hgt]; [done|]. exfalso. cbn [length] in Hgt.
    assert (w = m) as -> by lia. rewrite (Hin ltac:(rewrite take_ge by (cbn; rewrite length_app; cbn; lia); right; apply elem_of_app; right; left) ltac:(lia)) in Er.
    congruence. }
  change (a :: v ++ c :: t) with ((a :: v) ++ c :: t). change (a :: v ++ [c]) with ((a :: v) ++ [c]).
  rewrite !drop_app_le by done. cbn [length] in Hf, Hwv. rewrite length_app in Hf. cbn [length] in Hf.
  destruct (IH (drop w (a :: v))) as [E1 L1]; [rewrite length_app, length_drop; cbn [length]; lia|].
  rewrite length_drop in L1. cbn [length] in *. split; [|lia]. f_equal. rewrite E1.
  apply name_length_enough; rewrite length_app, length_drop; cbn [length]; lia.
Qed.

(** A reference that starts in a text cut after [c] is read alike, and ends in it. *)
Lemma extract_cut v c t : stops c = true → v ≠ [] →
  match extract (v ++ [c]) with
  | None => extract (v ++ c :: t) = None
  | Some (ref, rest) => extract (v ++ c :: t) = Some (ref, rest ++ t) ∧ (rest = [] ∨ ∃ u, rest = u ++ [c])
  end.
Proof.
  intros Hs Hv. destruct v as [|a v]; [done|]. unfold extract. cbn [app]. destruct (a =? #"{").
  - destruct (name_length_cut (length (v ++ c :: t)) v c t Hs ltac:(lia)) as [E L].
    rewrite E. set (i := name_length (length (v ++ [c])) (v ++ [c])) in *. case_bool_decide; [done|].
    rewrite !drop_app_le, !take_app_le by lia. destruct (drop i v) as [|d r] eqn:Ed; cbn [app].
    + destruct (c =? #"}"); [|done]. split; [done|]. by left.
    + destruct (d =? #"}"); [|done]. split; [by rewrite <- app_assoc|]. right. by exists r.
  - destruct (name_length_cut (length (a :: v ++ c :: t)) (a :: v) c t Hs ltac:(done)) as [E L].
    change (a :: v ++ c :: t) with ((a :: v) ++ c :: t) in *. change (a :: v ++ [c]) with ((a :: v) ++ [c]) in *.
    rewrite E. set (i := name_length (length ((a :: v) ++ [c])) ((a :: v) ++ [c])) in *. case_bool_decide; [done|].
    rewrite !drop_app_le, !take_app_le by lia. split; [by rewrite <- app_assoc|]. right. by exists (drop i (a :: v)).
Qed.

Lemma closed_stop u c : stops c = true → closed (u ++ [c]).
Proof.
  intros Hs text s. remember (length u) as n eqn:Hn. revert u Hn. induction n as [n IH] using lt_wf_ind. intros u Hn.
  assert (c ≠ #"$") as Hd by (unfold stops in Hs; by bools). rewrite <- app_assoc. cbn [app].
  assert (∀ rest, rest = [] ∨ (∃ u', rest = u' ++ [c] ∧ (length u' < n)%nat) → expand text (rest ++ s) = expand text rest ++ expand text s) as Hrest.
  { intros rest [->|(u' & -> & Hu')]; [done|]. by apply (IH (length u')). }
  destruct u as [|a u]; cbn [app length] in *; [by rewrite !expand_plain|].
  destruct (Z.eqb_spec a #"$") as [->|Ha].
  2: { rewrite !expand_plain by done. cbn [app]. f_equal. rewrite <- (IH (length u) ltac:(lia) u eq_refl), <- app_assoc. done. }
  rewrite !expand_ref. destruct u as [|e u]; cbn [app length] in *.
  - rewrite (proj2 (Z.eqb_neq _ _) Hd). unfold stops in Hs. bools. unfold extract.
    rewrite (proj2 (Z.eqb_neq c #"{")) by done. cbv zeta. cbn [length name_length DecodeRune].
    rewrite (proj2 (Z.ltb_lt c 0x80)) by lia. replace (name_rune c) with false. rewrite !bool_decide_true by done.
    cbn [app]. by rewrite !expand_plain by done.
  - destruct (Z.eqb_spec e #"$") as [->|He].
    + cbn [app]. f_equal. rewrite <- (IH (length u) ltac:(lia) u eq_refl), <- app_assoc. done.
    + change (e :: u ++ c :: s) with ((e :: u) ++ c :: s). change (e :: u ++ [c]) with ((e :: u) ++ [c]).
      pose proof (extract_cut (e :: u) c s Hs ltac:(done)) as Hx.
      destruct (extract ((e :: u) ++ [c])) as [[ref rest]|] eqn:Ex.
      * destruct Hx as [-> Hr]. rewrite <- app_assoc. f_equal. apply Hrest. destruct Hr as [->|[u' ->]]; [by left|].
        right. exists u'. split; [done|]. apply extract_rest in Ex. rewrite !length_app in Ex. cbn in Ex. lia.
      * rewrite Hx. pose proof (IH (length (e :: u)) ltac:(cbn; lia) (e :: u) eq_refl) as H1.
        rewrite <- app_assoc in H1. cbn [app] in *. by f_equal.
Qed.
End expand.

(** ** Expansion of a template, piece by piece *)

(** A template is text with holes: the first text, then each hole with the text after it. *)
Definition render (first : bytes) (holes : list (bytes * bytes)) : bytes :=
  first ++ concat (map (λ h, hole_open ++ h.1 ++ hole_close ++ h.2) holes).

Definition plain_text (t : bytes) : Prop := Index t hole_open = None.
Definition plain_key (k : bytes) : Prop := #"}" ∉ k.

Lemma HasPrefix_true_app s p : HasPrefix (p ++ s) p = true.
Proof. apply HasPrefix_true. by exists s. Qed.

Lemma Index_cons c s sub : Index (c :: s) sub = if HasPrefix (c :: s) sub then Some O else S <$> Index s sub.
Proof. done. Qed.

Lemma Index_here p s : Index (p ++ s) p = Some O.
Proof. destruct (p ++ s) as [|c l] eqn:E; cbn [Index]; rewrite <- E, HasPrefix_true_app; done. Qed.

(** No proper suffix of [sub] is a prefix of it, so two occurrences do not overlap. *)
Definition borderless (sub : bytes) : bool := forallb (λ k, negb (HasPrefix sub (drop k sub))) (seq 1 (length sub - 1)).

Lemma Index_skip t sub s : Index t sub = None → borderless sub = true → Index (t ++ sub ++ s) sub = Some (length t).
Proof.
  intros Ht Hb. induction t as [|c t IH]; [apply (Index_here sub s)|].
  rewrite Index_cons in Ht. destruct (HasPrefix (c :: t) sub) eqn:E; [done|]. destruct (Index t sub) eqn:Ei; [done|].
  cbn [app]. rewrite Index_cons, IH by done. destruct (HasPrefix (c :: t ++ sub ++ s) sub) eqn:E2; [|done].
  exfalso. apply HasPrefix_true in E2. apply HasPrefix_false in E.
  change (c :: t ++ sub ++ s) with ((c :: t) ++ (sub ++ s)) in E2. set (u := c :: t) in *.
  destruct (prefix_weak_total sub u (u ++ sub ++ s)) as [?|Hu]; [done | by apply prefix_app_r | done|].
  assert (length u < length sub)%nat as Hlt.
  { destruct (decide (length u < length sub)%nat); [done|]. destruct E.
    assert (u = sub) as -> by (apply prefix_length_eq; [done | lia]). done. }
  assert (drop (length u) sub `prefix_of` sub) as Hd.
  { destruct Hu as [v ->]. apply prefix_app_inv in E2. rewrite drop_app_length.
    destruct (prefix_weak_total v (u ++ v) ((u ++ v) ++ s)) as [?|Hv]; [done | by apply prefix_app_r | done|].
    apply prefix_length in Hv. rewrite length_app in Hv. subst u. cbn in Hv. lia. }
  unfold borderless in Hb. rewrite forallb_forall in Hb. specialize (Hb (length u)).
  apply HasPrefix_true in Hd. rewrite Hd in Hb. discriminate Hb. apply in_seq. subst u. cbn in *. lia.
Qed.

Section expansion.
Context {En : Engines} {W : UnicodeWords}.

(** The texts of the holes, when each has one. *)
Fixpoint resolve (lookup : bytes → option bytes) (holes : list (bytes * bytes)) : option (list (bytes * bytes)) :=
  match holes with
  | [] => Some []
  | (key, text) :: rest => value ← lookup key; others ← resolve lookup rest; Some ((value, text) :: others)
  end.

Lemma render_cons first key text holes :
  render first ((key, text) :: holes) = first ++ hole_open ++ key ++ hole_close ++ render text holes.
Proof. unfold render. cbn [map concat fst snd]. by rewrite !app_assoc. Qed.

Lemma Index_key key rest : plain_key key → Index (hole_open ++ key ++ hole_close ++ rest) hole_close = Some (length hole_open + length key)%nat.
Proof.
  intros Hk. rewrite app_assoc, <- length_app. assert (#"}" ∉ hole_open ++ key) as Hn.
  { rewrite elem_of_app. intros [Hin|?]; [|done]. apply ContainsByte_true in Hin. discriminate Hin. }
  induction (hole_open ++ key) as [|c l IH]; [apply (Index_here hole_close rest)|]. apply not_elem_of_cons in Hn as [Hc Hn].
  cbn [app]. rewrite Index_cons, IH by done. replace (HasPrefix _ hole_close) with false; [done|].
  symmetry. apply HasPrefix_false. intros [w Hw]. cbn in Hw. congruence.
Qed.

Lemma expand_settings_render fuel lookup out first holes :
  plain_text first → Forall (λ h, plain_key h.1 ∧ plain_text h.2) holes → (length holes <= fuel)%nat →
  expand_settings fuel lookup out (render first holes)
  = (λ vs, out ++ first ++ concat (map (λ h, escape_dollars h.1 ++ h.2) vs)) <$> resolve lookup holes.
Proof.
  intros Hf Hh. revert fuel out first Hf. induction Hh as [|[key text] holes [Hk Ht] _ IH]; intros fuel out first Hf Hfuel.
  - unfold render. cbn [map concat resolve fmap option_fmap option_map]. rewrite !app_nil_r.
    destruct fuel; cbn [expand_settings]; [done|]. by rewrite Hf.
  - destruct fuel as [|fuel]; cbn [length] in Hfuel; [lia|]. rewrite render_cons. cbn [expand_settings resolve fst snd] in *.
    rewrite Index_skip by done. rewrite drop_app_length, Index_key by done.
    replace (drop (length first + length hole_open) (first ++ hole_open ++ key ++ hole_close ++ render text holes))
      with (key ++ hole_close ++ render text holes)
      by (by rewrite (app_assoc first), <- (length_app first hole_open), drop_app_length).
    rewrite take_app_length.
    replace (length hole_open + length key - length hole_open)%nat with (length key) by lia. rewrite take_app_length.
    destruct (lookup key) as [value|]; [|done]. unfold mbind, option_bind at 1 2.
    replace (length first + (length hole_open + length key) + 2)%nat
      with (length (first ++ hole_open ++ key ++ hole_close)) by (rewrite !length_app; cbn; lia).
    replace (first ++ hole_open ++ key ++ hole_close ++ render text holes)
      with ((first ++ hole_open ++ key ++ hole_close) ++ render text holes) by by rewrite <- !app_assoc.
    rewrite drop_app_length, IH by (done || lia). destruct (resolve lookup holes) as [vs|]; [|done].
    cbn [map concat fst snd]. cbn. by rewrite <- !app_assoc.
Qed.

(** A text after which a value cannot be read as part of a reference: it has no dollar sign, or
    ends where no reference goes on. *)
Definition cuttable (t : bytes) : bool :=
  negb (ContainsByte t #"$") || match last t with Some c => stops c | None => true end.

Lemma cuttable_closed t : cuttable t = true → closed t.
Proof.
  intros [Hd|Hs]%orb_true_iff; [apply closed_plain, ContainsByte_false; by bools|].
  destruct t as [|c u _] using rev_ind; [apply closed_nil|]. rewrite last_snoc in Hs. by apply closed_stop.
Qed.

Lemma expand_pieces text t vs : Forall (λ t, cuttable t = true) (removelast (t :: map snd vs)) →
  expand text (t ++ concat (map (λ h, escape_dollars h.1 ++ h.2) vs)) = expand text t ++ concat (map (λ h, h.1 ++ expand text h.2) vs).
Proof.
  revert t. induction vs as [|[v t'] vs IH]; intros t Ht; [cbn; by rewrite !app_nil_r|].
  change (removelast (t :: map snd ((v, t') :: vs))) with (t :: removelast (t' :: map snd vs)) in Ht. apply Forall_cons in Ht as [Ht Hvs].
  rewrite (cuttable_closed t Ht). cbn [map concat fst snd]. by rewrite <- !app_assoc, expand_escaped, (IH t' Hvs).
Qed.

Lemma resolve_texts lookup holes vs : resolve lookup holes = Some vs → map snd vs = map snd holes.
Proof.
  revert vs. induction holes as [|[k t] holes IH]; cbn [resolve]; intros vs; [by intros [= <-]|].
  destruct (lookup k); [|done]. unfold mbind, option_bind. destruct (resolve lookup holes) as [ws|]; [|done].
  intros [= <-]. cbn. f_equal. by apply IH.
Qed.

Lemma render_length first holes : (length holes <= length (render first holes))%nat.
Proof.
  unfold render. rewrite length_app. induction holes as [|[k t] holes IH]; cbn [map concat length] in *; [lia|].
  cbn [fst snd]. rewrite !length_app. change (length hole_open) with 11%nat. lia.
Qed.

Lemma resolve_fails lookup holes : resolve lookup holes = None ↔ ∃ h, h ∈ holes ∧ lookup h.1 = None.
Proof.
  induction holes as [|[k t] holes IH]; cbn [resolve]; [split; [done | intros (h & H & _); by apply elem_of_nil in H]|].
  destruct (lookup k) eqn:E; cbn; [|split; [intros _; exists (k, t); split; [left | done] | done]].
  transitivity (resolve lookup holes = None); [by destruct (resolve lookup holes)|]. rewrite IH. split.
  - intros (h & Hin & Hn). exists h. split; [by right | done].
  - intros (h & [->|Hin]%elem_of_cons & Hn); [cbn in Hn; congruence | by exists h].
Qed.

(** C33 (functional): Expanding a template of text and holes is declined exactly when the setting of
    a hole has no value or no substitution.  Otherwise the value of every setting stands for itself,
    dollar signs and all: the regular expression template it becomes expands, in any match, to the
    expansions of the texts with the values between them.  That needs each text before a hole to be cut there: it has no
    dollar sign, or ends in a character no reference goes on after.  A value right after an unfinished reference
    ([$1] or a single dollar sign) is read as part of it, which [value_joins_reference] shows. *)
Theorem substituted_values_literal valueMap settings first holes text :
  plain_text first → Forall (λ h, plain_key h.1 ∧ plain_text h.2) holes →
  (expandSettingsTemplate (render first holes) valueMap settings = None ↔ ∃ h, h ∈ holes ∧ setting_text valueMap settings h.1 = None)
  ∧ (Forall (λ t, cuttable t = true) (removelast (first :: map snd holes)) →
     expand text <$> expandSettingsTemplate (render first holes) valueMap settings
     = (λ vs, expand text first ++ concat (map (λ h, h.1 ++ expand text h.2) vs)) <$> resolve (setting_text valueMap settings) holes).
Proof.
  intros Hf Hh. unfold expandSettingsTemplate. rewrite expand_settings_render by (done || apply render_length).
  rewrite fmap_None, resolve_fails. split; [done|]. intros Hc.
  destruct (resolve (setting_text valueMap settings) holes) as [vs|] eqn:E; [|done]. cbn [fmap option_fmap option_map app]. f_equal.
  apply expand_pieces. by rewrite (resolve_texts _ _ _ E).
Qed.

(** A value right after a group reference becomes part of the reference, and a value
    right after a dollar sign becomes a reference: the value [x] after [$1] asks for a group
    [1x], and the value [1] after [$] for group 1. *)
Theorem value_joins_reference text :
  expand text <$> expandSettingsTemplate (&"/v1/$1{{settings.k}}") ∅ {[ &"k" := JStr (&"x") ]}
  = Some (&"/v1/" ++ text (RefName (&"1x")))
  ∧ expand text <$> expandSettingsTemplate (&"${{settings.k}}") ∅ {[ &"k" := JStr (&"1") ]} = Some (text (RefNumber 1)).
Proof.
  assert (expandSettingsTemplate (&"/v1/$1{{settings.k}}") ∅ {[ &"k" := JStr (&"x") ]} = Some [47; 118; 49; 47; 36; 49; 120]) as ->
    by (vm_compute; reflexivity).
  assert (expandSettingsTemplate (&"${{settings.k}}") ∅ {[ &"k" := JStr (&"1") ]} = Some [36; 49]) as -> by (vm_compute; reflexivity).
  assert (extract [49; 120] = Some (RefName (&"1x"), [])) as E1 by (vm_compute; reflexivity).
  assert (extract [49] = Some (RefNumber 1, [])) as E2 by (vm_compute; reflexivity).
  cbn [fmap option_fmap option_map]. rewrite !expand_plain by done. rewrite !expand_ref, E1, E2. cbn [Z.eqb Pos.eqb].
  split; f_equal; cbn; by rewrite app_nil_r.
Qed.
End expansion.

(** ** [regexp.ReplaceAll] *)

(** [regexp_find pattern src pos] is the leftmost match from [pos] on, group 0 first. *)
Class Regexps := {
  regexp_find : bytes → bytes → nat → option (list (option (nat * nat)));
  regexp_names : bytes → list bytes;
}.

Section replace_all.
Context {W : UnicodeWords} {R : Regexps}.

Definition next_position (src : bytes) (pos stop : nat) : nat :=
  let width := (DecodeRune (drop pos src)).2 in
  if bool_decide (stop < pos + width)%nat then (pos + width)%nat
  else if bool_decide (stop < pos + 1)%nat then (pos + 1)%nat else stop.

(** The loop; the position grows each round, so one more than the length is fuel enough. *)
Fixpoint replace_loop (fuel : nat) (pattern src template : bytes) (pos last : nat) : bytes :=
  match fuel with
  | O => drop last src
  | S fuel' =>
      if bool_decide (length src < pos)%nat then drop last src
      else
        match regexp_find pattern src pos with
        | Some ((Some (start, stop) :: _) as groups) =>
            take (start - last) (drop last src)
            ++ (if bool_decide (last < stop)%nat || bool_decide (start = 0%nat)
                then expand (group_text (regexp_names pattern) src groups) template else [])
            ++ replace_loop fuel' pattern src template (next_position src pos stop) stop
        | _ => drop last src
        end
  end.

Definition ReplaceAll (pattern src template : bytes) : bytes :=
  replace_loop (S (length src)) pattern src template 0 0.

(** What a match may be. *)
Definition finds (pattern : bytes) : Prop := ∀ src pos groups, regexp_find pattern src pos = Some groups →
  ∃ start stop rest, groups = Some (start, stop) :: rest ∧ (pos <= start <= stop)%nat ∧ (stop <= length src)%nat.

(** The unmatched text and the matches of [src] from [last] on, in order. *)
Inductive matched_pieces (pattern src : bytes) : nat → nat → list (bytes * bytes * list (option (nat * nat))) → bytes → Prop :=
| pieces_end pos last :
    (length src < pos)%nat ∨ regexp_find pattern src pos = None → matched_pieces pattern src pos last [] (drop last src)
| pieces_match pos last start stop rest pieces tail :
    (pos <= length src)%nat → regexp_find pattern src pos = Some (Some (start, stop) :: rest) →
    matched_pieces pattern src (next_position src pos stop) stop pieces tail →
    matched_pieces pattern src pos last
      ((take (start - last) (drop last src), slice src (start, stop), Some (start, stop) :: rest) :: pieces) tail.

Lemma next_position_grows src pos stop : (pos <= stop)%nat →
  (pos < next_position src pos stop)%nat ∧ (stop <= next_position src pos stop)%nat.
Proof. unfold next_position. cbv zeta. repeat case_bool_decide; lia. Qed.

Lemma drop_split {A} (l : list A) i j : (i <= j)%nat → drop i l = take (j - i) (drop i l) ++ drop j l.
Proof.
  intros Hij. rewrite <- (take_drop (j - i) (drop i l)) at 1. rewrite drop_drop. by replace (i + (j - i))%nat with j by lia.
Qed.

Lemma pieces_source pattern src pos last pieces tail : finds pattern → matched_pieces pattern src pos last pieces tail → (last <= pos)%nat →
  drop last src = concat (map (λ p, p.1.1 ++ p.1.2) pieces) ++ tail.
Proof.
  intros Hf. induction 1 as [pos last|pos last start stop rest pieces tail Hpos Hm _ IH]; intros Hle; [done|].
  destruct (Hf _ _ _ Hm) as (a & b & gs & [= <- <- _] & Hab & Hb). cbn [map concat fst snd].
  destruct (next_position_grows src pos stop) as [? ?]; [lia|]. rewrite <- !app_assoc, <- IH by lia. unfold slice. cbn [fst snd].
  by rewrite <- (drop_split src start stop), <- (drop_split src last start) by lia.
Qed.

(** What a piece becomes: its unmatched text, and the replacement of its match, unless that is
    the empty text right after another match. *)
Definition replaced_piece (pattern src template : bytes) (p : bytes * bytes * list (option (nat * nat))) : bytes :=
  let '(text, match_, groups) := p in
  text ++ (if negb (bool_decide (text ++ match_ = [])) || bool_decide (head groups = Some (Some (0, 0)%nat))
           then expand (group_text (regexp_names pattern) src groups) template else []).

Lemma replace_loop_pieces fuel pattern src template pos last : finds pattern → (last <= pos)%nat → (length src < fuel + pos)%nat →
  ∃ pieces tail, matched_pieces pattern src pos last pieces tail
    ∧ replace_loop fuel pattern src template pos last = concat (map (replaced_piece pattern src template) pieces) ++ tail.
Proof.
  intros Hf. revert pos last. induction fuel as [|fuel IH]; intros pos last Hle Hfuel; cbn [replace_loop].
  { exists [], (drop last src). split; [apply pieces_end; left; lia | done]. }
  case_bool_decide as Hpos; [exists [], (drop last src); split; [by apply pieces_end; left | done]|].
  destruct (regexp_find pattern src pos) as [groups|] eqn:Em; [|exists [], (drop last src); split; [by apply pieces_end; right | done]].
  destruct (Hf _ _ _ Em) as (start & stop & rest & -> & Hab & Hb).
  destruct (next_position_grows src pos stop) as [? ?]; [lia|].
  destruct (IH (next_position src pos stop) stop) as (pieces & tail & Hp & E); [lia|lia|].
  eexists (_ :: pieces), tail. split; [eapply pieces_match; [lia | exact Em | exact Hp]|].
  cbn [map concat replaced_piece head]. rewrite E, <- !app_assoc. f_equal. f_equal.
  replace (bool_decide (last < stop)%nat) with (negb (bool_decide (take (start - last) (drop last src) ++ slice src (start, stop) = []))).
  2: { rewrite <- bool_decide_not. apply bool_decide_ext. rewrite <- length_zero_iff_nil, length_app. unfold slice. cbn [fst snd].
       rewrite !length_take, !length_drop. lia. }
  destruct (negb _) eqn:En; cbn [orb]; [done|]. apply negb_false_iff, bool_decide_eq_true in En.
  replace (bool_decide (Some (Some (start, stop)) = Some (Some (0%nat, 0%nat)))) with (bool_decide (start = 0%nat)); [done|].
  apply bool_decide_ext. apply (f_equal length) in En. unfold slice in En. rewrite length_app, !length_take, !length_drop in En. cbn in En.
  split; [intros ->; repeat f_equal; lia | congruence].
Qed.

(** Replacing in a body finds its matches one after the other until there is
    none, keeps every byte between them, and puts the expansion of the template for each. *)
Theorem replace_all_exact pattern src template : finds pattern →
  ∃ pieces tail, matched_pieces pattern src 0 0 pieces tail
    ∧ src = concat (map (λ p, p.1.1 ++ p.1.2) pieces) ++ tail
    ∧ ReplaceAll pattern src template = concat (map (replaced_piece pattern src template) pieces) ++ tail.
Proof.
  intros Hf. destruct (replace_loop_pieces (S (length src)) pattern src template 0 0 Hf ltac:(lia) ltac:(lia)) as (pieces & tail & Hp & E).
  exists pieces, tail. split; [done|]. split; [|done]. by rewrite <- (pieces_source pattern src 0 0 pieces tail Hf Hp ltac:(lia)).
Qed.
End replace_all.

(** ** The theorems at concrete inputs *)
Section witnesses.
#[local] Instance plain_engines : Engines :=
  {| regexp_Compile _ := true; regexp_MatchString _ _ := true; goja_Compile _ _ := None; gojq_Compile _ := true; render_value _ := [] |}.
#[local] Instance ascii_words : UnicodeWords := {| unicode_IsWord _ := false |}.

(** A pattern of one letter: it matches each occurrence of the letter. *)
#[local] Instance letter_regexps : Regexps :=
  {| regexp_find pattern src pos :=
       match pattern with
       | [c] => (λ i, [Some (pos + i, S (pos + i))%nat]) <$> IndexByte (drop pos src) c
       | _ => None
       end;
     regexp_names _ := [] |}.

Lemma IndexByte_bound s c i : IndexByte s c = Some i → (i < length s)%nat.
Proof.
  revert i. induction s as [|d s IH]; intros i; cbn [IndexByte]; [done|]. destruct (d =? c); [intros [= <-]; cbn; lia|].
  destruct (IndexByte s c) as [j|]; [|done]. intros [= <-]. specialize (IH j eq_refl). cbn. lia.
Qed.

Lemma letter_finds c : finds [c].
Proof.
  intros src pos groups. cbn. destruct (IndexByte (drop pos src) c) as [i|] eqn:E; [|done]. intros [= <-].
  apply IndexByte_bound in E. rewrite length_drop in E. eexists _, _, _. split; [done|]. lia.
Qed.

Lemma replace_all_exact_witness :
  ReplaceAll (&"a") (&"banana") (&"[$0]") = &"b[a]n[a]n[a]"
  ∧ ∃ pieces tail, matched_pieces (&"a") (&"banana") 0 0 pieces tail
    ∧ &"banana" = concat (map (λ p, p.1.1 ++ p.1.2) pieces) ++ tail.
Proof.
  split; [vm_compute; reflexivity|].
  destruct (replace_all_exact (&"a") (&"banana") (&"[$0]") (letter_finds _)) as (pieces & tail & H1 & H2 & _).
  by exists pieces, tail.
Defined.

Lemma substituted_values_literal_witness :
  (expand (λ _, &"g") <$> expandSettingsTemplate (&"/v1/$1/{{settings.k}}?{{settings.m}}") ∅
     {[ &"k" := JStr (&"$100"); &"m" := JBool true ]}) = Some (&"/v1/g/$100?true").
Proof.
  change (&"/v1/$1/{{settings.k}}?{{settings.m}}") with (render (&"/v1/$1/") [(&"k", &"?"); (&"m", &"")]).
  assert (∀ k, ContainsByte k #"}" = false → plain_key k) as Hk by (intros k Hk; by apply ContainsByte_false).
  rewrite (proj2 (substituted_values_literal ∅ _ (&"/v1/$1/") [(&"k", &"?"); (&"m", &"")] _ ltac:(reflexivity)
    ltac:(repeat constructor; cbn; repeat split; try reflexivity; apply Hk; reflexivity))); [vm_compute; reflexivity | by repeat constructor].
Defined.
End witnesses.
