(* ===== verification/DeclarativeActions.v ===== *)
(** * The actions that carry no script ([module_rewrite.go], [module_mock.go],
      [module_request_rewrite.go] and the dispatch of [module_runtime.go])

    A rule that reaches execution comes from the compiled snapshot, so its
    regular expressions are compiled and its settings decoded.  The scripts
    and jq programs of the other rules run in engines that are not modelled:
    [run_program] stands for them.  [range] is the order in which the runtime
    ranges over a map. *)
From S2P Require Import Prelude GoStrings GoBinary GoNet ConfigTypes Json HostPatterns ScriptConfig Settings ConfigValidate.
From S2P Require Import RoutingRules HttpHeaders Templates.

Definition maxReplaceBodyBytes : Z := 8388608.
Definition maxModuleRequestRewriteURLBytes : Z := 16384.
Definition maxModuleHTTPBody : Z := 67108864.

Record scriptMessage := mkMessage {
  sm_URL : bytes;
  sm_Method : bytes;
  sm_Headers : Header;
  sm_Trailers : Header;
  sm_Body : bytes;
  sm_StatusCode : Z;
}.

Record scriptResult := mkResult {
  re_URL : bytes;
  re_Headers : Header;
  re_Trailers : Header;
  re_Body : bytes;
  re_StatusCode : Z;
  re_Synthetic : bool;
  re_Abort : bool;
  re_ChangedURL : bool;
  re_ChangedBody : bool;
  re_ChangedHeaders : bool;
  re_ChangedTrailers : bool;
  re_ChangedStatus : bool;
}.

Definition no_result : scriptResult := mkResult [] ∅ ∅ [] 0 false false false false false false false.

Class MapOrder := {
  range : gmap bytes bytes → list (bytes * bytes);
  range_perm m : range m ≡ₚ map_to_list m;
}.

Class Programs := { run_program : Config → Module_ → ScriptRule → scriptMessage → option scriptMessage → res string scriptResult }.

Section actions.
Context {U : UnicodeCase} {En : Engines} {P : TextParsers} {W : UnicodeWords} {R : Regexps} {O : MapOrder}.

(** ** Header edits and mocks *)
Definition set_headers (fields : list (bytes * bytes)) (h : Header) : Header :=
  fold_left (λ h kv, header_Set kv.1 kv.2 h) fields h.

Definition applyHeaderEdits (edits : HeaderEdits) (current : Header) : Header :=
  set_headers (range (he_Set edits)) (fold_left (λ h name, header_Del name h) (he_Remove edits) current).

Definition executeHeaderEdits (rule : ScriptRule) (edits : HeaderEdits) (request : scriptMessage) (response : option scriptMessage) :
    res string scriptResult :=
  current ← (if bool_decide (sr_Phase rule = &"response") then
               match response with
               | None => Err "a response header action has no response"%string
               | Some m => Ok (sm_Headers m)
               end
             else Ok (sm_Headers request));
  Ok (mkResult [] (applyHeaderEdits edits current) ∅ [] 0 false false false false true false false).

Definition executeMock (mock : MockResponse) (responsePhase : bool) : res string scriptResult :=
  body ← mock_bytes mock;
  let status := if mock_Status mock =? 0 then 200 else mock_Status mock in
  let headers := set_headers (range (mock_Headers mock)) ∅ in
  Ok (mkResult [] headers ∅ body status (negb responsePhase) false false true (negb (bool_decide (headers = ∅))) false true).

(** ** Rewrites and replacements *)
Definition executeRewrite (rule : ScriptRule) (rewrite : URLRewrite) (request : scriptMessage) : res string scriptResult :=
  match regexp_find (rw_Pattern rewrite) (sm_URL request) 0 with
  | None => Ok no_result
  | Some match_ =>
      match expandSettingsTemplate (rw_To rewrite) ∅ (sr_settings rule) with
      | None => Ok no_result
      | Some to =>
          let target := expand (group_text (regexp_names (rw_Pattern rewrite)) (sm_URL request) match_) to in
          _ ← reject_if ((len target =? 0) || (maxRewriteURLBytes <? len target)) "rewritten URL length"%string;
          if rw_Status rewrite =? 0
          then Ok (mkResult target ∅ ∅ [] 0 false false true false false false false)
          else Ok (mkResult [] (header_Set (&"Location") target ∅) ∅ [] (rw_Status rewrite) true false false true true false true)
      end
  end.

Definition executeBodyReplace (rule : ScriptRule) (replace : BodyReplace) (request : scriptMessage) (response : option scriptMessage) :
    res string scriptResult :=
  body ← (if bool_decide (sr_Phase rule = &"response") then
            match response with
            | None => Err "a response body action has no response"%string
            | Some m => Ok (sm_Body m)
            end
          else Ok (sm_Body request));
  _ ← reject_if (maxReplaceBodyBytes <? len body) "body exceeds the limit"%string;
  match expandSettingsTemplate (br_To replace) (br_ValueMap replace) (sr_settings rule) with
  | None => Ok no_result
  | Some template =>
      match regexp_find (br_Pattern replace) body 0 with
      | None => Ok no_result
      | Some _ => Ok (mkResult [] ∅ ∅ (ReplaceAll (br_Pattern replace) body template) 0 false false false true false false false)
      end
  end.

(** ** Dispatch *)
Context {Pr : Programs}.

Definition execute (cfg : Config) (module : Module_) (rule : ScriptRule) (request : scriptMessage) (response : option scriptMessage) :
    res string scriptResult :=
  if sr_Reject rule then Ok (mkResult [] ∅ ∅ [] 0 false true false false false false false)
  else
    match sr_Mock rule, sr_Headers rule, sr_Rewrite rule, sr_ReplaceBody rule with
    | Some mock, _, _, _ => executeMock mock (is_some response)
    | None, Some edits, _, _ => executeHeaderEdits rule edits request response
    | None, None, Some rewrite, _ => executeRewrite rule rewrite request
    | None, None, None, Some replace => executeBodyReplace rule replace request response
    | None, None, None, None => run_program cfg module rule request response
    end.

(** ** Authorization of a request URL *)
Definition parseModuleNetworkRequestURL (raw : bytes) : res string (URL * bytes) :=
  _ ← reject_if (ContainsByte raw #"#") "url"%string;
  match url_Parse raw with
  | None => Err "url"%string
  | Some u =>
      _ ← reject_if (nonempty (url_Opaque u) || url_User u || nonempty (url_Fragment u) || negb (nonempty (url_Hostname u))) "url"%string;
      origin ← canonicalModuleNetworkOrigin (ToLower (url_Scheme u) ++ &"://" ++ url_Host u);
      match url_Parse origin with
      | None => Err "url"%string
      | Some o =>
          let portText := if nonempty (url_Port o) then url_Port o else if bool_decide (url_Scheme o = &"https") then &"443" else &"80" in
          match Atoi portText with
          | None => Err "port"%string
          | Some _ =>
              let host := canonicalHost (url_Hostname u) in
              let host := if nonempty (url_Port o) then JoinHostPort host (url_Port o) else host in
              Ok (mkParsedURL (ToLower (url_Scheme u)) (url_Opaque u) (url_User u) host
                    (canonicalHost (url_Hostname u)) (url_Port o) (url_Path u) (url_RawQuery u) (url_ForceQuery u) (url_Fragment u), origin)
          end
      end
  end.

Definition authorizeModuleRequestURLRewriteConfig (cfg : Config) (module : Module_) (currentURL rawTargetURL : bytes) : res string URL :=
  _ ← reject_if ((len rawTargetURL =? 0) || (maxModuleRequestRewriteURLBytes <? len rawTargetURL)) "length"%string;
  match url_Parse rawTargetURL with
  | None => Err "request URL rewrite must be an absolute HTTP URL"%string
  | Some rawTarget =>
      _ ← reject_if (negb (containsString [&"http"; &"https"] (url_Scheme rawTarget))) "request URL rewrite must be an absolute HTTP URL"%string;
      current ← parseModuleNetworkRequestURL currentURL;
      target ← parseModuleNetworkRequestURL rawTargetURL;
      if bool_decide (target.2 = current.2) then
        _ ← reject_if (negb (moduleCapturesHost cfg module (url_Hostname target.1)) && negb (mod_Network module)) "outside the boundary"%string;
        Ok rawTarget
      else
        _ ← reject_if (bool_decide (url_Scheme current.1 = &"https") && negb (bool_decide (url_Scheme target.1 = &"https"))) "downgrade"%string;
        _ ← reject_if (negb (bool_decide (url_Scheme rawTarget ++ &"://" ++ url_Host rawTarget = target.2))) "canonical origin"%string;
        _ ← reject_if (negb (mod_Network module)) "network permission"%string;
        Ok target.1
  end.

Definition authorizeModuleRequestActionURL (cfg : Config) (module : Module_) (rawURL : bytes) : res string unit :=
  parsed ← parseModuleNetworkRequestURL rawURL;
  reject_if (negb (moduleCapturesHost cfg module (url_Hostname parsed.1) || mod_Network module)) "outside the capture hosts"%string.

(** ** Limits of a result *)
Definition validateModuleResultBodySize (actionLimit size : Z) : res string unit :=
  _ ← reject_if (maxModuleHTTPBody <? size) "result body exceeds the limit"%string;
  reject_if (actionLimit <? size) "result body exceeds action limit"%string.

Definition validateModuleResultBody (rule : ScriptRule) (result : scriptResult) : res string unit :=
  if negb (re_ChangedBody result) then Ok tt
  else validateModuleResultBodySize (match sr_Mock rule with Some _ => maxMockBodyBytes | None => sr_MaxBodyBytes rule end) (len (re_Body result)).
End actions.

(** ** Header edits *)
Section edits.
Context {U : UnicodeCase} {En : Engines} {P : TextParsers} {W : UnicodeWords} {R : Regexps}.

(** No two spellings of a name. *)
Definition distinct_names (fields : gmap bytes bytes) : Prop := NoDup (map CanonicalHeaderKey (map fst (map_to_list fields))).

Lemma set_headers_out fields h k : k ∉ map CanonicalHeaderKey (map fst fields) → set_headers fields h !! k = h !! k.
Proof.
  revert h. induction fields as [|[n v] fields IH]; intros h Hk; [done|]. cbn [set_headers fold_left map fst snd] in *.
  apply not_elem_of_cons in Hk as [? ?]. unfold set_headers in IH. rewrite IH by done. unfold header_Set. by rewrite lookup_insert_ne.
Qed.

Lemma set_headers_in fields h n v : NoDup (map CanonicalHeaderKey (map fst fields)) → (n, v) ∈ fields →
  set_headers fields h !! CanonicalHeaderKey n = Some [v].
Proof.
  revert h. induction fields as [|[m w] fields IH]; intros h Hnd Hin; [by apply elem_of_nil in Hin|].
  cbn [map fst] in Hnd. apply NoDup_cons in Hnd as [Hm Hnd]. cbn [set_headers fold_left fst snd].
  apply elem_of_cons in Hin as [[= -> ->]|Hin]; [|by apply IH].
  change (fold_left _ fields ?h) with (set_headers fields h). rewrite set_headers_out by done. apply lookup_insert_eq.
Qed.

Lemma remove_headers (names : list bytes) (h : Header) k :
  fold_left (λ h name, header_Del name h) names h !! k = if bool_decide (k ∈ map CanonicalHeaderKey names) then None else h !! k.
Proof.
  revert h. induction names as [|n names IH]; intros h; [done|]. cbn [fold_left map]. rewrite IH. unfold header_Del.
  destruct (decide (CanonicalHeaderKey n = k)) as [<-|Hn].
  - rewrite lookup_delete_eq, (bool_decide_true (_ ∈ _ :: _)) by left. by case_bool_decide.
  - rewrite lookup_delete_ne by done. rewrite (bool_decide_ext (k ∈ CanonicalHeaderKey n :: _) (k ∈ map CanonicalHeaderKey names)); [done|].
    rewrite elem_of_cons. split; [intros [?|?]; [congruence | done] | by right].
Qed.

(** A header action leaves each field it sets with exactly its value, removes
    each field it removes and does not set, and changes no other, whatever order the runtime
    ranges in, when its names differ in more than case. *)
Theorem header_edits_exact (O : MapOrder) edits current : distinct_names (he_Set edits) →
  (∀ n v, he_Set edits !! n = Some v → applyHeaderEdits edits current !! CanonicalHeaderKey n = Some [v])
  ∧ ∀ k, k ∉ map CanonicalHeaderKey (map fst (map_to_list (he_Set edits))) →
      applyHeaderEdits edits current !! k = if bool_decide (k ∈ map CanonicalHeaderKey (he_Remove edits)) then None else current !! k.
Proof.
  intros Hd. assert (map CanonicalHeaderKey (map fst (range (he_Set edits))) ≡ₚ map CanonicalHeaderKey (map fst (map_to_list (he_Set edits)))) as Hp
    by by rewrite (range_perm (he_Set edits)).
  unfold distinct_names in Hd. rewrite <- Hp in Hd. split.
  - intros n v Hn. apply set_headers_in; [done|]. rewrite range_perm. by apply elem_of_map_to_list.
  - intros k Hk. rewrite <- Hp in Hk. unfold applyHeaderEdits. by rewrite set_headers_out, remove_headers.
Qed.

#[local] Instance listed_order : MapOrder := {| range := map_to_list; range_perm m := Permutation_refl (map_to_list m) |}.
#[local] Instance reversed_order : MapOrder :=
  {| range m := rev (map_to_list m); range_perm m := Permutation_sym (Permutation_rev (map_to_list m)) |}.

Definition two_spellings : HeaderEdits := mkHeaderEdits {[ &"X-A" := &"1"; &"x-a" := &"2" ]} [].

(** An accepted header action may name a field in two spellings, and which of its
    two values the message gets is then the order of the map. *)
Theorem header_edits_follow_order :
  HeaderEdits_validate (Some two_spellings) = Ok tt
  ∧ @applyHeaderEdits listed_order two_spellings ∅ !! (&"X-A") ≠ @applyHeaderEdits reversed_order two_spellings ∅ !! (&"X-A").
Proof. split; [vm_compute; reflexivity | vm_compute; discriminate]. Qed.
End edits.

(** ** Mocks *)
Section mocks.
Context {U : UnicodeCase} {En : Engines} {P : TextParsers} {W : UnicodeWords} {R : Regexps} {O : MapOrder}.

(** A mock of an accepted document always runs and is never refused for its
    size: it answers with a status, its headers and its body, in the request phase without an
    upstream request. *)
Theorem accepted_mock_served (Pr : Programs) cfg module rule mock request response :
  sr_Mock rule = Some mock → sr_Reject rule = false → MockResponse_validate (Some mock) = Ok tt →
  ∃ r, execute cfg module rule request response = Ok r ∧ validateModuleResultBody rule r = Ok tt
    ∧ mock_bytes mock = Ok (re_Body r) ∧ re_ChangedBody r = true ∧ re_ChangedStatus r = true
    ∧ re_Synthetic r = negb (is_some response) ∧ re_Abort r = false ∧ 100 <= re_StatusCode r <= 599
    ∧ re_Headers r = set_headers (range (mock_Headers mock)) ∅.
Proof.
  intros Hm Hr Hv. unfold MockResponse_validate in Hv. inv_res. bools.
  unfold execute, executeMock. rewrite Hr, Hm.
  match goal with H : mock_bytes mock = Ok ?b |- _ => rewrite H; rename b into body end.
  eexists. split; [done|]. cbn [re_Body re_ChangedBody re_ChangedStatus re_Synthetic re_Abort re_StatusCode re_Headers].
  unfold validateModuleResultBody. rewrite Hm. cbn [re_ChangedBody re_Body negb].
  unfold validateModuleResultBodySize, maxModuleHTTPBody, maxMockBodyBytes in *.
  rewrite !(proj2 (Z.ltb_ge _ _)) by lia. repeat split; try done; destruct (Z.eqb_spec (mock_Status mock) 0); cbn in *; bools; lia.
Qed.
End mocks.

(** ** The boundary of a rewrite *)
Section boundary.
Context {U : UnicodeCase} {P : TextParsers}.

(** C12 (safety): a rewrite is authorized to the origin the request already has, when the
    extension captures the host or holds the network permission; to another origin only with that
    permission, under the canonical spelling of the origin, and never from HTTPS to HTTP. *)
Theorem rewrite_boundary cfg module current raw u :
  authorizeModuleRequestURLRewriteConfig cfg module current raw = Ok u →
  len raw <= maxModuleRequestRewriteURLBytes
  ∧ ∃ cu co tu to, parseModuleNetworkRequestURL current = Ok (cu, co) ∧ parseModuleNetworkRequestURL raw = Ok (tu, to)
    ∧ ((to = co ∧ url_Parse raw = Some u ∧ (moduleCapturesHost cfg module (url_Hostname tu) = true ∨ mod_Network module = true))
       ∨ (to ≠ co ∧ u = tu ∧ mod_Network module = true
          ∧ (url_Scheme cu = &"https" → url_Scheme u = &"https")
          ∧ ∃ given, url_Parse raw = Some given ∧ url_Scheme given ++ &"://" ++ url_Host given = to)).
Proof.
  unfold authorizeModuleRequestURLRewriteConfig. intros H. apply bind_Ok_inv in H as ([] & Hlen%reject_if_Ok & H). bools.
  split; [done|]. destruct (url_Parse raw) as [given|] eqn:Hg; [|done].
  apply bind_Ok_inv in H as ([] & _ & H). apply bind_Ok_inv in H as ([cu co] & Hc & H). apply bind_Ok_inv in H as ([tu to] & Ht & H).
  exists cu, co, tu, to. split; [done|]. split; [done|]. cbn [fst snd] in H. case_bool_decide as Eo.
  - left. apply bind_Ok_inv in H as ([] & Hb%reject_if_Ok & [= ->]). split; [done|]. split; [done|].
    destruct (moduleCapturesHost cfg module (url_Hostname tu)); [by left|]. right. by destruct (mod_Network module).
  - right. apply bind_Ok_inv in H as ([] & Hd%reject_if_Ok & H). apply bind_Ok_inv in H as ([] & Hs%reject_if_Ok & H).
    apply bind_Ok_inv in H as ([] & Hn%reject_if_Ok & [= ->]). bools. repeat split; try done; [|by exists given].
    intros E. rewrite E in Hd. rewrite bool_decide_true in Hd by done. cbn in Hd. by bools.
Qed.
End boundary.

(** ** The theorems at concrete inputs *)
Section witnesses.
#[local] Instance ascii_case : UnicodeCase := {| unicode_ToLower r := r; unicode_ToUpper r := r |}.
#[local] Instance some_engines : Engines :=
  {| regexp_Compile _ := true; regexp_MatchString _ _ := true; goja_Compile _ _ := None; gojq_Compile _ := true; render_value _ := [] |}.
#[local] Instance ascii_words : UnicodeWords := {| unicode_IsWord _ := false |}.
#[local] Instance no_regexps : Regexps := {| regexp_find _ _ _ := None; regexp_names _ := [] |}.
#[local] Instance no_programs : Programs := {| run_program _ _ _ _ _ := Err "none"%string |}.
#[local] Instance key_order : MapOrder := {| range := map_to_list; range_perm m := Permutation_refl (map_to_list m) |}.

(** URLs of two origins, [https://a.example] and [https://b.example], with the path [/x] or none. *)
#[local] Instance two_hosts : TextParsers :=
  {| url_Parse raw :=
       let host := take 9 (drop 8 raw) in
       if HasPrefix raw (&"https://") && containsString [&"a.example"; &"b.example"] host
       then Some (mkParsedURL (&"https") [] false host host [] (drop 17 raw) [] false []) else None;
     time_Parse_RFC3339 _ := true |}.

Definition plain_module (network : bool) : Module_ :=
  mkModule (&"m") [] [] [] true [] (mkModuleSource [] [] []) [&"a.example"] [] [] [] [] [] false network false [].
Definition plain_config : Config := mkConfig 6 None [] [] [] [] [] (mkProxyConfig [] [] []) (mkMITMSettings true true true) [] None 0.

Lemma rewrite_boundary_witness :
  ∃ u, authorizeModuleRequestURLRewriteConfig plain_config (plain_module false) (&"https://a.example") (&"https://a.example/x") = Ok u
  ∧ len (&"https://a.example/x") <= maxModuleRequestRewriteURLBytes.
Proof.
  destruct (authorizeModuleRequestURLRewriteConfig plain_config (plain_module false) (&"https://a.example") (&"https://a.example/x"))
    as [u|e] eqn:E; [|vm_compute in E; discriminate E].
  exists u. split; [done|]. exact (proj1 (rewrite_boundary _ _ _ _ _ E)).
Defined.

Lemma header_edits_exact_witness :
  applyHeaderEdits (mkHeaderEdits {[ &"x-a" := &"1" ]} [&"Accept"]) {[ &"Accept" := [&"b"] ]} !! (&"X-A") = Some [&"1"].
Proof.
  refine (proj1 (header_edits_exact key_order (mkHeaderEdits {[ &"x-a" := &"1" ]} [&"Accept"]) {[ &"Accept" := [&"b"] ]} _) (&"x-a") (&"1") eq_refl).
  unfold distinct_names. cbn [he_Set]. rewrite map_to_list_singleton. apply NoDup_singleton.
Defined.

Definition mock_rule (mock : MockResponse) : ScriptRule :=
  mkScriptRule (&"r") (&"request") (mkActionMatch [] [] [] [] []) None [] [] [] (&"none") [] [] false (Some mock) None None None 100 1024 None None ∅.
Definition some_mock : MockResponse := mkMockResponse 0 {[ &"Content-Type" := &"text/plain" ]} (&"hello") [].

Lemma accepted_mock_served_witness :
  ∃ r, execute plain_config (plain_module false) (mock_rule some_mock) (mkMessage [] [] ∅ ∅ [] 0) None = Ok r ∧ re_Synthetic r = true.
Proof.
  destruct (accepted_mock_served no_programs plain_config (plain_module false) (mock_rule some_mock) some_mock
              (mkMessage [] [] ∅ ∅ [] 0) None eq_refl eq_refl ltac:(vm_compute; reflexivity)) as (r & H1 & _ & _ & _ & _ & H2 & _).
  by exists r.
Defined.
End witnesses.
