(* ===== verification/ScriptResults.v ===== *)
(** * What a script returns ([module_runtime.go], [module_compat.go])

    A script hands back a value that goja exports to Go; [goval] is what the
    type switches of the code tell apart.  An object is a Go map, so it has no
    order.  [fmt.Sprint] of a floating-point number is a parameter, and so is
    the conversion of one that no [int] holds, which Go leaves to the platform.
    goja exports no [float32]. *)
From stdpp Require Import gmap.
From S2P Require Import Prelude GoStrings ConfigTypes HttpHeaders DeclarativeActions.

(** The integer types that [exportedStatus] and [exportedBody] name, and the others. *)
Inductive int_kind := KInt64 | KInt32 | KInt | KOther.

Inductive goval :=
| GNil
| GBool (b : bool)
| GInt (kind : int_kind) (z : Z)
| GFloat (x : float64)
| GNumber (text : bytes)
| GString (s : bytes)
| GBytes (s : bytes)
| GArrayBuffer (s : bytes)
| GStrings (l : list bytes)
| GList (l : list goval)
| GMap (m : gmap bytes goval)
(** [http.Header] and [map[string][]string]. *)
| GHeader (h : Header)
| GStringMap (m : gmap bytes bytes)
(** A goja value that was stored in a Go map. *)
| GWrapped (v : goval)
| GOther.

Class Floats := { sprint_float : float64 → bytes; float_to_int_other : float64 → Z }.

Inductive result_error :=
| NotAnObject | UnsupportedField | AbortNotBoolean | RequestPatchOnResponse | TwoPatches
| PatchNotObject | URLOnResponse | URLNotString | HeadersNotObject | HeaderScalar | BadHeaders (e : header_error)
| TrailersOnRequest | BodyByte | BadBody | StatusOnRequest | StatusNotInteger | StatusRange.

Definition lift_header {A} (r : res header_error A) : res result_error A :=
  match r with Ok a => Ok a | Err e => Err (BadHeaders e) end.

Definition stringAnyMap (v : goval) : option (gmap bytes goval) := match v with GMap m => Some m | _ => None end.

Section results.
Context {U : UnicodeCase} {F : Floats}.

(** ** Headers *)
Definition exportedHeaderScalar (v : goval) : res result_error bytes :=
  match v with
  | GString s => Ok s
  | GBool b => Ok (if b then &"true" else &"false")
  | GInt _ z => Ok (Itoa z)
  | GFloat x => Ok (sprint_float x)
  | GNumber text => Ok text
  | _ => Err HeaderScalar
  end.

Fixpoint add_scalars (l : list goval) (b : scriptHeaderBudget) : res result_error (list bytes * scriptHeaderBudget) :=
  match l with
  | [] => Ok ([], b)
  | item :: rest =>
      text ← exportedHeaderScalar item;
      b ← lift_header (addValue text b);
      '(values, b) ← add_scalars rest b;
      Ok (text :: values, b)
  end.

(** [exportedHeaderValues] on a value of an object. *)
Definition exportedHeaderItem (raw : goval) (b : scriptHeaderBudget) : res result_error (list bytes * scriptHeaderBudget) :=
  match raw with
  | GStrings values => b ← lift_header (exportedHeaderValues values b); Ok (values, b)
  | GList l =>
      if maxScriptHeaderValues - hb_values b <? len l then Err (BadHeaders ErrTooManyValues) else add_scalars l b
  | _ => text ← exportedHeaderScalar raw; b ← lift_header (addValue text b); Ok ([text], b)
  end.

(** The loop over the sorted names of an object. *)
Fixpoint export_object (object : gmap bytes goval) (names : list bytes) (b : scriptHeaderBudget) (headers : Header) :
    res result_error Header :=
  match names with
  | [] => Ok headers
  | name :: rest =>
      b ← lift_header (addField name b);
      '(values, b) ← exportedHeaderItem (default GNil (object !! name)) b;
      export_object object rest b (<[CanonicalHeaderKey name := values]> headers)
  end.

(** The loop over the sorted names of a map of strings. *)
Fixpoint export_strings (m : gmap bytes bytes) (names : list bytes) (b : scriptHeaderBudget) (headers : Header) :
    res header_error Header :=
  match names with
  | [] => Ok headers
  | name :: rest =>
      b ← addField name b;
      let item := default [] (m !! name) in
      b ← addValue item b;
      export_strings m rest b (<[CanonicalHeaderKey name := [item]]> headers)
  end.

Definition exportedHeaders (v : goval) : res result_error Header :=
  match v with
  | GHeader h => lift_header (exportedStringSliceHeaders h)
  | GStringMap m =>
      lift_header (names ← validatedScriptHeaderNames (map fst (map_to_list m)); export_strings m names (mkBudget 0 0) ∅)
  | _ =>
      match stringAnyMap v with
      | None => Err HeadersNotObject
      | Some object =>
          names ← lift_header (validatedScriptHeaderNames (map fst (map_to_list object)));
          export_object object names (mkBudget 0 0) ∅
      end
  end.

Definition exportedTrailersValue (v : goval) : res result_error Header :=
  trailers ← exportedHeaders v;
  _ ← reject_if (negb (forallb validResponseTrailerName (header_names trailers))) (BadHeaders ErrTrailerName);
  Ok trailers.

(** ** Bodies and statuses *)
Definition body_byte (v : goval) : option Z :=
  match v with GInt KInt64 z => if (z <? 0) || (255 <? z) then None else Some z | _ => None end.

Definition exportedBody (v : goval) : res result_error bytes :=
  match v with
  | GString s | GBytes s | GArrayBuffer s => Ok s
  | GList l => match mapM body_byte l with Some out => Ok out | None => Err BodyByte end
  | _ => Err BadBody
  end.

(** [int(typed)] of a [float64]: toward zero, when an [int] holds it. *)
Definition float_to_int (x : float64) : Z :=
  let whole (s : bool) (m : positive) (e : Z) :=
    let n := if 0 <=? e then Zpos m * 2 ^ e else Zpos m / 2 ^ (- e) in
    if n <? 2 ^ 63 then (if s then - n else n) else float_to_int_other x in
  match x with
  | S754_zero _ => 0
  | S754_finite s m e => whole s m e
  | _ => float_to_int_other x
  end.

Definition exportedStatus (v : goval) : res result_error Z :=
  status ← match v with
           | GInt KOther _ => Err StatusNotInteger
           | GInt _ z => Ok z
           | GFloat x => Ok (float_to_int x)
           | GNumber text => match Atoi text with Some z => Ok z | None => Err StatusNotInteger end
           | _ => Err StatusNotInteger
           end;
  _ ← reject_if ((status <? 100) || (599 <? status)) StatusRange;
  Ok status.

(** ** Patches *)
Definition only_keys (keys : list bytes) (m : gmap bytes goval) : bool :=
  forallb (λ kv, containsString keys kv.1) (map_to_list m).

Definition set_result_url (url : bytes) (r : scriptResult) : scriptResult :=
  mkResult url (re_Headers r) (re_Trailers r) (re_Body r) (re_StatusCode r) (re_Synthetic r) (re_Abort r)
    true (re_ChangedBody r) (re_ChangedHeaders r) (re_ChangedTrailers r) (re_ChangedStatus r).
Definition set_result_headers (h : Header) (r : scriptResult) : scriptResult :=
  mkResult (re_URL r) h (re_Trailers r) (re_Body r) (re_StatusCode r) (re_Synthetic r) (re_Abort r)
    (re_ChangedURL r) (re_ChangedBody r) true (re_ChangedTrailers r) (re_ChangedStatus r).
Definition set_result_trailers (h : Header) (r : scriptResult) : scriptResult :=
  mkResult (re_URL r) (re_Headers r) h (re_Body r) (re_StatusCode r) (re_Synthetic r) (re_Abort r)
    (re_ChangedURL r) (re_ChangedBody r) (re_ChangedHeaders r) true (re_ChangedStatus r).
Definition set_result_body (body : bytes) (r : scriptResult) : scriptResult :=
  mkResult (re_URL r) (re_Headers r) (re_Trailers r) body (re_StatusCode r) (re_Synthetic r) (re_Abort r)
    (re_ChangedURL r) true (re_ChangedHeaders r) (re_ChangedTrailers r) (re_ChangedStatus r).
Definition set_result_status (status : Z) (r : scriptResult) : scriptResult :=
  mkResult (re_URL r) (re_Headers r) (re_Trailers r) (re_Body r) status (re_Synthetic r) (re_Abort r)
    (re_ChangedURL r) (re_ChangedBody r) (re_ChangedHeaders r) (re_ChangedTrailers r) true.
Definition set_result_synthetic (synthetic : bool) (r : scriptResult) : scriptResult :=
  mkResult (re_URL r) (re_Headers r) (re_Trailers r) (re_Body r) (re_StatusCode r) synthetic (re_Abort r)
    (re_ChangedURL r) (re_ChangedBody r) (re_ChangedHeaders r) (re_ChangedTrailers r) (re_ChangedStatus r).
Definition set_result_abort (abort : bool) (r : scriptResult) : scriptResult :=
  mkResult (re_URL r) (re_Headers r) (re_Trailers r) (re_Body r) (re_StatusCode r) (re_Synthetic r) abort
    (re_ChangedURL r) (re_ChangedBody r) (re_ChangedHeaders r) (re_ChangedTrailers r) (re_ChangedStatus r).

(** One member of a patch, when it is there. *)
Definition on_member (object : gmap bytes goval) (key : bytes) (f : goval → scriptResult → res result_error scriptResult)
    (r : scriptResult) : res result_error scriptResult :=
  match object !! key with None => Ok r | Some raw => f raw r end.

Definition applyNativePatch (r : scriptResult) (raw : goval) (response : bool) : res result_error scriptResult :=
  match stringAnyMap raw with
  | None => Err PatchNotObject
  | Some object =>
      _ ← reject_if (negb (only_keys [&"url"; &"headers"; &"trailers"; &"body"; &"status"] object)) UnsupportedField;
      r ← on_member object (&"url") (λ raw r,
            if response then Err URLOnResponse
            else match raw with GString s => Ok (set_result_url s r) | _ => Err URLNotString end) r;
      r ← on_member object (&"headers") (λ raw r,
            headers ← exportedHeaders raw;
            headers ← lift_header (validateNativePatchHeaders headers response);
            Ok (set_result_headers headers r)) r;
      r ← on_member object (&"trailers") (λ raw r,
            if response then trailers ← exportedTrailersValue raw; Ok (set_result_trailers trailers r)
            else Err TrailersOnRequest) r;
      r ← on_member object (&"body") (λ raw r, body ← exportedBody raw; Ok (set_result_body body r)) r;
      on_member object (&"status") (λ raw r,
        if response then status ← exportedStatus raw; Ok (set_result_status status r) else Err StatusOnRequest) r
  end.

(** [None] is [undefined] or [null]. *)
Definition parseNativeScriptResult (v : option goval) (responsePhase : bool) : res result_error scriptResult :=
  match v with
  | None => Ok no_result
  | Some v =>
      match stringAnyMap v with
      | None => Err NotAnObject
      | Some object =>
          _ ← reject_if (negb (only_keys [&"abort"; &"request"; &"response"] object)) UnsupportedField;
          r ← on_member object (&"abort") (λ raw r,
                match raw with GBool b => Ok (set_result_abort b r) | _ => Err AbortNotBoolean end) no_result;
          let hasRequest := bool_decide (is_Some (object !! (&"request"))) in
          let hasResponse := bool_decide (is_Some (object !! (&"response"))) in
          _ ← reject_if (responsePhase && hasRequest) RequestPatchOnResponse;
          _ ← reject_if (negb responsePhase && hasRequest && hasResponse) TwoPatches;
          r ← on_member object (&"request") (λ raw r, applyNativePatch r raw false) r;
          on_member object (&"response") (λ raw r,
            r ← applyNativePatch r raw true; Ok (set_result_synthetic (negb responsePhase) r)) r
      end
  end.

(** ** The completion of a proxy-client bundle *)
Definition unwrapCompatValue (v : goval) : goval := match v with GWrapped v => v | _ => v end.

Definition owned_member (patch : gmap bytes goval) (key : bytes) : option goval := unwrapCompatValue <$> patch !! key.

(** The loop sets [body] from [bodyBytes] only where the map has none yet, and sets it from [body]
    whenever it meets that: [body] wins in whatever order the members come.  A null body is dropped. *)
Definition projected_body (patch : gmap bytes goval) : option goval :=
  match (match owned_member patch (&"body") with Some v => Some v | None => owned_member patch (&"bodyBytes") end) with
  | Some GNil => None
  | body => body
  end.

Definition keep_member (key : bytes) (v : option goval) (m : gmap bytes goval) : gmap bytes goval :=
  match v with Some v => <[key := v]> m | None => m end.

Definition compatProjection (patch : gmap bytes goval) : gmap bytes goval :=
  keep_member (&"status") (owned_member patch (&"status")) (keep_member (&"headers") (owned_member patch (&"headers"))
    (keep_member (&"trailers") (owned_member patch (&"trailers")) (keep_member (&"body") (projected_body patch) ∅))).

Definition parseCompatScriptResult (v : option goval) (responsePhase : bool) : res result_error scriptResult :=
  match v with
  | None => Ok no_result
  | Some v =>
      match stringAnyMap v with
      | None => Err NotAnObject
      | Some patch =>
          match patch !! (&"response") with
          | Some envelope =>
              match stringAnyMap (unwrapCompatValue envelope) with
              | None => Err PatchNotObject
              | Some projection =>
                  r ← applyNativePatch no_result (GMap (compatProjection projection)) true;
                  Ok (set_result_synthetic (negb responsePhase) r)
              end
          | None => applyNativePatch no_result (GMap (compatProjection patch)) responsePhase
          end
      end
  end.

Definition compatProjectionIsEmpty (v : option goval) : bool :=
  match v ≫= stringAnyMap with
  | None => false
  | Some patch =>
      if bool_decide (patch = ∅) then false
      else
        match patch !! (&"response") with
        | Some envelope =>
            match stringAnyMap (unwrapCompatValue envelope) with
            | None => false
            | Some inner => if bool_decide (inner = ∅) then false else bool_decide (compatProjection inner = ∅)
            end
        | None => bool_decide (compatProjection patch = ∅)
        end
  end.
End results.

(** ** Headers from a script are well formed *)
Section headers.
Context {U : UnicodeCase} {F : Floats}.

(** Canonical names that are tokens, values a header can carry, at most [n] fields. *)
Definition header_fine (n : Z) (h : Header) : Prop :=
  Z.of_nat (size h) <= n
  ∧ ∀ k vs, h !! k = Some vs → validModuleNetworkHeaderName k = true ∧ CanonicalHeaderKey k = k ∧ Forall value_ok vs.

Lemma fine_weaken n n' h : n <= n' → header_fine n h → header_fine n' h.
Proof. intros Hn [Hs Hf]. split; [lia | done]. Qed.

Lemma valid_canonical_name name : validModuleNetworkHeaderName name = true → validModuleNetworkHeaderName (CanonicalHeaderKey name) = true.
Proof.
  intros Hv. pose proof (valid_name_tokens name Hv) as Ht. unfold CanonicalHeaderKey. rewrite Ht.
  unfold validModuleNetworkHeaderName. apply andb_true_iff. split; [|by apply token_canonical].
  unfold validModuleNetworkHeaderName in Hv. destruct name; [done|]. by rewrite bool_decide_false.
Qed.

Lemma fine_insert n name vs h : header_fine n h → validModuleNetworkHeaderName name = true → Forall value_ok vs →
  header_fine (n + 1) (<[CanonicalHeaderKey name := vs]> h).
Proof.
  intros [Hs Hf] Hn Hv. split.
  - rewrite map_size_insert. destruct (h !! CanonicalHeaderKey name); cbn; lia.
  - intros k ws [[<- <-]|[_ Hk]]%lookup_insert_Some; [|by apply Hf]. split; [by apply valid_canonical_name|]. split; [apply canonical_idemp | done].
Qed.

Lemma addValue_ok v b b' : addValue v b = Ok b' → value_ok v.
Proof.
  unfold addValue, value_ok. destruct (validHTTPHeaderValue v); [|done]. cbn [negb].
  destruct (Z.ltb_spec maxScriptHeaderValueBytes (len v)); done.
Qed.

Lemma add_values_ok vs b b' : add_values vs b = Ok b' → Forall value_ok vs.
Proof.
  revert b. induction vs as [|v vs IH]; intros b E; [constructor|]. cbn [add_values] in E. apply bind_Ok_inv in E as (b1 & E1 & E).
  constructor; [by eapply addValue_ok | by eapply IH].
Qed.

Lemma lift_header_Ok {A} (r : res header_error A) (a : A) : lift_header r = Ok a → r = Ok a.
Proof. destruct r; [by intros [= ->] | done]. Qed.

Lemma exportedHeaderValues_ok vs b b' : exportedHeaderValues vs b = Ok b' → Forall value_ok vs.
Proof. unfold exportedHeaderValues. destruct (_ <? _); [done|]. apply add_values_ok. Qed.

Lemma add_scalars_ok l b vs b' : add_scalars l b = Ok (vs, b') → Forall value_ok vs.
Proof.
  revert b vs. induction l as [|x l IH]; intros b vs E; cbn [add_scalars] in E; [injection E as <- <-; constructor|].
  apply bind_Ok_inv in E as (t & _ & E). apply bind_Ok_inv in E as (b1 & E1%lift_header_Ok & E).
  apply bind_Ok_inv in E as ([ws b2] & E2 & E). injection E as <- <-. constructor; [by eapply addValue_ok | by eapply IH].
Qed.

Lemma exportedHeaderItem_ok raw b vs b' : exportedHeaderItem raw b = Ok (vs, b') → Forall value_ok vs.
Proof.
  assert (∀ t, (b1 ← lift_header (addValue t b); Ok ([t], b1)) = Ok (vs, b') → Forall value_ok vs) as Hone.
  { intros t E. apply bind_Ok_inv in E as (b1 & E1%lift_header_Ok & E). injection E as <- <-. constructor; [by eapply addValue_ok | constructor]. }
  destruct raw; cbn [exportedHeaderItem exportedHeaderScalar]; try done; intros E;
    try (apply bind_Ok_inv in E as (t & _ & E); by eapply Hone).
  - apply bind_Ok_inv in E as (b1 & E1%lift_header_Ok & E). injection E as <- <-. by eapply exportedHeaderValues_ok.
  - destruct (_ <? _); [done|]. by eapply add_scalars_ok.
Qed.

Lemma validated_names names sorted : validatedScriptHeaderNames names = Ok sorted →
  len sorted <= maxScriptHeaderFields ∧ Forall (λ n, validModuleNetworkHeaderName n = true) sorted.
Proof.
  unfold validatedScriptHeaderNames. destruct (Z.ltb_spec maxScriptHeaderFields (len names)) as [?|Hl]; [done|]. intros E.
  apply bind_Ok_inv in E as ([] & E1 & E). injection E as <-. split.
  - by rewrite (Permutation_length (sort_Strings_perm names)).
  - apply check_names_exact in E1. tauto.
Qed.

(** The three loops have the same shape: each round adds one field. *)
Ltac export_loop names :=
  let k := fresh "k" in let Hk := fresh "Hk" in let IH := fresh "IH" in
  induction names as [|k names IH]; intros b h0 n Hn Hf E; cbn in E;
  [ injection E as <-; by rewrite Z.add_0_r
  | apply Forall_cons in Hn as [Hk Hn]; apply bind_Ok_inv in E as (b1 & _ & E); apply bind_Ok_inv in E as (b2 & E2 & E);
    try (destruct b2 as [vs b2]);
    replace (n + len (k :: names)) with (n + 1 + len names) by (cbn [length]; lia);
    eapply IH; [done | | exact E]; apply fine_insert; [done..|] ].

Lemma export_object_fine object names b h0 h n : Forall (λ k, validModuleNetworkHeaderName k = true) names → header_fine n h0 →
  export_object object names b h0 = Ok h → header_fine (n + len names) h.
Proof. revert b h0 n. export_loop names. by eapply exportedHeaderItem_ok. Qed.

Lemma export_strings_fine m names b h0 h n : Forall (λ k, validModuleNetworkHeaderName k = true) names → header_fine n h0 →
  export_strings m names b h0 = Ok h → header_fine (n + len names) h.
Proof. revert b h0 n. export_loop names. constructor; [by eapply addValue_ok | constructor]. Qed.

Lemma export_fields_fine m names b h0 h n : Forall (λ k, validModuleNetworkHeaderName k = true) names → header_fine n h0 →
  export_fields m names b h0 = Ok h → header_fine (n + len names) h.
Proof. revert b h0 n. export_loop names. by eapply exportedHeaderValues_ok. Qed.

Lemma fine_empty : header_fine 0 ∅.
Proof. split; [by rewrite map_size_empty|]. intros k vs Hk. by rewrite lookup_empty in Hk. Qed.

Lemma exportedHeaders_fine v h : exportedHeaders v = Ok h → header_fine maxScriptHeaderFields h.
Proof.
  assert (∀ names : list bytes, len names <= maxScriptHeaderFields → header_fine (0 + len names) h → header_fine maxScriptHeaderFields h) as Hw.
  { intros names Hl. apply fine_weaken. lia. }
  destruct v; cbn [exportedHeaders stringAnyMap]; try done; intros E.
  - apply bind_Ok_inv in E as (names & [Hl Hn]%lift_header_Ok%validated_names & E).
    by eapply Hw, export_object_fine; [..|apply fine_empty|].
  - apply lift_header_Ok in E. unfold exportedStringSliceHeaders in E. apply bind_Ok_inv in E as (names & [Hl Hn]%validated_names & E).
    by eapply Hw, export_fields_fine; [..|apply fine_empty|].
  - apply lift_header_Ok, bind_Ok_inv in E as (names & [Hl Hn]%validated_names & E).
    by eapply Hw, export_strings_fine; [..|apply fine_empty|].
Qed.
End headers.

(** ** The type of a result

    [answers] says which message the result is about: a response, when the
    action runs on one or answers the request itself, or else a request. *)
Section typing.
Context {U : UnicodeCase} {F : Floats}.

Definition headers_typed (answers : bool) (h : Header) : Prop :=
  header_fine maxScriptHeaderFields h
  ∧ ∀ k vs, h !! k = Some vs → isHopByHopHeader k = false ∨ answers = false ∧ k = (&"Te") ∧ vs = [&"trailers"].
Definition trailers_typed (h : Header) : Prop :=
  header_fine maxScriptHeaderFields h ∧ ∀ k, is_Some (h !! k) → validResponseTrailerName k = true.

(** Which members a result may change, what they then are, and that the others are zero. *)
Definition patch_typed (answers : bool) (r : scriptResult) : Prop :=
  (if re_ChangedURL r then answers = false else re_URL r = [])
  ∧ (if re_ChangedHeaders r then headers_typed answers (re_Headers r) else re_Headers r = ∅)
  ∧ (if re_ChangedTrailers r then answers = true ∧ trailers_typed (re_Trailers r) else re_Trailers r = ∅)
  ∧ (re_ChangedBody r = false → re_Body r = [])
  ∧ (if re_ChangedStatus r then answers = true ∧ 100 <= re_StatusCode r <= 599 else re_StatusCode r = 0).

Definition result_typed (responsePhase : bool) (r : scriptResult) : Prop :=
  (re_Synthetic r = true → responsePhase = false) ∧ patch_typed (responsePhase || re_Synthetic r) r.

Lemma on_member_ind (P : scriptResult → Prop) object key f r r' :
  on_member object key f r = Ok r' → P r → (∀ raw r', object !! key = Some raw → f raw r = Ok r' → P r') → P r'.
Proof. unfold on_member. destruct (object !! key) as [raw|]; [by eauto | by intros [= ->]]. Qed.

Lemma te_typed h h' n : header_fine n h → normalizeRequestTEHeader h = Ok h' →
  header_fine n h' ∧ ∀ k vs, h' !! k = Some vs → EqualFold k (&"Te") = true → k = (&"Te") ∧ vs = [&"trailers"].
Proof.
  intros [Hs Hf]. unfold normalizeRequestTEHeader.
  assert (∀ k v, (k, v) ∈ te_fields h ↔ h !! k = Some v ∧ EqualFold k (&"Te") = true) as Hte.
  { intros k v. unfold te_fields. by rewrite list_elem_of_In, filter_In, <- list_elem_of_In, elem_of_map_to_list. }
  assert (∀ k v, h !! k = Some v → EqualFold k (&"Te") = true → k = (&"Te")) as Hcan.
  { intros k v Hk E. destruct (Hf k v Hk) as (Hv & Hc & _). rewrite canonical_fold in E by done. by apply bool_decide_eq_true in E. }
  destruct (te_fields h) as [|[name [|value []]] [|]] eqn:El; try done.
  - intros [= <-]. split; [done|]. intros k vs Hk E. by destruct (proj1 (elem_of_nil (k, vs)) (proj2 (Hte k vs) (conj Hk E))).
  - destruct (is_trailers value); [|done]. intros [= <-].
    destruct (proj1 (Hte name [value]) ltac:(left)) as [Hn En]. pose proof (Hcan _ _ Hn En) as ->.
    change (CanonicalHeaderKey (&"Te")) with (&"Te"). unfold header_Set. change (CanonicalHeaderKey (&"Te")) with (&"Te").
    rewrite insert_delete_eq. split.
    + split; [by rewrite map_size_insert, Hn|]. intros k vs [[<- <-]|[_ Hk]]%lookup_insert_Some; [|by apply Hf].
      split; [done|]. split; [done|]. constructor; [|constructor]. split; [done | by vm_compute].
    + intros k vs [[<- <-]|[Hne Hk]]%lookup_insert_Some; [done|]. intros E. by destruct (Hne (eq_sym (Hcan _ _ Hk E))).
Qed.

Lemma validated_headers_typed h h' response : header_fine maxScriptHeaderFields h →
  validateNativePatchHeaders h response = Ok h' → headers_typed response h'.
Proof.
  intros Hf E. unfold validateNativePatchHeaders in E. apply bind_Ok_inv in E as (h1 & E1 & E).
  apply bind_Ok_inv in E as ([] & E2 & E). injection E as <-. unfold reject_if in E2.
  destruct (existsb _ _) eqn:Ex; [done|].
  assert (∀ k vs, h1 !! k = Some vs → isHopByHopHeader k = true → response = false ∧ EqualFold k (&"Te") = true) as Hok.
  { intros k vs Hk Hh. destruct (negb response && EqualFold k (&"Te")) eqn:Eb; [by bools|]. exfalso.
    assert (existsb (λ name, isHopByHopHeader name && negb (negb response && EqualFold name (&"Te"))) (header_names h1) = true) as Et; [|congruence].
    apply existsb_exists. exists k. split; [by apply list_elem_of_In, header_names_spec; exists vs|]. by rewrite Hh, Eb. }
  destruct response.
  - injection E1 as <-. split; [done|]. intros k vs Hk. left. destruct (isHopByHopHeader k) eqn:Eh; [|done]. by destruct (Hok k vs Hk Eh).
  - destruct (te_typed _ _ _ Hf E1) as [Hf1 Hte]. split; [done|]. intros k vs Hk. destruct (isHopByHopHeader k) eqn:Eh; [|by left].
    right. destruct (Hok k vs Hk Eh) as [_ Hfold]. destruct (Hte k vs Hk Hfold) as [-> ->]. done.
Qed.

Lemma trailers_value_typed v h : exportedTrailersValue v = Ok h → trailers_typed h.
Proof.
  unfold exportedTrailersValue. intros E. apply bind_Ok_inv in E as (h1 & E1 & E). apply bind_Ok_inv in E as ([] & E2 & E). injection E as <-.
  unfold reject_if in E2. destruct (forallb _ _) eqn:Ef; [|done]. split; [by eapply exportedHeaders_fine|].
  intros k Hk. rewrite forallb_forall in Ef. by apply Ef, list_elem_of_In, header_names_spec.
Qed.

Lemma exportedStatus_range v z : exportedStatus v = Ok z → 100 <= z <= 599.
Proof.
  unfold exportedStatus. intros E. apply bind_Ok_inv in E as (s & _ & E). unfold reject_if in E.
  destruct ((s <? 100) || (599 <? s)) eqn:Er; [done|]. injection E as <-. bools. lia.
Qed.

(** A patch keeps the result typed for the message it is about. *)
Lemma applyNativePatch_typed r raw response r' : patch_typed response r → re_Synthetic r = false →
  applyNativePatch r raw response = Ok r' → patch_typed response r' ∧ re_Synthetic r' = false.
Proof.
  intros Ht Hs. unfold applyNativePatch. destruct (stringAnyMap raw) as [object|]; [|done]. intros E.
  apply bind_Ok_inv in E as ([] & _ & E).
  set (P := λ r, patch_typed response r ∧ re_Synthetic r = false). assert (P r) as HP by done. clear Ht Hs. change (P r').
  apply bind_Ok_inv in E as (r1 & E1 & E). apply (on_member_ind P) in E1; [|done|].
  2: { clear -HP. intros v r' _ Ev. destruct response; [done|]. destruct v; try done. injection Ev as <-. destruct HP as [(_ & Hrest) ?].
       split; [|done]. split; [done | exact Hrest]. }
  apply bind_Ok_inv in E as (r2 & E2 & E). apply (on_member_ind P) in E2; [|done|].
  2: { clear -E1. intros v r' _ Ev. apply bind_Ok_inv in Ev as (h & Eh & Ev). apply bind_Ok_inv in Ev as (h' & Eh'%lift_header_Ok & Ev).
       injection Ev as <-. destruct E1 as [(? & _ & ?) ?]. split; [|done]. split; [done|]. split; [|done].
       eapply validated_headers_typed; [by eapply exportedHeaders_fine | done]. }
  apply bind_Ok_inv in E as (r3 & E3 & E). apply (on_member_ind P) in E3; [|done|].
  2: { clear -E2. intros v r' _ Ev. destruct response; [|done]. apply bind_Ok_inv in Ev as (h & Eh & Ev). injection Ev as <-.
       destruct E2 as [(? & ? & _ & ?) ?]. split; [|done]. split; [done|]. split; [done|]. split; [|done]. split; [done|]. by eapply trailers_value_typed. }
  apply bind_Ok_inv in E as (r4 & E4 & E). apply (on_member_ind P) in E4; [|done|].
  2: { clear -E3. intros v r' _ Ev. apply bind_Ok_inv in Ev as (body & _ & Ev). injection Ev as <-.
       destruct E3 as [(? & ? & ? & _ & ?) ?]. split; [|done]. split; [done|]. split; [done|]. split; [done|]. by split. }
  apply (on_member_ind P) in E; [done|done|].
  clear -E4. intros v r' _ Ev. destruct response; [|done]. apply bind_Ok_inv in Ev as (z & Ez & Ev). injection Ev as <-.
  destruct E4 as [(? & ? & ? & ? & _) ?]. split; [|done].
  split; [done|]. split; [done|]. split; [done|]. split; [done|]. split; [done | by apply (exportedStatus_range v)].
Qed.

Lemma abort_typed answers b : patch_typed answers (set_result_abort b no_result).
Proof. unfold patch_typed. cbn. tauto. Qed.

Lemma native_typed v responsePhase r : parseNativeScriptResult v responsePhase = Ok r → result_typed responsePhase r.
Proof.
  destruct v as [v|]; cbn [parseNativeScriptResult]; [|intros [= <-]; split; [done | apply (abort_typed _ false)]].
  destruct (stringAnyMap v) as [object|]; [|done]. intros E. apply bind_Ok_inv in E as ([] & _ & E).
  apply bind_Ok_inv in E as (r0 & E0 & E).
  assert (∃ b, r0 = set_result_abort b no_result) as [b ->].
  { eapply (on_member_ind (λ r, ∃ b, r = set_result_abort b no_result)); [exact E0 | by exists false|].
    intros raw r' _ Er. destruct raw; try done. injection Er as <-. by eexists. }
  apply bind_Ok_inv in E as ([] & E1 & E). apply bind_Ok_inv in E as ([] & E2 & E). apply bind_Ok_inv in E as (r1 & E3 & E).
  unfold reject_if in E1, E2. unfold on_member in E3, E.
  destruct (object !! (&"request")) as [request|] eqn:Hq.
  - rewrite bool_decide_true in E1, E2 by by eexists. destruct responsePhase; [done|]. cbn [negb andb] in E2.
    apply applyNativePatch_typed in E3 as [Ht Hs]; [|apply abort_typed | done].
    destruct (object !! (&"response")); [by rewrite bool_decide_true in E2 by by eexists|].
    injection E as <-. split; [by rewrite Hs|]. by rewrite Hs.
  - injection E3 as <-. destruct (object !! (&"response")) as [response|].
    + apply bind_Ok_inv in E as (r2 & E3 & E). injection E as <-.
      apply applyNativePatch_typed in E3 as [Ht Hs]; [|apply abort_typed | done].
      split; cbn; [by destruct responsePhase|]. by rewrite orb_negb_r.
    + injection E as <-. split; [done|]. apply abort_typed.
Qed.

Lemma compat_typed v responsePhase r : parseCompatScriptResult v responsePhase = Ok r → result_typed responsePhase r.
Proof.
  destruct v as [v|]; cbn [parseCompatScriptResult]; [|intros [= <-]; split; [done | apply (abort_typed _ false)]].
  destruct (stringAnyMap v) as [patch|]; [|done]. destruct (patch !! (&"response")) as [envelope|].
  - destruct (stringAnyMap _) as [projection|]; [|done]. intros E. apply bind_Ok_inv in E as (r1 & E1 & E). injection E as <-.
    apply applyNativePatch_typed in E1 as [Ht Hs]; [|apply (abort_typed _ false) | done].
    split; cbn; [by destruct responsePhase|]. by rewrite orb_negb_r.
  - intros [Ht Hs]%applyNativePatch_typed; [|apply (abort_typed _ false) | done]. split; [by rewrite Hs|]. by rewrite Hs, orb_false_r.
Qed.

(** ** Properties *)

(** C17 (type): whatever a script returns, native or completed through [$done], an accepted result is well
    typed: only a request may move its URL, only a response has a status, in 100 to 599, or
    trailers, of permitted names; its headers are canonical tokens with values a header can carry,
    at most 256, none of them hop-by-hop but the one TE a request may have; only a request can be
    answered; and a member the script did not return is zero. *)
Theorem script_results_typed (v : option goval) (responsePhase : bool) (r : scriptResult) :
  parseNativeScriptResult v responsePhase = Ok r ∨ parseCompatScriptResult v responsePhase = Ok r → result_typed responsePhase r.
Proof. intros [E|E]; [by eapply native_typed | by eapply compat_typed]. Qed.

Lemma keep_member_lookup k v m j : m !! k = None → keep_member k v m !! j = if bool_decide (j = k) then v else m !! j.
Proof. intros Hm. unfold keep_member. destruct v as [v|]; case_bool_decide; subst; by rewrite ?lookup_insert_eq, ?lookup_insert_ne by done. Qed.

Lemma compatProjection_spec patch key : compatProjection patch !! key =
  if bool_decide (key = (&"status")) then owned_member patch (&"status")
  else if bool_decide (key = (&"headers")) then owned_member patch (&"headers")
  else if bool_decide (key = (&"trailers")) then owned_member patch (&"trailers")
  else if bool_decide (key = (&"body")) then projected_body patch else None.
Proof.
  unfold compatProjection. set (m0 := keep_member (&"body") _ ∅).
  assert (∀ j, m0 !! j = if bool_decide (j = (&"body")) then projected_body patch else None) as E0.
  { intros j. unfold m0. rewrite keep_member_lookup; by rewrite lookup_empty. }
  clearbody m0. set (m1 := keep_member (&"trailers") _ m0).
  assert (∀ j, m1 !! j = if bool_decide (j = (&"trailers")) then owned_member patch (&"trailers") else m0 !! j) as E1.
  { intros j. unfold m1. by rewrite keep_member_lookup; rewrite ?E0. }
  clearbody m1. set (m2 := keep_member (&"headers") _ m1).
  assert (∀ j, m2 !! j = if bool_decide (j = (&"headers")) then owned_member patch (&"headers") else m1 !! j) as E2.
  { intros j. unfold m2. by rewrite keep_member_lookup; rewrite ?E1, ?E0. }
  rewrite keep_member_lookup; rewrite E2, E1, E0; done.
Qed.

Lemma empty_projection patch r responsePhase : compatProjection patch = ∅ →
  applyNativePatch r (GMap (compatProjection patch)) responsePhase = Ok r.
Proof. intros ->. reflexivity. Qed.

(** A completion the runtime reports as empty changes no member; but as the envelope of a request
    it is an answer all the same, a synthetic response with nothing in it. *)
Theorem empty_completion_exact (v : option goval) (responsePhase : bool) :
  compatProjectionIsEmpty v = true →
  ∃ patch, v = Some (GMap patch) ∧ parseCompatScriptResult v responsePhase
    = Ok (set_result_synthetic (negb responsePhase && bool_decide (is_Some (patch !! (&"response")))) no_result).
Proof.
  unfold compatProjectionIsEmpty. destruct v as [v|]; [|done]. destruct v as [| | | | | | | | | |patch| | | |]; try done. cbn [mbind option_bind stringAnyMap].
  case_bool_decide; [done|]. intros E. exists patch. split; [done|]. cbn [parseCompatScriptResult stringAnyMap].
  destruct (patch !! (&"response")) as [envelope|].
  - destruct (stringAnyMap (unwrapCompatValue envelope)) as [inner|]; [|done]. case_bool_decide; [done|]. apply bool_decide_eq_true in E.
    rewrite empty_projection by done. rewrite (bool_decide_true (is_Some _)) by by eexists. by rewrite andb_true_r.
  - apply bool_decide_eq_true in E. rewrite empty_projection by done. rewrite (bool_decide_false (is_Some _)) by by intros [? ?].
    by rewrite andb_false_r.
Qed.

(** A member of a projection that needs no adapting. *)
Definition plain_member (key : bytes) (v : goval) : Prop :=
  containsString [&"status"; &"headers"; &"trailers"; &"body"] key = true ∧ unwrapCompatValue v = v ∧ (key = (&"body") → v ≠ GNil).

(** The envelope a Loon bundle completes with means what the same object means when a native
    script returns it, in both phases. *)
Theorem envelope_is_native (patch : gmap bytes goval) (responsePhase : bool) :
  map_Forall plain_member patch →
  let completion := Some (GMap {[ &"response" := GMap patch ]}) in
  parseCompatScriptResult completion responsePhase = parseNativeScriptResult completion responsePhase.
Proof.
  intros Hp. cbv zeta. assert (compatProjection patch = patch) as Eq.
  { apply map_eq. intros k. rewrite compatProjection_spec.
    assert (∀ key, owned_member patch key = patch !! key) as Ho.
    { intros key. unfold owned_member. destruct (patch !! key) as [v|] eqn:E; [|done]. cbn. f_equal. by apply (Hp key v). }
    assert (patch !! (&"bodyBytes") = None) as Hb.
    { apply eq_None_not_Some. intros [v Hv]. by destruct (Hp _ _ Hv) as [? _]. }
    rewrite !Ho. repeat (case_bool_decide; [by subst|]). case_bool_decide.
    - subst. unfold projected_body. rewrite !Ho, Hb. destruct (patch !! (&"body")) as [v|] eqn:Ev; [|done].
      destruct (Hp _ _ Ev) as (_ & _ & Hn). specialize (Hn eq_refl). by destruct v.
    - symmetry. apply eq_None_not_Some. intros [v Hv]. destruct (Hp _ _ Hv) as [Hk _]. unfold containsString in Hk.
      apply existsb_exists in Hk as (x & Hx & Ex). apply bool_decide_eq_true in Ex. subst.
      destruct Hx as [<-|[<-|[<-|[<-|[]]]]]; done. }
  cbn [parseCompatScriptResult parseNativeScriptResult stringAnyMap]. rewrite lookup_singleton_eq. cbn [unwrapCompatValue stringAnyMap].
  rewrite Eq. unfold on_member. rewrite lookup_singleton_eq, !lookup_singleton_ne by done.
  replace (only_keys _ _) with true; [|symmetry; unfold only_keys; by rewrite map_to_list_singleton].
  rewrite (bool_decide_false (is_Some None)) by by intros [? ?]. rewrite andb_false_r. cbn [negb reject_if mbind res_bind].
  rewrite andb_false_r. reflexivity.
Qed.
End typing.

(** ** Results of three scripts *)
Section examples.
#[local] Instance result_case : UnicodeCase := {| unicode_ToLower r := r; unicode_ToUpper r := r |}.
#[local] Instance result_floats : Floats := {| sprint_float _ := &"1"; float_to_int_other _ := 0 |}.

Definition answer_patch : gmap bytes goval :=
  {[ &"status" := GInt KInt64 404; &"headers" := GMap {[ &"x-reason" := GString (&"gone") ]}; &"body" := GString (&"no") ]}.
Definition answer_script : option goval := Some (GMap {[ &"response" := GMap answer_patch ]}).
(** A result in the request phase, a 404 with one field. *)
Definition answer_result : scriptResult :=
  mkResult [] {[ &"X-Reason" := [&"gone"] ]} ∅ (&"no") 404 true false false true true false true.

Lemma script_results_typed_witness : result_typed false answer_result.
Proof.
  apply (script_results_typed answer_script false answer_result). left. vm_compute. reflexivity.
Defined.

Definition hint_only : option goval := Some (GMap {[ &"response" := GMap {[ &"policy" := GString (&"DIRECT") ]} ]}).

(** In the request phase the exchange is answered, with nothing. *)
Lemma empty_completion_exact_witness :
  ∃ patch, hint_only = Some (GMap patch) ∧ parseCompatScriptResult hint_only false
    = Ok (set_result_synthetic (negb false && bool_decide (is_Some (patch !! (&"response")))) no_result).
Proof. apply (empty_completion_exact hint_only false). vm_compute. reflexivity. Defined.

Lemma envelope_is_native_witness : parseCompatScriptResult answer_script false = parseNativeScriptResult answer_script false.
Proof.
  apply (envelope_is_native answer_patch false). intros k v Hk. unfold answer_patch in Hk.
  repeat (apply lookup_insert_Some in Hk as [[<- <-]|[_ Hk]]; [by repeat split|]).
  apply lookup_singleton_Some in Hk as [<- <-]. by repeat split.
Defined.
End examples.
