(* ===== verification/JqActions.v ===== *)
(** * jq actions ([module_jq.go])

    The body of a message is decoded with its numbers kept as text, its numbers
    are given the types gojq works on, the compiled program runs, and its first
    output is encoded.  The program's run and the encoding of what it returns
    are parameters; the decoding and the numbers are not.  The settings are
    those of the compiled snapshot. *)
From stdpp Require Import gmap.
From S2P Require Import Prelude GoStrings GoBinary ConfigTypes Json ScriptConfig HttpHeaders Templates DeclarativeActions.

Definition maxJQOutputBytes : Z := Z.shiftl 64 20.

(** A document, decoded: [QNumber] is a [json.Number], and [QInt], [QBig] and [QFloat] are the [int],
    [*big.Int] and [float64] that gojq works on. *)
Inductive jqvalue :=
| QNull
| QBool (b : bool)
| QNumber (text : bytes)
| QInt (z : Z)
| QBig (z : Z)
| QFloat (x : float64)
| QStr (s : bytes)
| QArr (l : list jqvalue)
| QObj (l : list (bytes * jqvalue)).

(** What the iterator gives first: a value, an error of the program on this input, or a halt. *)
Inductive jq_output := JqValue (v : jqvalue) | JqError | JqHalt.

Class Gojq := {
  gojq_Run : bytes → jqvalue → gmap bytes jvalue → option jq_output;
  jq_Marshal : jqvalue → option bytes;
}.

(** [big.Int.SetString] of a number text in base 10: an integer without an exponent. *)
Definition big_SetString (text : bytes) : option Z :=
  n ← full_number text;
  match n_frac n, n_exp n with
  | [], None => Some ((if n_neg n then -1 else 1) * digits_value (n_int n))
  | _, _ => None
  end.

Definition jq_number (text : bytes) : option jqvalue :=
  match ParseInt text with
  | Some z => Some (QInt z)
  | None => match big_SetString text with
            | Some z => Some (QBig z)
            | None => QFloat <$> ParseFloat text
            end
  end.

Definition set_jq_member (k : bytes) (v : jqvalue) (l : list (bytes * jqvalue)) : list (bytes * jqvalue) :=
  List.filter (λ kv, negb (bool_decide (kv.1 = k))) l ++ [(k, v)].

(** [Decode] with [UseNumber]: the last member of a name wins. *)
Fixpoint jq_decode (t : jtree) : jqvalue :=
  match t with
  | TNull => QNull
  | TBool b => QBool b
  | TNum text => QNumber text
  | TStr s => QStr s
  | TArr l => QArr (map jq_decode l)
  | TObj l => QObj ((fix go (l : list (bytes * bytes * jtree)) acc := match l with
                                        | [] => acc
                                        | (k, _, x) :: l' => go l' (set_jq_member k (jq_decode x) acc)
                                        end) l [])
  end.

Fixpoint normaliseJQNumbers (v : jqvalue) : option jqvalue :=
  match v with
  | QNumber text => jq_number text
  | QArr l => QArr <$> mapM normaliseJQNumbers l
  | QObj l => QObj <$> mapM (λ m : bytes * jqvalue, x ← normaliseJQNumbers m.2; Some (m.1, x)) l
  | other => Some other
  end.

Inductive jq_error := JQBodyNotJSON | JQInputShape | JQContext | JQNoOutput | JQHalted | JQEncode | JQTooLong.

Section jq.
Context {En : Engines} {G : Gojq}.

Definition jqProgram (rule : ScriptRule) : res string bytes :=
  match sr_jq rule with Some code => Ok code | None => compileJQProgram (sr_JQProgram rule) end.

(** [ended] is what [ctx.Err] says after the program has run. *)
Definition runJQ (code body : bytes) (settings : gmap bytes jvalue) (ended : bool) : res jq_error bytes :=
  match json_Parse body with
  | None => Err JQBodyNotJSON
  | Some t =>
      match normaliseJQNumbers (jq_decode t) with
      | None => Err JQBodyNotJSON
      | Some input =>
          match gojq_Run code input settings with
          | None => Err (if ended then JQContext else JQNoOutput)
          | Some (JqValue v) =>
              match jq_Marshal v with
              | None => Err JQEncode
              | Some encoded => if maxJQOutputBytes <? len encoded then Err JQTooLong else Ok encoded
              end
          | Some JqHalt => Err (if ended then JQContext else JQHalted)
          | Some JqError => Err (if ended then JQContext else JQInputShape)
          end
      end
  end.

(** The body of the message the phase owns. *)
Definition jq_body (rule : ScriptRule) (request : scriptMessage) (response : option scriptMessage) : res string bytes :=
  if bool_decide (sr_Phase rule = &"response")
  then match response with None => Err "no response to transform"%string | Some m => Ok (sm_Body m) end
  else Ok (sm_Body request).

(** The result, and whether a skipped action is logged. *)
Definition executeJQ (rule : ScriptRule) (request : scriptMessage) (response : option scriptMessage) (ended : bool) : res string scriptResult * bool :=
  match jqProgram rule with
  | Err e => (Err e, false)
  | Ok code =>
      match jq_body rule request response with
      | Err e => (Err e, false)
      | Ok body =>
          match runJQ code body (sr_settings rule) ended with
          | Ok transformed => (Ok (mkResult [] ∅ ∅ transformed 0 false false false true false false false), false)
          | Err JQBodyNotJSON => (Ok no_result, false)
          | Err JQInputShape => (Ok no_result, true)
          | Err _ => (Err "jq"%string, false)
          end
      end
  end.

(** A document the filter can be asked about: JSON whose numbers fit a type. *)
Definition jq_input (body : bytes) : option jqvalue := t ← json_Parse body; normaliseJQNumbers (jq_decode t).

(** C28 (error): an action changes the body only to the encoding of the first output of its program on the decoded
    document, at most 64 MiB.  It leaves the message alone only when the body is no such document, or
    when the program said, in time, that it cannot act on it, and only then is the skip logged.
    Whatever else happens the action fails: above all a program cut off by the end of the action
    never lets the body through. *)
Theorem jq_passes_through_exact (rule : ScriptRule) (request : scriptMessage) (response : option scriptMessage) (ended : bool)
    (code body : bytes) (Hcode : jqProgram rule = Ok code) (Hbody : jq_body rule request response = Ok body) :
  let '(r, logged) := executeJQ rule request response ended in
  (r = Ok no_result ↔ jq_input body = None
     ∨ ended = false ∧ ∃ input, jq_input body = Some input ∧ gojq_Run code input (sr_settings rule) = Some JqError)
  ∧ (∀ out, re_ChangedBody out = true → r = Ok out ↔
       ∃ input v encoded, jq_input body = Some input ∧ gojq_Run code input (sr_settings rule) = Some (JqValue v)
         ∧ jq_Marshal v = Some encoded ∧ len encoded <= maxJQOutputBytes
         ∧ out = mkResult [] ∅ ∅ encoded 0 false false false true false false false)
  ∧ (logged = true ↔ ended = false ∧ ∃ input, jq_input body = Some input ∧ gojq_Run code input (sr_settings rule) = Some JqError)
  ∧ (ended = true → is_Some (jq_input body) → (∀ v, (jq_input body ≫= λ input, gojq_Run code input (sr_settings rule)) ≠ Some (JqValue v)) → is_ok r = false).
Proof.
  unfold executeJQ. rewrite Hcode, Hbody. unfold runJQ, jq_input.
  destruct (json_Parse body) as [t|]; cbn [mbind option_bind].
  2: { split; [split; auto|]. split; [|split; [|by intros _ [? ?]]].
       - intros out Hch. split; [by intros [= <-] | by intros (? & ? & ? & ? & _)].
       - split; [done | by intros (_ & ? & ? & _)]. }
  destruct (normaliseJQNumbers (jq_decode t)) as [input|]; cbn [mbind option_bind].
  2: { split; [split; auto|]. split; [|split; [|by intros _ [? ?]]].
       - intros out Hch. split; [by intros [= <-] | by intros (? & ? & ? & ? & _)].
       - split; [done | by intros (_ & ? & ? & _)]. }
  destruct (gojq_Run code input (sr_settings rule)) as [[v| |]|] eqn:Er.
  - destruct (jq_Marshal v) as [encoded|] eqn:Em; [destruct (Z.ltb_spec maxJQOutputBytes (len encoded))|].
    all: (split; [|split; [|split; [|by intros _ _ Hno; destruct (Hno v)]]]).
    all: try (intros out Hch); split; try done; try naive_solver lia.
  - destruct ended; (split; [|split; [|split]]); try (intros out Hch); try split; try done; naive_solver.
  - destruct ended; (split; [|split; [|split]]); try (intros out Hch); try split; try done; naive_solver.
  - destruct ended; (split; [|split; [|split]]); try (intros out Hch); try split; try done; naive_solver.
Qed.
End jq.

(** ** Numbers *)

(** What the document says, with the value of every number. *)
Inductive normalised : jqvalue → jqvalue → Prop :=
| nd_null : normalised QNull QNull
| nd_bool b : normalised (QBool b) (QBool b)
| nd_str s : normalised (QStr s) (QStr s)
| nd_int text z : big_SetString text = Some z → - 2 ^ 63 <= z < 2 ^ 63 → normalised (QNumber text) (QInt z)
| nd_big text z : big_SetString text = Some z → ¬ (- 2 ^ 63 <= z < 2 ^ 63) → normalised (QNumber text) (QBig z)
| nd_float text x : big_SetString text = None → ParseFloat text = Some x → normalised (QNumber text) (QFloat x)
| nd_arr l l' : Forall2 normalised l l' → normalised (QArr l) (QArr l')
| nd_obj l l' : Forall2 (λ m m', m.1 = m'.1 ∧ normalised m.2 m'.2) l l' → normalised (QObj l) (QObj l').

Section ind.
Context (P : jqvalue → Prop)
  (Hnull : P QNull) (Hbool : ∀ b, P (QBool b)) (Hnum : ∀ t, P (QNumber t)) (Hint : ∀ z, P (QInt z)) (Hbig : ∀ z, P (QBig z))
  (Hfloat : ∀ x, P (QFloat x)) (Hstr : ∀ s, P (QStr s)) (Harr : ∀ l, Forall P l → P (QArr l)) (Hobj : ∀ l, Forall (λ m, P m.2) l → P (QObj l)).
Fixpoint jqvalue_tree_ind (v : jqvalue) : P v :=
  match v with
  | QNull => Hnull | QBool b => Hbool b | QNumber t => Hnum t | QInt z => Hint z | QBig z => Hbig z | QFloat x => Hfloat x | QStr s => Hstr s
  | QArr l => Harr l ((fix go (l : list jqvalue) : Forall P l := match l with [] => Forall_nil_2 _ | x :: l' => Forall_cons_2 _ _ _ (jqvalue_tree_ind x) (go l') end) l)
  | QObj l => Hobj l ((fix go (l : list (bytes * jqvalue)) : Forall (λ m, P m.2) l := match l with [] => Forall_nil_2 _ | m :: l' => Forall_cons_2 _ _ _ (jqvalue_tree_ind m.2) (go l') end) l)
  end.
End ind.

(** A decoded document holds no number that already has its type. *)
Inductive decoded : jqvalue → Prop :=
| dd_null : decoded QNull
| dd_bool b : decoded (QBool b)
| dd_num t : decoded (QNumber t)
| dd_str s : decoded (QStr s)
| dd_arr l : Forall decoded l → decoded (QArr l)
| dd_obj l : Forall (λ m, decoded m.2) l → decoded (QObj l).

Lemma ParseInt_big text : ParseInt text = match big_SetString text with Some z => if (- 2 ^ 63 <=? z) && (z <? 2 ^ 63) then Some z else None | None => None end.
Proof. unfold ParseInt, big_SetString. destruct (full_number text) as [n|]; [|done]. cbn. by destruct (n_frac n), (n_exp n). Qed.

Lemma int_range z : ((- 2 ^ 63 <=? z) && (z <? 2 ^ 63)) = true ↔ - 2 ^ 63 <= z < 2 ^ 63.
Proof. by rewrite andb_true_iff, Z.leb_le, Z.ltb_lt. Qed.

Lemma jq_number_exact text w : jq_number text = Some w ↔ normalised (QNumber text) w.
Proof.
  split.
  - unfold jq_number. rewrite ParseInt_big. destruct (big_SetString text) as [z|] eqn:Eb; [destruct (_ && _) eqn:Er|].
    + intros [= <-]. by apply nd_int, int_range.
    + intros [= <-]. apply nd_big; [done|]. intros Hz%int_range. congruence.
    + destruct (ParseFloat text) as [x|] eqn:Ef; [|done]. intros [= <-]. by apply nd_float.
  - inversion 1 as [| | |? z Eb Hz|? z Eb Hz|? x Eb Ex| |]; subst; unfold jq_number; rewrite ParseInt_big, Eb.
    + by rewrite (proj2 (int_range z) Hz).
    + destruct (_ && _) eqn:Er; [|done]. by apply int_range in Er.
    + by rewrite Ex.
Qed.

Lemma mapM_exact {A B} (f : A → option B) (R : A → B → Prop) (l : list A) (l' : list B) :
  Forall (λ x, ∀ y, f x = Some y ↔ R x y) l → mapM f l = Some l' ↔ Forall2 R l l'.
Proof.
  intros Hl. rewrite mapM_Some. split; intros H.
  - revert Hl. induction H as [|x y l l' Hx H IH]; intros Hl; [constructor|].
    apply Forall_cons in Hl as [Hf Hl]. constructor; [by apply Hf|]. by apply IH.
  - revert Hl. induction H as [|x y l l' Hx H IH]; intros Hl; [constructor|].
    apply Forall_cons in Hl as [Hf Hl]. constructor; [by apply Hf|]. by apply IH.
Qed.

Lemma normalise_decoded (v w : jqvalue) : decoded v → normaliseJQNumbers v = Some w ↔ normalised v w.
Proof.
  revert w. induction v as [| | | | | | |l IH|l IH] using jqvalue_tree_ind; intros w Hv; cbn [normaliseJQNumbers]; try (by inversion Hv).
  - split; [intros [= <-]; constructor | by inversion 1].
  - split; [intros [= <-]; constructor | by inversion 1].
  - apply jq_number_exact.
  - split; [intros [= <-]; constructor | by inversion 1].
  - inversion Hv as [| | | |? Hl|]; subst. assert (∀ l', mapM normaliseJQNumbers l = Some l' ↔ Forall2 normalised l l') as Hm.
    { intros l'. apply mapM_exact. apply Forall_forall. intros x Hx y. rewrite Forall_forall in IH, Hl. by apply IH, Hl. }
    rewrite fmap_Some. split; [intros (l' & ?%Hm & ->); by constructor|]. inversion 1; subst. eexists. split; [by apply Hm | done].
  - inversion Hv as [| | | | |? Hl]; subst. assert (∀ l', mapM (λ m : bytes * jqvalue, x ← normaliseJQNumbers m.2; Some (m.1, x)) l = Some l'
      ↔ Forall2 (λ m m', m.1 = m'.1 ∧ normalised m.2 m'.2) l l') as Hm.
    { intros l'. apply mapM_exact. apply Forall_forall. intros [k x] Hx [k' y]. rewrite Forall_forall in IH, Hl. specialize (IH _ Hx y (Hl _ Hx)). cbn in *.
      rewrite <- IH. destruct (normaliseJQNumbers x); cbn; naive_solver. }
    rewrite fmap_Some. split; [intros (l' & ?%Hm & ->); by constructor|]. inversion 1; subst. eexists. split; [by apply Hm | done].
Qed.

Section tree_ind.
Context (P : jtree → Prop) (Hnull : P TNull) (Hbool : ∀ b, P (TBool b)) (Hnum : ∀ t, P (TNum t)) (Hstr : ∀ s, P (TStr s))
  (Harr : ∀ l, Forall P l → P (TArr l)) (Hobj : ∀ l, Forall (λ m, P m.2) l → P (TObj l)).
Fixpoint jtree_tree_ind (t : jtree) : P t :=
  match t with
  | TNull => Hnull | TBool b => Hbool b | TNum t => Hnum t | TStr s => Hstr s
  | TArr l => Harr l ((fix go (l : list jtree) : Forall P l := match l with [] => Forall_nil_2 _ | x :: l' => Forall_cons_2 _ _ _ (jtree_tree_ind x) (go l') end) l)
  | TObj l => Hobj l ((fix go (l : list (bytes * bytes * jtree)) : Forall (λ m, P m.2) l := match l with [] => Forall_nil_2 _ | m :: l' => Forall_cons_2 _ _ _ (jtree_tree_ind m.2) (go l') end) l)
  end.
End tree_ind.

Lemma jq_decode_decoded t : decoded (jq_decode t).
Proof.
  induction t as [| | | |l IH|l IH] using jtree_tree_ind; cbn [jq_decode]; constructor.
  - by apply Forall_map.
  - assert (∀ acc : list (bytes * jqvalue), Forall (λ m, decoded m.2) acc → Forall (λ m, decoded m.2)
      ((fix go (l : list (bytes * bytes * jtree)) acc := match l with [] => acc | (k, _, x) :: l' => go l' (set_jq_member k (jq_decode x) acc) end) l acc)) as H; [|by apply H].
    induction l as [|[[k raw] x] l IHl]; intros acc Hacc; [done|]. apply Forall_cons in IH as [IHx IH]. apply IHl; [done|].
    unfold set_jq_member. apply Forall_app. split; [|by constructor]. apply Forall_forall. intros m [Hm _]%list_elem_of_In%filter_In.
    rewrite Forall_forall in Hacc. by apply Hacc, list_elem_of_In.
Qed.

(** The program gets every number of a document at its exact value: an integer of any size is never
    rounded, an [int] when it fits and a [*big.Int] when not; other numbers are the nearest [float64].
    A document is refused exactly when some number has no such value. *)
Theorem jq_numbers_exact (t : jtree) (w : jqvalue) : normaliseJQNumbers (jq_decode t) = Some w ↔ normalised (jq_decode t) w.
Proof. apply normalise_decoded, jq_decode_decoded. Qed.

(** The identity program on a 20-digit identifier, and one cut off by the end of the action. *)
Section witness.
#[local] Instance some_engines : Engines :=
  {| regexp_Compile _ := true; regexp_MatchString _ _ := true; goja_Compile _ _ := None; gojq_Compile _ := true; render_value _ := [] |}.
#[local] Instance identity_jq : Gojq :=
  {| gojq_Run code input _ := if bool_decide (code = &".") then Some (JqValue input) else Some JqError;
     jq_Marshal v := match v with QBig z | QInt z => Some (Itoa z) | _ => None end |}.
Definition jq_rule (program : bytes) : ScriptRule :=
  mkScriptRule (&"r") (&"request") (mkActionMatch [] [] [] [] []) None [] [] [] (&"text") [] program false None None None None 100 1024 None (Some program) ∅.
Definition wide_request : scriptMessage := mkMessage [] [] ∅ ∅ (&"10765432100123456789") 0.
Lemma jq_passes_through_exact_witness :
  (executeJQ (jq_rule (&".")) wide_request None false).1 = Ok (mkResult [] ∅ ∅ (&"10765432100123456789") 0 false false false true false false false)
  ∧ is_ok (executeJQ (jq_rule (&".a")) wide_request None true).1 = false.
Proof.
  split; [vm_compute; reflexivity|].
  pose proof (jq_passes_through_exact (jq_rule (&".a")) wide_request None true (&".a") (&"10765432100123456789") eq_refl eq_refl) as H.
  destruct (executeJQ (jq_rule (&".a")) wide_request None true) as [r logged]. destruct H as (_ & _ & _ & H). cbn [fst].
  apply H; [reflexivity | vm_compute; eexists; reflexivity | intros v Hv; vm_compute in Hv; discriminate Hv].
Defined.
End witness.
