(* ===== verification/ModuleNetwork.v ===== *)
(** * The client a script calls ([module_network.go], and the request options of
      [module_compat.go])

    A request is built on the goroutine that owns the interpreter, from the
    options the script gave; it is then the requester's alone.  The round trip
    itself is [net/http]'s.  A requester belongs to one action; the slots are
    the process's. *)
From stdpp Require Import gmap.
From S2P Require Import Prelude GoStrings GoNet ConfigTypes Json HostPatterns ScriptConfig Settings ConfigValidate RoutingRules HttpHeaders Templates DeclarativeActions ScriptResults.

Definition maxModuleNetworkRequestBody : Z := Z.shiftl 1 20.
Definition maxModuleNetworkCallsPerAction : Z := 4.
Definition maxConcurrentModuleNetworkCalls : nat := 8.

Record moduleNetworkRequest := mkNetworkRequest {
  nr_url : URL;
  nr_origin : bytes;
  nr_target : socksTarget;
  nr_method : bytes;
  nr_headers : Header;
  nr_body : bytes;
  nr_hasBody : bool;
}.

Section request.
Context {U : UnicodeCase} {F : Floats} {P : TextParsers}.

(** The destination [parseModuleNetworkRequestURL] gives for the origin it computed. *)
Definition request_target (origin : bytes) : option socksTarget :=
  o ← url_Parse origin;
  let portText := if nonempty (url_Port o) then url_Port o else if bool_decide (url_Scheme o = &"https") then &"443" else &"80" in
  port ← Atoi portText;
  Some (mkTarget (canonicalHost (url_Hostname o)) port).

Definition validModuleNetworkMethod (method : bytes) : bool :=
  negb (bool_decide (method = [])) && forallb isModuleNetworkTokenByte method.

Definition managed_header (name : bytes) : bool :=
  containsString [&"host"; &"content-length"; &"proxy-authorization"] (ToLower name).

Definition header_permitted (name : bytes) (values : list bytes) : bool :=
  validModuleNetworkHeaderName name && negb (isHopByHopHeader name && negb (EqualFold name (&"Te")))
  && negb (managed_header name)
  && forallb (λ value, negb (ContainsByte value 13 || ContainsByte value 10)) values.

Definition header_size (h : Header) : Z :=
  total (map (λ kv, len kv.1 + total (map (λ v, len v) kv.2)) (map_to_list h)).

Definition validateModuleNetworkHeaders (h : Header) : res string Header :=
  match normalizeRequestTEHeader h with
  | Err _ => Err "TE"%string
  | Ok h =>
      _ ← reject_if (negb (forallb (λ kv, header_permitted kv.1 kv.2) (map_to_list h))) "header is not permitted"%string;
      _ ← reject_if (maxModuleNetworkHeaderBytes <? header_size h) "request headers exceed the limit"%string;
      Ok h
  end.

(** A field that is not there yet. *)
Definition default_field (name value : bytes) (h : Header) : Header :=
  match h !! name with Some _ => h | None => <[name := [value]]> h end.

Definition of_result {A} (r : res result_error A) : res string A := match r with Ok a => Ok a | Err _ => Err "value"%string end.

Definition newModuleNetworkRequest (options : gmap bytes goval) : res string moduleNetworkRequest :=
  _ ← reject_if (negb (only_keys [&"url"; &"method"; &"headers"; &"body"] options)) "unsupported option"%string;
  match options !! (&"url") with
  | Some (GString rawURL) =>
      _ ← reject_if (bool_decide (rawURL = []) || (4096 <? len rawURL)) "url"%string;
      '(parsed, origin) ← parseModuleNetworkRequestURL rawURL;
      match request_target origin with
      | None => Err "port"%string
      | Some target =>
          method ← match options !! (&"method") with
                   | None => Ok (&"GET")
                   | Some (GString method) => if validModuleNetworkMethod method then Ok method else Err "method"%string
                   | Some _ => Err "method"%string
                   end;
          headers ← match options !! (&"headers") with None => Ok ∅ | Some raw => of_result (exportedHeaders raw) end;
          body ← match options !! (&"body") with
                 | None => Ok []
                 | Some raw =>
                     body ← of_result (exportedBody raw);
                     _ ← reject_if (maxModuleNetworkRequestBody <? len body) "request body exceeds the limit"%string;
                     Ok body
                 end;
          headers ← validateModuleNetworkHeaders (default_field (&"Accept-Encoding") (&"identity") (default_field (&"User-Agent") [] headers));
          Ok (mkNetworkRequest parsed origin target method headers body (bool_decide (is_Some (options !! (&"body")))))
      end
  | _ => Err "url"%string
  end.

(** [DialContext] of the transport of a request. *)
Definition dial_permitted (target : socksTarget) (address : bytes) : bool :=
  match SplitHostPort address with
  | None => false
  | Some (host, port) => bool_decide (canonicalHost host = t_Host target) && bool_decide (port = Itoa (t_Port target))
  end.

(** ** The options of [$httpClient] *)
Definition methodToken (method : bytes) : bytes :=
  if bool_decide (method = &"get") then &"GET" else if bool_decide (method = &"post") then &"POST"
  else if bool_decide (method = &"put") then &"PUT" else if bool_decide (method = &"delete") then &"DELETE"
  else if bool_decide (method = &"head") then &"HEAD" else if bool_decide (method = &"patch") then &"PATCH" else &"GET".

Definition keep_option (source : gmap bytes goval) (key : bytes) (options : gmap bytes goval) : gmap bytes goval :=
  match source !! key with Some v => <[key := v]> options | None => options end.

(** The options for the requester, and whether the body is wanted as bytes. *)
Definition compatRequestOptions (raw : option goval) (method : bytes) : option (gmap bytes goval * bool) :=
  let options := {[ &"method" := GString (methodToken method) ]} in
  match raw with
  | None => None
  | Some (GString url) => Some (<[ &"url" := GString url ]> options, false)
  | Some v =>
      source ← stringAnyMap v;
      let options := keep_option source (&"body") (keep_option source (&"headers") (keep_option source (&"url") options)) in
      if bool_decide (options !! (&"url") = None) then None
      else Some (options, match source !! (&"binary-mode") with Some (GBool b) => b | _ => false end)
  end.

Definition flatCompatHeaders (h : Header) : gmap bytes bytes := omap head h.

(** ** What an accepted request is *)

(** An origin a script may name: HTTP or HTTPS, a host that is a name and not local, a port in range. *)
Definition permitted_origin (origin : bytes) : Prop :=
  ∃ scheme host port, containsString [&"http"; &"https"] scheme = true
  ∧ host ≠ [] ∧ ParseIP host = None ∧ validHostTarget host = true ∧ ContainsByte host #":" = false ∧ 1 <= port <= 65535
  ∧ origin = if bool_decide (Itoa port = if bool_decide (scheme = &"https") then &"443" else &"80") then scheme ++ &"://" ++ host
             else scheme ++ &"://" ++ JoinHostPort host (Itoa port).

Definition field_permitted (name : bytes) (values : list bytes) : Prop :=
  validModuleNetworkHeaderName name = true ∧ managed_header name = false
  ∧ (isHopByHopHeader name = false ∨ name = (&"Te") ∧ values = [&"trailers"])
  ∧ Forall (λ value, 13 ∉ value ∧ 10 ∉ value) values.

Lemma only_keys_spec (keys : list bytes) (m : gmap bytes goval) (key : bytes) : only_keys keys m = true → is_Some (m !! key) → key ∈ keys.
Proof.
  intros Hk [v Hv]. unfold only_keys in Hk. rewrite forallb_forall in Hk.
  specialize (Hk (key, v) (proj1 (list_elem_of_In _ _) (proj2 (elem_of_map_to_list m key v) Hv))). by apply containsString_true in Hk.
Qed.

Lemma canonical_origin_permitted raw origin : canonicalModuleNetworkOrigin raw = Ok origin → permitted_origin origin.
Proof.
  unfold canonicalModuleNetworkOrigin. intros E. apply bind_Ok_inv in E as ([] & _ & E). destruct (url_Parse raw) as [u|]; [|done].
  apply bind_Ok_inv in E as ([] & _ & E). apply bind_Ok_inv in E as ([] & _ & E).
  apply bind_Ok_inv in E as ([] & Hs%reject_if_Ok & E). apply bind_Ok_inv in E as ([] & Hh%reject_if_Ok & E).
  apply bind_Ok_inv in E as ([] & _ & E). set (port := if bool_decide (url_Port u = []) then _ else _) in E.
  destruct (Atoi port) as [n|]; [|done]. apply bind_Ok_inv in E as ([] & Hn%reject_if_Ok & E). injection E as <-. bools.
  exists (ToLower (url_Scheme u)), (canonicalHost (url_Hostname u)), n. repeat split; try done; try lia.
  by destruct (ParseIP _).
Qed.

Lemma request_url_permitted raw u origin : parseModuleNetworkRequestURL raw = Ok (u, origin) → permitted_origin origin.
Proof.
  unfold parseModuleNetworkRequestURL. intros E. apply bind_Ok_inv in E as ([] & _ & E). destruct (url_Parse raw) as [v|]; [|done].
  apply bind_Ok_inv in E as ([] & _ & E). apply bind_Ok_inv in E as (o & Eo%canonical_origin_permitted & E).
  destruct (url_Parse o); [|done]. destruct (Atoi _); [|done]. by injection E as _ <-.
Qed.

Lemma default_field_fine n name value h : header_fine n h → validModuleNetworkHeaderName name = true → CanonicalHeaderKey name = name →
  value_ok value → header_fine (n + 1) (default_field name value h).
Proof.
  intros Hf Hv Hc Hok. unfold default_field. destruct (h !! name); [by eapply fine_weaken; [|done]; lia|].
  rewrite <- Hc. by apply fine_insert; [..|apply Forall_singleton].
Qed.
Lemma default_field_some name value h : is_Some (default_field name value h !! name).
Proof. unfold default_field. destruct (h !! name) as [v|] eqn:E; [by rewrite E|]. rewrite lookup_insert_eq. by eexists. Qed.
Lemma default_field_keeps name value h k : is_Some (h !! k) → is_Some (default_field name value h !! k).
Proof.
  unfold default_field. destruct (h !! name) as [v|]; [done|]. intros Hk. destruct (decide (name = k)) as [->|]; [rewrite lookup_insert_eq; by eexists|].
  by rewrite lookup_insert_ne.
Qed.

(** The normalisation of TE leaves the other fields alone. *)
Lemma te_keeps h h' n k : header_fine n h → normalizeRequestTEHeader h = Ok h' → k ≠ (&"Te") → h' !! k = h !! k.
Proof.
  intros [Hs Hf]. unfold normalizeRequestTEHeader. destruct (te_fields h) as [|[name [|value []]] [|]] eqn:El; try done; [by intros [= <-]|].
  destruct (is_trailers value); [|done]. intros [= <-] Hk.
  assert ((name, [value]) ∈ te_fields h) as Hin by (rewrite El; left).
  unfold te_fields in Hin. rewrite list_elem_of_In, filter_In, <- list_elem_of_In, elem_of_map_to_list in Hin. destruct Hin as [Hn En].
  destruct (Hf _ _ Hn) as (Hv & Hc & _). cbn [fst] in En. rewrite canonical_fold in En by done. apply bool_decide_eq_true in En. subst name.
  unfold header_Set. change (CanonicalHeaderKey (&"Te")) with (&"Te"). rewrite lookup_insert_ne by done. by rewrite lookup_delete_ne.
Qed.

Lemma validated_network_headers n h h' : header_fine n h → validateModuleNetworkHeaders h = Ok h' →
  (∀ k values, h' !! k = Some values → field_permitted k values) ∧ header_size h' <= maxModuleNetworkHeaderBytes
  ∧ ∀ k, k ≠ (&"Te") → h' !! k = h !! k.
Proof.
  intros Hf. unfold validateModuleNetworkHeaders. destruct (normalizeRequestTEHeader h) as [g|] eqn:Eg; [|done]. intros E.
  apply bind_Ok_inv in E as ([] & Hp%reject_if_Ok & E). apply bind_Ok_inv in E as ([] & Hl%reject_if_Ok & E). injection E as <-. bools.
  destruct (te_typed _ _ _ Hf Eg) as [_ Hte]. split; [|split; [lia | intros k; by eapply te_keeps]].
  intros k values Hk. rewrite forallb_forall in Hp. specialize (Hp (k, values)). rewrite <- list_elem_of_In, elem_of_map_to_list in Hp.
  specialize (Hp Hk). unfold header_permitted in Hp. cbn [fst snd] in Hp. bools.
  split; [done|]. split; [done|]. split.
  - destruct (isHopByHopHeader k) eqn:Eh; [right | by left]. apply (Hte k values Hk). by destruct (EqualFold k _).
  - apply Forall_forall. intros v Hv. match goal with H : forallb _ values = true |- _ => rewrite forallb_forall in H; specialize (H v (proj1 (list_elem_of_In _ _) Hv)) end.
    bools. split; by apply ContainsByte_false.
Qed.

(** C14 (safety): what a script asks for is bounded: only the four options, a method that is a token, at most 64 KiB
    of headers that are tokens with values without line breaks and none of them managed by the
    runtime or hop-by-hop (but [TE: trailers]), a body of at most 1 MiB.  It is bound to one HTTP or
    HTTPS origin whose host is a name and not local, and its transport dials that origin only. *)
Theorem network_request_safe (options : gmap bytes goval) (r : moduleNetworkRequest) : newModuleNetworkRequest options = Ok r →
  (∀ key, is_Some (options !! key) → key ∈ [&"url"; &"method"; &"headers"; &"body"])
  ∧ (∃ raw, options !! (&"url") = Some (GString raw) ∧ len raw <= 4096 ∧ parseModuleNetworkRequestURL raw = Ok (nr_url r, nr_origin r))
  ∧ permitted_origin (nr_origin r) ∧ request_target (nr_origin r) = Some (nr_target r)
  ∧ (∀ address, dial_permitted (nr_target r) address = true →
       ∃ host port, SplitHostPort address = Some (host, port) ∧ canonicalHost host = t_Host (nr_target r) ∧ port = Itoa (t_Port (nr_target r)))
  ∧ validModuleNetworkMethod (nr_method r) = true
  ∧ (∀ name values, nr_headers r !! name = Some values → field_permitted name values)
  ∧ header_size (nr_headers r) <= 65536 ∧ is_Some (nr_headers r !! (&"User-Agent")) ∧ is_Some (nr_headers r !! (&"Accept-Encoding"))
  ∧ len (nr_body r) <= 1048576 ∧ (nr_hasBody r = false → nr_body r = []).
Proof.
  unfold newModuleNetworkRequest. intros E. apply bind_Ok_inv in E as ([] & Hk%reject_if_Ok & E). apply negb_false_iff in Hk.
  destruct (options !! (&"url")) as [[]|] eqn:Eu; try done. apply bind_Ok_inv in E as ([] & Hu%reject_if_Ok & E).
  apply bind_Ok_inv in E as ([parsed origin] & Ep & E). destruct (request_target origin) as [target|] eqn:Et; [|done].
  apply bind_Ok_inv in E as (method & Em & E). apply bind_Ok_inv in E as (headers & Eh & E). apply bind_Ok_inv in E as (body & Eb & E).
  apply bind_Ok_inv in E as (final & Ef & E). injection E as <-. cbn [nr_url nr_origin nr_target nr_method nr_headers nr_body nr_hasBody]. bools.
  assert (header_fine maxScriptHeaderFields headers) as Hf.
  { destruct (options !! (&"headers")) as [raw|]; [|injection Eh as <-; eapply fine_weaken; [|apply fine_empty]; done].
    apply (exportedHeaders_fine raw). unfold of_result in Eh. by destruct (exportedHeaders raw) as [?|?]; [injection Eh as <-|]. }
  apply (default_field_fine _ (&"User-Agent") [] headers) in Hf; [|done..].
  apply (default_field_fine _ (&"Accept-Encoding") (&"identity")) in Hf; [|done..].
  destruct (validated_network_headers _ _ _ Hf Ef) as (Hp & Hl & Hsame).
  split. { intros key Hkey. by eapply only_keys_spec. }
  split; [exists s; split; [done|]; split; [lia | done]|]. split; [by eapply request_url_permitted|]. split; [done|].
  split. { unfold dial_permitted. intros address Ha. destruct (SplitHostPort address) as [[host port]|]; [|done]. exists host, port. by bools. }
  split. { destruct (options !! (&"method")) as [[]|]; try done; [|by injection Em as <-]. destruct (validModuleNetworkMethod _) eqn:Ev; [by injection Em as <-|done]. }
  split; [done|]. split; [done|].
  split. { rewrite Hsame by done. apply default_field_keeps, default_field_some. }
  split. { rewrite Hsame by done. apply default_field_some. }
  destruct (options !! (&"body")) as [raw|] eqn:Eraw; [|by injection Eb as <-]. apply bind_Ok_inv in Eb as (b & _ & Eb).
  apply bind_Ok_inv in Eb as ([] & Hb%reject_if_Ok & Eb). injection Eb as <-. split; [unfold maxModuleNetworkRequestBody in Hb; change (Z.shiftl 1 20) with 1048576 in Hb; lia|].
  intros Hno%bool_decide_eq_false. destruct Hno. exists raw. exact Eraw.
Qed.
End request.

(** ** A requester, its calls and its connections

    The goroutine of the interpreter makes calls, each call runs
    [performRequest] on a goroutine of its own, and [Close] runs when the action
    ends.  A step is what happens between two operations on shared state: the
    slots, the map of transports under the lock, the flag [closed]. *)
Module Requester.

Inductive call_phase :=
| Waiting (waits : bool)               (** before the slot; [requestWaiting] or [request] *)
| Holding                              (** a slot is taken, no transport yet *)
| Using (transport : nat)              (** the round trip; the check of [closed] is deferred *)
| Checked (transport : nat) (closed : bool).  (** [closed] has been read, the slot is not given back yet *)

Record requesterState := mkRequester {
  rs_transports : gmap bytes nat;      (** the transport of an origin *)
  rs_closed : bool;
  rs_next : nat;                       (** the next transport *)
  rs_closing : list nat;               (** what [Close] has still to sweep *)
  rs_calls : gmap nat call_phase;
  rs_spent : Z;                        (** the calls the script made *)
  rs_others : nat;                     (** slots held by the calls of other actions *)
  rs_idle : gset nat;                  (** transports that keep an idle connection *)
}.

Definition newModuleNetworkRequester (others : nat) : requesterState := mkRequester ∅ false 0 [] ∅ 0 others ∅.

Definition holds (p : call_phase) : bool := match p with Waiting _ => false | _ => true end.
Definition held (calls : gmap nat call_phase) : nat := size (filter (λ kv, holds kv.2 = true) calls).
Definition slots_used (s : requesterState) : nat := (rs_others s + held (rs_calls s))%nat.

Definition with_calls (calls : gmap nat call_phase) (s : requesterState) : requesterState :=
  mkRequester (rs_transports s) (rs_closed s) (rs_next s) (rs_closing s) calls (rs_spent s) (rs_others s) (rs_idle s).
Definition at_phase (c : nat) (p : call_phase) (s : requesterState) : requesterState := with_calls (<[c := p]> (rs_calls s)) s.
Definition ended (c : nat) (s : requesterState) : requesterState := with_calls (delete c (rs_calls s)) s.
Definition with_idle (idle : gset nat) (s : requesterState) : requesterState :=
  mkRequester (rs_transports s) (rs_closed s) (rs_next s) (rs_closing s) (rs_calls s) (rs_spent s) (rs_others s) idle.
Definition with_others (others : nat) (s : requesterState) : requesterState :=
  mkRequester (rs_transports s) (rs_closed s) (rs_next s) (rs_closing s) (rs_calls s) (rs_spent s) others (rs_idle s).

(** [spend] of an API object: the call that exceeds the budget is counted too. *)
Definition spend (s : requesterState) : requesterState :=
  mkRequester (rs_transports s) (rs_closed s) (rs_next s) (rs_closing s) (rs_calls s) (rs_spent s + 1) (rs_others s) (rs_idle s).
Definition start_call (c : nat) (waits : bool) (s : requesterState) : option requesterState :=
  match rs_calls s !! c with
  | Some _ => None
  | None => let s := spend s in Some (if maxModuleNetworkCallsPerAction <? rs_spent s then s else at_phase c (Waiting waits) s)
  end.

(** The select of [performRequest]: only a call that waits blocks when no slot is free. *)
Definition take_slot (c : nat) (s : requesterState) : option requesterState :=
  match rs_calls s !! c with
  | Some (Waiting waits) =>
      if (slots_used s <? maxConcurrentModuleNetworkCalls)%nat then Some (at_phase c Holding s)
      else if waits then None else Some (ended c s)
  | _ => None
  end.

Definition transport (c : nat) (origin : bytes) (s : requesterState) : option requesterState :=
  match rs_calls s !! c with
  | Some Holding =>
      Some (if rs_closed s then ended c s
            else match rs_transports s !! origin with
                 | Some t => at_phase c (Using t) s
                 | None => at_phase c (Using (rs_next s))
                             (mkRequester (<[origin := rs_next s]> (rs_transports s)) (rs_closed s) (S (rs_next s)) (rs_closing s)
                                (rs_calls s) (rs_spent s) (rs_others s) (rs_idle s))
                 end)
  | _ => None
  end.

(** [closeTransportIfRequesterClosed]: the flag is read under the lock, the sweep is outside it. *)
Definition check_closed (c : nat) (s : requesterState) : option requesterState :=
  match rs_calls s !! c with Some (Using t) => Some (at_phase c (Checked t (rs_closed s)) s) | _ => None end.
Definition finish_call (c : nat) (s : requesterState) : option requesterState :=
  match rs_calls s !! c with
  | Some (Checked t closed) => Some (ended c (if closed then with_idle (rs_idle s ∖ {[t]}) s else s))
  | _ => None
  end.

Definition Close (s : requesterState) : requesterState :=
  if rs_closed s then s
  else mkRequester ∅ true (rs_next s) (map snd (map_to_list (rs_transports s))) (rs_calls s) (rs_spent s) (rs_others s) (rs_idle s).
Definition sweep (s : requesterState) : option requesterState :=
  match rs_closing s with
  | [] => None
  | t :: rest => Some (mkRequester (rs_transports s) (rs_closed s) (rs_next s) rest (rs_calls s) (rs_spent s) (rs_others s) (rs_idle s ∖ {[t]}))
  end.

Inductive net_event :=
| EvCall (c : nat) (waits : bool) | EvSlot (c : nat) | EvGiveUp (c : nat) | EvTransport (c : nat) (origin : bytes)
| EvIdle (c : nat) | EvExpire (t : nat) | EvCheck (c : nat) | EvFinish (c : nat) | EvClose | EvSweep | EvOtherTakes | EvOtherGives.

(** What may happen; [None] where it may not.  A connection becomes idle while
    its round trip runs, and may be dropped by its other end at any time. *)
Definition net_step (s : requesterState) (e : net_event) : option requesterState :=
  match e with
  | EvCall c waits => start_call c waits s
  | EvSlot c => take_slot c s
  | EvGiveUp c => match rs_calls s !! c with Some (Waiting true) | Some Holding => Some (ended c s) | _ => None end
  | EvTransport c origin => transport c origin s
  | EvIdle c => match rs_calls s !! c with Some (Using t) => Some (with_idle ({[t]} ∪ rs_idle s) s) | _ => None end
  | EvExpire t => Some (with_idle (rs_idle s ∖ {[t]}) s)
  | EvCheck c => check_closed c s
  | EvFinish c => finish_call c s
  | EvClose => Some (Close s)
  | EvSweep => sweep s
  | EvOtherTakes => if (slots_used s <? maxConcurrentModuleNetworkCalls)%nat then Some (with_others (S (rs_others s)) s) else None
  | EvOtherGives => match rs_others s with S n => Some (with_others n s) | O => None end
  end.

Fixpoint net_run (s : requesterState) (es : list net_event) : option requesterState :=
  match es with [] => Some s | e :: es => s' ← net_step s e; net_run s' es end.

(** ** Slots and the budget of an action *)
Definition bounded (s : requesterState) : Prop :=
  (slots_used s <= maxConcurrentModuleNetworkCalls)%nat ∧ 0 <= rs_spent s
  ∧ Z.of_nat (size (rs_calls s)) <= Z.min (rs_spent s) maxModuleNetworkCallsPerAction.

Lemma held_delete c p m : m !! c = Some p → held m = (Nat.b2n (holds p) + held (delete c m))%nat.
Proof.
  intros Hc. unfold held. rewrite map_filter_delete. rewrite <- (insert_id m c p Hc) at 1. rewrite map_filter_insert. cbn [snd].
  destruct (holds p) eqn:Ep; [rewrite decide_True by done | rewrite decide_False by done].
  - rewrite <- insert_delete_eq, map_size_insert_None by apply lookup_delete_eq. done.
  - by rewrite map_filter_delete.
Qed.
Lemma held_none c m : m !! c = None → held (delete c m) = held m.
Proof. intros Hc. by rewrite delete_id. Qed.
Lemma held_insert c p m : held (<[c := p]> m) = (Nat.b2n (holds p) + held (delete c m))%nat.
Proof. rewrite (held_delete c p) by apply lookup_insert_eq. by rewrite delete_insert_eq. Qed.
Lemma size_update {A} c (p q : A) (m : gmap nat A) : m !! c = Some q → size (<[c := p]> m) = size m.
Proof. intros Hc. apply map_size_insert_Some. by exists q. Qed.
Lemma size_remove {A} c (m : gmap nat A) : (size (delete c m) <= size m)%nat.
Proof. apply map_subseteq_size, delete_subseteq. Qed.

(** Moving a call to a phase that holds no more than the slot it had or may take. *)
Lemma bounded_phase c p q s : rs_calls s !! c = Some q → bounded s →
  (holds q = true ∨ (slots_used s < maxConcurrentModuleNetworkCalls)%nat) → bounded (at_phase c p s).
Proof.
  intros Hc (Hs & H0 & Hn) Hq. unfold bounded, slots_used in *. cbn [at_phase with_calls rs_calls rs_others rs_spent].
  rewrite (size_update _ _ _ _ Hc), held_insert. rewrite (held_delete _ _ _ Hc) in Hs, Hq. split; [|done].
  destruct Hq as [E|?]; [rewrite E in *|]; destruct (holds p); cbn [Nat.b2n] in *; try lia; destruct (holds q); cbn [Nat.b2n] in *; lia.
Qed.
Lemma bounded_ended c s : bounded s → bounded (ended c s).
Proof.
  intros (Hs & H0 & Hn). unfold bounded, slots_used in *. cbn [ended with_calls rs_calls rs_others rs_spent].
  pose proof (size_remove c (rs_calls s)). split; [|lia]. destruct (rs_calls s !! c) as [p|] eqn:Hc.
  - rewrite (held_delete _ _ _ Hc) in Hs. lia.
  - by rewrite held_none.
Qed.

Lemma bounded_step s e s' : bounded s → net_step s e = Some s' → bounded s'.
Proof.
  intros Hb. assert (bounded s) as (Hs & H0 & Hn) by done. unfold maxModuleNetworkCallsPerAction in Hn. destruct e; cbn [net_step]; unfold start_call, take_slot, transport, check_closed, finish_call, sweep.
  - destruct (rs_calls s !! c) eqn:Hc; [done|]. intros [= <-]. cbn [spend rs_spent]. destruct (Z.ltb_spec maxModuleNetworkCallsPerAction (rs_spent s + 1)).
    + unfold bounded, slots_used, maxModuleNetworkCallsPerAction in *. cbn [spend at_phase with_calls with_others rs_others rs_calls rs_spent Nat.b2n holds]. split; [done|]. lia.
    + unfold bounded, slots_used, maxModuleNetworkCallsPerAction in *. cbn [spend at_phase with_calls with_others rs_others rs_calls rs_spent Nat.b2n holds]. rewrite map_size_insert_None, held_insert, held_none by done. cbn. split; [done|]. lia.
  - destruct (rs_calls s !! c) as [[waits| | |]|] eqn:Hc; try done. destruct (Nat.ltb_spec (slots_used s) maxConcurrentModuleNetworkCalls).
    + intros [= <-]. eapply bounded_phase; eauto.
    + destruct waits; [done|]. intros [= <-]. by apply bounded_ended.
  - destruct (rs_calls s !! c) as [[[]| | |]|]; try done; intros [= <-]; by apply bounded_ended.
  - destruct (rs_calls s !! c) as [[| | |]|] eqn:Hc; try done. destruct (rs_closed s); [intros [= <-]; by apply bounded_ended|].
    intros [= <-]. destruct (rs_transports s !! origin); (eapply bounded_phase; [exact Hc | done | by left]).
  - destruct (rs_calls s !! c) as [[| | |]|]; try done. by intros [= <-].
  - by intros [= <-].
  - destruct (rs_calls s !! c) as [[| | |]|] eqn:Hc; try done. intros [= <-]. eapply bounded_phase; [exact Hc | done | by left].
  - destruct (rs_calls s !! c) as [[| | |t []]|]; try done; intros [= <-]; by apply bounded_ended.
  - intros [= <-]. unfold Close. by destruct (rs_closed s).
  - destruct (rs_closing s); [done|]. by intros [= <-].
  - destruct (Nat.ltb_spec (slots_used s) maxConcurrentModuleNetworkCalls); [|done]. intros [= <-]. unfold bounded, slots_used, maxModuleNetworkCallsPerAction in *. cbn [spend at_phase with_calls with_others rs_others rs_calls rs_spent Nat.b2n holds]. lia.
  - destruct (rs_others s) eqn:Eo; [done|]. intros [= <-]. unfold bounded, slots_used, maxModuleNetworkCallsPerAction in *. cbn [spend at_phase with_calls with_others rs_others rs_calls rs_spent Nat.b2n holds]. lia.
Qed.

(** ** Idle connections *)

(** Whoever is going to drop the idle connection of a transport: the requester while it is open, its
    [Close], or a call whose deferred check runs later or saw that it is closed. *)
Definition accounted (s : requesterState) (t : nat) : Prop :=
  (∃ origin, rs_transports s !! origin = Some t) ∨ t ∈ rs_closing s
  ∨ ∃ c, rs_calls s !! c = Some (Using t) ∨ rs_calls s !! c = Some (Checked t true).

Definition swept (s : requesterState) : Prop :=
  (∀ t, t ∈ rs_idle s → accounted s t)
  ∧ (rs_closed s = true → rs_transports s = ∅)
  ∧ (rs_closed s = false → rs_closing s = []
     ∧ ∀ c t, rs_calls s !! c = Some (Using t) → ∃ origin, rs_transports s !! origin = Some t).

(** A change of one call keeps the account of every transport the call does not answer for. *)
Lemma accounted_change s s' c p t : rs_calls s !! c = p → p ≠ Some (Using t) → p ≠ Some (Checked t true) →
  rs_transports s' = rs_transports s → rs_closing s' = rs_closing s →
  (∀ d, d ≠ c → rs_calls s' !! d = rs_calls s !! d) → accounted s t → accounted s' t.
Proof.
  intros Hc H1 H2 Et Ec Hd Ha. unfold accounted. rewrite Et, Ec. destruct Ha as [?|[?|(d & Hin)]]; [by left | by right; left|].
  right. right. exists d. rewrite Hd; [done|]. intros ->. rewrite Hc in Hin. by destruct Hin.
Qed.

Lemma swept_phase s c p q : swept s → rs_calls s !! c = q → (∀ t, q ≠ Some (Using t)) → (∀ t, q ≠ Some (Checked t true)) →
  (∀ t, p ≠ Using t) → swept (at_phase c p s).
Proof.
  intros (Hi & Hc & Hu) Hq Hq1 Hq2 Hp. split; [|split; [done|]].
  - intros t Ht. eapply accounted_change; [exact Hq | apply Hq1 | apply Hq2 | done | done | | by apply Hi].
    intros d Hd. cbn. by rewrite lookup_insert_ne.
  - intros Ho. destruct (Hu Ho) as [? Hus]. split; [done|]. intros d t; cbn; intros [[-> E]|[_ Hd]]%lookup_insert_Some; [by destruct (Hp t)|]. by eapply Hus.
Qed.
Lemma swept_ended s c q : swept s → rs_calls s !! c = q → (∀ t, q ≠ Some (Using t)) → (∀ t, q ≠ Some (Checked t true)) → swept (ended c s).
Proof.
  intros (Hi & Hc & Hu) Hq Hq1 Hq2. split; [|split; [done|]].
  - intros t Ht. eapply accounted_change; [exact Hq | apply Hq1 | apply Hq2 | done | done | | by apply Hi].
    intros d Hd. cbn. by rewrite lookup_delete_ne.
  - intros Ho. destruct (Hu Ho) as [? Hus]. split; [done|]. intros d t; cbn; intros [_ Hd]%lookup_delete_Some. by eapply Hus.
Qed.
Lemma swept_less s idle : swept s → idle ⊆ rs_idle s → swept (with_idle idle s).
Proof. intros (Hi & Hc & Hu) Hsub. split; [|split; [exact Hc | exact Hu]]. intros t Ht. apply (Hi t). by apply Hsub. Qed.

Lemma swept_transport s c origin s' : swept s → transport c origin s = Some s' → swept s'.
Proof.
  intros Hsw. assert (swept s) as (Hi & Hc & Hu) by done. unfold transport. destruct (rs_calls s !! c) as [[| | |]|] eqn:Hcall; try done.
  destruct (rs_closed s) eqn:Eo; intros [= <-]; [by eapply swept_ended|]. destruct (Hu eq_refl) as [Hnil Hus].
  destruct (rs_transports s !! origin) as [u|] eqn:Et.
  - split; [|split; [cbn; intros; congruence|]].
    + intros t Ht. eapply accounted_change; [exact Hcall | done | done | done | done | | by apply Hi]. intros d Hd. cbn. by rewrite lookup_insert_ne.
    + intros _. split; [done|]. intros d t; cbn; intros [[-> [= ->]]|[_ Hd]]%lookup_insert_Some; [by exists origin|]. by eapply Hus.
  - split; [|split; [cbn; intros; congruence|]].
    + intros t Ht. destruct (Hi t Ht) as [(o & Ho)|[Hcl|(d & Hd)]].
      * left. exists o. cbn. rewrite lookup_insert_ne; [done|congruence].
      * by right; left.
      * right. right. exists d. cbn. rewrite lookup_insert_ne; [done|]. intros <-. rewrite Hcall in Hd. by destruct Hd.
    + intros _. split; [done|]. intros d t; cbn; intros [[-> [= <-]]|[_ Hd]]%lookup_insert_Some; [exists origin; cbn; by rewrite lookup_insert_eq|].
      destruct (Hus d t Hd) as [o Ho]. exists o. cbn. rewrite lookup_insert_ne; [done|congruence].
Qed.

Lemma swept_check s c s' : swept s → check_closed c s = Some s' → swept s'.
Proof.
  intros (Hi & Hc & Hu). unfold check_closed. destruct (rs_calls s !! c) as [[| |u|]|] eqn:Hcall; try done. intros [= <-].
  split; [|split; [done|]].
  - intros t Ht. destruct (Hi t Ht) as [?|[?|(d & Hd)]]; [by left | by right; left|]. destruct (decide (d = c)) as [->|Hne].
    + rewrite Hcall in Hd. destruct Hd as [[= ->]|?]; [|done]. destruct (rs_closed s) eqn:Eo.
      * right. right. exists c. right. cbn. by rewrite lookup_insert_eq.
      * left. by apply (proj2 (Hu eq_refl) c).
    + right. right. exists d. cbn. by rewrite lookup_insert_ne.
  - intros Ho. destruct (Hu Ho) as [? Hus]. split; [done|]. intros d t; cbn; intros [[_ ?]|[_ Hd]]%lookup_insert_Some; [done|]. by eapply Hus.
Qed.

Lemma swept_finish s c s' : swept s → finish_call c s = Some s' → swept s'.
Proof.
  intros Hsw. unfold finish_call. destruct (rs_calls s !! c) as [[| | |u []]|] eqn:Hcall; try done; intros [= <-]; [|by eapply swept_ended].
  destruct Hsw as (Hi & Hc & Hu). split; [|split; [done|]].
  - intros t [Ht Hne]%elem_of_difference. rewrite elem_of_singleton in Hne.
    eapply accounted_change; [exact Hcall | done | congruence | done | done | | by apply Hi]. intros d Hd. cbn. by rewrite lookup_delete_ne.
  - intros Ho. destruct (Hu Ho) as [? Hus]. split; [done|]. intros d t; cbn; intros [_ Hd]%lookup_delete_Some. by eapply Hus.
Qed.

Lemma swept_Close s : swept s → swept (Close s).
Proof.
  intros (Hi & Hc & Hu). unfold Close. destruct (rs_closed s) eqn:Eo; [split; [exact Hi|]; rewrite Eo; by split|]. split; [|split; [done|done]].
  intros t Ht. destruct (Hi t Ht) as [(o & Ho)|[Hcl|Hd]]; [| |by right; right].
  - right. left. apply list_elem_of_fmap. exists (o, t). split; [done|]. by apply elem_of_map_to_list.
  - rewrite (proj1 (Hu eq_refl)) in Hcl. by apply elem_of_nil in Hcl.
Qed.
Lemma swept_sweep s s' : swept s → sweep s = Some s' → swept s'.
Proof.
  intros (Hi & Hc & Hu). unfold sweep. destruct (rs_closing s) as [|u rest] eqn:El; [done|]. intros [= <-]. split; [|split; [exact Hc|]].
  - intros t [Ht Hne]%elem_of_difference. destruct (Hi t Ht) as [?|[Hcl|?]]; [by left | | by right; right].
    right. left. cbn. rewrite El in Hcl. apply elem_of_cons in Hcl as [->|?]; [by destruct Hne; apply elem_of_singleton | done].
  - intros Ho. by destruct (Hu Ho).
Qed.

Lemma swept_step s e s' : swept s → net_step s e = Some s' → swept s'.
Proof.
  intros Hsw. assert (swept s) as (Hi & Hc & Hu) by done. destruct e; cbn [net_step].
  - unfold start_call. destruct (rs_calls s !! c) eqn:Hcall; [done|]. intros [= <-]. destruct (_ <? _); [done|].
    apply (swept_phase (spend s) c (Waiting waits) None); done.
  - unfold take_slot. destruct (rs_calls s !! c) as [[waits| | |]|] eqn:Hcall; try done. destruct (_ <? _)%nat; [|destruct waits; [done|]];
      intros [= <-]; [by eapply swept_phase | by eapply swept_ended].
  - destruct (rs_calls s !! c) as [[[]| | |]|] eqn:Hcall; try done; intros [= <-]; by eapply swept_ended.
  - by apply swept_transport.
  - destruct (rs_calls s !! c) as [[| |u|]|] eqn:Hcall; try done. intros [= <-]. split; [|by split].
    intros t [->%elem_of_singleton|Ht]%elem_of_union; [right; right; exists c; by left | by apply (Hi t)].
  - intros [= <-]. apply swept_less; [done | set_solver].
  - by apply swept_check.
  - by apply swept_finish.
  - intros [= <-]. by apply swept_Close.
  - by apply swept_sweep.
  - destruct (_ <? _)%nat; [|done]. by intros [= <-].
  - destruct (rs_others s); [done|]. by intros [= <-].
Qed.

Lemma net_run_inv (Inv : requesterState → Prop) : (∀ s e s', Inv s → net_step s e = Some s' → Inv s') →
  ∀ es s s', Inv s → net_run s es = Some s' → Inv s'.
Proof.
  intros Hstep es. induction es as [|e es IH]; intros s s' Hs; cbn [net_run]; [by intros [= <-]|].
  destruct (net_step s e) as [s1|] eqn:E; [|done]. cbn. apply IH. by eapply Hstep.
Qed.

(** After [Close] nothing gets a transport any more. *)
Lemma closed_step s e s' : rs_closed s = true → net_step s e = Some s' →
  rs_closed s' = true ∧ ∀ c t, rs_calls s' !! c = Some (Using t) → rs_calls s !! c = Some (Using t).
Proof.
  intros Ho. destruct e; cbn [net_step]; unfold start_call, take_slot, transport, check_closed, finish_call, sweep, Close; rewrite ?Ho;
    repeat case_match; try done; intros [= <-]; (split; [done|]); cbn; intros d tr; try done;
    first [by intros [[_ ?]|[_ ?]]%lookup_insert_Some | by intros [_ ?]%lookup_delete_Some].
Qed.

(** C31 (invariant): however calls, connections, other actions and [Close] interleave: at most 8 calls of the process
    hold a slot, and at most 4 calls of the action are under way; once [Close] has swept and the calls
    are over no transport keeps an idle connection; and from [Close] on no call gets a transport. *)
Theorem requester_leaves_nothing (others : nat) (es : list net_event) (s : requesterState)
    (Hothers : (others <= maxConcurrentModuleNetworkCalls)%nat) (Hrun : net_run (newModuleNetworkRequester others) es = Some s) :
  (slots_used s <= 8)%nat ∧ (size (rs_calls s) <= 4)%nat
  ∧ (rs_closed s = true → rs_closing s = [] → rs_calls s = ∅ → rs_idle s = ∅)
  ∧ (rs_closed s = true → ∀ es' s', net_run s es' = Some s' →
       ∀ c t, rs_calls s' !! c = Some (Using t) → rs_calls s !! c = Some (Using t)).
Proof.
  assert (bounded s) as (Hs & _ & Hn).
  { eapply (net_run_inv bounded bounded_step); [|exact Hrun]. unfold bounded, slots_used. cbn [newModuleNetworkRequester rs_calls rs_others rs_spent]. unfold held. rewrite map_filter_empty, !map_size_empty. unfold maxModuleNetworkCallsPerAction. lia. }
  assert (swept s) as (Hi & Hc & _). { eapply (net_run_inv swept swept_step); [|exact Hrun]. by repeat split. }
  split; [exact Hs|]. split; [unfold maxModuleNetworkCallsPerAction in Hn; lia|]. split.
  - intros Ho Hcl Hcalls. apply set_eq. intros t. split; [|by intros ?%elem_of_empty]. intros Ht. exfalso.
    destruct (Hi t Ht) as [(o & E)|[E|(c & E)]].
    + rewrite (Hc Ho) in E. by rewrite lookup_empty in E.
    + rewrite Hcl in E. by apply elem_of_nil in E.
    + rewrite Hcalls, !lookup_empty in E. by destruct E.
  - intros Ho es' s' Hrun'.
    apply (net_run_inv (λ s1, rs_closed s1 = true ∧ ∀ c t, rs_calls s1 !! c = Some (Using t) → rs_calls s !! c = Some (Using t)) ltac:(
      intros s1 e s2 [Ho1 H1] Hst; destruct (closed_step _ _ _ Ho1 Hst) as [? Hback]; split; [done | eauto]) es' s s'); [by split | done].
Qed.

(** Two calls to one origin; the requester closes while the second runs, and the second drops its own connection. *)
Definition two_calls : list net_event :=
  [EvCall 0 true; EvCall 1 true; EvSlot 0; EvSlot 1; EvTransport 0 [97]; EvTransport 1 [97]; EvIdle 0; EvCheck 0; EvFinish 0;
   EvClose; EvSweep; EvIdle 1; EvCheck 1; EvFinish 1].
Lemma requester_leaves_nothing_witness :
  ∃ s, net_run (newModuleNetworkRequester 6) two_calls = Some s ∧ rs_closed s = true ∧ rs_idle s = ∅.
Proof.
  destruct (net_run (newModuleNetworkRequester 6) two_calls) as [s|] eqn:E; [|vm_compute in E; discriminate E].
  exists s. split; [reflexivity|].
  assert (rs_closed s = true ∧ rs_closing s = [] ∧ rs_calls s = ∅) as (Ho & Hcl & Hc).
  { vm_compute in E. injection E as <-. repeat split. }
  split; [exact Ho|]. exact (proj1 (proj2 (proj2 (requester_leaves_nothing 6 two_calls s ltac:(unfold maxConcurrentModuleNetworkCalls; lia) E))) Ho Hcl Hc).
Defined.
End Requester.

(** ** A request at a concrete input *)
Section witnesses.
#[local] Instance ascii_case : UnicodeCase := {| unicode_ToLower r := r; unicode_ToUpper r := r |}.
#[local] Instance no_floats : Floats := {| sprint_float _ := &"1"; float_to_int_other _ := 0 |}.
#[local] Instance one_host : TextParsers :=
  {| url_Parse raw :=
       let host := take 9 (drop 8 raw) in
       if HasPrefix raw (&"https://") && containsString [&"a.example"] host
       then Some (mkParsedURL (&"https") [] false host host [] (drop 17 raw) [] false []) else None;
     time_Parse_RFC3339 _ := true |}.

Definition get_options : gmap bytes goval := {[ &"url" := GString (&"https://a.example/x") ]}.
Lemma network_request_safe_witness :
  ∃ r, newModuleNetworkRequest get_options = Ok r ∧ nr_target r = mkTarget (&"a.example") 443 ∧ permitted_origin (nr_origin r).
Proof.
  destruct (newModuleNetworkRequest get_options) as [r|e] eqn:E; [|vm_compute in E; discriminate E].
  exists r. split; [reflexivity|]. destruct (network_request_safe get_options r E) as (_ & _ & Hp & Ht & _).
  split; [|exact Hp]. vm_compute in E. injection E as <-. reflexivity.
Defined.
End witnesses.
