(* ===== verification/AsyncLoop.v ===== *)
(** * The event loop of an action ([module_async.go]) and the completion of a
      proxy-client bundle ([module_compat.go])

    The goroutine that owns the interpreter runs the script and, in [wait], the
    callbacks; timers and workers post callbacks from goroutines of their own.
    A step is what happens between two operations on what they share: the
    channel of callbacks, the channel [done], and the map of timers under the
    lock.  What a callback does when it runs is further steps of the script. *)
From stdpp Require Import gmap.
From S2P Require Import Prelude GoStrings ConfigTypes HttpHeaders DeclarativeActions ScriptResults.

Definition maxAsyncTimers : nat := 64.
Definition asyncCallbackQueueCap : nat := 256.

(** ** Delays *)
Section delays.
Context {F : Floats}.

(** Go's signed 64-bit integers. *)
Definition s64 (x : Z) : Z := (x + 2 ^ 63) mod 2 ^ 64 - 2 ^ 63.

Definition positive_float (x : float64) : bool :=
  match x with S754_finite false _ _ | S754_infinity false => true | _ => false end.

(** [time.Duration(delay) * time.Millisecond], in nanoseconds. *)
Definition timer_duration (delay : float64) : Z :=
  let delay := if positive_float delay then delay else S754_zero false in
  s64 (float_to_int delay * 1000000).

(** When a timer of a duration fires; [time.AfterFunc] takes one that is not positive as already elapsed. *)
Definition fires_at (now duration : Z) : Z := if duration <=? 0 then now else now + duration.
End delays.

(** ** Timers *)
Module Timers.

Inductive posted := PTimer (id : Z) | PWork (n : nat).
#[export] Instance posted_eq_dec : EqDecision posted.
Proof. solve_decision. Defined.
#[export] Instance posted_countable : Countable posted.
Proof.
  refine (inj_countable' (λ p, match p with PTimer id => inl id | PWork n => inr n end)
    (λ s, match s with inl id => PTimer id | inr n => PWork n end) _). by intros [].
Defined.

Record asyncLoop := mkLoop {
  al_callbacks : list posted;       (** the channel, oldest first *)
  al_done : bool;
  al_timers : option (gset Z);      (** the timers the map holds; [None] is the nil map of a closed loop *)
  al_nextID : Z;
  al_armed : gset Z;                (** timers of the runtime that have neither fired nor been stopped *)
  al_posting : gset posted;         (** goroutines in [post], before the channel took the callback *)
  al_ran : list Z;                  (** the timers whose callback ran, latest first *)
}.

Definition newAsyncLoop : asyncLoop := mkLoop [] false (Some ∅) 0 ∅ ∅ [].

Inductive set_result := TimerSet (id : Z) | TimerUndefined | TooManyTimers.

(** [setTimeout] and [setInterval], once the callback is known to be a function. *)
Definition setTimeout (l : asyncLoop) : asyncLoop * set_result :=
  match al_timers l with
  | None => (l, TimerUndefined)
  | Some timers =>
      if (maxAsyncTimers <=? size timers)%nat then (l, TooManyTimers)
      else let id := s64 (al_nextID l + 1) in
           (mkLoop (al_callbacks l) (al_done l) (Some ({[id]} ∪ timers)) id ({[id]} ∪ al_armed l) (al_posting l) (al_ran l), TimerSet id)
  end.

(** [clearTimeout] and [clearInterval].  [Stop] on a timer that has fired does nothing. *)
Definition clearTimeout (id : Z) (l : asyncLoop) : asyncLoop :=
  match al_timers l with
  | Some timers =>
      if bool_decide (id ∈ timers)
      then mkLoop (al_callbacks l) (al_done l) (Some (timers ∖ {[id]})) (al_nextID l) (al_armed l ∖ {[id]}) (al_posting l) (al_ran l)
      else l
  | None => l
  end.

Definition claimTimer (id : Z) (l : asyncLoop) : asyncLoop * bool :=
  match al_timers l with
  | None => (l, false)
  | Some timers =>
      if bool_decide (id ∈ timers)
      then (mkLoop (al_callbacks l) (al_done l) (Some (timers ∖ {[id]})) (al_nextID l) (al_armed l) (al_posting l) (al_ran l), true)
      else (l, false)
  end.

(** A timer elapses: its function starts on a goroutine of its own, in [post]. *)
Definition fire (id : Z) (l : asyncLoop) : option asyncLoop :=
  if bool_decide (id ∈ al_armed l)
  then Some (mkLoop (al_callbacks l) (al_done l) (al_timers l) (al_nextID l) (al_armed l ∖ {[id]}) ({[PTimer id]} ∪ al_posting l) (al_ran l))
  else None.
Definition start_post (n : nat) (l : asyncLoop) : asyncLoop :=
  mkLoop (al_callbacks l) (al_done l) (al_timers l) (al_nextID l) (al_armed l) ({[PWork n]} ∪ al_posting l) (al_ran l).

(** [post]: a callback is queued when there is room, and dropped only after the loop is done. *)
Definition post_queued (p : posted) (l : asyncLoop) : option asyncLoop :=
  if bool_decide (p ∈ al_posting l) && (length (al_callbacks l) <? asyncCallbackQueueCap)%nat
  then Some (mkLoop (al_callbacks l ++ [p]) (al_done l) (al_timers l) (al_nextID l) (al_armed l) (al_posting l ∖ {[p]}) (al_ran l))
  else None.
Definition post_dropped (p : posted) (l : asyncLoop) : option asyncLoop :=
  if bool_decide (p ∈ al_posting l) && al_done l
  then Some (mkLoop (al_callbacks l) (al_done l) (al_timers l) (al_nextID l) (al_armed l) (al_posting l ∖ {[p]}) (al_ran l))
  else None.

(** [wait] takes the next callback; one of a timer first claims it. *)
Definition take_callback (l : asyncLoop) : option asyncLoop :=
  match al_callbacks l with
  | [] => None
  | p :: rest =>
      let l := mkLoop rest (al_done l) (al_timers l) (al_nextID l) (al_armed l) (al_posting l) (al_ran l) in
      match p with
      | PWork _ => Some l
      | PTimer id =>
          let '(l, claimed) := claimTimer id l in
          Some (if claimed then mkLoop (al_callbacks l) (al_done l) (al_timers l) (al_nextID l) (al_armed l) (al_posting l) (id :: al_ran l) else l)
      end
  end.

(** [close], before and under the lock. *)
Definition close_done (l : asyncLoop) : asyncLoop :=
  mkLoop (al_callbacks l) true (al_timers l) (al_nextID l) (al_armed l) (al_posting l) (al_ran l).
Definition close_timers (l : asyncLoop) : option asyncLoop :=
  if al_done l
  then Some (mkLoop (al_callbacks l) true None (al_nextID l) (al_armed l ∖ default ∅ (al_timers l)) (al_posting l) (al_ran l))
  else None.

Inductive loop_event :=
| LSet | LClear (id : Z) | LFire (id : Z) | LWork (n : nat) | LQueued (p : posted) | LDropped (p : posted) | LTake | LCloseDone | LCloseTimers.

Definition loop_step (l : asyncLoop) (e : loop_event) : option asyncLoop :=
  match e with
  | LSet => Some (setTimeout l).1
  | LClear id => Some (clearTimeout id l)
  | LFire id => fire id l
  | LWork n => Some (start_post n l)
  | LQueued p => post_queued p l
  | LDropped p => post_dropped p l
  | LTake => take_callback l
  | LCloseDone => Some (close_done l)
  | LCloseTimers => close_timers l
  end.
Fixpoint loop_run (l : asyncLoop) (es : list loop_event) : option asyncLoop :=
  match es with [] => Some l | e :: es => l' ← loop_step l e; loop_run l' es end.

(** ** The invariant, while the counter of identifiers has not wrapped *)
Definition max_sets : Z := 2 ^ 63 - 1.

Definition in_flight (l : asyncLoop) (id : Z) : Prop := PTimer id ∈ al_posting l ∨ PTimer id ∈ al_callbacks l.

Record loop_inv (n : Z) (l : asyncLoop) : Prop := mkLoopInv {
  li_next : 0 <= al_nextID l <= n;
  li_size : ∀ timers, al_timers l = Some timers → (size timers <= maxAsyncTimers)%nat;
  li_set : ∀ timers id, al_timers l = Some timers → id ∈ timers → id <= al_nextID l ∧ id ∉ al_ran l;
  li_armed : ∀ id, id ∈ al_armed l → id <= al_nextID l ∧ ∃ timers, al_timers l = Some timers ∧ id ∈ timers;
  li_flight : ∀ id, in_flight l id → id <= al_nextID l ∧ id ∉ al_armed l;
  li_ran : NoDup (al_ran l) ∧ ∀ id, id ∈ al_ran l → id <= al_nextID l;
  li_delivered : al_done l = false → ∀ timers id, al_timers l = Some timers → id ∈ timers → id ∈ al_armed l ∨ in_flight l id;
}.

Lemma s64_id x : - 2 ^ 63 <= x < 2 ^ 63 → s64 x = x.
Proof. intros H. unfold s64. rewrite Z.mod_small; lia. Qed.

Lemma inv_weaken n l : loop_inv n l → loop_inv (n + 1) l.
Proof. intros []. split; try done. lia. Qed.

Lemma inv_set n l : n < max_sets → loop_inv n l → loop_inv (n + 1) (setTimeout l).1.
Proof.
  intros Hn Hl. unfold setTimeout. destruct (al_timers l) as [timers|] eqn:Et; [|by apply inv_weaken].
  destruct (Nat.leb_spec maxAsyncTimers (size timers)); [by apply inv_weaken|]. destruct Hl as [Hnext Hsize Hset Harmed Hflight [Hnd Hran] Hdel].
  cbn [fst]. unfold max_sets in Hn. rewrite s64_id by lia. split; cbn.
  - lia.
  - intros T [= <-]. rewrite size_union_alt, size_singleton. pose proof (subseteq_size (timers ∖ {[al_nextID l + 1]}) timers ltac:(set_solver)). lia.
  - intros T id [= <-] [->%elem_of_singleton|Hid]%elem_of_union.
    + split; [lia|]. intros Hr. specialize (Hran _ Hr). lia.
    + destruct (Hset timers id Et Hid). split; [lia | done].
  - intros id [->%elem_of_singleton|Hid]%elem_of_union; [split; [lia|]; eexists; split; [done | set_solver]|].
    destruct (Harmed id Hid) as [? (T & HT & ?)]; rewrite Et in HT; injection HT as <-. split; [lia|]. eexists. split; [done | set_solver].
  - intros id Hid. destruct (Hflight id Hid). split; [lia|]. intros [->%elem_of_singleton|?]%elem_of_union; [lia | done].
  - split; [done|]. intros id Hid. specialize (Hran id Hid). lia.
  - intros Hd T id [= <-] [->%elem_of_singleton|Hid]%elem_of_union; [left; set_solver|].
    destruct (Hdel Hd timers id Et Hid); [left; set_solver | by right].
Qed.

Lemma inv_clear n id l : loop_inv n l → loop_inv n (clearTimeout id l).
Proof.
  intros Hl. unfold clearTimeout. destruct (al_timers l) as [timers|] eqn:Et; [|done]. case_bool_decide as Hin; [|done].
  destruct Hl as [Hnext Hsize Hset Harmed Hflight Hran Hdel]. split; cbn; try done.
  - intros T [= <-]. pose proof (subseteq_size (timers ∖ {[id]}) timers ltac:(set_solver)). specialize (Hsize _ Et). lia.
  - intros T j [= <-] [Hj _]%elem_of_difference. by apply (Hset timers).
  - intros j [Hj Hne]%elem_of_difference. destruct (Harmed j Hj) as [? (T & HT & ?)]; rewrite Et in HT; injection HT as <-. split; [done|]. eexists. split; [done | set_solver].
  - intros j Hj. destruct (Hflight j Hj). split; [done | set_solver].
  - intros Hd T j [= <-] [Hj Hne]%elem_of_difference. destruct (Hdel Hd timers j Et Hj); [left; set_solver | by right].
Qed.

Lemma inv_fire n id l l' : loop_inv n l → fire id l = Some l' → loop_inv n l'.
Proof.
  intros Hl. unfold fire. case_bool_decide as Hin; [|done]. intros [= <-].
  destruct Hl as [Hnext Hsize Hset Harmed Hflight Hran Hdel]. split; cbn; try done.
  - intros j [Hj _]%elem_of_difference. by apply Harmed.
  - intros j [[Ej%elem_of_singleton|Hj]%elem_of_union|Hj].
    + injection Ej as ->. destruct (Harmed id Hin). split; [done | set_solver].
    + destruct (Hflight j); [by left|]. split; [done | set_solver].
    + destruct (Hflight j); [by right|]. split; [done | set_solver].
  - intros Hd T j HT Hj. destruct (decide (j = id)) as [->|Hne]; [right; left; cbn; set_solver|].
    destruct (Hdel Hd T j HT Hj) as [?|[?|?]]; [left; set_solver | right; left; cbn; set_solver | right; by right].
Qed.

(** A step that moves callbacks between [post] and the channel without inventing one. *)
Lemma inv_move n l l' : loop_inv n l → al_timers l' = al_timers l → al_nextID l' = al_nextID l → al_armed l' = al_armed l → al_ran l' = al_ran l →
  (∀ id, in_flight l' id → in_flight l id) → (al_done l' = false → al_done l = false ∧ ∀ id, in_flight l id → in_flight l' id) → loop_inv n l'.
Proof.
  intros [Hnext Hsize Hset Harmed Hflight Hran Hdel] Et En Ea Er Hf Hb.
  split; rewrite ?Et, ?En, ?Ea, ?Er; try done.
  - intros id Hid. by apply Hflight, Hf.
  - intros Hd T id HT Hid. destruct (Hb Hd) as [Hd' Hb']. destruct (Hdel Hd' T id HT Hid); [by left | right; by apply Hb'].
Qed.

Lemma inv_queued n p l l' : loop_inv n l → post_queued p l = Some l' → loop_inv n l'.
Proof.
  intros Hl. unfold post_queued. case_bool_decide as Hin; [|done]. cbn [andb]. destruct (_ <? _)%nat; [|done]. intros [= <-].
  eapply inv_move; [exact Hl | done..| |].
  - intros id [[Hp _]%elem_of_difference|[Hp| <-%list_elem_of_singleton]%elem_of_app]; [by left | by right | by left].
  - intros Hd. split; [done|]. intros id [Hp|Hp]; [|right; cbn; set_solver].
    destruct (decide (PTimer id = p)) as [<-|Hne]; [right; cbn; set_solver | left; cbn; set_solver].
Qed.

Lemma inv_dropped n p l l' : loop_inv n l → post_dropped p l = Some l' → loop_inv n l'.
Proof.
  intros Hl. unfold post_dropped. case_bool_decide as Hin; [|done]. cbn [andb]. destruct (al_done l) eqn:Hd; [|done]. intros [= <-].
  eapply inv_move; [exact Hl | done..| |]; cbn.
  - intros id [[Hp _]%elem_of_difference|Hp]; [by left | by right].
  - done.
Qed.

Lemma inv_take n l l' : loop_inv n l → take_callback l = Some l' → loop_inv n l'.
Proof.
  intros Hl. unfold take_callback. destruct (al_callbacks l) as [|p rest] eqn:Eq; [done|].
  assert (∀ id, PTimer id ∈ rest → in_flight l id) as Hrest by (intros id Hid; right; rewrite Eq; by right).
  destruct p as [id|w]; [|intros [= <-]; eapply inv_move; [exact Hl | done..| |]].
  2: { intros id [Hp|Hp]; [by left | by apply Hrest]. }
  2: { cbn. intros Hd. split; [done|]. intros id [Hp|Hp]; [by left|]. rewrite Eq in Hp. apply elem_of_cons in Hp as [?|?]; [done | by right]. }
  unfold claimTimer. cbn [al_timers]. assert (in_flight l id) as Hid by (right; rewrite Eq; left).
  assert (loop_inv n l) as [Hnext Hsize Hset Harmed Hflight [Hnd Hran] Hdel] by done.
  destruct (al_timers l) as [timers|] eqn:Et; [case_bool_decide as Hin|].
  - intros [= <-]. destruct (Hset timers id eq_refl Hin) as [Hle Hnr]. split; cbn; try done.
    + intros T [= <-]. pose proof (subseteq_size (timers ∖ {[id]}) timers ltac:(set_solver)). specialize (Hsize _ eq_refl). lia.
    + intros T j [= <-] [Hj Hne]%elem_of_difference. destruct (Hset timers j eq_refl Hj). split; [done|]. rewrite elem_of_cons. set_solver.
    + intros j Hj. destruct (Harmed j Hj) as [? (T & [= <-] & ?)]. split; [done|]. eexists. split; [done|].
      destruct (Hflight id Hid). set_solver.
    + intros j [Hj|Hj]; [by apply Hflight; left | by apply Hflight, Hrest].
    + split; [by constructor|]. intros j [->|Hj]%elem_of_cons; [done | by apply Hran].
    + intros Hd T j [= <-] [Hj Hne]%elem_of_difference. rewrite elem_of_singleton in Hne. destruct (Hdel Hd timers j eq_refl Hj) as [?|[?|Hq]]; [by left | by right; left|].
      right. right. cbn. rewrite Eq in Hq. apply elem_of_cons in Hq as [Ej|?]; [by injection Ej as -> | done].
  - intros [= <-]. split; cbn; rewrite ?Et; try done.
    + intros j [Hj|Hj]; [by apply Hflight; left | by apply Hflight, Hrest].
    + intros Hd T j [= <-] Hj. destruct (Hdel Hd timers j eq_refl Hj) as [?|[?|Hq]]; [by left | by right; left|].
      right. right. cbn. rewrite Eq in Hq. apply elem_of_cons in Hq as [Ej|?]; [by injection Ej as -> | done].
  - intros [= <-]. split; cbn; rewrite ?Et; try done.
    intros j [Hj|Hj]; [by apply Hflight; left | by apply Hflight, Hrest].
Qed.

Lemma inv_close_timers n l l' : loop_inv n l → close_timers l = Some l' → loop_inv n l'.
Proof.
  intros [Hnext Hsize Hset Harmed Hflight Hran Hdel]. unfold close_timers. destruct (al_done l) eqn:Ed; [|done]. intros [= <-]. split; cbn; try done.
  - intros id [Hid Hne]%elem_of_difference. destruct (Harmed id Hid) as [? (T & E & ?)]. rewrite E in Hne. done.
  - intros id Hid. destruct (Hflight id Hid). split; [done | set_solver].
Qed.

Lemma inv_step n l e l' : n < max_sets → loop_inv n l → loop_step l e = Some l' → loop_inv (n + 1) l'.
Proof.
  intros Hn Hl. destruct e; cbn [loop_step]; intros E.
  - injection E as <-. by apply inv_set.
  - injection E as <-. by apply inv_weaken, inv_clear.
  - by eapply inv_weaken, inv_fire.
  - injection E as <-. apply inv_weaken. eapply inv_move; [exact Hl | done..| |]; cbn.
    + intros id [[?%elem_of_singleton|?]%elem_of_union|?]; [done | by left | by right].
    + intros Hd. split; [done|]. intros id [?|?]; [left; cbn; set_solver | by right].
  - by eapply inv_weaken, inv_queued.
  - by eapply inv_weaken, inv_dropped.
  - by eapply inv_weaken, inv_take.
  - injection E as <-. apply inv_weaken. eapply inv_move; [exact Hl | done..| done |]. done.
  - by eapply inv_weaken, inv_close_timers.
Qed.

Lemma loop_run_inv (Inv : Z → asyncLoop → Prop) :
  (∀ n l e l', n < max_sets → Inv n l → loop_step l e = Some l' → Inv (n + 1) l') →
  ∀ es n l l', Inv n l → n + len es <= max_sets → loop_run l es = Some l' → Inv (n + len es) l'.
Proof.
  intros Hstep es. induction es as [|e es IH]; intros n l l' Hl Hn; cbn [loop_run]; [by intros [= <-]; rewrite Z.add_0_r|].
  destruct (loop_step l e) as [l1|] eqn:E; [|done]. intros Hr. replace (n + len (e :: es)) with (n + 1 + len es) in * by (cbn [length]; lia).
  apply IH with l1; [|lia | done]. eapply Hstep; [|done..]. lia.
Qed.

(** A timer that is neither pending nor run, and whose identifier was given out, stays so. *)
Definition gone (id : Z) (n : Z) (l : asyncLoop) : Prop :=
  0 <= al_nextID l <= n ∧ id <= al_nextID l ∧ id ∉ al_ran l ∧ ∀ timers, al_timers l = Some timers → id ∉ timers.

(** What a step does to the timers that were given out before it, and to those that ran. *)
Definition changes (n : Z) (l l' : asyncLoop) : Prop :=
  (al_nextID l <= al_nextID l' <= n + 1)
  ∧ (∀ T' id, al_timers l' = Some T' → id ∈ T' → id <= al_nextID l → ∃ T, al_timers l = Some T ∧ id ∈ T)
  ∧ (∀ id, id ∈ al_ran l' → id ∈ al_ran l ∨ ∃ T, al_timers l = Some T ∧ id ∈ T).

Lemma changes_none n l l' : 0 <= al_nextID l <= n → al_timers l' = al_timers l → al_nextID l' = al_nextID l → al_ran l' = al_ran l → changes n l l'.
Proof. intros Hn Et En Er. unfold changes. rewrite Et, En, Er. split; [lia|]. split; [by eauto | by left]. Qed.
Lemma changes_remove n l l' T id : 0 <= al_nextID l <= n → al_timers l = Some T → id ∈ T → al_timers l' = Some (T ∖ {[id]}) →
  al_nextID l' = al_nextID l → al_ran l' = al_ran l ∨ al_ran l' = id :: al_ran l → changes n l l'.
Proof.
  intros Hn HT Hin Et En Er. unfold changes. rewrite Et, En. split; [lia|]. split.
  - intros T' j [= <-] [Hj _]%elem_of_difference _. by exists T.
  - intros j Hj. destruct Er as [Er|Er]; rewrite Er in Hj; [by left|]. apply elem_of_cons in Hj as [->|?]; [right; by exists T | by left].
Qed.

Lemma step_change n l e l' : n < max_sets → 0 <= al_nextID l <= n → loop_step l e = Some l' → changes n l l'.
Proof.
  intros Hn Hnext. destruct e; cbn [loop_step].
  - intros [= <-]. unfold setTimeout. destruct (al_timers l) as [T|] eqn:Et; [|by apply changes_none].
    destruct (_ <=? _)%nat; [by apply changes_none|]. unfold changes, max_sets in *. cbn [fst al_nextID al_timers al_ran]. rewrite s64_id by lia.
    split; [lia|]. split; [|by left]. intros T' id [= <-] [->%elem_of_singleton|Hid]%elem_of_union Hle; [lia|]. by exists T.
  - intros [= <-]. unfold clearTimeout. destruct (al_timers l) as [T|] eqn:Et; [case_bool_decide|]; try by apply changes_none.
    eapply changes_remove; [done | exact Et | done | done | done | by left].
  - unfold fire. case_bool_decide; [|done]. intros [= <-]. by apply changes_none.
  - intros [= <-]. by apply changes_none.
  - unfold post_queued. destruct (_ && _); [|done]. intros [= <-]. by apply changes_none.
  - unfold post_dropped. destruct (_ && _); [|done]. intros [= <-]. by apply changes_none.
  - unfold take_callback, claimTimer. destruct (al_callbacks l) as [|[id|w] rest]; [done| |intros [= <-]; by apply changes_none].
    cbn [al_timers]. destruct (al_timers l) as [T|] eqn:Et; [case_bool_decide|]; intros [= <-]; try by apply changes_none.
    eapply changes_remove; [done | exact Et | done | done | done | by right].
  - intros [= <-]. by apply changes_none.
  - unfold close_timers. destruct (al_done l); [|done]. intros [= <-]. split; [cbn; lia|]. split; [done | by left].
Qed.

Lemma gone_step id n l e l' : n < max_sets → gone id n l → loop_step l e = Some l' → gone id (n + 1) l'.
Proof.
  intros Hn (Hnext & Hid & Hran & Hset) Hst. destruct (step_change _ _ _ _ Hn Hnext Hst) as (Hn' & Ht & Hr).
  split; [lia|]. split; [lia|]. split.
  - intros Hin. destruct (Hr id Hin) as [?|(T & HT & ?)]; [done|]. by apply (Hset T).
  - intros T' HT' Hin. destruct (Ht T' id HT' Hin Hid) as (T & HT & ?). by apply (Hset T).
Qed.

Lemma gone_clear id n l : loop_inv n l → id <= al_nextID l → id ∉ al_ran l → gone id n (clearTimeout id l).
Proof.
  intros [Hnext _ _ _ _ _ _] Hid Hran.
  assert (∀ l', al_nextID l' = al_nextID l → al_ran l' = al_ran l → (∀ T, al_timers l' = Some T → id ∉ T) → gone id n l') as Hgone.
  { intros l' En Er HT. unfold gone. by rewrite En, Er. }
  unfold clearTimeout. destruct (al_timers l) as [T|] eqn:Et; [case_bool_decide as Hin|]; apply Hgone; try done; cbn; rewrite ?Et.
  - intros T' [= <-]. set_solver.
  - by intros T' [= <-].
  - done.
Qed.

Lemma start_inv : loop_inv 0 newAsyncLoop.
Proof.
  split; cbn; try done.
  - intros T [= <-]. rewrite size_empty. unfold maxAsyncTimers. lia.
  - by intros T id [= <-] ?%elem_of_empty.
  - intros id [?%elem_of_empty|?%elem_of_nil]; done.
  - split; [constructor | by intros id ?%elem_of_nil].
  - by intros _ T id [= <-] ?%elem_of_empty.
Qed.

(** C30 (safety): however timers, clears, workers, the queue and [close] interleave: the callback of a timer runs at
    most once; at most 64 timers are pending, and until the loop is done each of them is armed or on
    its way; a timer that is cleared before its callback ran never runs, even when it has already
    fired; and once the loop is closed no timer is armed and nothing runs any more.  The bound on the
    steps keeps the 64-bit counter of identifiers from wrapping. *)
Theorem timer_delivery (es : list loop_event) (l : asyncLoop) (Hlen : len es <= max_sets) (Hrun : loop_run newAsyncLoop es = Some l) :
  NoDup (al_ran l)
  ∧ (∀ timers, al_timers l = Some timers → (size timers <= 64)%nat
       ∧ (al_done l = false → ∀ id, id ∈ timers → id ∉ al_ran l ∧ (id ∈ al_armed l ∨ in_flight l id)))
  ∧ (∀ id es' l', id <= al_nextID l → id ∉ al_ran l → len es + len es' <= max_sets →
       loop_run (clearTimeout id l) es' = Some l' → id ∉ al_ran l')
  ∧ (al_timers l = None → al_armed l = ∅ ∧ ∀ es' l', len es + len es' <= max_sets → loop_run l es' = Some l' → al_ran l' = al_ran l).
Proof.
  assert (loop_inv (0 + len es) l) as Hl by (eapply (loop_run_inv loop_inv); [intros *; apply inv_step | apply start_inv | lia | exact Hrun]).
  rewrite Z.add_0_l in Hl. assert (loop_inv (len es) l) as [Hnext Hsize Hset Harmed Hflight [Hnd Hran] Hdel] by exact Hl.
  split; [exact Hnd|]. split; [|split].
  - intros timers HT. split; [by apply Hsize|]. intros Hd id Hid. split; [by apply (Hset timers) | by eapply Hdel].
  - intros id es' l' Hid Hr Hle Hrun'.
    destruct (loop_run_inv (gone id) ltac:(intros *; apply gone_step) es' (len es) (clearTimeout id l) l') as (_ & _ & H & _); try done. by apply gone_clear.
  - intros HT. split.
    + apply set_eq. intros id. split; [|by intros ?%elem_of_empty]. intros Hin. destruct (Harmed id Hin) as [_ (T & E & _)]. congruence.
    + intros es' l' Hle Hrun'.
      destruct (loop_run_inv (λ n l1, 0 <= al_nextID l1 <= n ∧ al_timers l1 = None ∧ al_ran l1 = al_ran l)) with es' (len es) l l' as (_ & _ & H); try done.
      intros n l1 e l2 Hn (Hnx & Hno & Hsame) Hst. clear -Hn Hnx Hno Hsame Hst. destruct e; cbn [loop_step] in Hst;
        unfold setTimeout, clearTimeout, fire, post_queued, post_dropped, take_callback, claimTimer, close_timers in Hst; cbn [al_timers] in Hst; rewrite ?Hno in Hst;
        repeat case_match; try done; simplify_eq/=; repeat split; try done; lia.
Qed.

(** Two timers; the first is cleared after it fired, the second runs. *)
Definition race : list loop_event := [LSet; LSet; LFire 1; LQueued (PTimer 1); LFire 2; LQueued (PTimer 2)].
Lemma timer_delivery_witness :
  ∃ l l', loop_run newAsyncLoop race = Some l ∧ loop_run (clearTimeout 1 l) [LTake; LTake] = Some l' ∧ al_ran l' = [2] ∧ 1 ∉ al_ran l'.
Proof.
  destruct (loop_run newAsyncLoop race) as [l|] eqn:E; [|vm_compute in E; discriminate E].
  destruct (loop_run (clearTimeout 1 l) [LTake; LTake]) as [l'|] eqn:E'; [|vm_compute in E; injection E as <-; vm_compute in E'; discriminate E'].
  exists l, l'. split; [reflexivity|]. split; [exact E'|]. split; [vm_compute in E; injection E as <-; vm_compute in E'; injection E' as <-; reflexivity|].
  refine (proj1 (proj2 (proj2 (timer_delivery race l _ E))) 1 [LTake; LTake] l' _ _ _ E').
  - vm_compute. discriminate.
  - vm_compute in E. injection E as <-. vm_compute. discriminate.
  - vm_compute in E. injection E as <-. cbn [al_ran]. apply not_elem_of_nil.
  - vm_compute. discriminate.
Defined.
End Timers.

(** ** A delay a [Duration] holds is waited for *)
Section exact.
Context {F : Floats}.

Lemma timer_waits (delay : float64) : 0 < float_to_int delay <= 9223372036854 → positive_float delay = true →
  timer_duration delay = float_to_int delay * 1000000 ∧ ∀ now, fires_at now (timer_duration delay) = now + float_to_int delay * 1000000.
Proof.
  intros Hd Hp. unfold timer_duration. rewrite Hp, Timers.s64_id by lia. split; [done|]. intros now. unfold fires_at.
  destruct (Z.leb_spec (float_to_int delay * 1000000) 0); lia.
Qed.
End exact.

(** A delay of ten thousand billion milliseconds wraps to a negative duration, so the timer fires at once. *)
Definition long_delay : float64 := S754_finite false 10000000000000 0.
Lemma long_delay_fires_now {F : Floats} now : timer_duration long_delay < 0 ∧ fires_at now (timer_duration long_delay) = now.
Proof.
  assert (timer_duration long_delay = -8446744073709551616) as -> by (vm_compute; reflexivity).
  split; [lia|]. reflexivity.
Qed.

(** ** [wait], promises, and the completion of a proxy-client bundle *)
Section wait.
Context {S A : Type}.

(** What one callback does to the state of the script, and the value it threw. *)
Definition callback : Type := S → S * option A.
(** What the select of [wait] received: a callback, or the end of the context. *)
Inductive received := Callback (fn : callback) | ContextDone (e : A).

(** [None] is a [wait] that is still blocked when the schedule ends. *)
Fixpoint wait (settled : S → bool) (inputs : list received) (s : S) : option (S * option A) :=
  if settled s then Some (s, None)
  else match inputs with
       | [] => None
       | Callback fn :: rest => let '(s, e) := fn s in match e with Some e => Some (s, Some e) | None => wait settled rest s end
       | ContextDone e :: _ => Some (s, Some e)
       end.
End wait.
Arguments received : clear implicits.

Section promises.
Context {V : Type}.
Inductive promise_state := PromisePending | PromiseFulfilled (v : V) | PromiseRejected (v : V).
(** What the entry point of a script returned, and what settles it. *)
Inductive script_value := PlainValue (v : V) | PromiseValue (p : nat).
Inductive settle_error := CallbackFailed (v : V) | PromiseWasRejected (v : V).

Definition promises : Type := nat → promise_state.
Definition pending (p : promise_state) : bool := match p with PromisePending => true | _ => false end.

(** The second match of the last branch is on a promise that is not pending. *)
Definition settlePromise (v : script_value) (inputs : list (received promises V)) (s : promises) : option (res settle_error V) :=
  match v with
  | PlainValue v => Some (Ok v)
  | PromiseValue p =>
      match wait (λ s, negb (pending (s p))) inputs s with
      | None => None
      | Some (_, Some e) => Some (Err (CallbackFailed e))
      | Some (s, None) => match s p with
                          | PromiseRejected r => Some (Err (PromiseWasRejected r))
                          | PromiseFulfilled r => Some (Ok r)
                          | PromisePending => None
                          end
      end
  end.
End promises.

Section bundle.
Context {U : UnicodeCase} {F : Floats}.

Record compatEntry := mkEntry { ce_completed : bool; ce_result : option goval }.
Definition newCompatEntry : compatEntry := mkEntry false None.

(** [$done]: the first call wins. *)
Definition done_call (entry : compatEntry) (v : option goval) : compatEntry :=
  if ce_completed entry then entry else mkEntry true v.
(** What a run of the bundle's code does to the entry: its calls of [$done], and the value it threw. *)
Record script_run := mkRun { run_dones : list (option goval); run_throw : option bytes }.
Definition run_entry (r : script_run) (entry : compatEntry) : compatEntry * option bytes :=
  (fold_left done_call (run_dones r) entry, run_throw r).

Inductive bundle_error := ProgramFailed (e : bytes) | WaitFailed (e : bytes) | BadCompletion (e : result_error).

Definition completion (v : option goval) (responsePhase : bool) : res bundle_error scriptResult :=
  match parseCompatScriptResult v responsePhase with Ok r => Ok r | Err e => Err (BadCompletion e) end.

(** [executeProxyCompat] from the run of the program: [inputs] is what [wait] receives. *)
Definition executeProxyCompat (program : script_run) (inputs : list (script_run + bytes)) (responsePhase : bool) : option (res bundle_error scriptResult) :=
  let '(entry, thrown) := run_entry program newCompatEntry in
  match thrown with
  | Some e => Some (Err (ProgramFailed e))
  | None =>
      let received i := match i with inl run => Callback (run_entry run) | inr e => ContextDone e end in
      match wait ce_completed (map received inputs) entry with
      | None => None
      | Some (entry, failed) =>
          match failed with
          | Some e => Some (if negb (ce_completed entry) then Err (WaitFailed e) else completion (ce_result entry) responsePhase)
          | None => Some (completion (ce_result entry) responsePhase)
          end
      end
  end.

(** The calls of [$done] in the order they were made, by the program and the callbacks received. *)
Definition all_dones (program : script_run) (inputs : list (script_run + bytes)) : list (option goval) :=
  run_dones program ++ concat (map (λ i, match i with inl run => run_dones run | inr _ => [] end) inputs).

Definition entry_of (dones : list (option goval)) : compatEntry := match dones with [] => newCompatEntry | v :: _ => mkEntry true v end.

Lemma dones_completed dones v : fold_left done_call dones (mkEntry true v) = mkEntry true v.
Proof. induction dones; [done | exact IHdones]. Qed.
Lemma dones_first before dones : fold_left done_call dones (entry_of before) = entry_of (before ++ dones).
Proof. destruct before as [|v before]; [by destruct dones; [|apply dones_completed] | apply dones_completed]. Qed.

(** [wait] leaves the entry the calls made up to where it stopped. *)
Lemma wait_entry inputs before entry failed :
  wait ce_completed (map (λ i, match i with inl run => Callback (run_entry run) | inr e => ContextDone e end) inputs) (entry_of before) = Some (entry, failed) →
  ∃ taken rest, inputs = taken ++ rest ∧ entry = entry_of (before ++ concat (map (λ i : script_run + bytes, match i with inl run => run_dones run | inr _ => [] end) taken))
  ∧ (failed = None → ce_completed entry = true)
  ∧ (∀ e, failed = Some e → ∃ i, last taken = Some i ∧ match i with inl run => run_throw run = Some e | inr e' => e' = e end).
Proof.
  revert before. induction inputs as [|i inputs IH]; intros before; cbn [map wait].
  - destruct (ce_completed (entry_of before)) eqn:Ec; [|done]. intros [= <- <-]. exists [], []. cbn. by rewrite app_nil_r.
  - destruct (ce_completed (entry_of before)) eqn:Ec.
    { intros [= <- <-]. exists [], (i :: inputs). cbn. by rewrite app_nil_r. }
    destruct i as [run|e].
    + cbn [run_entry]. rewrite dones_first. destruct (run_throw run) as [e|] eqn:Et.
      * intros [= <- <-]. exists [inl run], inputs. cbn. rewrite app_nil_r. repeat split; try done. intros e' [= <-]. by eexists.
      * intros H. apply IH in H as (taken & rest & -> & -> & Hn & Hl). exists (inl run :: taken), rest. cbn. rewrite app_assoc.
        repeat split; try done. intros e He. destruct (Hl e He) as (i & Hi & Hm). exists i. split; [|done].
        destruct taken; [done|]. by rewrite last_cons_cons.
    + intros [= <- <-]. exists [inr e], inputs. cbn. rewrite !app_nil_r. repeat split; try done. intros e' [= <-]. by eexists.
Qed.

(** C38 (error): When the program of a bundle runs to its end, the result is that of the first value passed to
    [$done], by the program or by a callback, whatever callbacks pass or throw after it; the error of a
    callback, or the end of the context, is the outcome only when nothing was passed before.  When the
    program itself throws, its error is the outcome, also when it had passed a value to [$done]: that
    result is lost. *)
Theorem bundle_completion (program : script_run) (inputs : list (script_run + bytes)) (responsePhase : bool) (r : res bundle_error scriptResult) :
  executeProxyCompat program inputs responsePhase = Some r →
  (∃ e, run_throw program = Some e ∧ r = Err (ProgramFailed e))
  ∨ (run_throw program = None ∧ ∃ v later, all_dones program inputs = v :: later ∧ r = completion v responsePhase)
  ∨ (∃ taken rest i e, inputs = taken ++ rest ∧ all_dones program taken = [] ∧ last taken = Some i
       ∧ match i with inl run => run_throw run = Some e | inr e' => e' = e end ∧ r = Err (WaitFailed e)).
Proof.
  unfold executeProxyCompat. cbn [run_entry]. change newCompatEntry with (entry_of []). rewrite dones_first. cbn [app].
  destruct (run_throw program) as [e|]; [intros [= <-]; left; by exists e|].
  destruct (wait _ _ _) as [[entry failed]|] eqn:Ew; [|done]. apply wait_entry in Ew as (taken & rest & -> & -> & Hn & Hl).
  fold (all_dones program taken) in *. destruct (all_dones program taken) as [|v later] eqn:Ed.
  - destruct failed as [e|]; [|by specialize (Hn eq_refl)]. cbn. intros [= <-]. right. right.
    destruct (Hl e eq_refl) as (i & Hi & Hm). by exists taken, rest, i, e.
  - cbn [entry_of ce_completed ce_result negb]. intros H. right. left. split; [done|].
    exists v, (later ++ concat (map (λ i : script_run + bytes, match i with inl run => run_dones run | inr _ => [] end) rest)).
    split; [|destruct failed; by injection H as <-]. unfold all_dones in *. by rewrite map_app, concat_app, app_assoc, Ed.
Qed.
End bundle.

(** A bundle that completes in a callback and then throws there: its result is used. *)
Section witness.
#[local] Instance ascii_case : UnicodeCase := {| unicode_ToLower r := r; unicode_ToUpper r := r |}.
#[local] Instance no_floats : Floats := {| sprint_float _ := &"1"; float_to_int_other _ := 0 |}.
Definition throwing_bundle : list (script_run + bytes) :=
  [inl (mkRun [] None); inl (mkRun [Some (GMap {[ &"body" := GString (&"x") ]}); None] (Some (&"boom")))].
Lemma bundle_completion_witness :
  ∃ r, executeProxyCompat (mkRun [] None) throwing_bundle true = Some (Ok r) ∧ re_Body r = &"x"
  ∧ Ok r = completion (Some (GMap {[ &"body" := GString (&"x") ]})) true.
Proof.
  destruct (executeProxyCompat (mkRun [] None) throwing_bundle true) as [[r|e]|] eqn:E; [|vm_compute in E; discriminate E..].
  exists r. split; [reflexivity|].
  destruct (bundle_completion (mkRun [] None) throwing_bundle true (Ok r) E) as [(e & Hx & _)|[(_ & v & later & Hd & Hr)|(t & rest & i & e & _ & _ & _ & _ & Hr)]];
    [discriminate Hx | | discriminate Hr].
  cbn in Hd. injection Hd as <- _. split; [|exact Hr]. vm_compute in E. injection E as <-. reflexivity.
Defined.
End witness.
