(* ===== verification/SharedSettings.v ===== *)
(** * The settings scripts are handed ([module_runtime.go])

    The decoded settings of an extension are one set of Go maps and slices that
    every action of every exchange shares, and what a script is handed it can
    write to.  So the values live in a store, and [cloneScriptSettings] is a copy
    in that store.  Strings, numbers and booleans are values of a type of their
    own; a map is in the order one range over it meets its keys. *)
From stdpp Require Import gmap relations.
From S2P Require Import Prelude.

Section settings.
Context {A : Type}.

(** An [any]: a scalar, or a map or a slice by its address. *)
Inductive any := Scalar (a : A) | Ref (l : nat).
Inductive cell := MapCell (m : list (bytes * any)) | SliceCell (s : list any).
Abbreviation store := (gmap nat cell).

Definition values (c : cell) : list any := match c with MapCell m => m.*2 | SliceCell s => s end.
Definition with_values (c : cell) (vs : list any) : cell := match c with MapCell m => MapCell (zip m.*1 vs) | SliceCell _ => SliceCell vs end.
Definition keys (c : cell) : option (list bytes) := match c with MapCell m => Some m.*1 | SliceCell _ => None end.

(** [cloneScriptSettingValue]: it returns for a value that is not its own part. *)
Fixpoint clone_list (clone : any → store * nat → option (any * (store * nat))) (l : list any) (s : store * nat) : option (list any * (store * nat)) :=
  match l with
  | [] => Some ([], s)
  | v :: l => '(v, s) ← clone v s; '(l, s) ← clone_list clone l s; Some (v :: l, s)
  end.
Fixpoint cloneScriptSettingValue (fuel : nat) (v : any) (s : store * nat) : option (any * (store * nat)) :=
  match fuel with
  | O => None
  | S fuel =>
      match v with
      | Scalar _ => Some (v, s)
      | Ref l =>
          c ← s.1 !! l;
          '(vs, (h, n)) ← clone_list (cloneScriptSettingValue fuel) (values c) s;
          Some (Ref n, (<[n := with_values c vs]> h, S n))
      end
  end.
(** [cloneScriptSettings] of the map at an address. *)
Definition cloneScriptSettings (fuel : nat) (settings : nat) (s : store * nat) : option (any * (store * nat)) :=
  cloneScriptSettingValue fuel (Ref settings) s.

(** [rule.settings]: none before compilation, and then [moduleSettingValues] makes a map of its own. *)
Definition scriptSettingValues (fuel : nat) (settings : option nat) (fresh : store * nat → option (any * (store * nat))) (s : store * nat)
  : option (any * (store * nat)) :=
  match settings with Some l => cloneScriptSettings fuel l s | None => fresh s end.
Definition scriptSettingValuesReadOnly (settings : option nat) (fresh : store * nat → option (any * (store * nat))) (s : store * nat)
  : option (any * (store * nat)) :=
  match settings with Some l => Some (Ref l, s) | None => fresh s end.

(** ** What a value reads as *)
Inductive tree := Leaf (a : A) | Node (k : option (list bytes)) (l : list tree).
Fixpoint read (fuel : nat) (h : store) (v : any) : option tree :=
  match fuel with
  | O => None
  | S fuel => match v with
              | Scalar a => Some (Leaf a)
              | Ref l => c ← h !! l; ts ← mapM (read fuel h) (values c); Some (Node (keys c) ts)
              end
  end.

Lemma read_mono fuel h h' v t : h ⊆ h' → read fuel h v = Some t → read fuel h' v = Some t.
Proof.
  intros Hh. revert v t. induction fuel as [|fuel IH]; [done|]. intros [a|l] t; cbn; [done|]. destruct (h !! l) as [c|] eqn:Hc; [|done].
  rewrite (lookup_weaken h h' l c Hc Hh). cbn. destruct (mapM (read fuel h) (values c)) as [ts|] eqn:E; [|done]. intros [= <-].
  apply mapM_Some in E. assert (mapM (read fuel h') (values c) = Some ts) as -> by (apply mapM_Some; eapply Forall2_impl; [done|]; intros; by apply IH). done.
Qed.
Lemma read_more fuel fuel' h v t : read fuel h v = Some t → (fuel <= fuel')%nat → read fuel' h v = Some t.
Proof.
  revert fuel' v t. induction fuel as [|fuel IH]; [done|]. intros [|fuel'] [a|l] t; cbn; try lia; [done|]. intros Hr Hle.
  destruct (h !! l) as [c|]; [|done]. cbn in *. destruct (mapM (read fuel h) (values c)) as [ts|] eqn:E; [|done]. injection Hr as <-.
  apply mapM_Some in E. assert (mapM (read fuel' h) (values c) = Some ts) as ->; [|done].
  apply mapM_Some. eapply Forall2_impl; [done|]. intros v t Hv. apply IH; [done | lia].
Qed.

(** The addresses of a value lie in a range. *)
Definition within (lo hi : nat) (v : any) : Prop := match v with Scalar _ => True | Ref l => (lo <= l < hi)%nat end.
Definition bounded (h : store) (n : nat) : Prop := ∀ l, is_Some (h !! l) → (l < n)%nat.

Lemma values_with_values c vs : length vs = length (values c) → values (with_values c vs) = vs ∧ keys (with_values c vs) = keys c.
Proof.
  destruct c as [m|s]; cbn; [|done]. intros Hl. rewrite length_fmap in Hl. split; [apply snd_zip; rewrite length_fmap; lia|].
  f_equal. apply fst_zip. rewrite length_fmap. lia.
Qed.

(** What a copy has made of the store. *)
Record copied (h : store) (n : nat) (h' : store) (n' : nat) : Prop := mkCopied {
  co_le : (n <= n')%nat;
  co_old : ∀ l, (l < n)%nat → h' !! l = h !! l;
  co_bounded : bounded h' n';
  co_new : ∀ l c, h' !! l = Some c → (n <= l)%nat → Forall (within n n') (values c);
}.
Lemma copied_refl h n : bounded h n → copied h n h n.
Proof. intros Hb. split; [done | done | done|]. intros l c Hl Hn. pose proof (Hb l (ex_intro _ c Hl)). lia. Qed.
Lemma within_more lo hi lo' hi' v : within lo hi v → (lo' <= lo)%nat → (hi <= hi')%nat → within lo' hi' v.
Proof. destruct v; cbn; [done|lia]. Qed.
Lemma copied_sub h n h' n' : bounded h n → copied h n h' n' → h ⊆ h'.
Proof. intros Hb Hc. apply map_subseteq_spec. intros l c Hl. rewrite (co_old _ _ _ _ Hc); [done|]. apply Hb. by exists c. Qed.
Lemma copied_trans h n h1 n1 h2 n2 : copied h n h1 n1 → copied h1 n1 h2 n2 → copied h n h2 n2.
Proof.
  intros [A1 A2 A3 A4] [B1 B2 B3 B4]. split; [lia | intros l Hl; rewrite B2 by lia; by apply A2 | done|].
  intros l c Hl Hn. destruct (decide (n1 <= l)%nat) as [Hge|Hlt].
  - eapply Forall_impl; [by apply (B4 l c)|]. intros v Hv. by apply (within_more n1 n2).
  - rewrite B2 in Hl by lia. eapply Forall_impl; [by apply (A4 l c)|]. intros v Hv. by apply (within_more n n1).
Qed.

(** A copy reads as what was copied, at addresses of its own, and touches nothing else. *)
Lemma clone_ok fuel v h n t : bounded h n → read fuel h v = Some t →
  ∃ v' h' n', cloneScriptSettingValue fuel v (h, n) = Some (v', (h', n')) ∧ copied h n h' n' ∧ read fuel h' v' = Some t ∧ within n n' v'.
Proof.
  revert v h n t. induction fuel as [|fuel IH]; [done|]. intros [a|l] h n t Hb; cbn.
  { intros [= <-]. exists (Scalar a), h, n. split; [done|]. split; [by apply copied_refl | done]. }
  destruct (h !! l) as [c|] eqn:Hc; [|done]. cbn. destruct (mapM (read fuel h) (values c)) as [ts|] eqn:E; [|done]. intros [= <-].
  assert (∃ vs h1 n1, clone_list (cloneScriptSettingValue fuel) (values c) (h, n) = Some (vs, (h1, n1)) ∧ copied h n h1 n1
    ∧ mapM (read fuel h1) vs = Some ts ∧ Forall (within n n1) vs ∧ length vs = length (values c)) as (vs & h1 & n1 & -> & Hco & Hr & Hw & Hlen).
  { clear Hc. revert h n ts Hb E. induction (values c) as [|v l' IHl]; intros h n ts Hb E.
    { injection E as <-. exists [], h, n. split; [done|]. split; [by apply copied_refl | done]. }
    cbn in E. destruct (read fuel h v) as [tv|] eqn:Ev; [|done]. cbn in E. destruct (mapM (read fuel h) l') as [tl|] eqn:El; [|done]. injection E as <-.
    destruct (IH v h n tv Hb Ev) as (v' & h1 & n1 & Hcv & Hco1 & Hr1 & Hw1).
    assert (mapM (read fuel h1) l' = Some tl) as El1.
    { apply mapM_Some in El. apply mapM_Some. eapply Forall2_impl; [done|]. intros ??. apply read_mono. by apply (copied_sub h n h1 n1). }
    destruct (IHl h1 n1 tl (co_bounded _ _ _ _ Hco1) El1) as (vs & h2 & n2 & Hcl & Hco2 & Hr2 & Hw2 & Hlen).
    exists (v' :: vs), h2, n2. cbn. rewrite Hcv. cbn. rewrite Hcl. cbn. split; [done|]. split; [by apply (copied_trans h n h1 n1)|].
    rewrite (read_mono fuel h1 h2 v' tv); [|by apply (copied_sub h1 n1 h2 n2 (co_bounded _ _ _ _ Hco1)) | done]. cbn. rewrite Hr2. split; [done|].
    split; [|by f_equal]. pose proof (co_le _ _ _ _ Hco1). pose proof (co_le _ _ _ _ Hco2). constructor; [by apply (within_more n n1)|].
    eapply Forall_impl; [done|]. intros ??. by apply (within_more n1 n2). }
  cbn. destruct (values_with_values c vs Hlen) as [Hv Hk]. exists (Ref n1), (<[n1 := with_values c vs]> h1), (S n1). split; [done|].
  assert (h1 !! n1 = None) as Hfree by (destruct (h1 !! n1) as [x|] eqn:Ex; [pose proof (co_bounded _ _ _ _ Hco n1 (ex_intro _ x Ex)); lia | done]).
  pose proof (co_le _ _ _ _ Hco). split; [|split].
  - split; [lia | | |].
    + intros k Hk'. rewrite lookup_insert_ne by lia. by apply (co_old _ _ _ _ Hco).
    + intros k [x [[<- _]|[_ Hx]]%lookup_insert_Some]; [lia|]. pose proof (co_bounded _ _ _ _ Hco k (ex_intro _ x Hx)). lia.
    + intros k x [[<- <-]|[_ Hx]]%lookup_insert_Some Hn; [rewrite Hv|].
      * eapply Forall_impl; [done|]. intros ??. apply (within_more n n1); [done | lia | lia].
      * eapply Forall_impl; [by apply (co_new _ _ _ _ Hco k x)|]. intros ??. apply (within_more n n1); [done | lia | lia].
  - cbn. rewrite lookup_insert_eq. cbn. rewrite Hv, Hk. assert (mapM (read fuel (<[n1 := with_values c vs]> h1)) vs = Some ts) as ->; [|done].
    apply mapM_Some in Hr. apply mapM_Some. eapply Forall2_impl; [done|]. intros ??. apply read_mono. by apply insert_subseteq.
  - cbn. lia.
Qed.

(** ** Actions over one set of settings

    An action owns what was allocated for it; a script allocates, and writes to
    what it owns values made of what it owns.  The snapshot's settings are owned
    by nobody. *)
Record sharing := mkSharing { sh_store : store; sh_next : nat; sh_owner : gmap nat nat; sh_given : gmap nat any }.
Definition owned_by (s : sharing) (i : nat) (v : any) : Prop := match v with Scalar _ => True | Ref l => sh_owner s !! l = Some i end.
Definition claim (i lo hi : nat) (o : gmap nat nat) : gmap nat nat := foldr (λ l o, <[l := i]> o) o (seq lo (hi - lo)).

Inductive share_step (fuel settings : nat) : sharing → sharing → Prop :=
| share_start i h n o g v h' n' : g !! i = None → scriptSettingValues fuel (Some settings) (λ _, None) (h, n) = Some (v, (h', n')) →
    share_step fuel settings (mkSharing h n o g) (mkSharing h' n' (claim i n n' o) (<[i := v]> g))
| share_write i l c s : sh_owner s !! l = Some i → Forall (owned_by s i) (values c) →
    share_step fuel settings s (mkSharing (<[l := c]> (sh_store s)) (sh_next s) (sh_owner s) (sh_given s))
| share_alloc i c s : Forall (owned_by s i) (values c) →
    share_step fuel settings s (mkSharing (<[sh_next s := c]> (sh_store s)) (S (sh_next s)) (<[sh_next s := i]> (sh_owner s)) (sh_given s)).

(** Nobody owns what is below the first address, and what is there stays there. *)
Record share_inv (h0 : store) (n0 : nat) (s : sharing) : Prop := mkShareInv {
  sv_bounded : bounded (sh_store s) (sh_next s);
  sv_le : (n0 <= sh_next s)%nat;
  sv_snapshot : ∀ l, (l < n0)%nat → sh_store s !! l = h0 !! l;
  sv_owner : ∀ l, (n0 <= l < sh_next s)%nat ↔ is_Some (sh_owner s !! l);
  (** What an action owns leads to what it owns. *)
  sv_closed : ∀ l c i, sh_store s !! l = Some c → sh_owner s !! l = Some i → Forall (owned_by s i) (values c);
  sv_given : ∀ i v, sh_given s !! i = Some v → owned_by s i v;
}.

Lemma claim_lookup i lo hi o l : (lo <= hi)%nat → claim i lo hi o !! l = if decide (lo <= l < hi)%nat then Some i else o !! l.
Proof.
  unfold claim. intros Hle. remember (hi - lo)%nat as k eqn:Hk. revert lo Hk Hle. induction k as [|k IH]; intros lo Hk Hle; cbn.
  - rewrite decide_False by lia. done.
  - destruct (decide (l = lo)) as [->|Hne]; [rewrite lookup_insert_eq, decide_True by lia; done|]. rewrite lookup_insert_ne, IH by lia.
    destruct (decide (S lo <= l < hi)%nat), (decide (lo <= l < hi)%nat); try done; lia.
Qed.

Lemma share_step_inv fuel settings h0 n0 s s' : share_inv h0 n0 s → share_step fuel settings s s' → is_Some (read fuel (sh_store s) (Ref settings)) →
  share_inv h0 n0 s'.
Proof.
  intros [H1 H2 H3 H4 H5 H6] Hs [t Ht]. destruct Hs as [i h n o g v h' n' Hg Hc|i l c s Hl Hc|i c s Hc]; cbn in *.
  - destruct (clone_ok fuel (Ref settings) h n t H1 Ht) as (v1 & h1 & n1 & Hc1 & Hco & Hr & Hw). unfold cloneScriptSettings in Hc. rewrite Hc1 in Hc.
    injection Hc as -> -> ->. destruct Hco as [C1 C2 C3 C4].
    assert (∀ l, (l < n)%nat → claim i n n' o !! l = o !! l) as Hold by (intros l Hl; rewrite claim_lookup, decide_False by lia; done).
    assert (∀ v, within n n' v → match v with Scalar _ => True | Ref l => claim i n n' o !! l = Some i end) as Hnew.
    { intros [a|l] Hl; [done|]. cbn in Hl. rewrite claim_lookup, decide_True by lia. done. }
    split; cbn; [done | lia | | | |].
    + intros l Hl. rewrite C2 by lia. by apply H3.
    + intros l. rewrite claim_lookup by done. destruct (decide (n <= l < n')%nat) as [?|Hno]; [split; [by eexists | lia]|]. rewrite <- H4. lia.
    + intros l c j Hl Hj. destruct (decide (n <= l)%nat) as [Hge|Hlt].
      * pose proof (C3 l (ex_intro _ c Hl)). rewrite claim_lookup, decide_True in Hj by lia. injection Hj as <-.
        eapply Forall_impl; [by apply (C4 l c)|]. intros w Hw'. specialize (Hnew w Hw'). by destruct w.
      * rewrite C2 in Hl by lia. rewrite Hold in Hj by lia. eapply Forall_impl; [by apply (H5 l c j)|]. intros [a|k] Hk; cbn in *; [done|].
        rewrite Hold; [done|]. apply (H4 k). by exists j.
    + intros j w [[<- <-]|[_ Hw']]%lookup_insert_Some; [specialize (Hnew v Hw); by destruct v|]. specialize (H6 j w Hw'). destruct w as [a|k]; cbn in *; [done|].
      rewrite Hold; [done|]. apply (H4 k). by exists j.
  - assert (n0 <= l < sh_next s)%nat as Hln by (apply H4; by exists i). split; cbn; try done.
    + intros k [x [[<- _]|[_ Hx]]%lookup_insert_Some]; [lia|]. apply H1. by exists x.
    + intros k Hk. rewrite lookup_insert_ne by lia. by apply H3.
    + intros k x j [[<- <-]|[_ Hx]]%lookup_insert_Some Hj; [|by apply (H5 k x j)]. assert (j = i) as -> by congruence. done.
  - assert (∀ j v, owned_by s j v → match v with Scalar _ => True | Ref l => <[sh_next s := i]> (sh_owner s) !! l = Some j end) as Hkeep.
    { intros j [a|l] Hl; cbn in *; [done|]. rewrite lookup_insert_ne; [done|]. intros <-. assert (sh_next s < sh_next s)%nat by (apply H4; by exists j). lia. }
    split; cbn.
    + intros k [x [[<- _]|[_ Hx]]%lookup_insert_Some]; [lia|]. pose proof (H1 k (ex_intro _ x Hx)). lia.
    + lia.
    + intros k Hk. rewrite lookup_insert_ne by lia. by apply H3.
    + intros k. rewrite lookup_insert_is_Some. destruct (decide (sh_next s = k)) as [<-|Hne]; [split; [by left | lia]|].
      rewrite <- H4. split; [right; split; [done | lia] | intros [?|[_ ?]]; [done | lia]].
    + intros k x j Hx Hj. assert (Forall (owned_by s j) (values x)) as Hall.
      { destruct (decide (sh_next s = k)) as [<-|Hne]; [rewrite lookup_insert_eq in Hx; rewrite lookup_insert_eq in Hj; injection Hx as <-; by injection Hj as <-|].
        rewrite lookup_insert_ne in Hx by done. rewrite lookup_insert_ne in Hj by done. by apply (H5 k x j). }
      eapply Forall_impl; [done|]. intros w Hw. specialize (Hkeep j w Hw). by destruct w.
    + intros j w Hw%H6. specialize (Hkeep j w Hw). by destruct w.
Qed.

(** ** Results *)
Definition points (h : store) (l k : nat) : Prop := ∃ c, h !! l = Some c ∧ Ref k ∈ values c.
Definition sharing_start (h0 : store) (n0 : nat) : sharing := mkSharing h0 n0 ∅ ∅.

Lemma sharing_start_inv h0 n0 : bounded h0 n0 → share_inv h0 n0 (sharing_start h0 n0).
Proof.
  intros Hb. split; cbn; try done.
  intros l. rewrite lookup_empty. split; [lia | by intros [? ?]].
Qed.
Lemma snapshot_reads h0 n0 s fuel v t : bounded h0 n0 → share_inv h0 n0 s → read fuel h0 v = Some t → read fuel (sh_store s) v = Some t.
Proof.
  intros Hb Hi. apply read_mono. apply map_subseteq_spec. intros l c Hl. rewrite (sv_snapshot _ _ _ Hi); [done|]. apply Hb. by exists c.
Qed.
Lemma sharing_reach h0 n0 fuel settings t s : bounded h0 n0 → read fuel h0 (Ref settings) = Some t →
  rtc (share_step fuel settings) (sharing_start h0 n0) s → share_inv h0 n0 s.
Proof.
  intros Hb Ht Hr. assert (∀ s1 s2, rtc (share_step fuel settings) s1 s2 → share_inv h0 n0 s1 → share_inv h0 n0 s2) as Hall.
  { clear Hr s. induction 1 as [|s1 s2 s3 Hs _ IH]; [done|]. intros Hi. apply IH. apply (share_step_inv fuel settings h0 n0 s1); [done | done|].
    exists t. by apply (snapshot_reads h0 n0). }
  apply (Hall _ _ Hr). by apply sharing_start_inv.
Qed.
Lemma owned_reach h0 n0 s i l k : share_inv h0 n0 s → sh_owner s !! l = Some i → rtc (points (sh_store s)) l k → sh_owner s !! k = Some i.
Proof.
  intros Hi Hl. induction 1 as [|l m k (c & Hc & Hin) _ IH]; [done|]. apply IH. pose proof (sv_closed _ _ _ Hi l c i Hc Hl) as Hall.
  rewrite Forall_forall in Hall. by apply (Hall (Ref m)).
Qed.

(** C11 (safety): scripts share nothing.  However the scripts of any number of actions
    allocate and write, at any time, to whatever they can reach from what they
    were handed: the settings of the snapshot read as they did, the next action
    is handed a value that reads the same, at addresses nobody else has, and no
    two actions reach a common map or slice. *)
Theorem settings_isolated h0 n0 fuel settings t s :
  bounded h0 n0 → read fuel h0 (Ref settings) = Some t → rtc (share_step fuel settings) (sharing_start h0 n0) s →
  read fuel (sh_store s) (Ref settings) = Some t
  ∧ (∃ v h' n', scriptSettingValues fuel (Some settings) (λ _, None) (sh_store s, sh_next s) = Some (v, (h', n'))
       ∧ read fuel h' v = Some t ∧ within (sh_next s) n' v)
  ∧ (∀ i l k, sh_given s !! i = Some (Ref l) → rtc (points (sh_store s)) l k → (n0 <= k)%nat)
  ∧ ∀ i j l r k, sh_given s !! i = Some (Ref l) → sh_given s !! j = Some (Ref r) →
      rtc (points (sh_store s)) l k → rtc (points (sh_store s)) r k → i = j.
Proof.
  intros Hb Ht Hr. pose proof (sharing_reach h0 n0 fuel settings t s Hb Ht Hr) as Hi. pose proof (snapshot_reads h0 n0 s fuel _ t Hb Hi Ht) as Hs.
  split; [done|]. split; [|split].
  - destruct (clone_ok fuel (Ref settings) _ _ t (sv_bounded _ _ _ Hi) Hs) as (v & h' & n' & Hc & _ & Hrd & Hw). by exists v, h', n'.
  - intros i l k Hg Hk. pose proof (sv_given _ _ _ Hi i _ Hg) as Ho. cbn in Ho. pose proof (owned_reach h0 n0 s i l k Hi Ho Hk) as Hok.
    assert (n0 <= k < sh_next s)%nat; [|lia]. apply (sv_owner _ _ _ Hi). by exists i.
  - intros i j l r k Hgi Hgj Hk1 Hk2. pose proof (sv_given _ _ _ Hi i _ Hgi) as Ho1. pose proof (sv_given _ _ _ Hi j _ Hgj) as Ho2. cbn in Ho1, Ho2.
    pose proof (owned_reach h0 n0 s i l k Hi Ho1 Hk1). pose proof (owned_reach h0 n0 s j r k Hi Ho2 Hk2). congruence.
Qed.
End settings.
Arguments any : clear implicits.
Arguments cell : clear implicits.
Arguments tree : clear implicits.

(** ** Two actions of one extension *)
Definition demo_store : gmap nat (cell Z) := <[0%nat := MapCell [(lit "hosts", Ref 1)]]> {[1%nat := SliceCell [Scalar 5]]}.
Definition demo_tree : tree Z := Node (Some [lit "hosts"]) [Node None [Leaf 5]].

Lemma demo_bounded : bounded demo_store 2.
Proof.
  intros l [c Hc]. unfold demo_store in Hc. apply lookup_insert_Some in Hc as [[<- _]|[_ Hc]]; [lia|]. apply lookup_singleton_Some in Hc as [<- _]. lia.
Qed.

(** One action is handed a copy and empties its slice; then another starts. *)
Definition demo_shared : sharing :=
  mkSharing (<[2%nat := SliceCell []]> (<[3%nat := MapCell [(lit "hosts", Ref 2)]]> (<[2%nat := SliceCell [Scalar 5]]> demo_store))) 4
    (claim 7 2 4 ∅) {[7%nat := Ref 3]}.
Lemma demo_run : rtc (share_step 9 0) (sharing_start demo_store 2) demo_shared.
Proof.
  eapply rtc_l; [|apply rtc_once].
  - apply (share_start 9 0 7 demo_store 2 ∅ ∅ (Ref 3) (<[3%nat := MapCell [(lit "hosts", Ref 2)]]> (<[2%nat := SliceCell [Scalar 5]]> demo_store)) 4); [done|].
    vm_compute. reflexivity.
  - apply (share_write 9 0 7 2 (SliceCell [])); [vm_compute; reflexivity | constructor].
Qed.
Lemma settings_isolated_witness : read 9 (sh_store demo_shared) (Ref 0) = Some demo_tree.
Proof. apply (settings_isolated demo_store 2 9 0 demo_tree demo_shared demo_bounded); [vm_compute; reflexivity | exact demo_run]. Defined.

(** The map handed out for reading is the shared one: a write to it would show. *)
Example read_only_is_shared :
  scriptSettingValuesReadOnly (Some 0%nat) (λ _, None) (demo_store, 2%nat) = Some (Ref 0%nat, (demo_store, 2%nat))
  ∧ read 9 (<[0%nat := MapCell []]> demo_store) (Ref 0) = Some (Node (Some []) []).
Proof. split; [reflexivity | vm_compute; reflexivity]. Qed.
