(* ===== verification/WebAPI.v ===== *)
(** * The web globals of a script ([module_webapi.go])

    [URLSearchParams], [URL] and the text codecs, over [net/url].  A search
    params object has no state of its own: it reads and writes the query of the
    URL that owns it.  The parser and the printer of whole URLs are parameters;
    queries are read and written here.  Strings of the interpreter are the bytes
    they become. *)
From stdpp Require Import gmap.
From S2P Require Import Prelude GoStrings.

(** ** Queries ([net/url]) *)
Abbreviation values := (gmap bytes (list bytes)).

Definition is_alnum (c : Z) : bool :=
  ((#"a" <=? c) && (c <=? #"z")) || ((#"A" <=? c) && (c <=? #"Z")) || ((#"0" <=? c) && (c <=? #"9")).
Definition unreserved (c : Z) : bool := is_alnum c || (c =? #"-") || (c =? #"_") || (c =? #".") || (c =? #"~").
Definition upper_hex (n : Z) : Z := if n <? 10 then #"0" + n else #"A" + (n - 10).
Definition unhex (c : Z) : option Z :=
  if (#"0" <=? c) && (c <=? #"9") then Some (c - #"0")
  else if (#"a" <=? c) && (c <=? #"f") then Some (c - #"a" + 10)
  else if (#"A" <=? c) && (c <=? #"F") then Some (c - #"A" + 10)
  else None.

Definition escape_byte (c : Z) : bytes :=
  if unreserved c then [c] else if c =? 32 then [ #"+"] else [ #"%"; upper_hex (c / 16); upper_hex (c mod 16)].
Definition QueryEscape (s : bytes) : bytes := concat (map escape_byte s).

Fixpoint QueryUnescape (s : bytes) : option bytes :=
  match s with
  | [] => Some []
  | c :: rest =>
      if c =? #"%" then
        match rest with
        | h :: l :: rest' => h ← unhex h; l ← unhex l; s ← QueryUnescape rest'; Some (16 * h + l :: s)
        | _ => None
        end
      else s ← QueryUnescape rest; Some ((if c =? #"+" then 32 else c) :: s)
  end.

(** [strings.Cut] at a byte. *)
Fixpoint CutByte (s : bytes) (sep : Z) : bytes * bytes :=
  match s with
  | [] => ([], [])
  | c :: rest => if c =? sep then ([], rest) else let '(a, b) := CutByte rest sep in (c :: a, b)
  end.

(** One setting of a query: an error, nothing, or a name and a value. *)
Definition parse_pair (pair : bytes) : option (option (bytes * bytes)) :=
  if ContainsByte pair #";" then None
  else match pair with
       | [] => Some None
       | _ => let '(key, value) := CutByte pair #"=" in
              key ← QueryUnescape key; value ← QueryUnescape value; Some (Some (key, value))
       end.

Definition values_Add (m : values) (kv : bytes * bytes) : values := <[kv.1 := default [] (m !! kv.1) ++ [kv.2]]> m.
Definition values_Set (name value : bytes) (m : values) : values := <[name := [value]]> m.

Definition maxQueryParams : Z := 10000.
(** [url.ParseQuery], [None] an error: the names and values read before it are not used. *)
Definition ParseQuery (query : bytes) : option values :=
  let pairs := Split query #"&" in
  if maxQueryParams <? len pairs then None
  else pairs ← mapM parse_pair pairs; Some (foldl values_Add ∅ (omap id pairs)).

Definition sorted_keys (m : values) : list bytes := sort_Strings (map_to_list m).*1.
Definition pairs_of (m : values) : list (bytes * bytes) :=
  concat (map (λ k, map (pair k) (default [] (m !! k))) (sorted_keys m)).
Definition encode_pair (kv : bytes * bytes) : bytes := QueryEscape kv.1 ++ [ #"="] ++ QueryEscape kv.2.
Definition Encode (m : values) : bytes := Join (map encode_pair (pairs_of m)) (&"&").

(** ** [URLSearchParams] *)
Definition sp_read (q : bytes) : values := default ∅ (ParseQuery q).
Definition sp_get (name q : bytes) : option bytes := match sp_read q !! name with Some (v :: _) => Some v | _ => None end.
Definition sp_getAll (name q : bytes) : list bytes := default [] (sp_read q !! name).
Definition sp_has (name q : bytes) : bool := bool_decide (is_Some (sp_read q !! name)).
Definition sp_set (name value q : bytes) : bytes := Encode (values_Set name value (sp_read q)).
Definition sp_append (name value q : bytes) : bytes := Encode (values_Add (sp_read q) (name, value)).
Definition sp_delete (name q : bytes) : bytes := Encode (delete name (sp_read q)).
Definition sp_toString (q : bytes) : bytes := q.
(** The calls of [forEach], for one order of the map it ranges over. *)
Definition sp_forEach (order : values → list (bytes * list bytes)) (q : bytes) : list (bytes * bytes) :=
  concat (map (λ e, map (pair e.1) e.2) (order (sp_read q))).
Definition newSearchParams (raw : option bytes) : bytes := match raw with None => [] | Some raw => TrimPrefix raw (&"?") end.

(** ** A query that was written reads back *)
(** A character of an escaped text. *)
Definition escaped_char (c : Z) : bool := unreserved c || (c =? #"+") || (c =? #"%").

Lemma upper_hex_spec n : 0 <= n < 16 → unhex (upper_hex n) = Some n ∧ escaped_char (upper_hex n) = true.
Proof.
  intros Hn. assert (forallb (λ n, bool_decide (unhex (upper_hex n) = Some n) && escaped_char (upper_hex n)) (seqZ 0 16) = true) as H by by vm_compute.
  rewrite forallb_forall in H. specialize (H n ltac:(apply list_elem_of_In, elem_of_seqZ; lia)).
  apply andb_true_iff in H as [H ?]. split; [by eapply bool_decide_eq_true_1 | done].
Qed.

Lemma nibbles c : is_byte c → 0 <= c / 16 < 16 ∧ 0 <= c mod 16 < 16.
Proof.
  intros [H0 H1]. pose proof (Z.mod_pos_bound c 16 ltac:(lia)).
  split; [split; [apply Z.div_pos | apply Z.div_lt_upper_bound]; lia | lia].
Qed.

Lemma escape_byte_chars c : is_byte c → Forall (λ x, escaped_char x = true) (escape_byte c).
Proof.
  intros Hc. pose proof (nibbles c Hc) as [Hh Hl]. unfold escape_byte. destruct (unreserved c) eqn:Eu; [|destruct (c =? 32)].
  - constructor; [|constructor]. unfold escaped_char. by rewrite Eu.
  - by repeat constructor.
  - repeat constructor; by apply upper_hex_spec.
Qed.

Lemma QueryEscape_chars s : is_bytes s → Forall (λ x, escaped_char x = true) (QueryEscape s).
Proof. induction 1 as [|c s Hc Hs IH]; cbn; [constructor|]. apply Forall_app. split; [by apply escape_byte_chars | done]. Qed.

Lemma escaped_lacks s c : is_bytes s → escaped_char c = false → c ∉ QueryEscape s.
Proof. intros Hs Hc Hin. pose proof (QueryEscape_chars s Hs) as H. rewrite Forall_forall in H. specialize (H c Hin). congruence. Qed.

Lemma QueryUnescape_plain c s : c ≠ #"%" → QueryUnescape (c :: s) = (cons (if c =? #"+" then 32 else c)) <$> QueryUnescape s.
Proof. intros Hc. cbn [QueryUnescape]. destruct (Z.eqb_spec c #"%") as [|_]; [done|]. by destruct (QueryUnescape s). Qed.

Lemma unescape_byte c s : is_byte c → QueryUnescape (escape_byte c ++ s) = cons c <$> QueryUnescape s.
Proof.
  intros Hc. pose proof (nibbles c Hc) as [Hh Hl]. unfold escape_byte. destruct (unreserved c) eqn:Eu; [|destruct (Z.eqb_spec c 32) as [->|]].
  - cbn [app]. assert (c ≠ #"%" ∧ c ≠ #"+") as [Hp Hplus].
    { split; intros ->; by vm_compute in Eu. }
    rewrite QueryUnescape_plain by done. by destruct (Z.eqb_spec c #"+").
  - cbn [app]. by rewrite QueryUnescape_plain.
  - cbn [app]. set (h := upper_hex (c / 16)). set (l := upper_hex (c mod 16)).
    change (QueryUnescape ( #"%" :: h :: l :: s)) with (h ← unhex h; l ← unhex l; s ← QueryUnescape s; Some (16 * h + l :: s)).
    unfold h, l. rewrite (proj1 (upper_hex_spec _ Hh)). cbn [mbind option_bind]. rewrite (proj1 (upper_hex_spec _ Hl)). cbn [mbind option_bind]. rewrite <- Z.div_mod by lia. by destruct (QueryUnescape s).
Qed.

Lemma QueryUnescape_Escape s : is_bytes s → QueryUnescape (QueryEscape s) = Some s.
Proof. induction 1 as [|c s Hc Hs IH]; [done|]. unfold QueryEscape in *. cbn [map concat]. by rewrite unescape_byte, IH. Qed.

Lemma CutByte_at a b sep : sep ∉ a → CutByte (a ++ sep :: b) sep = (a, b).
Proof.
  induction a as [|c a IH]; intros Hs; cbn; [by rewrite Z.eqb_refl|].
  apply not_elem_of_cons in Hs as [Hne Hs]. destruct (Z.eqb_spec c sep) as [->|_]; [done|]. by rewrite IH.
Qed.

Lemma Split_part p sep : sep ∉ p → Split p sep = [p].
Proof.
  induction p as [|c p IH]; intros Hs; cbn; [done|]. apply not_elem_of_cons in Hs as [Hne Hs].
  destruct (Z.eqb_spec c sep) as [->|_]; [done|]. by rewrite IH.
Qed.
Lemma Split_part_rest p sep rest : sep ∉ p → Split (p ++ sep :: rest) sep = p :: Split rest sep.
Proof.
  induction p as [|c p IH]; intros Hs; cbn; [by rewrite Z.eqb_refl|]. apply not_elem_of_cons in Hs as [Hne Hs].
  destruct (Z.eqb_spec c sep) as [->|_]; [done|]. by rewrite IH.
Qed.
Lemma Split_Join parts sep : parts ≠ [] → Forall (λ p, sep ∉ p) parts → Split (Join parts [sep]) sep = parts.
Proof.
  induction parts as [|p [|p' parts] IH]; intros Hne Hp; [done | |].
  - apply Forall_cons in Hp as [Hp _]. by apply Split_part.
  - apply Forall_cons in Hp as [Hp Hrest]. change (Join (p :: p' :: parts) [sep]) with (p ++ sep :: Join (p' :: parts) [sep]).
    rewrite Split_part_rest by done. by rewrite IH.
Qed.

Lemma parse_encoded kv : is_bytes kv.1 → is_bytes kv.2 → parse_pair (encode_pair kv) = Some (Some kv).
Proof.
  destruct kv as [k v]. cbn [fst snd]. intros Hk Hv. unfold parse_pair, encode_pair. cbn [fst snd].
  rewrite (proj2 (ContainsByte_false _ _)).
  2: { rewrite !elem_of_app, list_elem_of_singleton. intros [H|[H|H]]; [by apply (escaped_lacks k #";") in H | done | by apply (escaped_lacks v #";") in H]. }
  destruct (QueryEscape k ++ [ #"="] ++ QueryEscape v) eqn:E; [by destruct (QueryEscape k)|]. rewrite <- E.
  cbn [app]. rewrite CutByte_at by (by apply escaped_lacks). by rewrite !QueryUnescape_Escape.
Qed.

(** What a list of settings gives a name. *)
Definition given (k : bytes) (l : list (bytes * bytes)) : list bytes := (List.filter (λ kv, bool_decide (kv.1 = k)) l).*2.

Lemma given_cons k k' v l : given k ((k', v) :: l) = if decide (k' = k) then v :: given k l else given k l.
Proof. unfold given. cbn [List.filter fst]. destruct (decide (k' = k)) as [->|]; [by rewrite bool_decide_eq_true_2 | by rewrite bool_decide_eq_false_2]. Qed.

Lemma foldl_Add l m k : foldl values_Add m l !! k = match given k l with [] => m !! k | vs => Some (default [] (m !! k) ++ vs) end.
Proof.
  revert m. induction l as [|[k' v] l IH]; intros m; [done|]. cbn [foldl]. rewrite IH, given_cons. unfold values_Add. cbn [fst snd].
  destruct (decide (k' = k)) as [->|Hne]; [|by rewrite lookup_insert_ne].
  rewrite lookup_insert_eq. destruct (given k l) as [|v' vs]; [done|]. cbn. f_equal. by rewrite <- app_assoc.
Qed.

Lemma given_app k l l' : given k (l ++ l') = given k l ++ given k l'.
Proof. unfold given. by rewrite List.filter_app, fmap_app. Qed.

Lemma given_group k k' vs : given k (map (pair k') vs) = if decide (k' = k) then vs else [].
Proof.
  induction vs as [|v vs IH]; cbn [map]; [by destruct (decide _)|]. rewrite given_cons, IH. by destruct (decide _).
Qed.

Lemma given_groups k (f : bytes → list bytes) keys : NoDup keys → given k (concat (map (λ k, map (pair k) (f k)) keys)) = if decide (k ∈ keys) then f k else [].
Proof.
  induction 1 as [|k' keys Hk' Hnd IH]; cbn [map concat]; [by destruct (decide _) as [?%elem_of_nil|]|].
  rewrite given_app, given_group, IH. destruct (decide (k' = k)) as [->|Hne].
  - rewrite decide_False by done. rewrite decide_True by left. by rewrite app_nil_r.
  - destruct (decide (k ∈ keys)); [rewrite decide_True by (by right); done|]. rewrite decide_False; [done|]. by intros [?|?]%elem_of_cons.
Qed.

Lemma sorted_keys_perm m : sorted_keys m ≡ₚ (map_to_list m).*1.
Proof. apply merge_sort_Permutation. Qed.
Lemma sorted_keys_elem m k : k ∈ sorted_keys m ↔ is_Some (m !! k).
Proof.
  rewrite sorted_keys_perm, list_elem_of_fmap. split.
  - intros ([k' v] & -> & H%elem_of_map_to_list). by eexists.
  - intros [v H]. exists (k, v). split; [done | by apply elem_of_map_to_list].
Qed.
Lemma sorted_keys_NoDup m : NoDup (sorted_keys m).
Proof. rewrite sorted_keys_perm. apply NoDup_fst_map_to_list. Qed.

Lemma given_pairs_of m k : given k (pairs_of m) = default [] (m !! k).
Proof.
  unfold pairs_of. rewrite given_groups by apply sorted_keys_NoDup. destruct (decide _) as [|Hno]; [done|].
  rewrite sorted_keys_elem in Hno. by destruct (m !! k) eqn:E; [destruct Hno; eexists|].
Qed.

(** The values of a query: bytes, and at least one value for each name. *)
Definition good_values (m : values) : Prop := ∀ k vs, m !! k = Some vs → is_bytes k ∧ Forall is_bytes vs ∧ vs ≠ [].
Definition setting_count (m : values) : nat := length (pairs_of m).

Lemma pairs_of_bytes m : good_values m → Forall (λ kv, is_bytes kv.1 ∧ is_bytes kv.2) (pairs_of m).
Proof.
  intros Hm. apply Forall_forall. intros kv Hin. unfold pairs_of in Hin. apply list_elem_of_In, in_concat in Hin as (l & Hl & Hkv).
  apply in_map_iff in Hl as (k & <- & Hk). apply in_map_iff in Hkv as (v & <- & Hv). cbn [fst snd].
  destruct (m !! k) as [vs|] eqn:E; [|done]. destruct (Hm k vs E) as (? & Hvs & _). split; [done|]. rewrite Forall_forall in Hvs. by apply Hvs, list_elem_of_In.
Qed.

Lemma encode_pair_lacks kv : is_bytes kv.1 → is_bytes kv.2 → #"&" ∉ encode_pair kv.
Proof.
  intros Hk Hv. unfold encode_pair. rewrite !elem_of_app, list_elem_of_singleton.
  intros [H|[H|H]]; [by apply (escaped_lacks kv.1 #"&") in H | done | by apply (escaped_lacks kv.2 #"&") in H].
Qed.

(** A query that was written reads back as the same names with the same values, in the order of the
    values of each name, unless it has more settings than the parser takes. *)
Lemma query_read_back (m : values) (Hm : good_values m) (Hmax : Z.of_nat (setting_count m) <= maxQueryParams) : ParseQuery (Encode m) = Some m.
Proof.
  unfold ParseQuery, Encode. pose proof (pairs_of_bytes m Hm) as Hb. unfold setting_count in Hmax.
  assert (foldl values_Add ∅ (pairs_of m) = m) as Hfold.
  { apply map_eq. intros k. rewrite foldl_Add, given_pairs_of, lookup_empty. destruct (m !! k) as [vs|] eqn:E; [|done].
    destruct (Hm k vs E) as (_ & _ & Hne). by destruct vs. }
  destruct (decide (pairs_of m = [])) as [E|Hne]; [rewrite E in *; cbn; by rewrite <- Hfold|].
  change (&"&") with [ #"&"]. rewrite Split_Join; [|by destruct (pairs_of m) |].
  2: { apply Forall_map. eapply Forall_impl; [exact Hb|]. intros kv [? ?]. by apply encode_pair_lacks. }
  rewrite length_map. destruct (Z.ltb_spec maxQueryParams (len (pairs_of m))); [lia|].
  assert (mapM parse_pair (map encode_pair (pairs_of m)) = Some (map Some (pairs_of m))) as ->.
  { apply mapM_Some. clear -Hb. induction Hb as [|kv l [Hk Hv] Hb IH]; constructor; [by apply parse_encoded | done]. }
  cbn [mbind option_bind]. f_equal. rewrite <- Hfold at 2. f_equal. clear. induction (pairs_of m) as [|kv l IH]; [done|].
  cbn [map]. change (omap id (Some kv :: map Some l)) with (kv :: omap id (map Some l)). by rewrite IH.
Qed.

(** ** What the methods do *)
Lemma unhex_range c n : unhex c = Some n → 0 <= n < 16.
Proof.
  unfold unhex. destruct ((#"0" <=? c) && (c <=? #"9")) eqn:E1; [intros [= <-]; bools; lia|].
  destruct ((#"a" <=? c) && (c <=? #"f")) eqn:E2; [intros [= <-]; bools; lia|].
  destruct ((#"A" <=? c) && (c <=? #"F")) eqn:E3; [intros [= <-]; bools; lia | done].
Qed.

Lemma QueryUnescape_bytes s s' : is_bytes s → QueryUnescape s = Some s' → is_bytes s'.
Proof.
  remember (length s) as n eqn:En. assert (length s <= n)%nat as Hn by lia. clear En. revert s s' Hn. induction n as [|n IH]; intros s s' Hn Hs.
  { destruct s; [|cbn in Hn; lia]. intros [= <-]. constructor. }
  destruct s as [|c s]; [intros [= <-]; constructor|]. cbn [length] in Hn. apply Forall_cons in Hs as [Hc Hs].
  destruct (Z.eqb_spec c #"%") as [->|Hne].
  - destruct s as [|h [|l s]]; [done | done|]. change (QueryUnescape ( #"%" :: h :: l :: s)) with (h ← unhex h; l ← unhex l; s ← QueryUnescape s; Some (16 * h + l :: s)).
    destruct (unhex h) as [h'|] eqn:Eh; [|done]. destruct (unhex l) as [l'|] eqn:El; [|done]. cbn [mbind option_bind].
    destruct (QueryUnescape s) as [t|] eqn:Et; [|done]. intros [= <-]. apply unhex_range in Eh, El. cbn [length] in Hn.
    constructor; [unfold is_byte; lia|]. apply (IH s); [lia | by do 2 apply Forall_cons in Hs as [_ Hs] | done].
  - rewrite QueryUnescape_plain by done. destruct (QueryUnescape s) as [t|] eqn:Et; [|done]. intros [= <-].
    constructor; [destruct (c =? _); [by unfold is_byte | done]|]. by apply (IH s); [lia|..].
Qed.

Lemma CutByte_bytes s sep : is_bytes s → is_bytes (CutByte s sep).1 ∧ is_bytes (CutByte s sep).2.
Proof.
  induction 1 as [|c s Hc Hs IH]; [by repeat constructor|]. cbn. destruct (c =? sep); [split; [constructor | done]|].
  destruct (CutByte s sep) as [a b]. destruct IH. split; [by constructor | done].
Qed.
Lemma Split_bytes s sep : is_bytes s → Forall is_bytes (Split s sep).
Proof.
  induction 1 as [|c s Hc Hs IH]; cbn; [by repeat constructor|]. destruct (c =? sep); [constructor; [constructor | done]|].
  destruct (Split s sep) as [|p parts]; [repeat constructor; by destruct Hc|]. apply Forall_cons in IH as [Hp Hparts].
  constructor; [by apply Forall_cons_2 | done].
Qed.

Lemma parse_pair_bytes p kv : is_bytes p → parse_pair p = Some (Some kv) → is_bytes kv.1 ∧ is_bytes kv.2.
Proof.
  intros Hp. unfold parse_pair. destruct (ContainsByte p #";"); [done|]. destruct p as [|c p]; [done|].
  pose proof (CutByte_bytes (c :: p) #"=" Hp) as [Ha Hb]. destruct (CutByte (c :: p) #"=") as [key value]. cbn [fst snd] in *.
  destruct (QueryUnescape key) as [k|] eqn:Ek; [|done]. cbn [mbind option_bind]. destruct (QueryUnescape value) as [v|] eqn:Ev; [|done].
  intros [= <-]. split; [by apply (QueryUnescape_bytes key) | by apply (QueryUnescape_bytes value)].
Qed.

Lemma good_Add m kv : good_values m → is_bytes kv.1 → is_bytes kv.2 → good_values (values_Add m kv).
Proof.
  intros Hm Hk Hv k vs. unfold values_Add. intros [[<- <-]|[Hne Hl]]%lookup_insert_Some; [|by apply Hm].
  split; [done|]. split; [|by destruct (default [] (m !! kv.1))]. apply Forall_app. split; [|by repeat constructor].
  destruct (m !! kv.1) as [vs|] eqn:E; [by apply (Hm kv.1)|constructor].
Qed.

(** The settings do not depend on the order of the names. *)
Lemma pairs_of_perm m : pairs_of m ≡ₚ concat (map (λ e, map (pair e.1) e.2) (map_to_list m)).
Proof.
  unfold pairs_of. assert (map (λ k, map (pair k) (default [] (m !! k))) (map_to_list m).*1 = map (λ e : bytes * list bytes, map (pair e.1) e.2) (map_to_list m)) as <-.
  { assert (∀ l, l ⊆ map_to_list m → map (λ k, map (pair k) (default [] (m !! k))) l.*1 = map (λ e : bytes * list bytes, map (pair e.1) e.2) l) as H; [|by apply H].
    induction l as [|[k vs] l IH]; intros Hl; [done|]. cbn. f_equal; [|apply IH; intros x Hx; apply Hl; by right].
    assert (m !! k = Some vs) as -> by (apply elem_of_map_to_list, Hl; left). done. }
  rewrite <- !flat_map_concat_map. apply Permutation_flat_map, sorted_keys_perm.
Qed.

Lemma count_insert m k vs : m !! k = None → setting_count (<[k := vs]> m) = (length vs + setting_count m)%nat.
Proof.
  intros Hk. unfold setting_count. rewrite !pairs_of_perm, <- !flat_map_concat_map.
  rewrite (Permutation_flat_map _ (map_to_list_insert m k vs Hk)). cbn [flat_map fst snd]. by rewrite length_app, length_map.
Qed.
Lemma count_delete m k : setting_count m = (length (default [] (m !! k)) + setting_count (delete k m))%nat.
Proof.
  destruct (m !! k) as [vs|] eqn:E; [|by rewrite delete_id]. cbn [default]. rewrite <- (insert_delete_id m k vs E) at 1.
  apply count_insert, lookup_delete_eq.
Qed.
Lemma count_update m k vs : setting_count (<[k := vs]> m) = (length vs + setting_count (delete k m))%nat.
Proof. rewrite <- insert_delete_eq. apply count_insert, lookup_delete_eq. Qed.

Lemma count_Add m kv : setting_count (values_Add m kv) = S (setting_count m).
Proof. unfold values_Add. rewrite count_update, (count_delete m kv.1), length_app. cbn [length]. lia. Qed.

Lemma foldl_good l m : Forall (λ kv, is_bytes kv.1 ∧ is_bytes kv.2) l → good_values m →
  good_values (foldl values_Add m l) ∧ setting_count (foldl values_Add m l) = (length l + setting_count m)%nat.
Proof.
  intros Hl. revert m. induction Hl as [|kv l [Hk Hv] Hl IH]; intros m Hm; [done|]. cbn [foldl length].
  destruct (IH (values_Add m kv) (good_Add m kv Hm Hk Hv)) as [H1 H2]. split; [done|]. rewrite H2, count_Add. lia.
Qed.

Lemma good_empty : good_values ∅.
Proof. intros k vs Hk. by rewrite lookup_empty in Hk. Qed.

(** What is read of a query. *)
Lemma sp_read_good q : is_bytes q → good_values (sp_read q) ∧ (setting_count (sp_read q) <= length (Split q #"&"))%nat.
Proof.
  intros Hq. unfold sp_read, ParseQuery. destruct (_ <? _); [split; [apply good_empty | apply Nat.le_0_l]|].
  destruct (mapM parse_pair (Split q #"&")) as [pairs|] eqn:E; [|split; [apply good_empty | apply Nat.le_0_l]]. cbn [mbind option_bind default].
  apply mapM_Some in E. pose proof (Split_bytes q #"&" Hq) as Hparts.
  assert (Forall (λ kv, is_bytes kv.1 ∧ is_bytes kv.2) (omap id pairs) ∧ (length (omap id pairs) <= length (Split q #"&"))%nat) as [H1 H2].
  { clear Hq. induction E as [|p o parts pairs Hp E IH]; [by split|]. apply Forall_cons in Hparts as [Hb Hparts]. destruct (IH Hparts) as [IH1 IH2].
    destruct o as [kv|].
    - change (omap id (Some kv :: pairs)) with (kv :: omap id pairs). split; [constructor; [by eapply parse_pair_bytes | done] | cbn [length]; lia].
    - change (omap id (None :: pairs)) with (omap id pairs). split; [done | cbn [length]; lia]. }
  destruct (foldl_good (omap id pairs) ∅ H1 good_empty) as [H3 H4]. split; [exact H3|]. etrans; [exact (Nat.eq_le_incl _ _ H4)|]. change (setting_count ∅) with 0%nat. lia.
Qed.


(** A query that the parser takes, written again, reads back as the same settings: the same names,
    each with its values in order. *)
Theorem query_roundtrip (q : bytes) (m : values) (Hq : is_bytes q) (Hm : ParseQuery q = Some m) : ParseQuery (Encode m) = Some m.
Proof.
  pose proof (sp_read_good q Hq) as [Hgood Hcount]. assert (sp_read q = m) as E by (unfold sp_read; by rewrite Hm). rewrite E in *.
  apply query_read_back; [done|]. unfold ParseQuery in Hm. destruct (Z.ltb_spec maxQueryParams (len (Split q #"&"))); [done | lia].
Qed.
Lemma query_roundtrip_witness : ParseQuery (Encode (sp_read (&"b=2&a=x+y%26&b="))) = Some (sp_read (&"b=2&a=x+y%26&b=")).
Proof. apply (query_roundtrip (&"b=2&a=x+y%26&b=")); [by repeat constructor | vm_compute; reflexivity]. Defined.

(** ** What a query says, and what is left of it *)

(** The settings of a query that can be read, each on its own, whether or not the parser takes the
    query as a whole; and whether it refuses it: for one setting that cannot be read, or for their number. *)
Definition settings (q : bytes) : list (bytes * bytes) := omap (λ p, mjoin (parse_pair p)) (Split q #"&").
Definition refused (q : bytes) : bool :=
  (maxQueryParams <? len (Split q #"&")) || existsb (λ p, bool_decide (parse_pair p = None)) (Split q #"&").
(** The settings the methods see. *)
Definition kept (q : bytes) : list (bytes * bytes) := if refused q then [] else settings q.

Lemma mapM_parse parts :
  mapM parse_pair parts
  = if existsb (λ p, bool_decide (parse_pair p = None)) parts then None else Some (map (λ p, mjoin (parse_pair p)) parts).
Proof.
  induction parts as [|p parts IH]; [done|]. cbn [mapM existsb map]. rewrite IH.
  destruct (parse_pair p) as [o|]; [|by rewrite bool_decide_eq_true_2]. rewrite bool_decide_eq_false_2 by done. cbn [orb].
  by destruct (existsb _ parts).
Qed.

Lemma sp_read_kept q : sp_read q = foldl values_Add ∅ (kept q).
Proof.
  unfold sp_read, ParseQuery, kept, refused, settings. destruct (_ <? _); [done|]. cbn [orb]. rewrite mapM_parse.
  destruct (existsb _ _); [done|]. cbn. f_equal. induction (Split q _) as [|p parts IH]; [done|]. cbn.
  destruct (mjoin (parse_pair p)); cbn; by rewrite IH.
Qed.

Lemma getAll_kept k q : sp_getAll k q = given k (kept q).
Proof. unfold sp_getAll. rewrite sp_read_kept, foldl_Add, lookup_empty. by destruct (given k (kept q)). Qed.

Lemma kept_bytes q : is_bytes q → Forall (λ kv, is_bytes kv.1 ∧ is_bytes kv.2) (kept q).
Proof.
  intros Hq. unfold kept. destruct (refused q); [constructor|]. unfold settings. pose proof (Split_bytes q #"&" Hq) as Hp.
  apply Forall_forall. intros kv Hin. apply list_elem_of_omap in Hin as (p & Hin & E). rewrite Forall_forall in Hp.
  apply (parse_pair_bytes p); [by apply Hp|]. by destruct (parse_pair p) as [o|]; [cbn in E; subst|].
Qed.

Lemma kept_max q : len (kept q) <= maxQueryParams.
Proof.
  unfold kept, refused, settings. destruct (Z.ltb_spec maxQueryParams (len (Split q #"&"))) as [|H]; [done|]. cbn [orb].
  destruct (existsb _ _); [done|]. etrans; [|exact H]. apply Nat2Z.inj_le. clear H.
  induction (Split q _) as [|p parts IH]; [done|]. cbn. destruct (mjoin _); cbn; lia.
Qed.

Lemma sp_read_count q : is_bytes q → good_values (sp_read q) ∧ setting_count (sp_read q) = length (kept q).
Proof.
  intros Hq. rewrite sp_read_kept. destruct (foldl_good (kept q) ∅ (kept_bytes q Hq) good_empty) as [H1 H2].
  split; [exact H1|]. rewrite H2. change (setting_count ∅) with 0%nat. lia.
Qed.

(** What is written says what was meant; the parser takes it unless it has too many settings. *)
Lemma written_parts m : good_values m → pairs_of m ≠ [] → Split (Encode m) #"&" = map encode_pair (pairs_of m).
Proof.
  intros Hm Hne. apply Split_Join; [by destruct (pairs_of m)|]. apply Forall_map. eapply Forall_impl; [by apply pairs_of_bytes|].
  intros kv [? ?]. by apply encode_pair_lacks.
Qed.

Lemma settings_written m : good_values m → settings (Encode m) = pairs_of m ∧ refused (Encode m) = (maxQueryParams <? Z.of_nat (setting_count m)).
Proof.
  intros Hm. unfold settings, refused, setting_count. destruct (decide (pairs_of m = [])) as [E|Hne]; [unfold Encode; by rewrite E|].
  rewrite (written_parts m Hm Hne), length_map. clear Hne. pose proof (pairs_of_bytes m Hm) as Hb.
  assert (∀ l, Forall (λ kv, is_bytes kv.1 ∧ is_bytes kv.2) l →
            omap (λ p, mjoin (parse_pair p)) (map encode_pair l) = l ∧ existsb (λ p, bool_decide (parse_pair p = None)) (map encode_pair l) = false) as H.
  { induction 1 as [|kv l [Hk Hv] _ [IH1 IH2]]; [done|]. cbn. rewrite parse_encoded, IH1, IH2 by done. by rewrite bool_decide_eq_false_2. }
  destruct (H _ Hb) as [-> ->]. by rewrite orb_false_r.
Qed.

Lemma good_Set m name value : good_values m → is_bytes name → is_bytes value → good_values (values_Set name value m).
Proof. intros Hm Hn Hv k vs. unfold values_Set. intros [[<- <-]|[Hne Hl]]%lookup_insert_Some; [by repeat constructor | by apply Hm]. Qed.
Lemma good_delete m name : good_values m → good_values (delete name m).
Proof. intros Hm k vs [_ Hl]%lookup_delete_Some. by apply Hm. Qed.

Lemma encode_one name value : Encode (<[name := [value]]> ∅) = encode_pair (name, value).
Proof.
  unfold Encode, pairs_of, sorted_keys. rewrite insert_empty, map_to_list_singleton. cbn. by rewrite lookup_singleton_eq.
Qed.

(** C39 (functional): [getAll] reads the settings the query has, and [set], [append] and [delete] leave a query whose
    text has exactly those settings with the one name changed as the method says, each name's values in
    order.  A query the parser refuses (a semicolon, a malformed escape, more than 10000 parts) has none for them: it
    reads as empty, and what a method writes has the one setting it was given or nothing, so every other
    setting of the text is lost.  A query of 10000 settings that gets one more is written whole and refused
    by every later method. *)
Theorem search_params_exact (q name value : bytes) (Hq : is_bytes q) (Hname : is_bytes name) (Hvalue : is_bytes value) :
  (∀ k, sp_getAll k q = given k (kept q)
        ∧ given k (settings (sp_set name value q)) = (if decide (k = name) then [value] else given k (kept q))
        ∧ given k (settings (sp_append name value q)) = given k (kept q) ++ (if decide (k = name) then [value] else [])
        ∧ given k (settings (sp_delete name q)) = (if decide (k = name) then [] else given k (kept q)))
  ∧ (refused q = true → sp_set name value q = encode_pair (name, value) ∧ sp_append name value q = encode_pair (name, value)
                        ∧ sp_delete name q = [])
  ∧ (refused (sp_set name value q) = false ↔ given name (kept q) ≠ [] ∨ len (kept q) < maxQueryParams)
  ∧ (refused (sp_append name value q) = false ↔ len (kept q) < maxQueryParams)
  ∧ refused (sp_delete name q) = false.
Proof.
  destruct (sp_read_count q Hq) as [Hgood Hcount]. pose proof (kept_max q) as Hmax.
  destruct (settings_written _ (good_Set _ name value Hgood Hname Hvalue)) as [Ss Rs].
  destruct (settings_written _ (good_Add _ (name, value) Hgood Hname Hvalue)) as [Sa Ra].
  destruct (settings_written _ (good_delete _ name Hgood)) as [Sd Rd].
  unfold sp_set, sp_append, sp_delete. rewrite Ss, Sa, Sd, Rs, Ra, Rd, !Z.ltb_ge, count_Add.
  pose proof (count_delete (sp_read q) name) as Hdel. fold (sp_getAll name q) in Hdel. rewrite getAll_kept, Hcount in Hdel.
  assert (setting_count (values_Set name value (sp_read q)) = S (setting_count (delete name (sp_read q)))) as -> by apply count_update.
  rewrite Hcount. split; [|split; [|split_and!]].
  - intros k. rewrite getAll_kept, !given_pairs_of. split; [done|]. pose proof (getAll_kept k q) as Hk. unfold sp_getAll in Hk.
    unfold values_Set, values_Add. cbn [fst snd]. destruct (decide (k = name)) as [->|Hne].
    + rewrite !lookup_insert_eq, lookup_delete_eq. cbn. by rewrite Hk.
    + rewrite !lookup_insert_ne, lookup_delete_ne, app_nil_r by congruence. by rewrite Hk.
  - intros Hr. rewrite sp_read_kept. unfold kept, values_Add, values_Set. rewrite Hr. cbn [foldl fst snd].
    rewrite lookup_empty, delete_empty. cbn [default app]. by rewrite encode_one.
  - destruct (given name (kept q)); cbn [length] in *; split; [right; lia | intros [?|?]; [done | lia] | by left | intros _; lia].
  - lia.
  - lia.
Qed.
Lemma search_params_exact_witness :
  given (&"a") (settings (sp_append (&"a") (&"1 & 2") (&"a=0&b=%C3%A9&a=3"))) = [&"0"; &"3"; &"1 & 2"]
  ∧ settings (&"a=1&b=%zz") = [(&"a", &"1")] ∧ given (&"a") (settings (sp_set (&"x") (&"2") (&"a=1&b=%zz"))) = [].
Proof.
  split_and!.
  - destruct (search_params_exact (&"a=0&b=%C3%A9&a=3") (&"a") (&"1 & 2")) as (H & _ & _ & _); [by repeat constructor..|].
    destruct (H (&"a")) as (_ & _ & -> & _). vm_compute. reflexivity.
  - vm_compute. reflexivity.
  - destruct (search_params_exact (&"a=1&b=%zz") (&"x") (&"2")) as (H & _); [by repeat constructor..|].
    destruct (H (&"a")) as (_ & -> & _). vm_compute. reflexivity.
Defined.

(** A query that the parser refuses reads as empty, and a method that writes throws its settings away. *)
Theorem refused_query_lost : sp_set (&"x") (&"1") (&"a=%zz&b=2") = &"x=1" ∧ sp_delete (&"x") (&"a;b=1&c=2") = [].
Proof. by vm_compute. Qed.

(** ** [URL] *)
Record url := mkUrl {
  u_Scheme : bytes;
  u_Opaque : bytes;
  u_User : option bytes;
  u_Host : bytes;
  u_Path : bytes;
  u_RawPath : bytes;
  u_RawQuery : bytes;
  u_ForceQuery : bool;
  u_Fragment : bytes;
  u_RawFragment : bytes;
}.

(** The parser, the printer and the escaped views of [net/url]. *)
Class NetURL := {
  nu_Parse : bytes → option url;
  nu_ResolveReference : url → url → url;
  nu_String : url → bytes;
  nu_EscapedPath : url → bytes;
  nu_EscapedFragment : url → bytes;
}.

(** [Hostname] and [Port]: a port is a colon and digits at the end. *)
Definition validOptionalPort (port : bytes) : bool :=
  match port with [] => true | c :: digits => (c =? #":") && forallb (λ d, (#"0" <=? d) && (d <=? #"9")) digits end.
Definition splitHostPort (hostPort : bytes) : bytes * bytes :=
  let '(host, port) := match LastIndexByte hostPort #":" with
                       | Some colon => if validOptionalPort (drop colon hostPort) then (take colon hostPort, drop (S colon) hostPort) else (hostPort, [])
                       | None => (hostPort, [])
                       end in
  (if HasPrefix host (&"[") && HasSuffix host (&"]") then take (length host - 2) (drop 1 host) else host, port).
Definition Hostname (u : url) : bytes := (splitHostPort (u_Host u)).1.
Definition Port (u : url) : bytes := (splitHostPort (u_Host u)).2.

Definition with_host (host : bytes) (u : url) : url :=
  mkUrl (u_Scheme u) (u_Opaque u) (u_User u) host (u_Path u) (u_RawPath u) (u_RawQuery u) (u_ForceQuery u) (u_Fragment u) (u_RawFragment u).
Definition with_path (path : bytes) (u : url) : url :=
  mkUrl (u_Scheme u) (u_Opaque u) (u_User u) (u_Host u) path [] (u_RawQuery u) (u_ForceQuery u) (u_Fragment u) (u_RawFragment u).
Definition with_query (q : bytes) (u : url) : url :=
  mkUrl (u_Scheme u) (u_Opaque u) (u_User u) (u_Host u) (u_Path u) (u_RawPath u) q (u_ForceQuery u) (u_Fragment u) (u_RawFragment u).
Definition with_fragment (fragment : bytes) (u : url) : url :=
  mkUrl (u_Scheme u) (u_Opaque u) (u_User u) (u_Host u) (u_Path u) (u_RawPath u) (u_RawQuery u) (u_ForceQuery u) fragment (u_RawFragment u).

Section url_object.
Context {N : NetURL}.

Definition IsAbs (u : url) : bool := negb (bool_decide (u_Scheme u = [])).

(** The constructor, [None] a TypeError. *)
Definition newURL (raw : bytes) (base : option bytes) : option url :=
  parsed ← nu_Parse raw;
  parsed ← match base with None => Some parsed | Some base => base ← nu_Parse base; Some (nu_ResolveReference base parsed) end;
  if IsAbs parsed then Some parsed else None.

Inductive url_property := Href | Protocol | HostnameOf | HostOf | PortOf | Origin | Pathname | Search_ | Hash.

Definition url_get (p : url_property) (u : url) : bytes :=
  match p with
  | Href => nu_String u
  | Protocol => u_Scheme u ++ &":"
  | HostnameOf => Hostname u
  | HostOf => u_Host u
  | PortOf => Port u
  | Origin => if bool_decide (u_Scheme u = []) || bool_decide (u_Host u = []) then &"null" else u_Scheme u ++ &"://" ++ u_Host u
  | Pathname => if bool_decide (nu_EscapedPath u = []) then &"/" else nu_EscapedPath u
  | Search_ => if bool_decide (u_RawQuery u = []) then [] else &"?" ++ u_RawQuery u
  | Hash => if bool_decide (u_Fragment u = []) then [] else &"#" ++ nu_EscapedFragment u
  end.

(** An assignment: [None] throws; a property without a setter stays as it is. *)
Definition url_set (p : url_property) (value : bytes) (u : url) : option url :=
  match p with
  | Href => next ← nu_Parse value; if IsAbs next then Some next else None
  | HostnameOf => Some (with_host (if bool_decide (Port u = []) then value else value ++ &":" ++ Port u) u)
  | HostOf => Some (with_host value u)
  | Pathname => Some (with_path value u)
  | Search_ => Some (with_query (TrimPrefix value (&"?")) u)
  | Hash => Some (with_fragment (TrimPrefix value (&"#")) u)
  | Protocol | PortOf | Origin => Some u
  end.

(** A method of [url.searchParams] that writes. *)
Definition url_params (f : bytes → bytes) (u : url) : url := with_query (f (u_RawQuery u)) u.

Lemma last_colon value port : forallb (λ d, (#"0" <=? d) && (d <=? #"9")) port = true → LastIndexByte (value ++ #":" :: port) #":" = Some (length value).
Proof.
  intros Hp. assert (LastIndexByte port #":" = None) as Hnone.
  { induction port as [|d port IH]; [done|]. cbn in *. apply andb_true_iff in Hp as [Hd Hp]. rewrite IH by done. bools. by destruct (Z.eqb_spec d #":"); [lia|]. }
  induction value as [|c value IH]; cbn [app LastIndexByte length]; [by rewrite Hnone|]. by rewrite IH.
Qed.

Lemma port_digits u : forallb (λ d, (#"0" <=? d) && (d <=? #"9")) (Port u) = true.
Proof.
  unfold Port, splitHostPort. destruct (LastIndexByte (u_Host u) #":") as [colon|] eqn:E; [|done].
  destruct (validOptionalPort (drop colon (u_Host u))) eqn:Ev; [|done]. cbn [snd]. unfold validOptionalPort in Ev.
  rewrite <- Nat.add_1_r, <- drop_drop. destruct (drop colon (u_Host u)) as [|c digits]; [done|]. apply andb_true_iff in Ev as [_ Ev]. exact Ev.
Qed.

Lemma split_joined value port : forallb (λ d, (#"0" <=? d) && (d <=? #"9")) port = true → HasPrefix value (&"[") = false →
  splitHostPort (value ++ #":" :: port) = (value, port).
Proof.
  intros Hp Hb. unfold splitHostPort. rewrite last_colon by done. rewrite drop_app_length. unfold validOptionalPort. rewrite Hp, Z.eqb_refl, take_app_length.
  replace (S (length value)) with (length (value ++ [ #":"])) by (rewrite length_app; cbn; lia).
  cbn [andb]. replace (value ++ #":" :: port) with ((value ++ [ #":"]) ++ port) by (by rewrite <- app_assoc). rewrite drop_app_length. by rewrite Hb.
Qed.

Lemma split_alone value : #":" ∉ value → HasPrefix value (&"[") = false → splitHostPort value = (value, []).
Proof.
  intros Hc Hb. unfold splitHostPort. assert (LastIndexByte value #":" = None) as ->; [|by rewrite Hb].
  clear Hb. induction value as [|c value IH]; [done|]. apply not_elem_of_cons in Hc as [Hne Hc]. cbn. rewrite (IH Hc). by destruct (Z.eqb_spec c #":").
Qed.

(** A script that moves a URL to another host keeps its port, and nothing but the host changes: a name
    or an address without a colon.  What it writes through [searchParams] is what [search] and [href] show. *)
Theorem url_object_exact (u u' : url) (value : bytes) (f : bytes → bytes)
    (Hset : url_set HostnameOf value u = Some u') (Hcolon : #":" ∉ value) (Hbracket : HasPrefix value (&"[") = false) :
  url_get HostnameOf u' = value ∧ url_get PortOf u' = url_get PortOf u ∧ with_host (u_Host u) u' = u
  ∧ url_get Search_ (url_params f u) = (if bool_decide (f (u_RawQuery u) = []) then [] else &"?" ++ f (u_RawQuery u))
  ∧ url_get Href (url_params f u) = nu_String (with_query (f (u_RawQuery u)) u).
Proof.
  cbn [url_set] in Hset. injection Hset as <-. cbn [url_get]. unfold Hostname. split; [|split; [|by destruct u]].
  - unfold with_host, u_Host at 1. case_bool_decide; [by rewrite split_alone|]. exact (f_equal fst (split_joined value (Port u) (port_digits u) Hbracket)).
  - unfold Port at 1, with_host, u_Host at 1. case_bool_decide as Hp; [by rewrite split_alone, Hp|]. exact (f_equal snd (split_joined value (Port u) (port_digits u) Hbracket)).
Qed.
End url_object.

(** ** [TextEncoder] and [TextDecoder] *)
Definition decoder_label {U : UnicodeCase} (raw : option bytes) : option bytes :=
  match raw with
  | None => Some (&"utf-8")
  | Some raw => let label := ToLower raw in
                if bool_decide (label ∈ [&"utf-8"; &"utf8"; &"unicode-1-1-utf-8"]) then Some label else None
  end.
(** [decode] of a value with bytes, [None] throws; without an argument it is empty. *)
Definition decode_text (fatal : bool) (body : option bytes) : option bytes :=
  match body with None => Some [] | Some body => if fatal && negb (ValidString body) then None else Some body end.
Definition encode_text (text : option bytes) : bytes := default [] text.
