(* ===== verification/ScriptSurface.v ===== *)
(** * What an action finds in its interpreter ([module_runtime.go], [module_compat.go], [module_network.go])

    The globals and the argument of a script, by its entry and by what its
    extension was granted.  An object is the list of its members in the order
    they are set, a function of the host is its name; the interpreter that calls
    them is a library.  The functions of the storage and of the network are in
    [PersistentStore] and [ModuleNetwork], those of the event loop in [AsyncLoop]. *)
From stdpp Require Import gmap.
From S2P Require Import Prelude GoStrings Identifiers PersistentStore ConfigTypes ScriptConfig ConfigValidate HttpHeaders DeclarativeActions ScriptResults ModuleNetwork.

(** ** The functions of the host *)
Inductive host_function :=
| StorageGet | StorageSet | StorageDelete | StorageClear
| NetworkRequest | NetworkRequestAsync | HTTPClient (method : bytes)
| StoreRead | StoreWrite | NullRead | NullWrite
| ConsoleLog (level : bytes) | SetTimeout | ClearTimeout
| Done | Ungzip | PostNotification
| NewURL | NewURLSearchParams | NewTextEncoder | NewTextDecoder | NewDOMParser.
#[export] Instance host_function_eq_dec : EqDecision host_function.
Proof. solve_decision. Defined.

Inductive jsval :=
| JUndefined
| JText (s : bytes)
| JNumber (z : Z)
| JBytes (s : bytes)                    (** a [Uint8Array] *)
| JStrings (m : gmap bytes bytes)
| JSettings (m : gmap bytes jvalue)
| JHost (f : host_function)
| JObject (members : list (bytes * jsval)).

Abbreviation members := (list (bytes * jsval)).
Definition member (name : bytes) (o : members) : option jsval := snd <$> find (λ m, bool_decide (m.1 = name)) o.

(** A function of the host can be reached from a value. *)
Fixpoint reaches (f : host_function) (v : jsval) : bool :=
  match v with
  | JHost g => bool_decide (f = g)
  | JObject o => existsb (λ m, reaches f m.2) o
  | _ => false
  end.

(** ** Messages *)
Definition message_body (m : scriptMessage) (bodyMode : bytes) : option members :=
  if bool_decide (bodyMode = &"none") then Some []
  else if bool_decide (bodyMode = &"text") then Some [(&"body", JText (sm_Body m))]
  else if bool_decide (bodyMode = &"binary") then Some [(&"body", JBytes (sm_Body m))]
  else None.
Definition scriptMessageObject (m : scriptMessage) (bodyMode : bytes) : option members :=
  body ← message_body m bodyMode;
  Some ([(&"url", JText (sm_URL m)); (&"headers", JStrings (flatHeaders (sm_Headers m)))] ++ body
        ++ (if bool_decide (sm_Method m = []) then [] else [(&"method", JText (sm_Method m))])
        ++ (if sm_StatusCode m =? 0 then [] else [(&"status", JNumber (sm_StatusCode m)); (&"trailers", JStrings (flatHeaders (sm_Trailers m)))])).

(** ** The objects of the host *)
Definition timer_globals : members :=
  [(&"setTimeout", JHost SetTimeout); (&"clearTimeout", JHost ClearTimeout); (&"setInterval", JHost SetTimeout); (&"clearInterval", JHost ClearTimeout)].
Definition console_object : jsval :=
  JObject [(&"log", JHost (ConsoleLog &"info")); (&"info", JHost (ConsoleLog &"info")); (&"warn", JHost (ConsoleLog &"warn")); (&"error", JHost (ConsoleLog &"error"))].
Definition web_globals : members :=
  [(&"URL", JHost NewURL); (&"URLSearchParams", JHost NewURLSearchParams); (&"TextEncoder", JHost NewTextEncoder); (&"TextDecoder", JHost NewTextDecoder);
   (&"DOMParser", JHost NewDOMParser)].
Definition storageObject : jsval :=
  JObject [(&"get", JHost StorageGet); (&"set", JHost StorageSet); (&"delete", JHost StorageDelete); (&"clear", JHost StorageClear)].
Definition network_API : jsval := JObject [(&"request", JHost NetworkRequest); (&"requestAsync", JHost NetworkRequestAsync)].
Definition compatHTTPClient : jsval :=
  JObject (map (λ method, (method, JHost (HTTPClient method))) [&"get"; &"post"; &"put"; &"delete"; &"head"; &"patch"]).
(** Without the permission the store reads nothing and writes nothing. *)
Definition compatPersistentStore (storage : bool) : jsval :=
  if storage then JObject [(&"read", JHost StoreRead); (&"write", JHost StoreWrite)]
  else JObject [(&"read", JHost NullRead); (&"write", JHost NullWrite)].

Definition loonPersonaVersion : bytes := &"3.3.8(932)".

(** [installProxyCompatAPI]; [startTime] is the clock at the start, as the number the script sees. *)
Definition installProxyCompatAPI (request : members) (response : option members) (argument : gmap bytes jvalue) (storage requester : bool) (startTime : Z) : members :=
  [(&"$loon", JText loonPersonaVersion); (&"$environment", JObject [(&"loon-version", JText loonPersonaVersion)]);
   (&"$script", JObject [(&"startTime", JNumber startTime)]); (&"$request", JObject request);
   (&"$response", match response with Some r => JObject r | None => JUndefined end); (&"$argument", JSettings argument);
   (&"$done", JHost Done); (&"$persistentStore", compatPersistentStore storage)]
  ++ (if requester then [(&"$httpClient", compatHTTPClient)] else [])
  ++ [(&"$utils", JObject [(&"ungzip", JHost Ungzip)]); (&"$notification", JObject [(&"post", JHost PostNotification)])].

(** ** What [execute] gives a script *)
Record surface := mkSurface {
  sf_globals : members;
  sf_argument : option members;         (** of [transform], for the native entry *)
}.

Definition compat_entry (rule : ScriptRule) : bool := bool_decide (sr_Entry rule = &"proxy-compat").

(** The argument of [transform], and where the objects of a bundle come from. *)
Definition context_object (module : Module_) (rule : ScriptRule) (requestObject : members) (responseObject : option members) : members :=
  [(&"phase", JText (sr_Phase rule)); (&"request", JObject requestObject); (&"settings", JSettings (sr_settings rule))]
  ++ (match responseObject with Some r => [(&"response", JObject r)] | None => [] end)
  ++ (if mod_PersistentStorage module then [(&"storage", storageObject)] else [])
  ++ (if mod_Network module && negb (compat_entry rule) then [(&"network", network_API)] else []).

Definition request_body_mode (rule : ScriptRule) (response : option scriptMessage) : bytes :=
  match response with None => sr_BodyMode rule | Some _ => &"none" end.

Definition surface_of (module : Module_) (rule : ScriptRule) (requestObject : members) (responseObject : option members) (startTime : Z) : surface :=
  let base := timer_globals ++ (if compat_entry rule then web_globals else []) ++ [(&"console", console_object)] in
  if compat_entry rule
  then mkSurface (base ++ installProxyCompatAPI requestObject responseObject (sr_settings rule) (mod_PersistentStorage module) (mod_Network module) startTime) None
  else mkSurface base (Some (context_object module rule requestObject responseObject)).

(** [None] is an error: a body mode the program does not know. *)
Definition script_surface (module : Module_) (rule : ScriptRule) (request : scriptMessage) (response : option scriptMessage) (startTime : Z) : option surface :=
  requestObject ← scriptMessageObject request (request_body_mode rule response);
  responseObject ← match response with None => Some None | Some r => Some <$> scriptMessageObject r (sr_BodyMode rule) end;
  Some (surface_of module rule requestObject responseObject startTime).

Definition surface_reaches (f : host_function) (s : surface) : bool :=
  existsb (λ m, reaches f m.2) (sf_globals s) || match sf_argument s with Some o => reaches f (JObject o) | None => false end.

(** ** The stores of a bundle *)
Inductive store_call := CallRead (key : bytes) | CallWrite (value key : bytes).
(** A call of [$persistentStore]: what it answers, [None] for null, and whether it was done. *)
Inductive store_answer := AnswerValue (v : option bytes) | AnswerBool (b : bool).
Section compat_store.
Context {J : StoreJSON}.
Definition compat_store_call (storage : bool) (id : bytes) (call : store_call) (c : save_calls) (commits : Z) (r : PersistentStore.scriptRuntime) : store_answer * PersistentStore.scriptRuntime :=
  if storage
  then match call with
       | CallRead key => (AnswerValue (storage_get id key r), r)
       | CallWrite value key => let res := storage_set id key value c commits r in (AnswerBool (so_answer res), so_runtime res)
       end
  else match call with CallRead _ => (AnswerValue None, r) | CallWrite _ _ => (AnswerBool false, r) end.
End compat_store.

(** ** The calls of the network *)

(** What one call comes to before anything is sent: an exception, or a worker with a request or the
    error it reports. *)
Inductive call_outcome := LimitExceeded | BadCall | Started (request : res string moduleNetworkRequest) (binary : bool).
Section calls.
Context {U : UnicodeCase} {F : Floats} {P : TextParsers}.

(** A call of [network.request] or [requestAsync], or of a method of [$httpClient]: one count for the action. *)
Inductive net_call := NativeCall (options : goval) | CompatCall (method : bytes) (callback : bool) (options : option goval).
Definition network_call (call : net_call) (calls : Z) : Z * call_outcome :=
  let calls := calls + 1 in
  (calls,
   if maxModuleNetworkCallsPerAction <? calls then LimitExceeded
   else match call with
        | NativeCall options =>
            match stringAnyMap options with None => BadCall | Some options => Started (newModuleNetworkRequest options) true end
        | CompatCall method callback options =>
            if negb callback then BadCall
            else match compatRequestOptions options method with
                 | None => BadCall
                 | Some (options, binary) => Started (newModuleNetworkRequest options) binary
                 end
        end).
Fixpoint network_calls (l : list net_call) (calls : Z) : list call_outcome :=
  match l with [] => [] | call :: l => let '(calls, o) := network_call call calls in o :: network_calls l calls end.

Definition started (o : call_outcome) : bool := match o with Started _ _ => true | _ => false end.

Lemma calls_left l calls : 0 <= calls → len (List.filter started (network_calls l calls)) <= Z.max 0 (maxModuleNetworkCallsPerAction - calls).
Proof.
  revert calls. induction l as [|call l IH]; intros calls Hc; cbn [network_calls network_call List.filter length]; [lia|].
  specialize (IH (calls + 1) ltac:(lia)). destruct (Z.ltb_spec maxModuleNetworkCallsPerAction (calls + 1)); cbn [started List.filter length]; [lia|].
  destruct (started _); cbn [length]; lia.
Qed.

(** The method of a request that [newModuleNetworkRequest] accepted. *)
Lemma request_method options r method : newModuleNetworkRequest options = Ok r → options !! (&"method") = Some (GString method) → nr_method r = method.
Proof.
  unfold newModuleNetworkRequest. intros E Hm. apply bind_Ok_inv in E as (? & _ & E). destruct (options !! (&"url")) as [[]|]; try done.
  apply bind_Ok_inv in E as (? & _ & E). apply bind_Ok_inv in E as ([parsed origin] & _ & E). destruct (request_target origin); [|done].
  rewrite Hm in E. apply bind_Ok_inv in E as (m & Em & E). destruct (validModuleNetworkMethod method); [|done]. injection Em as <-.
  apply bind_Ok_inv in E as (? & _ & E). apply bind_Ok_inv in E as (? & _ & E). apply bind_Ok_inv in E as (? & _ & E). by injection E as <-.
Qed.

Lemma kept_method source key options : key ≠ &"method" → keep_option source key options !! (&"method") = options !! (&"method").
Proof. intros Hk. unfold keep_option. destruct (source !! key); [by rewrite lookup_insert_ne | done]. Qed.

Lemma compat_method raw method options binary : compatRequestOptions raw method = Some (options, binary) → options !! (&"method") = Some (GString (methodToken method)).
Proof.
  unfold compatRequestOptions. destruct raw as [v|]; [|done]. destruct (match v with GString _ => true | _ => false end) eqn:Ev.
  - destruct v; try done. intros [= <- <-]. by rewrite lookup_insert_ne, lookup_singleton_eq.
  - assert ((source ← stringAnyMap v; let options := keep_option source (&"body") (keep_option source (&"headers") (keep_option source (&"url") {[ &"method" := GString (methodToken method) ]})) in
      if bool_decide (options !! (&"url") = None) then None
      else Some (options, match source !! (&"binary-mode") with Some (GBool b) => b | _ => false end)) = Some (options, binary) →
      options !! (&"method") = Some (GString (methodToken method))) as H; [|by destruct v].
    destruct (stringAnyMap v) as [source|]; [|done]. cbn zeta. cbn [mbind option_bind]. case_bool_decide; [done|]. intros [= <- _].
    rewrite !kept_method by done. by rewrite lookup_singleton_eq.
Qed.

(** However a script calls the network, an action starts at most four requests; a request of
    [$httpClient] has the method of its name and no other. *)
Theorem network_calls_bounded (l : list net_call) :
  len (List.filter started (network_calls l 0)) <= 4
  ∧ ∀ method options calls r binary, (network_call (CompatCall method true options) calls).2 = Started (Ok r) binary → nr_method r = methodToken method.
Proof.
  split; [apply (calls_left l 0); lia|]. intros method options calls r binary. cbn [network_call snd negb].
  destruct (_ <? _); [done|]. destruct (compatRequestOptions options method) as [[o b]|] eqn:E; [|done]. intros [= Er _].
  eapply request_method; [exact Er|]. by eapply compat_method.
Qed.
End calls.

(** ** What is granted *)
Definition is_storage (f : host_function) : bool :=
  match f with StorageGet | StorageSet | StorageDelete | StorageClear | StoreRead | StoreWrite => true | _ => false end.
Definition is_network (f : host_function) : bool :=
  match f with NetworkRequest | NetworkRequestAsync | HTTPClient _ => true | _ => false end.
(** What only a bundle finds. *)
Definition is_compat (f : host_function) : bool :=
  match f with
  | HTTPClient _ | StoreRead | StoreWrite | NullRead | NullWrite | Done | Ungzip | PostNotification
  | NewURL | NewURLSearchParams | NewTextEncoder | NewTextDecoder | NewDOMParser => true
  | _ => false
  end.

Lemma message_no_host f m mode o : scriptMessageObject m mode = Some o → reaches f (JObject o) = false.
Proof.
  unfold scriptMessageObject, message_body. intros E.
  destruct (bool_decide (mode = &"none")); [|destruct (bool_decide (mode = &"text")); [|destruct (bool_decide (mode = &"binary")); [|done]]];
    injection E as <-; destruct (bool_decide (sm_Method m = [])), (sm_StatusCode m =? 0); reflexivity.
Qed.

Lemma message_body_kept m mode o : scriptMessageObject m mode = Some o →
  member (&"body") o = if bool_decide (mode = &"text") then Some (JText (sm_Body m)) else if bool_decide (mode = &"binary") then Some (JBytes (sm_Body m)) else None.
Proof.
  unfold scriptMessageObject, message_body. intros E. destruct (bool_decide (mode = &"none")) eqn:H0.
  - apply bool_decide_eq_true_1 in H0 as ->. injection E as <-. by destruct (bool_decide (sm_Method m = [])), (sm_StatusCode m =? 0).
  - destruct (bool_decide (mode = &"text")); [|destruct (bool_decide (mode = &"binary")); [|done]]; by injection E as <-.
Qed.

(** The functions an action was granted. *)
Definition granted (module : Module_) (rule : ScriptRule) : list host_function :=
  [SetTimeout; ClearTimeout; ConsoleLog (&"info"); ConsoleLog (&"warn"); ConsoleLog (&"error")]
  ++ (if compat_entry rule then
        [NewURL; NewURLSearchParams; NewTextEncoder; NewTextDecoder; NewDOMParser; Done; Ungzip; PostNotification]
        ++ (if mod_PersistentStorage module then [StoreRead; StoreWrite] else [NullRead; NullWrite])
        ++ (if mod_Network module then map HTTPClient [&"get"; &"post"; &"put"; &"delete"; &"head"; &"patch"] else [])
      else (if mod_PersistentStorage module then [StorageGet; StorageSet; StorageDelete; StorageClear] else [])
           ++ (if mod_Network module then [NetworkRequest; NetworkRequestAsync] else [])).

Lemma surface_members f module rule request response startTime :
  reaches f (JObject request) = false → match response with Some r => reaches f (JObject r) | None => false end = false →
  surface_reaches f (surface_of module rule request response startTime) = existsb (λ g, bool_decide (f = g)) (granted module rule).
Proof.
  intros Hreq Hres. unfold surface_of, granted, surface_reaches, context_object, installProxyCompatAPI.
  destruct (compat_entry rule), (mod_PersistentStorage module), (mod_Network module), response as [r|]; cbn in *; rewrite ?Hreq, ?Hres;
    repeat match goal with |- context [bool_decide ?P] => destruct (bool_decide P); cbn; try reflexivity end.
Qed.

(** The object of the request, and of the response. *)
Definition request_of (s : surface) : option jsval :=
  match sf_argument s with Some o => member (&"request") o | None => member (&"$request") (sf_globals s) end.
Definition response_of (s : surface) : option jsval :=
  match sf_argument s with Some o => member (&"response") o | None => member (&"$response") (sf_globals s) end.
Definition body_of (v : option jsval) : option jsval := match v with Some (JObject o) => member (&"body") o | _ => None end.

(** C18 (safety): A script can call exactly the functions its entry and the permissions of its extension grant: the
    storage only with the permission for it, the network only with that one, a bundle's globals only
    with the bundle entry.  It sees the body of the message its phase owns, as the action declares it,
    and in the response phase no body of the request. *)
Theorem surface_granted (module : Module_) (rule : ScriptRule) (request : scriptMessage) (response : option scriptMessage) (startTime : Z) (s : surface)
    (Hs : script_surface module rule request response startTime = Some s) :
  (∀ f, surface_reaches f s = true ↔ f ∈ granted module rule)
  ∧ (∀ f, surface_reaches f s = true → (is_storage f = true → mod_PersistentStorage module = true)
       ∧ (is_network f = true → mod_Network module = true) ∧ (is_compat f = true → compat_entry rule = true))
  ∧ (is_Some response → body_of (request_of s) = None)
  ∧ body_of (match response with None => request_of s | Some _ => response_of s end)
    = let body := sm_Body (default request response) in
      if bool_decide (sr_BodyMode rule = &"text") then Some (JText body) else if bool_decide (sr_BodyMode rule = &"binary") then Some (JBytes body) else None.
Proof.
  unfold script_surface in Hs. destruct (scriptMessageObject request _) as [req|] eqn:Ereq; [|done]. cbn [mbind option_bind] in Hs.
  destruct (match response with None => _ | Some r => _ end) as [res|] eqn:Eres; [|done]. injection Hs as <-.
  assert (∀ f, surface_reaches f (surface_of module rule req res startTime) = true ↔ f ∈ granted module rule) as Hall.
  { intros f. rewrite surface_members; [|by eapply message_no_host|].
    - rewrite existsb_exists. split; [intros (g & Hg & ->%bool_decide_eq_true_1); by apply list_elem_of_In|]. intros Hf. exists f. split; [by apply list_elem_of_In | by apply bool_decide_eq_true_2].
    - destruct res as [r|]; [|done]. destruct response as [m|]; [|done]. destruct (scriptMessageObject m _) as [o|] eqn:Eo; [|done]. injection Eres as <-. by eapply message_no_host. }
  split; [exact Hall|]. split.
  - intros f Hf%Hall. unfold granted in Hf. destruct (compat_entry rule), (mod_PersistentStorage module), (mod_Network module); cbn in Hf;
      repeat (apply elem_of_cons in Hf as [->|Hf]; [done|]); by apply elem_of_nil in Hf.
  - assert (request_of (surface_of module rule req res startTime) = Some (JObject req)
      ∧ response_of (surface_of module rule req res startTime) = match res with Some r => Some (JObject r) | None => if compat_entry rule then Some JUndefined else None end) as [-> ->].
    { unfold surface_of, context_object. by destruct (compat_entry rule), (mod_PersistentStorage module), (mod_Network module), res. }
    cbn [body_of]. apply message_body_kept in Ereq. unfold request_body_mode in Ereq. split.
    + intros [m ->]. exact Ereq.
    + destruct response as [m|]; [|exact Ereq]. destruct (scriptMessageObject m _) as [o|] eqn:Eo; [|done]. injection Eres as <-. cbn [body_of]. by apply message_body_kept in Eo.
Qed.

(** The store of a bundle is the storage of its extension: a write that is accepted is what the next
    read gives, one that is refused changes nothing that is read, and without the permission nothing
    is read or written. *)
Theorem compat_store_exact {J : StoreJSON} (storage : bool) (id value key other : bytes) (c : save_calls) (commits : Z) (r : PersistentStore.scriptRuntime) :
  let '(answer, r') := compat_store_call storage id (CallWrite value key) c commits r in
  let read := λ k r, (compat_store_call storage id (CallRead k) c commits r).1 in
  (answer = AnswerBool true → storage = true ∧ read key r' = AnswerValue (Some value) ∧ (other ≠ key → read other r' = read other r))
  ∧ (answer = AnswerBool false → read other r' = read other r)
  ∧ (storage = false → answer = AnswerBool false ∧ r' = r ∧ read other r = AnswerValue None).
Proof.
  destruct storage; cbn [compat_store_call fst]; [|by repeat split]. unfold storage_get.
  destruct (storage_step_cases id (OpSet key value) c commits r) as [(_ & E & Ha)|(_ & _ & _ & E)]; cbn [storage_step] in E; cbn [storage_step] in *.
  - rewrite E. split; [|by split]. intros [= Ht]. specialize (Ha Ht). cbn in Ha. by rewrite Ha.
  - rewrite E. pose proof (commit_snapshot_spec c (commits_of id (OpSet key value) r) (commits + 1) r) as (Em & _).
    unfold bucket_of in *. rewrite Em. cbn [commits_of] in *. set (a := so_answer _) in *. split; [|split; [|done]].
    + intros [= Ht]. rewrite Ht. rewrite !lookup_insert_eq. cbn. split; [done|]. split; [by rewrite lookup_insert_eq|].
      intros Hne. by rewrite lookup_insert_ne.
    + intros [= Ht]. by rewrite Ht.
Qed.

(** A bundle with storage and without network, on a response. *)
Definition bundle_module : Module_ :=
  mkModule (&"m") [] [] [] true [] (mkModuleSource [] [] []) [&"a.example"] [] [] [] [] [] true false false [].
Definition bundle_rule : ScriptRule :=
  mkScriptRule (&"r") (&"response") (mkActionMatch [] [] [] [] []) None [] [] [] (&"text") (&"proxy-compat") [] false None None None None 100 1024 None None ∅.
Definition a_message (status : Z) (body : bytes) : scriptMessage := mkMessage (&"https://a.example/") (if status =? 0 then &"POST" else []) ∅ ∅ body status.
Lemma surface_granted_witness : ∃ s, script_surface bundle_module bundle_rule (a_message 0 (&"secret")) (Some (a_message 200 (&"page"))) 0 = Some s
  ∧ surface_reaches StoreWrite s = true ∧ surface_reaches (HTTPClient (&"get")) s ≠ true
  ∧ body_of (request_of s) = None ∧ body_of (response_of s) = Some (JText (&"page")).
Proof.
  destruct (script_surface bundle_module bundle_rule (a_message 0 (&"secret")) (Some (a_message 200 (&"page"))) 0) as [s|] eqn:E; [|vm_compute in E; discriminate E].
  destruct (surface_granted bundle_module bundle_rule (a_message 0 (&"secret")) (Some (a_message 200 (&"page"))) 0 s E) as (Hall & Honly & Hreq & Hbody).
  exists s. split; [reflexivity|]. split; [apply Hall; vm_compute; repeat (first [left | right])|].
  split; [intros Hf; destruct (Honly _ Hf) as (_ & Hn & _); discriminate (Hn eq_refl)|]. split; [apply Hreq; eexists; reflexivity | exact Hbody].
Defined.
