(* ===== verification/Dom.v ===== *)
(** * The documents of a bundle ([module_dom.go])

    A document owns a tree of HTML nodes; a script holds objects that stand for
    nodes.  The nodes live in a heap, because a script holds many of them at
    once and moves them about.  The parser, the selectors, the printer and the
    two operations of a node that link it are libraries: parameters, with laws
    for what their documentation says.  A walk over the tree has fuel, and no
    result when the fuel runs out. *)
From stdpp Require Import gmap.
From S2P Require Import Prelude GoStrings.

Definition maxDOMDocumentBytes : Z := Z.shiftl 8 20.
Definition maxDOMNodes : Z := 200000.
Definition maxDOMSelectorBytes : Z := 1024.

(** ** Nodes *)
Inductive node_type := ErrorNode | TextNode | DocumentNode | ElementNode | CommentNode | DoctypeNode | RawNode.
#[export] Instance node_type_eq_dec : EqDecision node_type.
Proof. solve_decision. Defined.

(** A node: the chain from [FirstChild] along [NextSibling] is the list it links. *)
Record node := mkNode {
  n_Type : node_type;
  n_Data : bytes;
  n_Attr : list (bytes * bytes);
  n_Parent : option nat;
  n_Children : list nat;
}.
Abbreviation heap := (gmap nat node).

Definition with_parent (p : option nat) (x : node) : node := mkNode (n_Type x) (n_Data x) (n_Attr x) p (n_Children x).
Definition with_children (l : list nat) (x : node) : node := mkNode (n_Type x) (n_Data x) (n_Attr x) (n_Parent x) l.
Definition with_attr (a : list (bytes * bytes)) (x : node) : node := mkNode (n_Type x) (n_Data x) a (n_Parent x) (n_Children x).

Definition children (h : heap) (n : nat) : list nat := match h !! n with Some x => n_Children x | None => [] end.
Definition parent (h : heap) (n : nat) : option nat := x ← h !! n; n_Parent x.

(** The methods of a node, the parser and the printer of [x/net/html], and [cascadia]. *)
Class Html := {
  html_Parse : bytes → option (heap * nat);
  html_Render : heap → nat → option bytes;
  AppendChild : nat → nat → heap → heap;
  RemoveChild : nat → nat → heap → heap;
  selector : Type;
  cascadia_Compile : bytes → option selector;
  QueryAll : selector → heap → nat → list nat;
  Query : selector → heap → nat → option nat;
}.

(** One node is a child of another, and lies below it. *)
Definition child_of (h : heap) (n c : nat) : Prop := c ∈ children h n.
Abbreviation below h := (rtc (child_of h)).

(** Links agree in both directions. *)
Record links_ok (h : heap) : Prop := mkLinksOk {
  to_child : ∀ n c, c ∈ children h n → parent h c = Some n;
  to_parent : ∀ n c, parent h c = Some n → c ∈ children h n;
  to_NoDup : ∀ n, NoDup (children h n);
}.
(** A text node has no children. *)
Definition leaf_ok (h : heap) : Prop := ∀ n, n_Type <$> h !! n = Some TextNode → children h n = [].
Definition tree_ok (h : heap) : Prop := links_ok h ∧ leaf_ok h.

(** Every walk down from a node ends. *)
Definition finite_below (h : heap) : nat → Prop := Acc (λ c n, child_of h n c).

(** The documented behaviour of the libraries. *)
Class HtmlLaws {H : Html} := {
  Parse_ok source h root : html_Parse source = Some (h, root) → tree_ok h ∧ (∀ n, finite_below h n) ∧ is_Some (h !! root);
  AppendChild_exact n c h : parent h c = None → AppendChild n c h = alter (λ x, with_children (n_Children x ++ [c]) x) n (alter (with_parent (Some n)) c h);
  RemoveChild_exact n c h : parent h c = Some n →
    RemoveChild n c h = alter (λ x, with_children (List.filter (λ y, negb (y =? c)%nat) (n_Children x)) x) n (alter (with_parent None) c h);
  (** Of any type: a bare [:contains()] names text nodes. *)
  QueryAll_below s h n m : m ∈ QueryAll s h n → below h n m ∧ is_Some (h !! m);
  Query_first s h n : Query s h n = head (QueryAll s h n);
}.

(** ** Walks *)
Section walks.

(** [countDOMNodes]: it stops once the total passes the limit. *)
Fixpoint count_children (count : nat → option Z) (l : list nat) (total : Z) : option Z :=
  match l with
  | [] => Some total
  | c :: l => n ← count c; let total := total + n in if maxDOMNodes <? total then Some total else count_children count l total
  end.
Fixpoint countDOMNodes (fuel : nat) (h : heap) (n : nat) : option Z :=
  match fuel with O => None | S fuel => count_children (countDOMNodes fuel h) (children h n) 1 end.

(** [firstElement]: the walk goes on until something is found. *)
Fixpoint first_of (walk : nat → option (option nat)) (l : list nat) : option (option nat) :=
  match l with
  | [] => Some None
  | c :: l => found ← walk c; match found with Some m => Some (Some m) | None => first_of walk l end
  end.
Definition is_element (tag : bytes) (h : heap) (n : nat) : bool :=
  match h !! n with Some x => bool_decide (n_Type x = ElementNode) && bool_decide (n_Data x = tag) | None => false end.
Fixpoint walk_first (tag : bytes) (fuel : nat) (h : heap) (n : nat) : option (option nat) :=
  match fuel with
  | O => None
  | S fuel => if is_element tag h n then Some (Some n) else first_of (walk_first tag fuel h) (children h n)
  end.

Definition is_text (h : heap) (n : nat) : bool := match h !! n with Some x => bool_decide (n_Type x = TextNode) | None => false end.
Fixpoint domTextContent (fuel : nat) (h : heap) (n : nat) : option bytes :=
  match fuel with
  | O => None
  | S fuel => if is_text h n then n_Data <$> h !! n else (λ l, concat l) <$> mapM (domTextContent fuel h) (children h n)
  end.

End walks.

(** The reference: a node, then what lies below its children, in order. *)
Fixpoint preorder (fuel : nat) (h : heap) (n : nat) : option (list nat) :=
  match fuel with O => None | S fuel => (λ ls, n :: concat ls) <$> mapM (preorder fuel h) (children h n) end.
Definition text_of (h : heap) (n : nat) : bytes := match h !! n with Some x => if bool_decide (n_Type x = TextNode) then n_Data x else [] | None => [] end.

(** ** A document *)
Record domDocument := mkDocument {
  d_heap : heap;
  d_root : nat;
  d_wrapped : gmap nat nat;       (** the object of a node *)
  d_nodes : gmap nat nat;         (** the node of an object *)
  d_object : nat;                 (** the next object *)
  d_node : nat;                   (** the next node *)
}.
Definition with_heap (h : heap) (d : domDocument) : domDocument :=
  mkDocument h (d_root d) (d_wrapped d) (d_nodes d) (d_object d) (d_node d).

(** A value of the script: an object, or something else. *)
Inductive dom_value := DObject (o : nat) | DOther.

Section document.
Context {H : Html}.

(** A document, or an error; [next] is a node the parser has not made. *)
Definition newDOMDocument (fuel : nat) (source : bytes) (next : nat) : option (res string domDocument) :=
  if maxDOMDocumentBytes <? len source then Some (Err "document exceeds the limit"%string)
  else match html_Parse source with
       | None => Some (Err "parse document"%string)
       | Some (h, root) =>
           count ← countDOMNodes fuel h root;
           Some (if maxDOMNodes <? count then Err "document has too many nodes"%string else Ok (mkDocument h root ∅ ∅ 0 next))
       end.

Definition wrap (n : nat) (d : domDocument) : nat * domDocument :=
  match d_wrapped d !! n with
  | Some existing => (existing, d)
  | None => (d_object d, mkDocument (d_heap d) (d_root d) (<[n := d_object d]> (d_wrapped d)) (<[d_object d := n]> (d_nodes d)) (S (d_object d)) (d_node d))
  end.
Fixpoint wrap_all (l : list nat) (d : domDocument) : list nat * domDocument :=
  match l with [] => ([], d) | n :: l => let '(o, d) := wrap n d in let '(os, d) := wrap_all l d in (o :: os, d) end.

(** [None] throws. *)
Definition nodeOf (v : dom_value) (d : domDocument) : option nat := match v with DObject o => d_nodes d !! o | DOther => None end.

(** A node made by the script. *)
Definition new_node (type : node_type) (data : bytes) (d : domDocument) : nat * domDocument :=
  (d_node d, mkDocument (<[d_node d := mkNode type data [] None []]> (d_heap d)) (d_root d) (d_wrapped d) (d_nodes d) (d_object d) (S (d_node d))).

(** The methods of an object; [n] is its node. *)
Definition appendChild (n : nat) (v : dom_value) (d : domDocument) : option (nat * domDocument) :=
  child ← nodeOf v d;
  let h := match parent (d_heap d) child with Some p => RemoveChild p child (d_heap d) | None => d_heap d end in
  Some (wrap child (with_heap (AppendChild n child h) d)).
Definition removeChild (n : nat) (v : dom_value) (d : domDocument) : option (nat * domDocument) :=
  child ← nodeOf v d;
  if decide (parent (d_heap d) child = Some n) then Some (wrap child (with_heap (RemoveChild n child (d_heap d)) d)) else None.

Definition attributes (n : nat) (d : domDocument) : list (bytes * bytes) := match d_heap d !! n with Some x => n_Attr x | None => [] end.
Fixpoint set_attribute (name value : bytes) (l : list (bytes * bytes)) : list (bytes * bytes) :=
  match l with
  | [] => [(name, value)]
  | (k, v) :: l => if bool_decide (k = name) then (k, value) :: l else (k, v) :: set_attribute name value l
  end.
Definition attribute (name : bytes) (l : list (bytes * bytes)) : option bytes := snd <$> find (λ a, bool_decide (a.1 = name)) l.

Section names.
Context {U : UnicodeCase}.
(** The methods of the document. *)
Definition createElement (name : bytes) (d : domDocument) : option (nat * domDocument) :=
  let name := ToLower (TrimSpace name) in
  if bool_decide (name = []) then None else let '(n, d) := new_node ElementNode name d in Some (wrap n d).
Definition getAttribute (n : nat) (name : bytes) (d : domDocument) : option bytes := attribute (ToLower name) (attributes n d).
Definition setAttribute (n : nat) (name value : bytes) (d : domDocument) : domDocument :=
  with_heap (alter (λ x, with_attr (set_attribute (ToLower name) value (n_Attr x)) x) n (d_heap d)) d.
Definition tagName (n : nat) (d : domDocument) : bytes := match d_heap d !! n with Some x => ToUpper (n_Data x) | None => [] end.
End names.

(** [parseFromString], the one method of a [DOMParser]. *)
Definition parseFromString {U : UnicodeCase} (fuel : nat) (source mime : bytes) (next : nat) : option (res string domDocument) :=
  if bool_decide (ToLower (TrimSpace mime) = lit "text/html") then newDOMDocument fuel source next
  else Some (Err "parseFromString supports text/html only"%string).

Definition parentElement (n : nat) (d : domDocument) : option nat * domDocument :=
  match parent (d_heap d) n with
  | Some p => match n_Type <$> d_heap d !! p with
              | Some ElementNode => let '(o, d) := wrap p d in (Some o, d)
              | _ => (None, d)
              end
  | None => (None, d)
  end.

Definition set_textContent (n : nat) (text : bytes) (d : domDocument) : domDocument :=
  let h := foldl (λ h c, RemoveChild n c h) (d_heap d) (children (d_heap d) n) in
  let '(t, d) := new_node TextNode text (with_heap h d) in
  with_heap (AppendChild n t (d_heap d)) d.

(** An element with a parent is printed through a copy of it that has none. *)
Definition domRender (n : nat) (d : domDocument) : option bytes :=
  match d_heap d !! n with
  | Some x => if decide (is_Some (n_Parent x) ∧ n_Type x = ElementNode) then html_Render (<[d_node d := with_parent None x]> (d_heap d)) (d_node d)
              else html_Render (d_heap d) n
  | None => None
  end.
Definition outerHTML (n : nat) (d : domDocument) : option bytes := domRender n d.
Definition innerHTML (n : nat) (d : domDocument) : option bytes := (λ l, concat l) <$> mapM (λ c, domRender c d) (children (d_heap d) n).

Definition compileSelector (text : bytes) : option selector := if maxDOMSelectorBytes <? len text then None else cascadia_Compile text.
Definition selectAll (scope : nat) (text : bytes) (d : domDocument) : option (list nat * domDocument) :=
  compiled ← compileSelector text; Some (wrap_all (QueryAll compiled (d_heap d) scope) d).
Definition querySelector (text : bytes) (d : domDocument) : option (option nat * domDocument) :=
  compiled ← compileSelector text;
  Some match Query compiled (d_heap d) (d_root d) with None => (None, d) | Some m => let '(o, d) := wrap m d in (Some o, d) end.

(** [documentElement], [head] and [body]: looked up on every read. *)
Definition firstElement (tag : bytes) (fuel : nat) (d : domDocument) : option (option nat * domDocument) :=
  found ← walk_first tag fuel (d_heap d) (d_root d);
  Some match found with None => (None, d) | Some m => let '(o, d) := wrap m d in (Some o, d) end.
End document.

(** ** Links *)
Lemma children_some h n x : h !! n = Some x → children h n = n_Children x.
Proof. unfold children. by intros ->. Qed.
Lemma parent_in_heap h n p : parent h n = Some p → is_Some (h !! n).
Proof. unfold parent. by destruct (h !! n). Qed.
Lemma child_in_heap h n c : c ∈ children h n → is_Some (h !! n).
Proof. unfold children. destruct (h !! n); [done|]. by intros ?%elem_of_nil. Qed.

Section links.
Context {H : Html} {HL : HtmlLaws}.

(** What the two operations do to the links. *)
Lemma append_children n c h m : parent h c = None → is_Some (h !! n) →
  children (AppendChild n c h) m = if decide (m = n) then children h n ++ [c] else children h m.
Proof.
  intros Hp [x Hx]. rewrite AppendChild_exact by done. unfold children. destruct (decide (m = n)) as [->|Hne].
  - rewrite lookup_alter_eq. destruct (decide (c = n)) as [->|Hc]; [rewrite lookup_alter_eq, Hx; done|]. by rewrite lookup_alter_ne, Hx.
  - rewrite lookup_alter_ne by done. destruct (decide (c = m)) as [->|Hc]; [rewrite lookup_alter_eq; by destruct (h !! m)|]. by rewrite lookup_alter_ne.
Qed.
Lemma append_parent n c h m : parent h c = None → is_Some (h !! c) →
  parent (AppendChild n c h) m = if decide (m = c) then Some n else parent h m.
Proof.
  intros Hp [y Hy]. rewrite AppendChild_exact by done. unfold parent. destruct (decide (m = c)) as [->|Hne].
  - destruct (decide (n = c)) as [->|Hn]; [by rewrite !lookup_alter_eq, Hy | by rewrite lookup_alter_ne, lookup_alter_eq, Hy].
  - destruct (decide (n = m)) as [->|Hn]; [rewrite lookup_alter_eq, lookup_alter_ne by done; by destruct (h !! m) | by rewrite !lookup_alter_ne].
Qed.
Lemma append_type n c h m : parent h c = None → n_Type <$> AppendChild n c h !! m = n_Type <$> h !! m.
Proof.
  intros Hp. rewrite AppendChild_exact by done. destruct (decide (n = m)) as [->|Hn]; [rewrite lookup_alter_eq | rewrite lookup_alter_ne by done];
    (destruct (decide (c = m)) as [->|Hc]; [rewrite lookup_alter_eq | rewrite lookup_alter_ne by done]); by destruct (h !! m).
Qed.

Lemma remove_children n c h m : parent h c = Some n →
  children (RemoveChild n c h) m = if decide (m = n) then List.filter (λ y, negb (y =? c)%nat) (children h n) else children h m.
Proof.
  intros Hp. rewrite RemoveChild_exact by done. unfold children. destruct (decide (m = n)) as [->|Hne].
  - rewrite lookup_alter_eq. destruct (decide (c = n)) as [->|Hc]; [rewrite lookup_alter_eq | rewrite lookup_alter_ne by done]; by destruct (h !! n).
  - rewrite lookup_alter_ne by done. destruct (decide (c = m)) as [->|Hc]; [rewrite lookup_alter_eq; by destruct (h !! m)|]. by rewrite lookup_alter_ne.
Qed.
Lemma remove_parent n c h m : parent h c = Some n → parent (RemoveChild n c h) m = if decide (m = c) then None else parent h m.
Proof.
  intros Hp. rewrite RemoveChild_exact by done. unfold parent. destruct (decide (m = c)) as [->|Hne].
  - destruct (decide (n = c)) as [->|Hn]; [rewrite !lookup_alter_eq | rewrite lookup_alter_ne, lookup_alter_eq by done]; by destruct (h !! c).
  - destruct (decide (n = m)) as [->|Hn]; [rewrite lookup_alter_eq, lookup_alter_ne by done; by destruct (h !! m) | by rewrite !lookup_alter_ne].
Qed.
Lemma remove_type n c h m : parent h c = Some n → n_Type <$> RemoveChild n c h !! m = n_Type <$> h !! m.
Proof.
  intros Hp. rewrite RemoveChild_exact by done. destruct (decide (n = m)) as [->|Hn]; [rewrite lookup_alter_eq | rewrite lookup_alter_ne by done];
    (destruct (decide (c = m)) as [->|Hc]; [rewrite lookup_alter_eq | rewrite lookup_alter_ne by done]); by destruct (h !! m).
Qed.

Lemma links_ok_intro h : (∀ n c, c ∈ children h n ↔ parent h c = Some n) → (∀ n, NoDup (children h n)) → links_ok h.
Proof. intros H1 H2. split; [by intros; apply H1 | by intros; apply H1 | done]. Qed.

Lemma remove_links n c h : links_ok h → parent h c = Some n → links_ok (RemoveChild n c h).
Proof.
  intros Ht Hp. apply links_ok_intro.
  - intros m y. rewrite remove_children, remove_parent by done. destruct (decide (y = c)) as [->|Hy].
    + split; [|done]. destruct (decide (m = n)) as [->|Hm].
      * intros [_ Hb]%list_elem_of_In%filter_In. by rewrite Nat.eqb_refl in Hb.
      * intros Hin%(to_child h Ht). congruence.
    + destruct (decide (m = n)) as [->|Hm]; [|split; [apply (to_child h Ht) | apply (to_parent h Ht)]].
      rewrite list_elem_of_In, filter_In, <- list_elem_of_In. split; [intros [Hin _]; by apply (to_child h Ht)|].
      intros Hin%(to_parent h Ht). split; [done|]. by apply negb_true_iff, Nat.eqb_neq.
  - intros m. rewrite remove_children by done. destruct (decide (m = n)); [|apply (to_NoDup h Ht)].
    apply NoDup_ListNoDup, List.NoDup_filter, NoDup_ListNoDup, (to_NoDup h Ht).
Qed.

Lemma append_links n c h : links_ok h → parent h c = None → is_Some (h !! c) → is_Some (h !! n) → links_ok (AppendChild n c h).
Proof.
  intros Ht Hp Hc Hn. apply links_ok_intro.
  - intros m y. rewrite append_children, append_parent by done. destruct (decide (y = c)) as [->|Hy].
    + destruct (decide (m = n)) as [->|Hm]; [split; [done|]; intros _; apply elem_of_app; right; left|].
      split; [intros Hin%(to_child h Ht); congruence | congruence].
    + destruct (decide (m = n)) as [->|Hm]; [|split; [apply (to_child h Ht) | apply (to_parent h Ht)]].
      rewrite elem_of_app, list_elem_of_singleton. split; [intros [Hin|?]; [by apply (to_child h Ht) | done] | intros Hin; left; by apply (to_parent h Ht)].
  - intros m. rewrite append_children by done. destruct (decide (m = n)); [|apply (to_NoDup h Ht)].
    apply NoDup_app. split; [apply (to_NoDup h Ht)|]. split; [|apply NoDup_singleton]. intros y Hin%(to_child h Ht) ->%list_elem_of_singleton. congruence.
Qed.
End links.

(** ** The invariant of a document *)
Record dom_inv (d : domDocument) : Prop := mkDomInv {
  di_links : links_ok (d_heap d);
  di_memo : ∀ n o, d_wrapped d !! n = Some o ↔ d_nodes d !! o = Some n;
  di_fresh : ∀ o n, d_nodes d !! o = Some n → (o < d_object d)%nat;
  di_held : ∀ o n, d_nodes d !! o = Some n → is_Some (d_heap d !! n);
  di_nodes : ∀ n, is_Some (d_heap d !! n) → (n < d_node d)%nat;
}.

(** One object of a node for good, and a node of one type: what is known of the objects only grows. *)
Definition keeps_types (h h' : heap) : Prop := ∀ n, is_Some (h !! n) → n_Type <$> h' !! n = n_Type <$> h !! n.
#[export] Instance keeps_types_preorder : PreOrder keeps_types.
Proof.
  split; [by intros h n|]. intros h1 h2 h3 H1 H2 n Hn. rewrite <- H1 by done. apply H2. specialize (H1 n Hn). by destruct (h1 !! n), (h2 !! n), Hn.
Qed.
Definition keeps_objects (d d' : domDocument) : Prop :=
  d_wrapped d ⊆ d_wrapped d' ∧ d_nodes d ⊆ d_nodes d' ∧ keeps_types (d_heap d) (d_heap d').
#[export] Instance keeps_objects_preorder : PreOrder keeps_objects.
Proof. split; [by intros d; split | by intros d d' d'' (? & ? & ?) (? & ? & ?); split_and!; etrans]. Qed.

Lemma wrap_inv n d : dom_inv d → is_Some (d_heap d !! n) →
  dom_inv (wrap n d).2 ∧ keeps_objects d (wrap n d).2 ∧ d_heap (wrap n d).2 = d_heap d ∧ d_nodes (wrap n d).2 !! (wrap n d).1 = Some n.
Proof.
  intros [H1 H2 H3 H4 H5] Hn. unfold wrap. destruct (d_wrapped d !! n) as [o|] eqn:E; cbn [fst snd].
  - split; [done|]. split; [done|]. split; [done|]. by apply H2.
  - assert (∀ m, d_nodes d !! d_object d ≠ Some m) as Hfresh by (intros m Hm%H3; lia).
    assert (d_nodes d !! d_object d = None) as Hfree by (destruct (d_nodes d !! d_object d) eqn:E'; [by destruct (Hfresh n0) | done]).
    split; [|split; [split; [by apply insert_subseteq | split; [by apply insert_subseteq | done]] | split; [done | apply lookup_insert_eq]]].
    split; cbn; try done.
    + intros m o. destruct (decide (m = n)) as [->|Hm], (decide (o = d_object d)) as [->|Ho];
        rewrite ?lookup_insert_eq, ?(lookup_insert_ne (d_wrapped d)), ?(lookup_insert_ne (d_nodes d)) by done; try done.
      * split; [congruence|]. intros Ho'%H2. congruence.
      * split; [|congruence]. intros Hm'%H2. by destruct (Hfresh m).
    + intros o m [[<- <-]|[_ Hm%H3]]%lookup_insert_Some; lia.
    + intros o m [[<- <-]|[_ Hm%H4]]%lookup_insert_Some; done.
Qed.

Lemma wrap_all_inv l d : dom_inv d → (∀ n, n ∈ l → is_Some (d_heap d !! n)) →
  dom_inv (wrap_all l d).2 ∧ keeps_objects d (wrap_all l d).2 ∧ d_heap (wrap_all l d).2 = d_heap d
  ∧ Forall2 (λ o n, d_nodes (wrap_all l d).2 !! o = Some n) (wrap_all l d).1 l.
Proof.
  revert d. induction l as [|n l IH]; intros d Hd Hl; cbn [wrap_all].
  { split; [done|]. split; [done|]. split; [done|]. constructor. }
  destruct (wrap_inv n d Hd (Hl n (list_elem_of_here n l))) as (Hd1 & Hk1 & Hh1 & Ho1). destruct (wrap n d) as [o d1]. cbn [fst snd] in *.
  destruct (IH d1 Hd1) as (Hd2 & Hk2 & Hh2 & Ho2); [intros m Hm; rewrite Hh1; apply Hl; by right|].
  destruct (wrap_all l d1) as [os d2]. cbn [fst snd] in *. split; [done|]. split; [by etrans|]. split; [congruence|].
  constructor; [|done]. destruct Hk2 as (_ & Hk2 & _). by eapply lookup_weaken.
Qed.

(** A heap with the same nodes of the same types. *)
Definition same_types (h h' : heap) : Prop := ∀ n, n_Type <$> h' !! n = n_Type <$> h !! n.
Lemma same_types_dom h h' n : same_types h h' → is_Some (h' !! n) ↔ is_Some (h !! n).
Proof. intros Hs. specialize (Hs n). by destruct (h !! n), (h' !! n). Qed.

Lemma heap_keeps h d : same_types (d_heap d) h → keeps_objects d (with_heap h d).
Proof. intros Hs. split; [done|]. split; [done|]. by intros n _. Qed.

Lemma heap_inv h d : dom_inv d → links_ok h → same_types (d_heap d) h → dom_inv (with_heap h d).
Proof.
  intros [H1 H2 H3 H4 H5] Ht Hs. split; cbn; try done.
  - intros o n Ho. apply (same_types_dom _ _ n Hs). by apply (H4 o).
  - intros n Hn. apply H5. by apply (same_types_dom _ _ n Hs).
Qed.

Section invariant.
Context {H : Html} {HL : HtmlLaws}.

Lemma detach_ok h c : links_ok h →
  let h1 := match parent h c with Some p => RemoveChild p c h | None => h end in
  links_ok h1 ∧ parent h1 c = None ∧ same_types h h1
  ∧ (∀ m, children h1 m = List.filter (λ y, negb (y =? c)%nat) (children h m)) ∧ (∀ m, m ≠ c → parent h1 m = parent h m).
Proof.
  intros Ht. cbv zeta. assert (∀ l, c ∉ l → List.filter (λ y, negb (y =? c)%nat) l = l) as Hsame.
  { induction l as [|y l IH]; [done|]. intros [Hy Hl]%not_elem_of_cons. cbn. destruct (Nat.eqb_spec y c); [done|]. cbn. by rewrite IH. }
  destruct (parent h c) as [p|] eqn:Hp.
  - split; [by apply remove_links|]. split; [by rewrite remove_parent, decide_True|]. split; [intros m; by apply remove_type|]. split.
    + intros m. rewrite remove_children by done. destruct (decide (m = p)) as [->|Hm]; [done|]. rewrite Hsame; [done|]. intros Hin%(to_child h Ht). congruence.
    + intros m Hm. by rewrite remove_parent, decide_False.
  - split; [done|]. split; [done|]. split; [done|]. split; [|done]. intros m. rewrite Hsame; [done|]. intros Hin%(to_child h Ht). congruence.
Qed.

Definition attached (n c : nat) (h : heap) : heap :=
  AppendChild n c (match parent h c with Some p => RemoveChild p c h | None => h end).

Lemma attached_ok n c h : links_ok h → is_Some (h !! n) → is_Some (h !! c) →
  links_ok (attached n c h) ∧ same_types h (attached n c h)
  ∧ (∀ m, children (attached n c h) m = List.filter (λ y, negb (y =? c)%nat) (children h m) ++ (if decide (m = n) then [c] else []))
  ∧ ∀ m, parent (attached n c h) m = if decide (m = c) then Some n else parent h m.
Proof.
  intros Ht Hn Hc. unfold attached. destruct (detach_ok h c Ht) as (Ht1 & Hp1 & Hs1 & Hch1 & Hpar1). set (h1 := match parent h c with Some _ => _ | None => _ end) in *.
  assert (is_Some (h1 !! c)) as Hc1 by (by apply (same_types_dom h h1)). assert (is_Some (h1 !! n)) as Hn1 by (by apply (same_types_dom h h1)).
  split; [by apply append_links|]. split; [intros m; by rewrite append_type|]. split.
  - intros m. rewrite append_children, !Hch1 by done. destruct (decide (m = n)) as [->|]; [done | by rewrite app_nil_r].
  - intros m. rewrite append_parent by done. destruct (decide (m = c)); [done | by apply Hpar1].
Qed.

Lemma remove_all_ok n l h : links_ok h → children h n = l →
  let h1 := foldl (λ h c, RemoveChild n c h) h l in
  links_ok h1 ∧ same_types h h1 ∧ children h1 n = [] ∧ (∀ m, m ≠ n → children h1 m = children h m) ∧ (∀ m, m ∉ l → parent h1 m = parent h m).
Proof.
  revert h. induction l as [|c l IH]; intros h Ht Hl; [by split_and!|]. cbn [foldl].
  assert (c ∈ children h n) as Hin by (rewrite Hl; left). pose proof (to_child h Ht n c Hin) as Hp.
  pose proof (to_NoDup h Ht n) as Hnd. rewrite Hl in Hnd. apply NoDup_cons in Hnd as [Hnin Hnd].
  destruct (IH (RemoveChild n c h)) as (H1 & H2 & H3 & H4 & H5).
  - by apply remove_links.
  - rewrite remove_children, decide_True, Hl by done. cbn. rewrite Nat.eqb_refl. cbn. clear -Hnin.
    induction l as [|y l IH]; [done|]. apply not_elem_of_cons in Hnin as [Hy Hl]. cbn. destruct (Nat.eqb_spec y c); [done|]. cbn. by rewrite IH.
  - split; [done|]. split; [intros m; rewrite H2; by apply remove_type|]. split; [done|]. split.
    + intros m Hm. rewrite H4 by done. by rewrite remove_children, decide_False.
    + intros m [Hm Hml]%not_elem_of_cons. rewrite H5 by done. by rewrite remove_parent, decide_False.
Qed.
End invariant.

(** ** The walks against the reference *)
Lemma mapM_cons_inv {A B} (f : A → option B) x l r : mapM f (x :: l) = Some r → ∃ y ys, f x = Some y ∧ mapM f l = Some ys ∧ r = y :: ys.
Proof. cbn. destruct (f x) as [y|]; [|done]. cbn. destruct (mapM f l) as [ys|]; [|done]. intros [= <-]. by exists y, ys. Qed.

Lemma preorder_step fuel h n l : preorder (S fuel) h n = Some l → ∃ ls, mapM (preorder fuel h) (children h n) = Some ls ∧ l = n :: concat ls.
Proof. cbn. destruct (mapM _ _) as [ls|] eqn:E; [|done]. intros [= <-]. by exists ls. Qed.

Lemma preorder_text h : tree_ok h → ∀ fuel n l, preorder fuel h n = Some l → domTextContent fuel h n = Some (concat (text_of h <$> l)).
Proof.
  intros [_ Ht]. induction fuel as [|fuel IH]; [done|]. intros n l (ls & Hls & ->)%preorder_step. cbn [domTextContent].
  unfold is_text. rewrite fmap_cons. cbn [concat]. unfold text_of at 1. destruct (h !! n) as [x|] eqn:Hx.
  - case_bool_decide as Htext.
    + rewrite (Ht n) in Hls by (by rewrite Hx, <- Htext). injection Hls as <-. cbn. by rewrite app_nil_r.
    + clear Hx. revert ls Hls. induction (children h n) as [|c cs IHc]; intros ls Hls; [by injection Hls as <-|].
      apply mapM_cons_inv in Hls as (y & ys & Hy & Hys & ->). specialize (IHc ys Hys). cbn. rewrite (IH c y Hy). cbn.
      destruct (mapM (domTextContent fuel h) cs) as [r|]; [|done]. cbn in IHc |- *. injection IHc as ->. by rewrite fmap_app, concat_app.
  - unfold children in Hls. rewrite Hx in Hls. unfold children. rewrite Hx. by injection Hls as <-.
Qed.

Lemma find_app_first {A} (f : A → bool) l k : find f (l ++ k) = match find f l with Some x => Some x | None => find f k end.
Proof. induction l as [|x l IH]; [done|]. cbn. by destruct (f x). Qed.
Lemma preorder_first h tag : ∀ fuel n l, preorder fuel h n = Some l → walk_first tag fuel h n = Some (find (is_element tag h) l).
Proof.
  induction fuel as [|fuel IH]; [done|]. intros n l (ls & Hls & ->)%preorder_step. cbn [walk_first find].
  destruct (is_element tag h n); [done|]. revert ls Hls. induction (children h n) as [|c cs IHc]; intros ls Hls; [by injection Hls as <-|].
  apply mapM_cons_inv in Hls as (y & ys & Hy & Hys & ->). cbn. rewrite (IH c y Hy). cbn. rewrite find_app_first.
  destruct (find (is_element tag h) y); [done | by apply IHc].
Qed.

Lemma preorder_count h : ∀ fuel n l, preorder fuel h n = Some l →
  ∃ total, countDOMNodes fuel h n = Some total ∧ (if decide (maxDOMNodes < len l) then maxDOMNodes < total else total = len l).
Proof.
  induction fuel as [|fuel IH]; [done|]. intros n l (ls & Hls & ->)%preorder_step. cbn [countDOMNodes].
  replace (len (n :: concat ls)) with (1 + len (concat ls)) by (rewrite length_cons; lia).
  assert (0 <= 1 <= maxDOMNodes) as Hmax by done. revert Hmax. generalize 1%Z as k. revert ls Hls. induction (children h n) as [|c cs IHc]; intros ls Hls k Hk.
  - injection Hls as <-. cbn. exists k. split; [done|]. cbn. rewrite decide_False; lia.
  - apply mapM_cons_inv in Hls as (y & ys & Hy & Hys & ->). destruct (IH c y Hy) as (t & Ht & Hyt). cbn [count_children]. rewrite Ht. cbn [mbind option_bind].
    cbn [concat]. assert (len (y ++ concat ys) = len y + len (concat ys)) as -> by (rewrite length_app; lia).
    assert (0 <= len (concat ys) ∧ 0 <= len y) as [??] by lia. destruct (maxDOMNodes <? k + t) eqn:E.
    + exists (k + t). split; [done|]. destruct (decide (maxDOMNodes < len y)); subst; destruct (decide _); lia.
    + destruct (decide (maxDOMNodes < len y)); [lia|]. subst t. destruct (IHc ys Hys (k + len y)) as (t & Ht' & Hd); [lia|]. exists t. split; [done|].
      by rewrite Z.add_assoc.
Qed.

(** More fuel gives the same walk, and a finite tree has fuel enough. *)
Lemma preorder_mono h f1 f2 n l : preorder f1 h n = Some l → (f1 <= f2)%nat → preorder f2 h n = Some l.
Proof.
  revert f2 n l. induction f1 as [|f1 IH]; [done|]. intros [|f2] n l Hp%preorder_step Hle; [lia|]. destruct Hp as (ls & Hls & ->). cbn.
  enough (mapM (preorder f2 h) (children h n) = Some ls) as -> by done.
  apply mapM_Some in Hls. apply mapM_Some. eapply Forall2_impl; [done|]. intros c l Hc. apply IH; [done | lia].
Qed.
Lemma preorder_exists h n : finite_below h n → ∃ fuel l, preorder fuel h n = Some l.
Proof.
  induction 1 as [n _ IH].
  enough (∀ cs, (∀ c, c ∈ cs → c ∈ children h n) → ∃ fuel ls, mapM (preorder fuel h) cs = Some ls) as Hall.
  { destruct (Hall (children h n)) as (fuel & ls & Hls); [done|]. exists (S fuel), (n :: concat ls). cbn. by rewrite Hls. }
  induction cs as [|c cs IHc]; intros Hcs; [by exists 0%nat, []|]. destruct IHc as (f1 & ls & Hls); [intros c' Hc'; apply Hcs; by right|].
  destruct (IH c) as (f2 & l & Hl); [apply Hcs; left|]. exists (f1 + f2)%nat, (l :: ls). cbn. rewrite (preorder_mono h f2 (f1 + f2) c l Hl) by lia. cbn.
  enough (mapM (preorder (f1 + f2) h) cs = Some ls) as -> by done.
  apply mapM_Some in Hls. apply mapM_Some. eapply Forall2_impl; [done|]. intros c' l' Hc'. apply (preorder_mono h f1); [done | lia].
Qed.

Lemma mapM_elem {A B} (f : A → option B) l ls : mapM f l = Some ls → (∀ x, x ∈ l → ∃ y, f x = Some y ∧ y ∈ ls) ∧ ∀ y, y ∈ ls → ∃ x, x ∈ l ∧ f x = Some y.
Proof.
  intros Hm%mapM_Some. induction Hm as [|x y l ls Hxy _ [IH1 IH2]]; [by split; intros ? ?%elem_of_nil|]. split.
  - intros z [->|Hz]%elem_of_cons; [exists y; split; [done | left]|]. destruct (IH1 z Hz) as (w & ? & ?). exists w. split; [done | by right].
  - intros z [->|Hz]%elem_of_cons; [exists x; split; [left | done]|]. destruct (IH2 z Hz) as (w & ? & ?). exists w. split; [by right | done].
Qed.
Lemma preorder_elem h fuel n l m : preorder fuel h n = Some l → m ∈ l ↔ below h n m.
Proof.
  revert n l. induction fuel as [|fuel IH]; [done|]. intros n l (ls & [Hto Hfrom]%mapM_elem & ->)%preorder_step. rewrite elem_of_cons. split.
  - intros [->|(y & Hy%list_elem_of_In & Hm%list_elem_of_In)%list_elem_of_In%in_concat]; [done|].
    destruct (Hfrom y Hy) as (c & Hc & Hp). apply (rtc_l _ _ c); [done|]. by apply (IH c y).
  - intros Hb. inversion Hb as [|? c ? Hc Hcm]; subst; [by left|]. right. destruct (Hto c Hc) as (y & Hp & Hy). apply list_elem_of_In, in_concat. exists y. split; apply list_elem_of_In; [done | by apply (IH c y)].
Qed.

(** ** Cycles *)
Lemma finite_no_cycle h n : finite_below h n → ¬ tc (child_of h) n n.
Proof.
  induction 1 as [n _ IH]. intros Hc. assert (∃ k, child_of h n k ∧ rtc (child_of h) k n) as (k & Hk & Hkn).
  { inversion Hc as [? ? Hnn|? k ? Hk Hkn]; subst; [by exists n | exists k; split; [done | by apply tc_rtc]]. }
  apply (IH k Hk). by apply tc_rtc_l with n; [|apply tc_once].
Qed.

(** No walk over the text of a node in a cycle ends. *)
Lemma cycle_diverges h n : leaf_ok h → tc (child_of h) n n → ∀ fuel, domTextContent fuel h n = None.
Proof.
  intros Ht Hn fuel. assert (∀ m, tc (child_of h) m n → domTextContent fuel h m = None) as Hall; [|by apply Hall].
  induction fuel as [|fuel IH]; [done|]. intros m Hm. assert (∃ k, child_of h m k ∧ tc (child_of h) k n) as (k & Hk & Hkn).
  { inversion Hm as [? ? Hnn|? k ? Hk Hkn]; subst; [by exists n | by exists k]. }
  cbn [domTextContent]. unfold is_text. unfold child_of, children in Hk. destruct (h !! m) as [x|] eqn:Hx; [|by apply elem_of_nil in Hk].
  case_bool_decide as Htext.
  { rewrite <- (children_some h m x Hx), (Ht m) in Hk by (by rewrite Hx, <- Htext). by apply elem_of_nil in Hk. }
  rewrite (children_some h m x Hx). destruct (mapM _ _) as [ls|] eqn:E; [|done]. apply mapM_elem in E as [E _]. destruct (E k Hk) as (y & Hy & _).
  by rewrite (IH k Hkn) in Hy.
Qed.

(** ** Moving a node *)
Section moving.
Context {H : Html} {HL : HtmlLaws}.
Context (h : heap) (n c : nat) (Ht : links_ok h) (Hn : is_Some (h !! n)) (Hc : is_Some (h !! c)).

Lemma attached_child m y : child_of (attached n c h) m y ↔ (y ≠ c ∧ child_of h m y) ∨ (m = n ∧ y = c).
Proof.
  destruct (attached_ok n c h Ht Hn Hc) as (_ & _ & Hch & _). unfold child_of. rewrite Hch, elem_of_app, list_elem_of_In, filter_In, <- list_elem_of_In.
  rewrite negb_true_iff, Nat.eqb_neq. destruct (decide (m = n)) as [->|Hm]; [rewrite list_elem_of_singleton | rewrite elem_of_nil]; naive_solver.
Qed.

(** What was below the moved node still is. *)
Lemma attached_below m : below h c m → below (attached n c h) c m.
Proof.
  revert m. apply rtc_ind_r; [done|]. intros y z _ Hyz IH. destruct (decide (z = c)) as [->|Hz]; [done|].
  apply (rtc_r _ y); [done|]. apply attached_child. by left.
Qed.

Lemma attached_finite : (∀ m, finite_below h m) → ¬ below h c n → ∀ m, finite_below (attached n c h) m.
Proof.
  intros Hfin Hcn. assert (∀ m, ¬ below h m n → finite_below (attached n c h) m) as Haway.
  { intros m. pose proof (Hfin m) as Hm'. induction Hm' as [m _ IH]. intros Hm. constructor. intros y [[_ Hy]|[-> _]]%attached_child; [|by destruct Hm].
    apply IH; [done|]. intros Hyn. apply Hm. by apply (rtc_l _ _ y). }
  intros m. pose proof (Hfin m) as Hm'. induction Hm' as [m _ IH]. constructor. intros y [[_ Hy]|[-> ->]]%attached_child; [by apply IH | by apply Haway].
Qed.

Lemma attached_leaf : leaf_ok h → n_Type <$> h !! n ≠ Some TextNode → leaf_ok (attached n c h).
Proof.
  intros Hl Hne m. destruct (attached_ok n c h Ht Hn Hc) as (_ & Hs & Hch & _). rewrite Hs, Hch. intros Hm.
  rewrite (Hl m Hm). destruct (decide (m = n)) as [->|]; [done | done].
Qed.

Lemma attached_cycle : below h c n → tc (child_of (attached n c h)) n n.
Proof. intros Hb%attached_below. apply (tc_rtc_r _ c); [apply tc_once, attached_child; by right | done]. Qed.
End moving.

(** ** What a script can do with a document *)
Inductive dom_call :=
  | CCreate (name : bytes) | CSelectAll (text : bytes) | CSelect (text : bytes) | CFirst (tag : bytes)
  | CAppend (o : nat) (v : dom_value) | CRemove (o : nat) (v : dom_value) | CSelectBelow (o : nat) (text : bytes)
  | CSetAttribute (o : nat) (name value : bytes) | CParent (o : nat) | CSetText (o : nat) (text : bytes).

Section calls.
Context {H : Html} {U : UnicodeCase}.

Definition one (r : option (nat * domDocument)) (d : domDocument) : list nat * domDocument := match r with Some (o, d) => ([o], d) | None => ([], d) end.
Definition maybe (r : option (option nat * domDocument)) (d : domDocument) : list nat * domDocument :=
  match r with Some (o, d) => (option_list o, d) | None => ([], d) end.

(** The objects a call returns; a call that throws changes nothing.  A method
    is called on an object, whose node its closure holds. *)
Definition call_dom (fuel : nat) (c : dom_call) (d : domDocument) : list nat * domDocument :=
  let on o (f : nat → list nat * domDocument) := match d_nodes d !! o with Some n => f n | None => ([], d) end in
  match c with
  | CCreate name => one (createElement name d) d
  | CSelectAll text => default ([], d) (selectAll (d_root d) text d)
  | CSelect text => maybe (querySelector text d) d
  | CFirst tag => maybe (firstElement tag fuel d) d
  | CAppend o v => on o (λ n, one (appendChild n v d) d)
  | CRemove o v => on o (λ n, one (removeChild n v d) d)
  | CSelectBelow o text => on o (λ n, default ([], d) (selectAll n text d))
  | CSetAttribute o name value => on o (λ n, ([], setAttribute n name value d))
  | CParent o => on o (λ n, maybe (Some (parentElement n d)) d)
  | CSetText o text => on o (λ n, ([], set_textContent n text d))
  end.
Definition run_dom (fuel : nat) (l : list dom_call) (d : domDocument) : domDocument := foldl (λ d c, (call_dom fuel c d).2) d l.
End calls.

Section runs.
Context {H : Html} {HL : HtmlLaws} {U : UnicodeCase}.

(** What every call keeps. *)
Definition call_ok (d : domDocument) (r : list nat * domDocument) : Prop :=
  dom_inv r.2 ∧ keeps_objects d r.2 ∧ Forall (λ o, is_Some (d_nodes r.2 !! o)) r.1.

Lemma same_ok d : dom_inv d → call_ok d ([], d).
Proof. intros Hd. split; [done|]. split; [done | constructor]. Qed.
Lemma wrap_ok n d d0 : dom_inv d → keeps_objects d0 d → is_Some (d_heap d !! n) → call_ok d0 ([(wrap n d).1], (wrap n d).2).
Proof.
  intros Hd Hk Hn. destruct (wrap_inv n d Hd Hn) as (H1 & H2 & _ & H4). split; [done|]. split; [by etrans|]. constructor; [|constructor]. cbn [fst snd]. by rewrite H4.
Qed.
Lemma wrap_all_ok l d : dom_inv d → (∀ n, n ∈ l → is_Some (d_heap d !! n)) → call_ok d (wrap_all l d).
Proof.
  intros Hd Hl. destruct (wrap_all_inv l d Hd Hl) as (H1 & H2 & _ & H4). split; [done|]. split; [done|].
  eapply Forall2_Forall_l; [done|]. apply Forall_true. intros n o Ho. cbn beta in Ho. by rewrite Ho.
Qed.

Lemma new_node_inv type data d : dom_inv d → dom_inv (new_node type data d).2 ∧ keeps_objects d (new_node type data d).2
  ∧ d_heap (new_node type data d).2 !! d_node d = Some (mkNode type data [] None [])
  ∧ ∀ m, m ≠ d_node d → d_heap (new_node type data d).2 !! m = d_heap d !! m.
Proof.
  intros [H1 H2 H3 H4 H5]. cbn. assert (∀ m, is_Some (d_heap d !! m) → m ≠ d_node d) as Hne by (intros m Hm ->; apply H5 in Hm; lia).
  assert (d_heap d !! d_node d = None) as Hfree by (destruct (d_heap d !! d_node d) eqn:E; [destruct (Hne (d_node d)); [by rewrite E | done] | done]).
  split; [|split; [split; [done | split; [done | intros m Hm; cbn; by rewrite lookup_insert_ne by (apply not_eq_sym, Hne, Hm)]] | split; [apply lookup_insert_eq | intros m Hm; by apply lookup_insert_ne]]]. split; cbn; try done.
  - assert (∀ m, children (<[d_node d := mkNode type data [] None []]> (d_heap d)) m = children (d_heap d) m ∧
      parent (<[d_node d := mkNode type data [] None []]> (d_heap d)) m = parent (d_heap d) m) as Hsame.
    { intros m. unfold children, parent. destruct (decide (m = d_node d)) as [->|Hm]; [by rewrite lookup_insert_eq, Hfree | by rewrite lookup_insert_ne]. }
    apply links_ok_intro.
    + intros m y. rewrite (proj1 (Hsame m)), (proj2 (Hsame y)). split; [apply (to_child _ H1) | apply (to_parent _ H1)].
    + intros m. rewrite (proj1 (Hsame m)). apply (to_NoDup _ H1).
  - intros o n Ho%H4. rewrite lookup_insert_ne; [done|]. intros <-. rewrite Hfree in Ho. by destruct Ho.
  - intros m Hm. destruct (decide (m = d_node d)) as [->|Hmd]; [lia|]. rewrite lookup_insert_ne in Hm by done. apply H5 in Hm. lia.
Qed.

Lemma nodeOf_known d v c : nodeOf v d = Some c → ∃ o, d_nodes d !! o = Some c.
Proof. destruct v as [o|]; [|done]. intros Ho. by exists o. Qed.

Lemma create_ok d name : dom_inv d → call_ok d (one (createElement name d) d).
Proof.
  intros Hd. unfold createElement. cbv zeta. case_bool_decide; [by apply same_ok|]. destruct (new_node_inv ElementNode (ToLower (TrimSpace name)) d Hd) as (H1 & H2 & H3 & _).
  unfold new_node in *. cbn [snd] in *. unfold one. destruct (wrap _ _) as [o d'] eqn:E. pose proof (wrap_ok (d_node d) _ d H1 H2) as Hw. rewrite E in Hw.
  apply Hw. by rewrite H3.
Qed.
Lemma append_ok d o n v : dom_inv d → d_nodes d !! o = Some n → call_ok d (one (appendChild n v d) d).
Proof.
  intros Hd Ho. unfold appendChild. destruct (nodeOf v d) as [c|] eqn:Hv; [|by apply same_ok]. cbn [mbind option_bind one].
  destruct (nodeOf_known d v c Hv) as [oc Hoc]. destruct (attached_ok n c (d_heap d) (di_links d Hd) (di_held d Hd o n Ho) (di_held d Hd oc c Hoc)) as (H1 & H2 & _).
  fold (attached n c (d_heap d)). pose proof (heap_inv _ d Hd H1 H2) as Hd'. destruct (wrap c _) as [o' d'] eqn:E.
  pose proof (wrap_ok c (with_heap (attached n c (d_heap d)) d) d Hd') as Hw. rewrite E in Hw. apply Hw; [by apply heap_keeps|]. apply (same_types_dom _ _ c H2). by apply (di_held d Hd oc).
Qed.
Lemma remove_ok d n v : dom_inv d → call_ok d (one (removeChild n v d) d).
Proof.
  intros Hd. unfold removeChild. destruct (nodeOf v d) as [c|] eqn:Hv; [|by apply same_ok]. cbn [mbind option_bind].
  destruct (decide _) as [Hp|]; [|by apply same_ok]. destruct (nodeOf_known d v c Hv) as [oc Hoc]. cbn [one].
  assert (same_types (d_heap d) (RemoveChild n c (d_heap d))) as Hs by (intros m; by apply remove_type).
  pose proof (heap_inv _ d Hd (remove_links n c (d_heap d) (di_links d Hd) Hp) Hs) as Hd'. destruct (wrap c _) as [o' d'] eqn:E.
  pose proof (wrap_ok c _ d Hd') as Hw. rewrite E in Hw. apply Hw; [by apply heap_keeps|]. apply (same_types_dom _ _ c Hs). by apply (di_held d Hd oc).
Qed.
Lemma select_ok d n text : dom_inv d → call_ok d (default ([], d) (selectAll n text d)).
Proof.
  intros Hd. unfold selectAll. destruct (compileSelector text) as [s|]; [|by apply same_ok]. cbn. apply wrap_all_ok; [done|].
  by intros m [_ Hm]%QueryAll_below.
Qed.
Lemma maybe_wrap_ok d m : dom_inv d → (∀ n, m = Some n → is_Some (d_heap d !! n)) →
  call_ok d (maybe (Some match m with None => (None, d) | Some n => let '(o, d) := wrap n d in (Some o, d) end) d).
Proof.
  intros Hd Hm. destruct m as [n|]; [|by apply same_ok]. pose proof (wrap_ok n d d Hd (reflexivity d) (Hm n eq_refl)) as Hw. by destruct (wrap n d).
Qed.
Lemma walk_first_held tag h m : ∀ fuel n, walk_first tag fuel h n = Some (Some m) → is_Some (h !! m).
Proof.
  induction fuel as [|fuel IH]; [done|]. intros n. cbn [walk_first]. destruct (is_element tag h n) eqn:E.
  - intros [= ->]. unfold is_element in E. by destruct (h !! m).
  - induction (children h n) as [|c cs IHc]; [done|]. cbn. destruct (walk_first tag fuel h c) as [[m'|]|] eqn:Ec; [|done|done].
    intros [= ->]. by apply (IH c).
Qed.
Lemma set_text_ok d o n text : dom_inv d → d_nodes d !! o = Some n → call_ok d ([], set_textContent n text d).
Proof.
  intros Hd Ho. unfold set_textContent. destruct (remove_all_ok n _ (d_heap d) (di_links d Hd) eq_refl) as (H1 & H2 & H3 & _).
  set (h1 := foldl _ _ _) in *. cbv zeta. pose proof (heap_inv h1 d Hd H1 H2) as Hd1.
  destruct (new_node_inv TextNode text _ Hd1) as (H4 & H5 & H6 & H7). destruct (new_node TextNode text (with_heap h1 d)) as [t d2] eqn:E.
  cbn [snd] in *. assert (t = d_node d) as -> by (by injection E as <- _). change (d_node (with_heap h1 d)) with (d_node d) in *.
  assert (n ≠ d_node d) as Hne by (intros ->; pose proof (di_nodes d Hd _ (di_held d Hd o _ Ho)); lia).
  assert (parent (d_heap d2) (d_node d) = None) as Hp by (unfold parent; by rewrite H6).
  assert (same_types (d_heap d2) (AppendChild n (d_node d) (d_heap d2))) as Hs by (intros m; by apply append_type).
  split; [|split; [|constructor]]; cbn [fst snd].
  - apply heap_inv; [done| |done]. apply append_links; [apply (di_links _ H4) | done | by rewrite H6|]. rewrite H7 by done.
    apply (same_types_dom _ _ n H2). by apply (di_held d Hd o).
  - etrans; [apply (heap_keeps h1 d H2)|]. etrans; [exact H5 | by apply heap_keeps].
Qed.

Lemma set_attribute_ok d n name value : dom_inv d → call_ok d ([], setAttribute n name value d).
Proof.
  intros Hd. unfold setAttribute. set (h1 := alter _ _ _).
  assert (∀ m, children h1 m = children (d_heap d) m ∧ parent h1 m = parent (d_heap d) m ∧ n_Type <$> h1 !! m = n_Type <$> d_heap d !! m) as Hsame.
  { intros m. unfold h1, children, parent. destruct (decide (m = n)) as [->|Hm]; [rewrite lookup_alter_eq | by rewrite lookup_alter_ne]. by destruct (d_heap d !! n). }
  assert (same_types (d_heap d) h1) as Hs by (intros m; apply Hsame).
  split; [|split; [by apply heap_keeps | constructor]]. pose proof (di_links d Hd) as Ht. apply heap_inv; [done| |done]. apply links_ok_intro.
  - intros m y. destruct (Hsame m) as (-> & _ & _). destruct (Hsame y) as (_ & -> & _). split; [apply (to_child _ Ht) | apply (to_parent _ Ht)].
  - intros m. destruct (Hsame m) as (-> & _ & _). apply (to_NoDup _ Ht).
Qed.

Lemma call_dom_ok fuel c d : dom_inv d → call_ok d (call_dom fuel c d).
Proof.
  intros Hd. destruct c as [name|text|text|tag|o v|o v|o text|o name value|o|o text]; cbn [call_dom]; try (destruct (d_nodes d !! o) as [n|] eqn:Ho; [|by apply same_ok]).
  - by apply create_ok.
  - by apply select_ok.
  - unfold querySelector. destruct (compileSelector text) as [s|]; [|by apply same_ok]. cbn [mbind option_bind]. 
    apply (maybe_wrap_ok d _ Hd). intros m E. rewrite Query_first in E. by apply head_Some_elem_of, QueryAll_below in E as [_ ?].
  - unfold firstElement. destruct (walk_first _ _ _ _) as [m|] eqn:E; [|by apply same_ok]. apply (maybe_wrap_ok d m Hd). intros n ->. by apply (walk_first_held tag _ n fuel (d_root d)).
  - by apply (append_ok d o).
  - by apply remove_ok.
  - by apply select_ok.
  - by apply set_attribute_ok.
  - unfold parentElement. destruct (parent (d_heap d) n) as [p|] eqn:Hp; [|by apply same_ok]. destruct (n_Type <$> d_heap d !! p) as [[]|] eqn:E; try (by apply same_ok).
    apply (maybe_wrap_ok d (Some p) Hd). intros ? [= <-]. by destruct (d_heap d !! p).
  - by apply (set_text_ok d o).
Qed.

Lemma run_dom_ok fuel l d : dom_inv d → dom_inv (run_dom fuel l d) ∧ keeps_objects d (run_dom fuel l d).
Proof.
  revert d. induction l as [|c l IH]; intros d Hd; [done|]. cbn. destruct (call_dom_ok fuel c d Hd) as (H1 & H2 & _). destruct (IH _ H1) as [H3 H4].
  split; [done | by etrans].
Qed.
End runs.

(** ** Results *)
Section results.
Context {H : Html} {HL : HtmlLaws} {U : UnicodeCase}.

(** A new document: its objects are none, and its nodes are older than the next one. *)
Lemma newDOMDocument_ok fuel source next d : newDOMDocument fuel source next = Some (Ok d) →
  (∀ h root n, html_Parse source = Some (h, root) → is_Some (h !! n) → (n < next)%nat) →
  dom_inv d ∧ leaf_ok (d_heap d) ∧ (∀ n, finite_below (d_heap d) n) ∧ is_Some (d_heap d !! d_root d).
Proof.
  unfold newDOMDocument. destruct (_ <? _); [done|]. destruct (html_Parse source) as [[h root]|] eqn:Hp; [|done].
  destruct (countDOMNodes fuel h root) as [count|]; [|done]. cbn. destruct (_ <? _); [done|]. intros [= <-] Hnext.
  destruct (Parse_ok source h root Hp) as ([Ht Hl] & Hfin & Hroot). split; [|by split]. split; cbn; [done | intros n o; by rewrite !lookup_empty | intros o n Ho; by rewrite lookup_empty in Ho | intros o n Ho; by rewrite lookup_empty in Ho|].
  intros n Hn. by apply (Hnext h root).
Qed.

(** C19 (invariant): identity holds.  Over any calls of a script, whatever they return or
    throw, an object stands for the node it was made for: two calls that reach
    the same node give the same object, two objects are two nodes, and an object
    a script kept is still the object of its node, which has the type it had, after
    every later call.  The links between the nodes agree in both directions throughout. *)
Theorem identity_holds fuel source next d0 l1 l2 c (d1 := run_dom fuel l1 d0) (d2 := run_dom fuel l2 d1) :
  newDOMDocument fuel source next = Some (Ok d0) →
  (∀ h root n, html_Parse source = Some (h, root) → is_Some (h !! n) → (n < next)%nat) →
  links_ok (d_heap d2)
  ∧ (∀ n o, d_wrapped d2 !! n = Some o ↔ d_nodes d2 !! o = Some n)
  ∧ (∀ o n, d_nodes d1 !! o = Some n → d_nodes d2 !! o = Some n ∧ wrap n d2 = (o, d2)
       ∧ ∃ x1 x2, d_heap d1 !! n = Some x1 ∧ d_heap d2 !! n = Some x2 ∧ n_Type x2 = n_Type x1)
  ∧ Forall (λ o, is_Some (d_nodes (call_dom fuel c d2).2 !! o)) (call_dom fuel c d2).1.
Proof.
  intros Hd0 Hnext. destruct (newDOMDocument_ok _ _ _ _ Hd0 Hnext) as [Hi0 _]. destruct (run_dom_ok fuel l1 d0 Hi0) as [Hi1 _].
  destruct (run_dom_ok fuel l2 _ Hi1) as [Hi2 (_ & Hk2 & Hty)]. fold d1 in Hi2, Hk2, Hi1, Hty. fold d2 in Hi2, Hk2, Hty.
  split; [apply (di_links d2 Hi2)|]. split; [apply (di_memo d2 Hi2)|]. split; [|apply (call_dom_ok fuel c d2 Hi2)].
  intros o n Ho. assert (d_nodes d2 !! o = Some n) as Ho2 by (by eapply lookup_weaken). split; [done|]. split.
  - apply (di_memo d2 Hi2) in Ho2. unfold wrap. by rewrite Ho2.
  - pose proof (di_held d1 Hi1 o n Ho) as [x1 E1]. specialize (Hty n (ex_intro _ x1 E1)). rewrite E1 in Hty.
    destruct (d_heap d2 !! n) as [x2|]; [|done]. injection Hty as Hty. by exists x1, x2.
Qed.

(** C21 (equivalence): the walks of a document are its tree in order.  Where the nodes below a
    node are finitely many, every walk from it ends, and on one list, which
    holds the node and each node below it: the text content is the text nodes'
    data in that order, [documentElement], [head] and [body] are the first
    element of their name, and the count exceeds the limit exactly when the list
    does. *)
Theorem walks_exact h n : tree_ok h → finite_below h n →
  ∃ fuel l, (∀ m, m ∈ l ↔ below h n m) ∧ ∀ more, (fuel <= more)%nat →
    preorder more h n = Some l
    ∧ domTextContent more h n = Some (concat (text_of h <$> l))
    ∧ (∀ tag, walk_first tag more h n = Some (find (is_element tag h) l))
    ∧ ∃ total, countDOMNodes more h n = Some total ∧ (maxDOMNodes < total ↔ maxDOMNodes < len l).
Proof.
  intros Ht Hfin. destruct (preorder_exists h n Hfin) as (fuel & l & Hl). exists fuel, l. split; [intros m; by apply (preorder_elem h fuel)|].
  intros more Hm. pose proof (preorder_mono h fuel more n l Hl Hm) as Hl'. split; [done|]. split; [by apply preorder_text|].
  split; [intros tag; by apply preorder_first|]. destruct (preorder_count h more n l Hl') as (total & Hc & Hd). exists total. split; [done|].
  destruct (decide (maxDOMNodes < len l)); [done|]. by subst total.
Qed.

(** C20 (functional): [appendChild] moves its argument, and trusts it.  It returns the object
    it was given, and the child is the last child of the receiver and nowhere
    else; the walks of the document still all end exactly when the child is
    neither the receiver nor above it.  Nothing checks that: appended below
    itself, it makes a circle, and where text nodes are leaves its text has no end. *)
Theorem append_exact d o oc n c :
  dom_inv d → (∀ m, finite_below (d_heap d) m) → d_nodes d !! o = Some n → d_nodes d !! oc = Some c →
  ∃ d', appendChild n (DObject oc) d = Some (oc, d')
    ∧ (∀ m, children (d_heap d') m = List.filter (λ y, negb (y =? c)%nat) (children (d_heap d) m) ++ (if decide (m = n) then [c] else []))
    ∧ (∀ m, parent (d_heap d') m = if decide (m = c) then Some n else parent (d_heap d) m)
    ∧ ((∀ m, finite_below (d_heap d') m) ↔ ¬ below (d_heap d) c n)
    ∧ (below (d_heap d) c n → leaf_ok (d_heap d) → n_Type <$> d_heap d !! n ≠ Some TextNode → ∀ fuel, domTextContent fuel (d_heap d') n = None).
Proof.
  intros Hd Hfin Ho Hoc. pose proof (di_links d Hd) as Ht. pose proof (di_held d Hd o n Ho) as Hn. pose proof (di_held d Hd oc c Hoc) as Hc.
  destruct (attached_ok n c (d_heap d) Ht Hn Hc) as (H1 & _ & H3 & H4). exists (with_heap (attached n c (d_heap d)) d).
  split; [|split; [done | split; [done | split]]].
  - unfold appendChild, nodeOf. rewrite Hoc. cbn. unfold wrap. cbn. apply (di_memo d Hd) in Hoc. by rewrite Hoc.
  - split; [|by apply attached_finite]. intros Hfin' Hb. by apply (finite_no_cycle _ n (Hfin' n)), attached_cycle.
  - intros Hb Hl Hne. apply cycle_diverges; [by apply attached_leaf | by apply attached_cycle].
Qed.
End results.

(** ** Concrete libraries *)
Section witnesses.

(** One page, and selectors that name the elements right below their scope, or every node there. *)
Definition matches (selector : bytes) (h : heap) (n : nat) : bool :=
  if bool_decide (selector = lit ":any") then bool_decide (is_Some (h !! n)) else is_element selector h n.

Definition page : list (nat * node) :=
  [ (0%nat, mkNode DocumentNode [] [] None [1%nat]);
    (1%nat, mkNode ElementNode (lit "html") [] (Some 0%nat) [2%nat; 3%nat]);
    (2%nat, mkNode ElementNode (lit "head") [] (Some 1%nat) []);
    (3%nat, mkNode ElementNode (lit "body") [] (Some 1%nat) [4%nat]);
    (4%nat, mkNode TextNode (lit "hello") [] (Some 3%nat) []) ].
Definition page_heap : heap := list_to_map page.

#[local] Instance page_html : Html := {|
  html_Parse _ := Some (page_heap, 0%nat);
  html_Render h n := n_Data <$> h !! n;
  AppendChild n c h := alter (λ x, with_children (n_Children x ++ [c]) x) n (alter (with_parent (Some n)) c h);
  RemoveChild n c h := alter (λ x, with_children (List.filter (λ y, negb (y =? c)%nat) (n_Children x)) x) n (alter (with_parent None) c h);
  cascadia_Compile text := if bool_decide (text = []) then None else Some text;
  QueryAll tag h n := List.filter (matches tag h) (children h n);
  Query tag h n := head (List.filter (matches tag h) (children h n));
|}.
#[local] Instance page_case : UnicodeCase := {| unicode_ToLower r := r; unicode_ToUpper r := r |}.

Lemma page_lookup n x : page_heap !! n = Some x → (n, x) ∈ page.
Proof. apply elem_of_list_to_map_2. Qed.
Lemma page_children n c : c ∈ children page_heap n → (n < c <= 4)%nat ∧ parent page_heap c = Some n.
Proof.
  unfold children. destruct (page_heap !! n) as [x|] eqn:E; [|by intros ?%elem_of_nil]. apply page_lookup, list_elem_of_In in E. cbn in E.
  destruct_or!; try done; simplify_eq; cbn; rewrite list_elem_of_In; cbn; intros; destruct_or!; try done; subst; by (split; [lia | vm_compute]).
Qed.
Lemma page_links : links_ok page_heap.
Proof.
  split.
  - by intros n c [_ Hc]%page_children.
  - intros n c. unfold parent. destruct (page_heap !! c) as [x|] eqn:E; [|done]. cbn. apply page_lookup, list_elem_of_In in E. cbn in E.
    destruct_or!; try done; simplify_eq; cbn; intros; simplify_eq; by (apply (bool_decide_unpack _); vm_compute).
  - intros n. unfold children. destruct (page_heap !! n) as [x|] eqn:E; [|constructor]. apply page_lookup, list_elem_of_In in E. cbn in E.
    destruct_or!; try done; simplify_eq; cbn; by (apply (bool_decide_unpack _); vm_compute).
Qed.
Lemma page_leaf : leaf_ok page_heap.
Proof.
  intros n. unfold children. destruct (page_heap !! n) as [x|] eqn:E; [|done]. apply page_lookup, list_elem_of_In in E. cbn in E.
  by destruct_or!; simplify_eq.
Qed.
Lemma page_tree : tree_ok page_heap.
Proof. split; [apply page_links | apply page_leaf]. Qed.
Lemma page_finite n : finite_below page_heap n.
Proof.
  remember (5 - n)%nat as k eqn:Hk. revert n Hk. induction (lt_wf k) as [k _ IH]. intros n ->. constructor. intros c [Hc _]%page_children.
  apply (IH (5 - c)%nat); lia.
Qed.
#[local] Instance page_laws : HtmlLaws.
Proof.
  split; [|by intros | by intros | |by intros].
  - intros source h root Hp. injection Hp as <- <-. split; [apply page_tree|]. split; [apply page_finite|]. by exists (mkNode DocumentNode [] [] None [1%nat]).
  - intros s h n m. cbn. intros [Hc Hm]%list_elem_of_In%filter_In. apply list_elem_of_In in Hc. split; [by apply (rtc_l _ _ m)|].
    unfold matches, is_element in Hm. destruct (h !! m); [done|]. by case_bool_decide.
Qed.

Lemma page_next : ∀ h root n, html_Parse [] = Some (h, root) → is_Some (h !! n) → (n < 5)%nat.
Proof. intros h root n Hp [x E]. injection Hp as <- <-. apply page_lookup, list_elem_of_In in E. cbn in E. destruct_or!; simplify_eq; lia. Qed.

Definition page_document : domDocument := mkDocument page_heap 0 ∅ ∅ 0 5.
(** [html], then [body], then the text of [body] is set, then [html] goes below it. *)
Definition page_calls : list dom_call := [CFirst (lit "html"); CFirst (lit "body"); CSetText 1 (lit "bye")].

Lemma page_parsed : newDOMDocument 9 [] 5 = Some (Ok page_document).
Proof. vm_compute. reflexivity. Qed.

Lemma identity_holds_witness :
  let d1 := run_dom 9 page_calls page_document in
  d_nodes d1 !! 1%nat = Some 3%nat
  ∧ wrap 3 (run_dom 9 [CRemove 0 (DObject 1); CAppend 0 (DObject 1); CParent 1] d1) = (1%nat, run_dom 9 [CRemove 0 (DObject 1); CAppend 0 (DObject 1); CParent 1] d1).
Proof.
  intros d1. assert (d_nodes d1 !! 1%nat = Some 3%nat) as Ho by (vm_compute; reflexivity). split; [exact Ho|].
  apply (identity_holds 9 [] 5 page_document page_calls [CRemove 0 (DObject 1); CAppend 0 (DObject 1); CParent 1] (CSelectAll []) page_parsed page_next). exact Ho.
Defined.

Lemma walks_exact_witness : ∃ fuel l, (∀ m, m ∈ l ↔ below page_heap 0%nat m) ∧ ∀ more, (fuel <= more)%nat →
  preorder more page_heap 0%nat = Some l ∧ domTextContent more page_heap 0%nat = Some (concat (text_of page_heap <$> l)).
Proof.
  destruct (walks_exact page_heap 0%nat page_tree (page_finite 0%nat)) as (fuel & l & Hl & Hw). exists fuel, l. split; [exact Hl|].
  intros more Hm. destruct (Hw more Hm) as (H1 & H2 & _). split; [exact H1 | exact H2].
Defined.
Example walks_page : preorder 4 page_heap 0%nat = Some [0; 1; 2; 3; 4]%nat ∧ domTextContent 4 page_heap 0%nat = Some (lit "hello").
Proof. vm_compute. by split. Qed.

Lemma page_run_inv l : dom_inv (run_dom 9 l page_document).
Proof. destruct (newDOMDocument_ok _ _ _ _ page_parsed page_next) as [Hd _]. apply (run_dom_ok 9 l page_document Hd). Qed.

(** [body.appendChild(document.documentElement)], then [body.textContent]. *)
Lemma append_exact_witness :
  let d := run_dom 9 [CFirst (lit "html"); CFirst (lit "body")] page_document in
  ∃ d', appendChild 3 (DObject 0) d = Some (0%nat, d') ∧ ∀ fuel, domTextContent fuel (d_heap d') 3 = None.
Proof.
  intros d. destruct (append_exact d 1 0 3 1) as (d' & H1 & _ & _ & _ & H5).
  - apply page_run_inv.
  - exact page_finite.
  - vm_compute. reflexivity.
  - vm_compute. reflexivity.
  - exists d'. split; [exact H1|]. apply H5.
    + apply (rtc_l _ 1%nat 3%nat 3%nat); [|constructor]. apply (bool_decide_unpack (3%nat ∈ children (d_heap d) 1)). vm_compute. exact I.
    + exact page_leaf.
    + vm_compute. discriminate.
Defined.

(** A selector can hand a script a text node; what is then appended below it is in the tree, and not in
    the text of what is above it. *)
Example text_hides_children :
  let d := run_dom 9 [CFirst (lit "html"); CFirst (lit "body"); CSelectBelow 1 (lit ":any"); CCreate (lit "p"); CSetText 3 (lit "lost"); CAppend 2 (DObject 3)] page_document in
  n_Type <$> d_heap d !! 4%nat = Some TextNode ∧ d_nodes d !! 2%nat = Some 4%nat
  ∧ preorder 9 (d_heap d) 3 = Some [3; 4; 5; 6]%nat ∧ domTextContent 9 (d_heap d) 6 = Some (lit "lost")
  ∧ domTextContent 9 (d_heap d) 3 = Some (lit "hello").
Proof. vm_compute. done. Qed.
End witnesses.
