(* ===== verification/RequestPipeline.v ===== *)
(** * Requests and responses through the actions ([module_proxy.go], and the parts
      of [proxy.go] and [content_encoding.go] it uses)

    A body is what reading it yields, none when the read fails; the reader of
    a request ends in an error beyond 64 MiB.  [net/url] and the decompressors
    are parameters. *)
From Stdlib Require Import Btauto.
From S2P Require Import Prelude GoStrings GoBinary GoNet ConfigTypes Json HostPatterns ScriptConfig Settings ConfigValidate.
From S2P Require Import RoutingRules HttpHeaders Templates DeclarativeActions.

(** [url.Parse] with the accessors matching reads, the text of a URL, and the full output of a decompressor. *)
Class Web := {
  request_url : bytes → option parsedURL;
  url_String : URL → bytes;
  decompress : bytes → bytes → option bytes;
}.

Record incoming := mkIncoming {
  in_Method : bytes;
  in_ContentLength : Z;
  in_hasBody : bool;
  in_TransferEncoding : list bytes;
  in_Header : Header;
  in_Trailer : Header;
  in_ProtoMajor : Z;
  in_TLS : bool;
  in_RequestURI : bytes;
  (** What the body yields. *)
  in_Body : option bytes;
}.

Definition requestHasPayload (r : incoming) : bool :=
  in_hasBody r && (negb (in_ContentLength r =? 0) || negb (bool_decide (in_TransferEncoding r = []))).

Definition requestHasBodySection (r : incoming) : bool := requestHasPayload r || negb (bool_decide (in_Trailer r = ∅)).

Definition moduleRequestProbe (r : incoming) (host : bytes) : scriptMessage :=
  let scheme := if in_TLS r || (in_ProtoMajor r =? 3) then &"https" else &"http" in
  mkMessage (scheme ++ &"://" ++ host ++ in_RequestURI r) (in_Method r) ∅ ∅ [] 0.

Abbreviation rules := (list matchedScriptRule).
Definition rule_mode (m : matchedScriptRule) : bytes := sr_BodyMode (ma_Rule m).
Definition reads_body (m : matchedScriptRule) : bool := negb (bool_decide (rule_mode m = &"none")).
Definition rule_limit (m : matchedScriptRule) : Z := sr_MaxBodyBytes (ma_Rule m).

Definition requestCanStreamWithoutModuleBuffer (r : incoming) (rs : rules) : bool :=
  if (0 <? len rs) || negb (requestHasBodySection r) then len rs =? 0
  else negb (in_ProtoMajor r =? 3) && (in_ContentLength r <=? maxModuleHTTPBody).

Definition requestNeedsModuleBodyReservation (r : incoming) (rs : rules) : bool :=
  if maxModuleHTTPBody <? in_ContentLength r then false
  else if 0 <? len rs then true
  else if negb (requestHasBodySection r) then false
  else negb (requestCanStreamWithoutModuleBuffer r rs).

(** ** Limits *)
Definition moduleBodyReadLimit (rs : rules) : Z :=
  let limit := fold_left (λ limit m, if reads_body m && (limit <? rule_limit m) then rule_limit m else limit) rs 0 in
  if (limit <=? 0) || (maxModuleHTTPBody <? limit) then maxModuleHTTPBody else limit.

Definition widest_limit (rs : rules) : Z := fold_left (λ widest m, if widest <? rule_limit m then rule_limit m else widest) rs 0.

Definition moduleBodyReservation (contentLength : Z) (rs : rules) : Z :=
  let limit := moduleBodyReadLimit rs in
  let widest := if widest_limit rs =? 0 then limit else widest_limit rs in
  if 0 <? contentLength then
    let declared := if limit <? contentLength then limit else contentLength in
    if widest <? declared then declared else widest
  else widest.

Definition moduleResponseBodyReservation (contentLength : Z) (rs : rules) : Z :=
  let limit := moduleBodyReadLimit rs in
  let reserve := if (0 <? contentLength) && (contentLength <? limit) then contentLength else limit in
  let widest := widest_limit rs in
  if reserve <? widest then widest else reserve.

(** ** Reading *)
Definition readBounded (body : option bytes) (limit : Z) : res string bytes :=
  match body with
  | None => Err "read failed"%string
  | Some b => if limit <? len b then Err "body exceeds the limit"%string else Ok b
  end.

Definition responseRulesForStatus (candidates : rules) (status : Z) : rules :=
  List.filter (λ m, bool_decide (am_StatusCodes (sr_Match (ma_Rule m)) = []) || containsInt (am_StatusCodes (sr_Match (ma_Rule m))) status) candidates.

Definition responseRulesStreamable (rs : rules) : bool :=
  negb (bool_decide (rs = [])) && forallb (λ m, is_some (sr_Headers (ma_Rule m))) rs.

Section pipeline.
Context {U : UnicodeCase} {En : Engines} {P : TextParsers} {W : UnicodeWords} {R : Regexps} {O : MapOrder} {Wb : Web}.

Definition decodeContentBody (body encoding : bytes) (limit : Z) : res string bytes :=
  let encoding := ToLower (TrimSpace encoding) in
  if bool_decide (encoding = []) || bool_decide (encoding = &"identity") then Ok body
  else if containsString [&"gzip"; &"deflate"; &"br"] encoding then readBounded (decompress encoding body) limit
  else Err "content encoding is unsupported"%string.

Definition requestCanConditionallyStreamWithModuleActions (r : incoming) (rs : rules) : bool :=
  if (len rs =? 0) || negb (requestHasPayload r) || (in_ProtoMajor r =? 3) || (maxModuleHTTPBody <? in_ContentLength r) then false
  else
    match normalizedContentEncoding (in_Header r) with
    | None => false
    | Some encoding =>
        if negb (bool_decide (encoding = [])) && negb (bool_decide (encoding = &"identity")) then false
        else forallb (λ m, negb (reads_body m)) rs
    end.

Definition readDecodedModuleRequestBody (r : incoming) (readLimit : Z) : res string bytes :=
  if negb (in_hasBody r) then Ok []
  else
    match normalizedContentEncoding (in_Header r) with
    | None => Err "content encoding"%string
    | Some encoding => body ← readBounded (in_Body r) readLimit; decodeContentBody body encoding readLimit
    end.

(** [io.Copy] to [io.Discard] of the bounded body. *)
Definition drainModuleRequestBody (r : incoming) : res string unit :=
  if negb (in_hasBody r) then Ok tt
  else match in_Body r with
       | None => Err "read failed"%string
       | Some b => reject_if (maxModuleHTTPBody <? len b) "body exceeds the limit"%string
       end.

(** ** Matching *)
Definition matchingScriptRulesWithStatus (cfg : Config) (phase : bytes) (message : scriptMessage) (matchStatus : bool) : rules :=
  match request_url (sm_URL message) with
  | None => []
  | Some parsed => matchingScriptRulesParsed cfg phase (sm_Method message) (sm_StatusCode message) matchStatus parsed
  end.

(** ** The outbound request *)
Inductive outbound_body := Streamed | NoBody | Buffered (body : bytes).

Record outboundRequest := mkOutbound {
  out_URL : bytes;
  out_Method : bytes;
  out_ProtoMajor : Z;
  out_Header : Header;
  out_Trailer : Header;
  out_Body : outbound_body;
  out_ContentLength : Z;
}.

Definition forwardRequestHeaders (message : scriptMessage) (responseCandidates : rules) : Header :=
  let headers := sanitizeForwardRequestHeaders (sm_Headers message) in
  if (0 <? len responseCandidates) && negb (responseRulesStreamable responseCandidates)
  then header_Set (&"Accept-Encoding") (&"identity") headers else headers.

(** A streamed request keeps the body of the client, when it has one, behind the 64 MiB reader. *)
Definition streamingModuleRequest (r : incoming) (cfg : Config) (message : scriptMessage) : res string (outboundRequest * rules) :=
  match request_url (sm_URL message) with
  | None => Err "url"%string
  | Some _ =>
      let candidates := matchingScriptRulesWithStatus cfg (&"response") message false in
      Ok (mkOutbound (sm_URL message) (in_Method r) (in_ProtoMajor r) (forwardRequestHeaders message candidates) (in_Trailer r)
            (if in_hasBody r then Streamed else NoBody) (in_ContentLength r), candidates)
  end.

Definition bufferedModuleRequest (r : incoming) (cfg : Config) (message : scriptMessage) (incomingHadBodySection : bool) :
    res string (outboundRequest * rules) :=
  match request_url (sm_URL message) with
  | None => Err "url"%string
  | Some _ =>
      let candidates := matchingScriptRulesWithStatus cfg (&"response") message false in
      let none := (len (sm_Body message) =? 0) && negb incomingHadBodySection && bool_decide (in_Trailer r = ∅) in
      Ok (mkOutbound (sm_URL message) (in_Method r) (in_ProtoMajor r) (forwardRequestHeaders message candidates) (in_Trailer r)
            (if none then NoBody else Buffered (sm_Body message)) (len (sm_Body message)), candidates)
  end.

(** ** A response written whole *)
Record response_out := mkResponseOut { ro_Status : Z; ro_Header : Header; ro_Trailer : Header; ro_Body : bytes }.

(** The headers and trailers are those of the writer after the body. *)
Definition writeBufferedModuleResponse (method : bytes) (status : Z) (headers trailers : Header) (body : bytes) : res string response_out :=
  let canHaveBody := responseCanHaveBody method status in
  _ ← reject_if ((0 <? len body) && negb canHaveBody) "body not allowed"%string;
  _ ← reject_if ((0 <? len (responseTrailerNames trailers)) && negb canHaveBody) "response trailers require a response body section"%string;
  let h := removeHopByHopHeaders (copyResponseHeaders ∅ headers) in
  let h := header_Del (&"Content-Encoding") h in
  let '(h, declared) := declareResponseTrailers h trailers in
  let h := if bool_decide (declared = []) then header_Set (&"Content-Length") (Itoa (len body)) h else h in
  Ok (mkResponseOut status h (publishResponseTrailers ∅ trailers declared) body).

(** ** The request phase *)
Section request.
(** One action; [execute] below. *)
Context (run_action : Module_ → ScriptRule → scriptMessage → res string scriptResult).

Record request_state := mkRequestState {
  rq_message : scriptMessage;
  rq_urlChanged : bool;
  rq_bodyChanged : bool;
  rq_retained : bool;
}.

Inductive action_outcome :=
| Continue (s : request_state)
| Answered (response : response_out)
| Aborted
| Failed (reason : string) (s : request_state).

Definition set_url (url : bytes) (m : scriptMessage) : scriptMessage :=
  mkMessage url (sm_Method m) (sm_Headers m) (sm_Trailers m) (sm_Body m) (sm_StatusCode m).
Definition set_message_headers (h : Header) (m : scriptMessage) : scriptMessage :=
  mkMessage (sm_URL m) (sm_Method m) h (sm_Trailers m) (sm_Body m) (sm_StatusCode m).
Definition set_trailers (h : Header) (m : scriptMessage) : scriptMessage :=
  mkMessage (sm_URL m) (sm_Method m) (sm_Headers m) h (sm_Body m) (sm_StatusCode m).
Definition set_body (b : bytes) (m : scriptMessage) : scriptMessage :=
  mkMessage (sm_URL m) (sm_Method m) (sm_Headers m) (sm_Trailers m) b (sm_StatusCode m).
Definition set_status (status : Z) (m : scriptMessage) : scriptMessage :=
  mkMessage (sm_URL m) (sm_Method m) (sm_Headers m) (sm_Trailers m) (sm_Body m) status.

Definition body_refused (m : matchedScriptRule) (message : scriptMessage) : bool := reads_body m && (rule_limit m <? len (sm_Body message)).

(** What a result of the request phase does to the message. *)
Definition apply_request_result (cfg : Config) (m : matchedScriptRule) (method : bytes) (result : scriptResult) (s : request_state) : action_outcome :=
  if re_Abort result then Aborted
  else
    match validateModuleResultBody (ma_Rule m) result with
    | Err e => Failed e s
    | Ok _ =>
        if re_Synthetic result then
          let status := if re_StatusCode result =? 0 then 200 else re_StatusCode result in
          match writeBufferedModuleResponse method status (re_Headers result) (re_Trailers result) (re_Body result) with
          | Ok response => Answered response
          | Err _ => Aborted
          end
        else
          let moved :=
            if re_ChangedURL result then
              match authorizeModuleRequestURLRewriteConfig cfg (ma_Module m) (sm_URL (rq_message s)) (re_URL result) with
              | Err e => Err e
              | Ok parsed => Ok (url_String parsed, true)
              end
            else Ok (sm_URL (rq_message s), rq_urlChanged s) in
          match moved with
          | Err e => Failed e s
          | Ok (url, urlChanged) =>
              let message := set_url url (rq_message s) in
              let message := if re_ChangedHeaders result then set_message_headers (re_Headers result) message else message in
              if re_ChangedBody result
              then Continue (mkRequestState (set_body (re_Body result) message) urlChanged true true)
              else Continue (mkRequestState message urlChanged (rq_bodyChanged s) (rq_retained s))
          end
    end.

Definition request_action (cfg : Config) (method : bytes) (m : matchedScriptRule) (s : request_state) : action_outcome :=
  match (if rq_urlChanged s then authorizeModuleRequestActionURL cfg (ma_Module m) (sm_URL (rq_message s)) else Ok tt) with
  | Err e => Failed e s
  | Ok _ =>
      if body_refused m (rq_message s) then Failed "request body exceeds action limit"%string s
      else
        match run_action (ma_Module m) (ma_Rule m) (rq_message s) with
        | Err e => Failed e s
        | Ok result => apply_request_result cfg m method result s
        end
  end.

Fixpoint request_actions (cfg : Config) (method : bytes) (rs : rules) (s : request_state) : action_outcome :=
  match rs with
  | [] => Continue s
  | m :: rest =>
      match request_action cfg method m s with
      | Continue s' => request_actions cfg method rest s'
      | other => other
      end
  end.

(** What preparation hands back: [bodyBufferRetained] and [bodyBufferBytes] of [preparedModuleRequest]. *)
Inductive prepared :=
| Forward (outbound : outboundRequest) (candidates : rules) (retained : bool) (bufferBytes : Z)
| Handled (response : response_out)
| AbortedRequest
| Refused (reason : string) (retained : bool) (bufferBytes : Z).

Definition forwarded (r : res string (outboundRequest * rules)) (retained : bool) (bufferBytes : Z) : prepared :=
  match r with
  | Ok (outbound, candidates) => Forward outbound candidates retained bufferBytes
  | Err e => Refused e retained bufferBytes
  end.

(** After the actions, when the body was left unread until then. *)
Definition finish_conditional (r : incoming) (cfg : Config) (rs : rules) (s : request_state) : prepared :=
  let had := requestHasBodySection r in
  if rq_bodyChanged s then
    match drainModuleRequestBody r with
    | Err e => Refused e (rq_retained s) 0
    | Ok _ => forwarded (bufferedModuleRequest r cfg (rq_message s) had) (rq_retained s) 0
    end
  else if rq_urlChanged s then
    match readDecodedModuleRequestBody r (moduleBodyReadLimit rs) with
    | Err e => Refused e false 0
    | Ok body => forwarded (bufferedModuleRequest r cfg (set_body body (rq_message s)) had) true 0
    end
  else forwarded (streamingModuleRequest r cfg (rq_message s)) false 0.

Definition prepareModuleRequestWithRules (r : incoming) (cfg : Config) (probe : scriptMessage) (rs : rules) : prepared :=
  if maxModuleHTTPBody <? in_ContentLength r then Refused "request exceeds the limit"%string false 0
  else
    let message := set_message_headers (in_Header r) probe in
    if requestCanStreamWithoutModuleBuffer r rs then forwarded (streamingModuleRequest r cfg message) false 0
    else
      let conditional := requestCanConditionallyStreamWithModuleActions r rs in
      match (if conditional then Ok [] else readDecodedModuleRequestBody r (moduleBodyReadLimit rs)) with
      | Err e => Refused e false 0
      | Ok body =>
          let message := if conditional then message else set_body body message in
          let bufferBytes := if conditional then 0 else len body in
          let retained := if conditional then false else (0 <? len body) || negb (bool_decide (in_Trailer r = ∅)) in
          let headers := header_Del (&"Content-Length") (header_Del (&"Content-Encoding") (sm_Headers message)) in
          match request_actions cfg (in_Method r) rs (mkRequestState (set_message_headers headers message) false false retained) with
          | Answered response => Handled response
          | Aborted => AbortedRequest
          | Failed e s => Refused e (rq_retained s) bufferBytes
          | Continue s =>
              if conditional then finish_conditional r cfg rs s
              else forwarded (bufferedModuleRequest r cfg (rq_message s) (requestHasBodySection r)) (rq_retained s) bufferBytes
          end
      end.
End request.

(** ** The response phase *)

(** What the upstream answered; the body as [in_Body]. *)
Record upstreamResponse := mkUpstream {
  up_Status : Z;
  up_ProtoMajor : Z;
  up_Header : Header;
  up_Trailer : Header;
  up_ContentLength : Z;
  up_Body : option bytes;
}.

Inductive transformed :=
| Transformed (status : Z) (header trailer : Header) (body : bytes)
(** The actions did not run and the response goes through as it came. *)
| PassThrough
| AbortedResponse
| TransformFailed (reason : string).

Section response.
Context (run_action : Module_ → ScriptRule → scriptMessage → scriptMessage → res string scriptResult).

Definition apply_response_result (result : scriptResult) (message : scriptMessage) : scriptMessage :=
  let message := if re_ChangedHeaders result then set_message_headers (re_Headers result) message else message in
  let message := if re_ChangedTrailers result then set_trailers (re_Trailers result) message else message in
  let message := if re_ChangedBody result then set_body (re_Body result) message else message in
  if re_ChangedStatus result then set_status (re_StatusCode result) message else message.

(** The loop over the actions; none is an abort. *)
Fixpoint response_actions (rs : rules) (request message : scriptMessage) : res string (option scriptMessage) :=
  match rs with
  | [] => Ok (Some message)
  | m :: rest =>
      if body_refused m message then Err "response body exceeds action limit"%string
      else
        result ← run_action (ma_Module m) (ma_Rule m) request message;
        if re_Abort result then Ok None
        else
          _ ← reject_if (re_ChangedURL result) "response action attempted an unsupported URL mutation"%string;
          _ ← validateModuleResultBody (ma_Rule m) result;
          response_actions rest request (apply_response_result result message)
  end.

Definition finish_response (message : scriptMessage) : transformed :=
  Transformed (sm_StatusCode message)
    (header_Del (&"Content-Length") (header_Del (&"Content-Encoding") (removeHopByHopHeaders (sm_Headers message))))
    (sm_Trailers message) (sm_Body message).

Definition transformModuleResponse (request : outboundRequest) (response : upstreamResponse) (rs : rules) : transformed :=
  if bool_decide (rs = []) then PassThrough
  else
    let requestMessage := mkMessage (out_URL request) (out_Method request) (out_Header request) ∅ [] 0 in
    match normalizedContentEncoding (up_Header response) with
    | None => PassThrough
    | Some encoding =>
        match readBounded (up_Body response) (moduleBodyReadLimit rs) with
        | Err e => TransformFailed e
        | Ok body =>
            let encoding := if bool_decide (encoding = []) && isGzip body then &"gzip" else encoding in
            match decodeContentBody body encoding maxModuleHTTPBody with
            | Err _ => PassThrough
            | Ok decoded =>
                match wireTrailers (up_Trailer response) with
                | Err _ => TransformFailed "upstream response trailers"%string
                | Ok trailers =>
                    let headers := header_Del (&"Content-Length") (header_Del (&"Content-Encoding") (up_Header response)) in
                    let message := mkMessage (out_URL request) (out_Method request) headers trailers decoded (up_Status response) in
                    match response_actions rs requestMessage message with
                    | Err e => TransformFailed e
                    | Ok None => AbortedResponse
                    | Ok (Some message) => finish_response message
                    end
                end
            end
        end
    end.

(** The loop of the streamed edits: the headers, and whether an action changed them; none is an abort. *)
Fixpoint streaming_edits (rs : rules) (request message : scriptMessage) (changed : bool) : res string (option (Header * bool)) :=
  match rs with
  | [] => Ok (Some (sm_Headers message, changed))
  | m :: rest =>
      result ← run_action (ma_Module m) (ma_Rule m) request message;
      if re_Abort result then Ok None
      else if re_ChangedHeaders result then streaming_edits rest request (set_message_headers (re_Headers result) message) true
      else streaming_edits rest request message changed
  end.

Definition framing : list bytes := [&"Content-Length"; &"Content-Encoding"; &"Transfer-Encoding"].

(** The upstream header with its framing kept and every other field replaced. *)
Definition replace_fields (edited upstream : Header) : Header :=
  let edited := fold_left (λ h name, header_Del name h) framing (removeHopByHopHeaders edited) in
  fold_left (λ h kv, fold_left (λ h value, header_Add kv.1 value h) kv.2 h) (map_to_list edited)
    (fold_left (λ h name, if containsString framing (CanonicalHeaderKey name) then h else header_Del name h) (header_names upstream) upstream).

Definition applyStreamingResponseHeaderEdits (request : outboundRequest) (response : upstreamResponse) (rs : rules) :
    res string (option Header) :=
  let requestMessage := mkMessage (out_URL request) (out_Method request) (out_Header request) ∅ [] 0 in
  let message := mkMessage (out_URL request) (out_Method request) (up_Header response) ∅ [] (up_Status response) in
  match streaming_edits rs requestMessage message false with
  | Err e => Err e
  | Ok None => Ok None
  | Ok (Some (headers, changed)) => Ok (Some (if changed : bool then replace_fields headers (up_Header response) else up_Header response))
  end.
End response.

(** A response relayed as it arrives: the headers the client gets, and whether the body is re-framed. *)
Definition writeStreamingProxyResponse (downstreamProtoMajor : Z) (method : bytes) (response : upstreamResponse) : res string (Header * bool) :=
  match wireTrailers (up_Trailer response) with
  | Err _ => Err "upstream response trailers"%string
  | Ok announced =>
      let canHaveBody := responseCanHaveBody method (up_Status response) in
      _ ← reject_if ((0 <? len (responseTrailerNames announced)) && negb canHaveBody) "response trailers require a response body section"%string;
      let '(h, _) := declareResponseTrailers (copyResponseHeaders ∅ (up_Header response)) announced in
      let forceChunked := (downstreamProtoMajor =? 1) && (2 <=? up_ProtoMajor response) && canHaveBody in
      Ok (if forceChunked then header_Del (&"Content-Length") h else h, forceChunked)
  end.
End pipeline.

(** ** The response candidates of the request phase *)
Section candidates.
Context {U : UnicodeCase} {En : Engines} {Wb : Web}.

Lemma filter_filter_list {A} (f g : A → bool) l : List.filter f (List.filter g l) = List.filter (λ x, g x && f x) l.
Proof.
  induction l as [|x l IH]; [done|]. cbn. destruct (g x) eqn:Eg; cbn; [|done]. destruct (f x); by rewrite ?IH.
Qed.

Lemma filter_concat {A B} (f : B → bool) (g : A → list B) l :
  List.filter f (concat (map g l)) = concat (map (λ x, List.filter f (g x)) l).
Proof. induction l as [|x l IH]; [done|]. cbn. by rewrite List.filter_app, IH. Qed.

Lemma filter_map_list {A B} (f : B → bool) (g : A → B) l : List.filter f (map g l) = map g (List.filter (λ x, f (g x)) l).
Proof. induction l as [|x l IH]; [done|]. cbn. rewrite IH. by destruct (f (g x)). Qed.

(** The status is the one condition a match without it leaves out. *)
Lemma rule_matches_status phase host scheme method path status0 status c :
  rule_matches phase host scheme method path status0 false c
  && (bool_decide (am_StatusCodes (sr_Match (cr_rule c)) = []) || containsInt (am_StatusCodes (sr_Match (cr_rule c))) status)
  = rule_matches phase host scheme method path status true c.
Proof. unfold rule_matches. cbv zeta. cbn [negb orb]. btauto. Qed.

(** Filtering, by the status of the response, the rules that matched before
    there was one finds exactly the rules that a match against the response finds. *)
Theorem response_candidates_agree cfg message status :
  responseRulesForStatus (matchingScriptRulesWithStatus cfg (&"response") message false) status
  = matchingScriptRulesWithStatus cfg (&"response") (set_status status message) true.
Proof.
  unfold matchingScriptRulesWithStatus. cbn [sm_URL sm_Method sm_StatusCode set_status].
  destruct (request_url (sm_URL message)) as [parsed|]; [|done]. unfold matchingScriptRulesParsed.
  destruct (match cfg_runtime cfg with Some r => Ok r | None => _ end) as [r|]; [|done]. unfold responseRulesForStatus.
  rewrite filter_concat. f_equal. apply map_ext. intros cm. destruct (negb _); [done|].
  rewrite filter_map_list, filter_filter_list. f_equal. apply List.filter_ext. intros c. apply rule_matches_status.
Qed.
End candidates.

(** ** Bodies within limits *)
Section limits.
Context {U : UnicodeCase} {En : Engines} {P : TextParsers} {W : UnicodeWords} {R : Regexps} {O : MapOrder} {Wb : Web}.

(** The message is one the action accepts. *)
Definition within_limit (m : matchedScriptRule) (message : scriptMessage) : Prop := reads_body m = true → len (sm_Body message) <= rule_limit m.

Lemma body_refused_within m message : body_refused m message = false → within_limit m message.
Proof. unfold body_refused, within_limit. intros [H|H]%andb_false_iff E; [congruence | by bools]. Qed.

Lemma request_actions_agree run run' cfg method rs s :
  (∀ m message, within_limit m message → run (ma_Module m) (ma_Rule m) message = run' (ma_Module m) (ma_Rule m) message) →
  request_actions run cfg method rs s = request_actions run' cfg method rs s.
Proof.
  intros Hr. revert s. induction rs as [|m rs IH]; intros s; [done|]. cbn [request_actions]. unfold request_action.
  destruct (if rq_urlChanged s then _ else _); [|done]. destruct (body_refused m (rq_message s)) eqn:Eb; [done|].
  rewrite <- Hr by by apply body_refused_within. destruct (run _ _ _) as [result|]; [|done].
  destruct (apply_request_result _ _ _ _ _); [apply IH | done..].
Qed.

Lemma response_actions_agree run run' rs request message :
  (∀ m q message, within_limit m message → run (ma_Module m) (ma_Rule m) q message = run' (ma_Module m) (ma_Rule m) q message) →
  response_actions run rs request message = response_actions run' rs request message.
Proof.
  intros Hr. revert message. induction rs as [|m rs IH]; intros message; [done|]. cbn [response_actions].
  destruct (body_refused m message) eqn:Eb; [done|]. rewrite <- Hr by by apply body_refused_within.
  destruct (run _ _ _ _) as [result|]; [|done]. cbn. destruct (re_Abort result); [done|].
  destruct (reject_if _ _); [|done]. cbn. destruct (validateModuleResultBody _ _); [|done]. apply IH.
Qed.

(** C36 (bounds): an action that reads the body is never handed one beyond its own limit, in either
    phase: what an exchange does does not depend on what actions would do with such a message. *)
Theorem action_body_bounded run_request run_request' run_response run_response' r cfg probe rs outbound response :
  (∀ m message, within_limit m message → run_request (ma_Module m) (ma_Rule m) message = run_request' (ma_Module m) (ma_Rule m) message) →
  (∀ m q message, within_limit m message → run_response (ma_Module m) (ma_Rule m) q message = run_response' (ma_Module m) (ma_Rule m) q message) →
  prepareModuleRequestWithRules run_request r cfg probe rs = prepareModuleRequestWithRules run_request' r cfg probe rs
  ∧ transformModuleResponse run_response outbound response rs = transformModuleResponse run_response' outbound response rs.
Proof.
  intros Hq Hs. split.
  - unfold prepareModuleRequestWithRules. destruct (_ <? _); [done|]. cbv zeta. destruct (requestCanStreamWithoutModuleBuffer _ _); [done|].
    destruct (if requestCanConditionallyStreamWithModuleActions r rs then _ else _); [|done].
    by rewrite (request_actions_agree run_request run_request') by done.
  - unfold transformModuleResponse. case_bool_decide; [done|]. cbv zeta. destruct (normalizedContentEncoding _); [|done].
    destruct (readBounded _ _); [|done]. destruct (decodeContentBody _ _ _); [|done]. destruct (wireTrailers _); [|done].
    by rewrite (response_actions_agree run_response run_response') by done.
Qed.

(** ** Where a request goes *)

(** The URL of the message is the one it came with or one some matched extension was authorized to. *)
Definition authorized_url (cfg : Config) (rs : rules) (probe url : bytes) : Prop :=
  url = probe ∨ ∃ m current raw u, m ∈ rs ∧ authorizeModuleRequestURLRewriteConfig cfg (ma_Module m) current raw = Ok u ∧ url = url_String u.

Lemma request_actions_url run cfg method all probe rs s s' :
  (∀ m, m ∈ rs → m ∈ all) → authorized_url cfg all probe (sm_URL (rq_message s)) →
  request_actions run cfg method rs s = Continue s' → authorized_url cfg all probe (sm_URL (rq_message s')).
Proof.
  revert s. induction rs as [|m rs IH]; intros s Hall Hu; [by intros [= <-]|]. cbn [request_actions].
  destruct (request_action run cfg method m s) as [s1| | |] eqn:E; try done. apply IH; [intros; apply Hall; by right|].
  unfold request_action in E. destruct (if rq_urlChanged s then _ else _); [|done]. destruct (body_refused _ _); [done|].
  destruct (run _ _ _) as [result|]; [|done]. unfold apply_request_result in E. destruct (re_Abort result); [done|].
  destruct (validateModuleResultBody _ _); [|done]. destruct (re_Synthetic result); [by destruct (writeBufferedModuleResponse _ _ _ _ _)|].
  destruct (re_ChangedURL result).
  - destruct (authorizeModuleRequestURLRewriteConfig _ _ _ _) as [u|] eqn:Eu; [|done].
    assert (authorized_url cfg all probe (url_String u)) as Hn by (right; exists m, (sm_URL (rq_message s)), (re_URL result), u; split; [apply Hall; left | done]).
    destruct (re_ChangedBody result); injection E as <-; by destruct (re_ChangedHeaders result).
  - destruct (re_ChangedBody result); injection E as <-; by destruct (re_ChangedHeaders result).
Qed.

Lemma streamed_url r cfg message outbound candidates :
  streamingModuleRequest r cfg message = Ok (outbound, candidates) → out_URL outbound = sm_URL message.
Proof. unfold streamingModuleRequest. destruct (request_url _); [|done]. by intros [= <- <-]. Qed.

Lemma buffered_url r cfg message had outbound candidates :
  bufferedModuleRequest r cfg message had = Ok (outbound, candidates) → out_URL outbound = sm_URL message.
Proof. unfold bufferedModuleRequest. destruct (request_url _); [|done]. by intros [= <- <-]. Qed.

Lemma forwarded_Forward res retained bytes outbound candidates retained' bytes' :
  forwarded res retained bytes = Forward outbound candidates retained' bytes' →
  res = Ok (outbound, candidates) ∧ retained' = retained ∧ bytes' = bytes.
Proof. unfold forwarded. destruct res as [[? ?]|]; [|done]. by intros [= -> -> -> ->]. Qed.

(** *** The headers of the outbound request

    The message differs from the one it came from in what the actions may change. *)
Definition same_target (a b : scriptMessage) : Prop := sm_Method a = sm_Method b ∧ sm_StatusCode a = sm_StatusCode b.

(** The headers are those it came with, or those an action of the phase put in their place. *)
Definition edited_by (run : Module_ → ScriptRule → scriptMessage → res string scriptResult) (rs : rules) (before h : Header) : Prop :=
  h = before ∨ ∃ m message result, m ∈ rs ∧ run (ma_Module m) (ma_Rule m) message = Ok result
                                   ∧ re_ChangedHeaders result = true ∧ h = re_Headers result.

Lemma request_actions_headers run cfg method all before rs s s' :
  (∀ m, m ∈ rs → m ∈ all) → edited_by run all before (sm_Headers (rq_message s)) →
  request_actions run cfg method rs s = Continue s' →
  edited_by run all before (sm_Headers (rq_message s')) ∧ same_target (rq_message s') (rq_message s).
Proof.
  revert s. induction rs as [|m rs IH]; intros s Hall Hh; [by intros [= <-]|]. cbn [request_actions].
  destruct (request_action run cfg method m s) as [s1| | |] eqn:E; try done. intros Hr.
  assert (edited_by run all before (sm_Headers (rq_message s1)) ∧ same_target (rq_message s1) (rq_message s)) as [H1 [T1 T2]].
  { unfold request_action in E. destruct (if rq_urlChanged s then _ else _); [|done]. destruct (body_refused _ _); [done|].
    destruct (run _ _ _) as [result|] eqn:Er; [|done]. unfold apply_request_result in E. destruct (re_Abort result); [done|].
    destruct (validateModuleResultBody _ _); [|done]. destruct (re_Synthetic result); [by destruct (writeBufferedModuleResponse _ _ _ _ _)|].
    destruct (if re_ChangedURL result then _ else _) as [[url moved]|]; [|done].
    assert (re_ChangedHeaders result = true → edited_by run all before (re_Headers result)) as Hn.
    { intros Ec. right. exists m, (rq_message s), result. split; [apply Hall; left | done]. }
    destruct (re_ChangedBody result); injection E as <-; destruct (re_ChangedHeaders result); (split; [auto | done]). }
  destruct (IH s1) as [H2 [T3 T4]]; [intros; apply Hall; by right | done..|]. split; [done|]. split; congruence.
Qed.

(** The response actions that may run on what [outbound] is answered. *)
Definition may_answer (cfg : Config) (probe : scriptMessage) (outbound : outboundRequest) : rules :=
  matchingScriptRulesWithStatus cfg (&"response") (set_url (out_URL outbound) probe) false.

(** The request that goes out carries the message's headers. *)
Definition carries (cfg : Config) (probe message : scriptMessage) (outbound : outboundRequest) (candidates : rules) : Prop :=
  candidates = may_answer cfg probe outbound ∧ out_Header outbound = forwardRequestHeaders message candidates.

Lemma streamed_carries r cfg probe message outbound candidates : same_target message probe →
  streamingModuleRequest r cfg message = Ok (outbound, candidates) → carries cfg probe message outbound candidates.
Proof.
  unfold streamingModuleRequest, carries, may_answer. intros [T1 T2]. destruct (request_url _) eqn:E; [|done]. intros [= <- <-].
  unfold matchingScriptRulesWithStatus. cbn. by rewrite T1, T2.
Qed.

Lemma buffered_carries r cfg probe message had outbound candidates : same_target message probe →
  bufferedModuleRequest r cfg message had = Ok (outbound, candidates) → carries cfg probe message outbound candidates.
Proof.
  unfold bufferedModuleRequest, carries, may_answer. intros [T1 T2]. destruct (request_url _) eqn:E; [|done]. intros [= <- <-].
  unfold matchingScriptRulesWithStatus. cbn. by rewrite T1, T2.
Qed.

(** The header block before the actions: whole when the request is relayed as it is, and without the
    fields that describe the body when the proxy reads or re-frames it. *)
Definition block_before (r : incoming) (rs : rules) : Header :=
  if requestCanStreamWithoutModuleBuffer r rs then in_Header r
  else delete (&"Content-Length") (delete (&"Content-Encoding") (in_Header r)).

Lemma prepared_carries run r cfg probe rs outbound candidates retained bytes :
  prepareModuleRequestWithRules run r cfg probe rs = Forward outbound candidates retained bytes →
  ∃ message, edited_by run rs (block_before r rs) (sm_Headers message) ∧ carries cfg probe message outbound candidates.
Proof.
  unfold prepareModuleRequestWithRules, block_before. destruct (_ <? _); [done|]. cbv zeta.
  destruct (requestCanStreamWithoutModuleBuffer _ _).
  { intros (H & _)%forwarded_Forward. exists (set_message_headers (in_Header r) probe). split; [by left | by eapply streamed_carries]. }
  set (conditional := requestCanConditionallyStreamWithModuleActions r rs).
  destruct (if conditional then _ else _) as [body|]; [|done].
  destruct (request_actions _ _ _ _ _) as [s'| | |] eqn:Ea; try done.
  apply (request_actions_headers run cfg (in_Method r) rs (delete (&"Content-Length") (delete (&"Content-Encoding") (in_Header r)))) in Ea as [He Ht];
    [|done | left; by destruct conditional].
  assert (same_target (rq_message s') probe) as Hp by (unfold same_target in *; by destruct conditional).
  destruct conditional.
  - unfold finish_conditional. destruct (rq_bodyChanged s').
    + destruct (drainModuleRequestBody r); [|done]. intros (H & _)%forwarded_Forward. eexists. split; [exact He | by eapply buffered_carries].
    + destruct (rq_urlChanged s').
      * destruct (readDecodedModuleRequestBody _ _) as [body'|]; [|done]. intros (H & _)%forwarded_Forward.
        exists (set_body body' (rq_message s')). split; [done | by eapply buffered_carries].
      * intros (H & _)%forwarded_Forward. eexists. split; [exact He | by eapply streamed_carries].
  - intros (H & _)%forwarded_Forward. eexists. split; [exact He | by eapply buffered_carries].
Qed.

(** C10 (safety): the headers of the request the proxy sends upstream are exactly these.  The block it starts
    from is the one the client sent (without Content-Encoding and Content-Length, unless the request is
    relayed as it is), or the one an action of the request phase put in its place.  Of that block it
    carries the end-to-end fields with their values: no hop-by-hop field and no field that Connection
    lists, and TE only when it asks for trailers and nothing else.  Accept-Encoding is replaced by
    identity exactly when some response action may run on the answer and not all of those only edit
    headers. *)
Theorem forwarded_headers_exact run r cfg probe rs outbound candidates retained bytes :
  canonical (in_Header r) →
  (∀ m message result, m ∈ rs → run (ma_Module m) (ma_Rule m) message = Ok result → re_ChangedHeaders result = true → canonical (re_Headers result)) →
  prepareModuleRequestWithRules run r cfg probe rs = Forward outbound candidates retained bytes →
  ∃ h, edited_by run rs (block_before r rs) h
    ∧ ∀ k, out_Header outbound !! k =
        if bool_decide (k = &"Accept-Encoding") && negb (bool_decide (may_answer cfg probe outbound = []))
           && negb (forallb (λ m, is_some (sr_Headers (ma_Rule m))) (may_answer cfg probe outbound))
        then Some [&"identity"] else end_to_end h k.
Proof.
  intros Hin Hrun Hp. destruct (prepared_carries _ _ _ _ _ _ _ _ _ Hp) as (message & He & Hcand & Hout).
  exists (sm_Headers message). split; [done|]. intros k. rewrite Hout, Hcand. set (l := may_answer cfg probe outbound).
  assert (canonical (sm_Headers message)) as Hc.
  { destruct He as [->|(m & q & result & Hm & Er & Ec & ->)]; [|by eapply Hrun]. unfold block_before. case_match; [done|].
    intros n v [_ [_ Hv]%lookup_delete_Some]%lookup_delete_Some. by apply (Hin n v). }
  unfold forwardRequestHeaders. cbv zeta.
  assert ((0 <? len l) && negb (responseRulesStreamable l)
          = negb (bool_decide (l = [])) && negb (forallb (λ m, is_some (sr_Headers (ma_Rule m))) l)) as ->.
  { unfold responseRulesStreamable. clearbody l. by destruct l. }
  rewrite <- andb_assoc. destruct (negb (bool_decide (l = [])) && _); [|by rewrite andb_false_r, sanitize_lookup].
  rewrite andb_true_r. unfold header_Set. change (CanonicalHeaderKey (&"Accept-Encoding")) with (&"Accept-Encoding").
  case_bool_decide as Ek; [subst k; by rewrite lookup_insert_eq|]. by rewrite lookup_insert_ne, sanitize_lookup by done.
Qed.

(** A request reaches the upstream only under the URL it came with, or under one that
    an extension whose action matched was authorized to move it to. *)
Theorem forwarded_url_authorized run r cfg probe rs outbound candidates retained bytes :
  prepareModuleRequestWithRules run r cfg probe rs = Forward outbound candidates retained bytes →
  authorized_url cfg rs (sm_URL probe) (out_URL outbound).
Proof.
  unfold prepareModuleRequestWithRules. destruct (_ <? _); [done|]. cbv zeta.
  destruct (requestCanStreamWithoutModuleBuffer _ _).
  { intros (H & _)%forwarded_Forward. apply streamed_url in H. by left. }
  set (conditional := requestCanConditionallyStreamWithModuleActions r rs).
  destruct (if conditional then _ else _) as [body|]; [|done].
  destruct (request_actions _ _ _ _ _) as [s'| | |] eqn:Ea; try done.
  apply (request_actions_url run cfg (in_Method r) rs (sm_URL probe)) in Ea; [|done | destruct conditional; by left].
  destruct conditional.
  - unfold finish_conditional. destruct (rq_bodyChanged s').
    + destruct (drainModuleRequestBody r); [|done]. intros (H & _)%forwarded_Forward. apply buffered_url in H. by rewrite H.
    + destruct (rq_urlChanged s').
      * destruct (readDecodedModuleRequestBody _ _); [|done]. intros (H & _)%forwarded_Forward. apply buffered_url in H. by rewrite H.
      * intros (H & _)%forwarded_Forward. apply streamed_url in H. by rewrite H.
  - intros (H & _)%forwarded_Forward. apply buffered_url in H. by rewrite H.
Qed.
End limits.
