(* ===== verification/Replies.v ===== *)
(** * What comes back to a script, and late ([module_compat.go], [module_network.go], [module_proxy.go])

    The reply of the network as a native script and as a bundle see it, the
    helpers of [$utils] and [$notification], the trailers of a streamed request,
    which arrive after its headers have left, and the report of the actions that
    a response skipped. *)
From stdpp Require Import gmap.
From S2P Require Import Prelude GoStrings ConfigTypes HttpHeaders DeclarativeActions ScriptResults ModuleNetwork EngineLogHub ScriptConfig.
From S2P Require Import HostPatterns RoutingRules Settings ConfigValidate Templates JqActions RequestPipeline.

Record moduleNetworkResponse := mkNetResponse {
  np_url : bytes; np_status : Z; np_headers : Header; np_trailers : Header; np_body : bytes;
}.

(** ** The network *)
(** The result of [network.request]; [text] is there for a body that is text. *)
Definition moduleNetworkResultObject (r : moduleNetworkResponse) : gmap bytes goval :=
  (if ValidString (np_body r) then <[ &"text" := GString (np_body r) ]> else id)
    (list_to_map [(&"url", GString (np_url r)); (&"status", GInt KInt (np_status r)); (&"headers", GHeader (np_headers r));
                  (&"trailers", GHeader (np_trailers r)); (&"body", GBytes (np_body r))]).

Definition compatResponseBody (body : bytes) (binary : bool) : goval :=
  if negb binary && ValidString body then GString body else GBytes body.

(** The arguments of the callback of a [$httpClient] call: an error, or nothing, the reply and its body. *)
Definition compat_callback (reply : res bytes moduleNetworkResponse) (binary : bool) : list goval :=
  match reply with
  | Err e => [GString e]
  | Ok r => [GNil; GMap (list_to_map [(&"status", GInt KInt (np_status r)); (&"headers", GStringMap (flatCompatHeaders (np_headers r)))]);
             compatResponseBody (np_body r) binary]
  end.

(** ** Helpers *)
Section helpers.
Context {U : UnicodeCase} {Wb : Web}.
Definition ungzip (argument : goval) (limit : Z) : res string goval :=
  match exportedBody argument with
  | Err _ => Err "ungzip expects a string or Uint8Array"%string
  | Ok body => decoded ← decodeContentBody body (&"gzip") limit; Ok (GBytes decoded)
  end.
End helpers.

(** The three text arguments, [None] for undefined and null. *)
Definition notification_separator : bytes := [32; 226; 128; 148; 32].
Definition compatNotificationText (arguments : list (option bytes)) : bytes :=
  Join (List.filter nonempty (map (λ a, TrimSpace (default [] a)) (take 3 arguments))) notification_separator.

(** ** Late trailers *)
(** [requestTrailerBody]: the trailers of the outbound request, and whether they were filled in.
    One read sees the end or not, and the trailers the inbound request has by then. *)
Record requestTrailerBody := mkTrailerBody { tb_destination : Header; tb_once : bool }.
Definition trailer_read (eof : bool) (source : Header) (b : requestTrailerBody) : requestTrailerBody :=
  if eof && negb (tb_once b) then
    mkTrailerBody (map_fold (λ name values d, <[name := values]> d) (foldl (λ d name, delete name d) (tb_destination b) (map_to_list (tb_destination b)).*1) source) true
  else b.
Definition trailer_reads (reads : list (bool * Header)) (b : requestTrailerBody) : requestTrailerBody := foldl (λ b r, trailer_read r.1 r.2 b) b reads.

(** ** Results *)
(** A reply reaches the script whole.  The body a native script or a bundle is
    given exports to the bytes that came, as text exactly when it was not asked
    for as bytes and is valid UTF-8; the first value of each header is there and
    nothing else; an error is one argument and a reply three. *)
Theorem replies_exact (r : moduleNetworkResponse) (binary : bool) :
  (exportedBody <$> moduleNetworkResultObject r !! (&"body")) = Some (Ok (np_body r))
  ∧ moduleNetworkResultObject r !! (&"text") = (if ValidString (np_body r) then Some (GString (np_body r)) else None)
  ∧ moduleNetworkResultObject r !! (&"status") = Some (GInt KInt (np_status r))
  ∧ exportedBody (compatResponseBody (np_body r) binary) = Ok (np_body r)
  ∧ (compatResponseBody (np_body r) binary = GString (np_body r) ↔ binary = false ∧ ValidString (np_body r) = true)
  ∧ (∀ name, flatCompatHeaders (np_headers r) !! name = np_headers r !! name ≫= head)
  ∧ length (compat_callback (Ok r) binary) = 3%nat
  ∧ ∀ e, compat_callback (Err e) binary = [GString e].
Proof.
  assert (∀ key v, key ≠ &"text" → moduleNetworkResultObject r !! key = v ↔
    (list_to_map [(&"url", GString (np_url r)); (&"status", GInt KInt (np_status r)); (&"headers", GHeader (np_headers r));
                  (&"trailers", GHeader (np_trailers r)); (&"body", GBytes (np_body r))] : gmap bytes goval) !! key = v) as Hkey.
  { intros key v Hne. unfold moduleNetworkResultObject. destruct (ValidString (np_body r)); [by rewrite lookup_insert_ne | done]. }
  split_and!.
  - rewrite (proj2 (Hkey (&"body") (Some (GBytes (np_body r))) ltac:(done))); [done|]. done.
  - unfold moduleNetworkResultObject. destruct (ValidString (np_body r)); [by rewrite lookup_insert_eq | done].
  - by apply Hkey.
  - unfold compatResponseBody. by destruct (negb binary && _).
  - unfold compatResponseBody. destruct binary, (ValidString (np_body r)); cbn; split; try done; by intros [? ?].
  - intros name. unfold flatCompatHeaders. by rewrite lookup_omap.
  - done.
  - done.
Qed.

Section bounds.
Context {U : UnicodeCase} {Wb : Web}.
(** [ungzip] gives what the stream holds, or an error, and never more than the limit of the action. *)
Theorem ungzip_bounded argument limit v (H : ungzip argument limit = Ok v) :
  ∃ body out, exportedBody argument = Ok body ∧ decompress (&"gzip") body = Some out ∧ v = GBytes out ∧ len out <= limit.
Proof.
  unfold ungzip in H. destruct (exportedBody argument) as [body|]; [|done]. apply bind_Ok_inv in H as (out & Hd & [= <-]).
  exists body. assert (ToLower (TrimSpace (&"gzip")) = &"gzip") as E by (vm_compute; reflexivity).
  unfold decodeContentBody in Hd. rewrite E in Hd. cbn in Hd. unfold readBounded in Hd.
  destruct (decompress _ body) as [out'|] eqn:Ed; [|done]. destruct (limit <? len out') eqn:El; [done|]. injection Hd as <-. apply Z.ltb_ge in El. by exists out'.
Qed.
End bounds.

Lemma delete_all_keys (m : Header) : foldl (λ d name, delete name d) m (map_to_list m).*1 = ∅.
Proof.
  apply map_eq. intros k. rewrite lookup_empty. assert (∀ l (d : Header), foldl (λ d name, delete name d) d l !! k = if decide (k ∈ l) then None else d !! k) as Hl.
  { induction l as [|x l IH]; intros d; cbn; [done|]. rewrite IH. destruct (decide (k = x)) as [->|Hne].
    - rewrite (decide_True (P := x ∈ x :: l)) by left. destruct (decide (x ∈ l)); [done | apply lookup_delete_eq].
    - rewrite lookup_delete_ne by done. destruct (decide (k ∈ l)) as [Hin|Hni]; [rewrite decide_True by (by right); done|].
      rewrite decide_False; [done|]. by intros [?|?]%elem_of_cons. }
  rewrite Hl. destruct (decide (k ∈ (map_to_list m).*1)) as [|Hni]; [done|]. destruct (m !! k) as [v|] eqn:E; [|done]. destruct Hni.
  apply list_elem_of_fmap. exists (k, v). split; [done | by apply elem_of_map_to_list].
Qed.
Lemma insert_all (m : Header) : map_fold (λ name values d, <[name := values]> d) ∅ m = m.
Proof. apply map_fold_weak_ind with (P := λ r m, r = m); [done|]. by intros i x m' r _ ->. Qed.

(** The trailers the upstream is sent are those the client had sent when its
    body first ended: whatever was there before is gone, and what comes after
    changes nothing. *)
Theorem late_trailers_exact reads d :
  trailer_reads reads (mkTrailerBody d false)
  = match find fst reads with Some (_, source) => mkTrailerBody source true | None => mkTrailerBody d false end.
Proof.
  induction reads as [|[[|] source] reads IH]; cbn; [done| |done].
  rewrite delete_all_keys, insert_all. assert (∀ l b, tb_once b = true → trailer_reads l b = b) as Hdone; [|by apply Hdone].
  induction l as [|[eof src] l IHl]; intros b Hb; [done|]. cbn. unfold trailer_read. rewrite Hb, andb_false_r. by apply IHl.
Qed.

(** ** Skipped actions *)
Section skipped.
Context {Lg : LogEncoding}.
(** One event for each action, when somebody listens. *)
Definition reportSkippedResponseActions (listening : bool) (url : bytes) (scripts : list matchedScriptRule) (reason : bytes) : list EngineLog :=
  if negb listening then []
  else map (λ m, mkEngineLog [] (&"warn") (&"engine") (mod_ID (ma_Module m)) (sr_ID (ma_Rule m)) (sr_Phase (ma_Rule m)) (f64 0)
                   (sanitizeEngineLogURL url) (sr_ScriptDigest (ma_Rule m)) (&"action skipped: " ++ reason)) scripts.
End skipped.
