(* ===== verification/BodyBudget.v ===== *)
(** * The body budget ([moduleBodyBudget] of [module_proxy.go])

    Waiting for room is the retry of an acquisition, ended by a deadline; what
    an exchange does to the budget is the sequence of its events. *)
From S2P Require Import Prelude.

Record moduleBodyBudget := mkBodyBudget { bb_limit : Z; bb_used : Z }.

Definition maxModuleBodyBudgetBytes : Z := 4 * 67108864.

Definition newModuleBodyBudget (limit : Z) : moduleBodyBudget := mkBodyBudget limit 0.

(** The figure a call reserves or returns. *)
Definition clamp (b : moduleBodyBudget) (want : Z) : Z :=
  let want := if want <? 0 then 0 else want in
  if bb_limit b <? want then bb_limit b else want.

(** One round of the loop of [acquire]: none when there is no room. *)
Definition acquire (want : Z) (b : moduleBodyBudget) : option moduleBodyBudget :=
  let want := clamp b want in
  if bb_limit b <? bb_used b + want then None else Some (mkBodyBudget (bb_limit b) (bb_used b + want)).

Definition release (want : Z) (b : moduleBodyBudget) : moduleBodyBudget :=
  let used := bb_used b - clamp b want in
  mkBodyBudget (bb_limit b) (if used <? 0 then 0 else used).

Inductive budget_event := Acq (n : Z) | Rel (n : Z).

Definition event_size (e : budget_event) : Z := match e with Acq n => n | Rel n => - n end.
Definition net (l : list budget_event) : Z := foldr Z.add 0 (map event_size l).

(** An exchange returns only what it holds: at no point is the balance negative. *)
Fixpoint bracketed (held : Z) (l : list budget_event) : Prop :=
  match l with
  | [] => True
  | Acq n :: rest => 0 <= n ∧ bracketed (held + n) rest
  | Rel n :: rest => 0 <= n <= held ∧ bracketed (held - n) rest
  end.

(** Events of several exchanges in the order in which they reach the budget. *)
Abbreviation schedule := (list (nat * budget_event)).
Definition events_of (s : nat) (l : schedule) : list budget_event := map snd (List.filter (λ e, (e.1 =? s)%nat) l).

(** What they do to it: none when an acquisition has no room at that point. *)
Fixpoint run_budget (l : schedule) (b : moduleBodyBudget) : option moduleBodyBudget :=
  match l with
  | [] => Some b
  | (_, Acq n) :: rest => b ← acquire n b; run_budget rest b
  | (_, Rel n) :: rest => run_budget rest (release n b)
  end.

(** ** Facts *)
Lemma net_cons e l : net (e :: l) = event_size e + net l.
Proof. done. Qed.

Definition held_by (ids : list nat) (held : nat → Z) : Z := foldr (λ s acc, held s + acc) 0 ids.
Definition hold (held : nat → Z) (s : nat) (v : Z) : nat → Z := λ t, if (t =? s)%nat then v else held t.

Lemma held_by_out ids held s v : s ∉ ids → held_by ids (hold held s v) = held_by ids held.
Proof.
  induction ids as [|t ids IH]; [done|]. intros [Ht Hin]%not_elem_of_cons. unfold held_by in *. cbn. rewrite IH by done.
  unfold hold. by rewrite (proj2 (Nat.eqb_neq t s)) by congruence.
Qed.

Lemma held_by_update ids held s v : NoDup ids → s ∈ ids → held_by ids (hold held s v) = held_by ids held - held s + v.
Proof.
  induction 1 as [|t ids Ht _ IH]; [intros Hin; by apply elem_of_nil in Hin|]. intros [->|Hin]%elem_of_cons; unfold held_by in *; cbn.
  - pose proof (held_by_out ids held t v Ht) as E. unfold held_by in E. rewrite E. unfold hold at 1. rewrite Nat.eqb_refl. lia.
  - rewrite IH by done. unfold hold. rewrite (proj2 (Nat.eqb_neq t s)) by congruence. lia.
Qed.

Lemma held_by_ge ids held s : (∀ t, 0 <= held t) → s ∈ ids → held s <= held_by ids held.
Proof.
  intros H0. assert (∀ l, 0 <= held_by l held) as Hn by (intros l; unfold held_by; induction l as [|t l IH]; cbn; [lia|specialize (H0 t); lia]).
  induction ids as [|t ids IH]; [intros Hin; by apply elem_of_nil in Hin|]. unfold held_by in *. cbn.
  intros [->|Hin]%elem_of_cons; [specialize (Hn ids); lia | specialize (IH Hin); specialize (H0 t); lia].
Qed.

Lemma events_of_cons s t e l : events_of s ((t, e) :: l) = if (t =? s)%nat then e :: events_of s l else events_of s l.
Proof. unfold events_of. cbn. by destruct (t =? s)%nat. Qed.

Lemma run_budget_held ids l held b b' : NoDup ids → Forall (λ e, e.1 ∈ ids) l →
  (∀ s, 0 <= held s) → (∀ s, bracketed (held s) (events_of s l)) → bb_used b = held_by ids held → bb_used b <= bb_limit b →
  Forall (λ e, match e.2 with Acq n => n <= bb_limit b | Rel _ => True end) l → run_budget l b = Some b' →
  bb_limit b' = bb_limit b ∧ bb_used b' <= bb_limit b' ∧ bb_used b' = held_by ids (λ s, held s + net (events_of s l))
  ∧ ∀ s, 0 <= held s + net (events_of s l).
Proof.
  intros Hnd. revert held b. induction l as [|[s e] l IH]; intros held b Hin H0 Hbr Hu Hl Hfit Hrun.
  { injection Hrun as <-. unfold net. cbn. split; [done|]. split; [done|].
    assert (∀ k, held_by k held = held_by k (λ s, held s + 0)) as E by (intros k; unfold held_by; induction k; cbn; lia).
    split; [by rewrite Hu, E|]. intros s. specialize (H0 s). lia. }
  apply Forall_cons in Hin as [Hs Hin], Hfit as [He Hfit]. cbn [fst snd] in *.
  assert (∀ v b1, bracketed v (events_of s l) → 0 <= v → bb_limit b1 = bb_limit b → bb_used b1 = bb_used b - held s + v →
            bb_used b1 <= bb_limit b → v = held s + event_size e → run_budget l b1 = Some b' →
            bb_limit b' = bb_limit b ∧ bb_used b' <= bb_limit b' ∧ bb_used b' = held_by ids (λ t, held t + net (events_of t ((s, e) :: l)))
            ∧ ∀ t, 0 <= held t + net (events_of t ((s, e) :: l))) as Hnext.
  { intros v b1 Hv Hv0 Elim Eu Hle Ev Hr.
    destruct (IH (hold held s v) b1) as (E1 & E2 & E3 & E4).
    - done.
    - intros t. unfold hold. destruct (t =? s)%nat; [done | apply H0].
    - intros t. unfold hold. destruct (Nat.eqb_spec t s) as [->|Ht]; [done|]. specialize (Hbr t). rewrite events_of_cons in Hbr.
      by rewrite (proj2 (Nat.eqb_neq s t)) in Hbr by congruence.
    - rewrite held_by_update by done. lia.
    - lia.
    - by rewrite Elim.
    - done.
    - assert (∀ t, hold held s v t + net (events_of t l) = held t + net (events_of t ((s, e) :: l))) as Et.
      { intros t. rewrite events_of_cons. unfold hold. destruct (Nat.eqb_spec t s) as [->|Ht].
        - rewrite Nat.eqb_refl, net_cons. lia.
        - by rewrite (proj2 (Nat.eqb_neq s t)) by congruence. }
      split; [congruence|]. split; [done|]. split; [|intros t; rewrite <- Et; apply E4].
      rewrite E3. unfold held_by. clear -Et. induction ids as [|t ids IH]; [done|]. cbn. by rewrite IH, Et. }
  pose proof (Hbr s) as Hbs. rewrite events_of_cons, Nat.eqb_refl in Hbs. destruct e as [n|n]; cbn [run_budget bracketed event_size] in *.
  - destruct Hbs as [Hn Hbs]. unfold acquire, clamp in Hrun. rewrite (proj2 (Z.ltb_ge n 0)), (proj2 (Z.ltb_ge (bb_limit b) n)) in Hrun by lia.
    destruct (Z.ltb_spec (bb_limit b) (bb_used b + n)); [done|]. specialize (H0 s).
    apply (Hnext (held s + n) (mkBodyBudget (bb_limit b) (bb_used b + n))); cbn; done || lia.
  - destruct Hbs as [Hn Hbs]. pose proof (held_by_ge ids held s H0 Hs) as Hge. unfold release, clamp in Hrun.
    rewrite (proj2 (Z.ltb_ge n 0)), (proj2 (Z.ltb_ge (bb_limit b) n)), (proj2 (Z.ltb_ge (bb_used b - n) 0)) in Hrun by lia.
    apply (Hnext (held s - n) (mkBodyBudget (bb_limit b) (bb_used b - n))); cbn; done || lia.
Qed.

(** However the exchanges of a process interleave, as long as each returns only
    what it holds and none reserves more than the budget, the bytes in use are exactly what the
    exchanges hold, they never exceed the limit, and nothing is in use once every exchange has
    returned what it reserved. *)
Theorem budget_is_held limit l b' : 0 <= limit → (∀ s, bracketed 0 (events_of s l)) →
  Forall (λ e, match e.2 with Acq n => n <= limit | Rel _ => True end) l → run_budget l (newModuleBodyBudget limit) = Some b' →
  bb_used b' = held_by (remove_dups (map fst l)) (λ s, net (events_of s l)) ∧ 0 <= bb_used b' <= limit
  ∧ ((∀ s, net (events_of s l) = 0) → bb_used b' = 0).
Proof.
  intros H0 Hbr Hfit Hrun. pose proof (NoDup_remove_dups (map fst l)) as Hnd. set (ids := remove_dups (map fst l)) in *.
  assert (Forall (λ e, e.1 ∈ ids) l) as Hin.
  { apply Forall_forall. intros e He. apply elem_of_remove_dups. by apply list_elem_of_fmap_2. }
  assert (0 = held_by ids (λ _, 0)) as Hz by (unfold held_by; clear; induction ids; cbn; lia).
  destruct (run_budget_held ids l (λ _, 0) (newModuleBodyBudget limit) b' Hnd Hin) as (E1 & E2 & E3 & E4); try done.
  cbn [newModuleBodyBudget bb_limit] in *. split; [exact E3|]. split.
  - split; [|lia]. rewrite E3. unfold held_by. clear -E4. induction ids as [|t ids IH]; cbn; [lia|]. specialize (E4 t). lia.
  - intros Hnone. rewrite E3. unfold held_by. clear -Hnone. induction ids as [|t ids IH]; [done|]. cbn [foldr]. rewrite IH, Hnone. lia.
Qed.

Lemma budget_is_held_witness :
  let l := [(1, Acq 1024); (2, Acq 67108864); (1, Rel 1000); (2, Rel 67108864); (1, Rel 24)]%nat in
  run_budget l (newModuleBodyBudget maxModuleBodyBudgetBytes) = Some (mkBodyBudget maxModuleBodyBudgetBytes 0)
  ∧ 0 <= bb_used (mkBodyBudget maxModuleBodyBudgetBytes 0) <= maxModuleBodyBudgetBytes.
Proof.
  intros l. assert (run_budget l (newModuleBodyBudget maxModuleBodyBudgetBytes) = Some (mkBodyBudget maxModuleBodyBudgetBytes 0)) as E
    by (vm_compute; reflexivity).
  split; [exact E|].
  refine (proj1 (proj2 (budget_is_held maxModuleBodyBudgetBytes l _ _ _ _ E))).
  - unfold maxModuleBodyBudgetBytes. lia.
  - intros s. unfold l. rewrite !events_of_cons. destruct (Nat.eqb_spec 1 s) as [<-|]; [cbn; lia|].
    destruct (Nat.eqb_spec 2 s) as [<-|]; cbn; lia.
  - repeat constructor; cbn; unfold maxModuleBodyBudgetBytes; lia.
Defined.
