(* ===== verification/HttpExchange.v ===== *)
(** * One exchange ([interceptProxy.ServeHTTP] of [proxy.go])

    What the exchange does outside itself is an argument: the snapshot
    [Current] returned, whether the budget has room for a reservation in time,
    and what the upstream answers.  The events are what the exchange does to
    the body budget, in order, deferred returns included. *)
From S2P Require Import Prelude GoStrings GoBinary GoNet ConfigTypes Json HostPatterns ScriptConfig Settings ConfigValidate.
From S2P Require Import RoutingRules HttpHeaders Templates DeclarativeActions RequestPipeline BodyBudget.

Inductive reply :=
| HttpError (status : Z)
(** The answer of an action in place of the upstream. *)
| SyntheticReply (response : response_out)
(** The response of the upstream as it came, but for hop-by-hop fields and streamed header edits. *)
| Relayed (status : Z) (header : Header) (body : option bytes)
| TransformedReply (response : response_out)
| ConnectionAborted.

Record exchange := mkExchange {
  ex_reply : reply;
  ex_events : list budget_event;
  (** The request sent upstream, with the reservation held while the upstream answers. *)
  ex_upstream : option (outboundRequest * Z);
}.

Section exchange.
Context {U : UnicodeCase} {En : Engines} {P : TextParsers} {W : UnicodeWords} {R : Regexps} {O : MapOrder} {Wb : Web} {Pr : Programs}.

(** What the client gets once the upstream has answered, and the events of the response leg. *)
Definition serve_response (cfg : Config) (r : incoming) (outbound : outboundRequest) (candidates : rules)
    (room : Z → bool) (response : upstreamResponse) : reply * list budget_event :=
  let run := λ m rule request message, execute cfg m rule request (Some message) in
  let relay := λ header,
    match writeStreamingProxyResponse (in_ProtoMajor r) (in_Method r)
            (mkUpstream (up_Status response) (up_ProtoMajor response) header (up_Trailer response) (up_ContentLength response) (up_Body response)) with
    | Ok (h, _) => Relayed (up_Status response) h (up_Body response)
    | Err _ => ConnectionAborted
    end in
  let responseRules := responseRulesForStatus candidates (up_Status response) in
  if responseRulesStreamable responseRules then
    (match applyStreamingResponseHeaderEdits run outbound response responseRules with
     | Err _ => HttpError 502
     | Ok None => ConnectionAborted
     | Ok (Some header) => relay header
     end, [])
  else
    let reserved := moduleResponseBodyReservation (up_ContentLength response) responseRules in
    let held := 0 <? len responseRules in
    if held && negb (room reserved) then (HttpError 502, [])
    else
      (match transformModuleResponse run outbound response responseRules with
       | TransformFailed _ => HttpError 502
       | AbortedResponse => ConnectionAborted
       | PassThrough => relay (up_Header response)
       | Transformed status header trailer body =>
           match writeBufferedModuleResponse (in_Method r) status header trailer body with
           | Ok response => TransformedReply response
           | Err _ => ConnectionAborted
           end
       end, if held then [Acq reserved; Rel reserved] else []).

(** What the exchange holds after preparation, and the events that get it there. *)
Definition settle (held : bool) (reserved : Z) (retained : bool) (bufferBytes : Z) : option Z * list budget_event :=
  if held && negb retained then (None, [Rel reserved])
  else if held && (bufferBytes <? reserved) then (Some bufferBytes, [Rel (reserved - bufferBytes)])
  else if held then (Some reserved, []) else (None, []).

Definition returned (holding : option Z) : list budget_event := match holding with Some n => [Rel n] | None => [] end.

Definition ServeHTTP (current : option Config) (r : incoming) (rawHost : bytes) (room roomForResponse : Z → bool)
    (upstream : outboundRequest → option upstreamResponse) : exchange :=
  let host := canonicalHost rawHost in
  match current with
  | None => mkExchange (HttpError 503) [] None
  | Some cfg =>
      if negb (activeInterceptHost cfg host) then mkExchange (HttpError 421) [] None
      else
        let probe := moduleRequestProbe r host in
        let requestRules := matchingScriptRulesWithStatus cfg (&"request") probe true in
        let held := requestNeedsModuleBodyReservation r requestRules in
        let reserved := moduleBodyReservation (in_ContentLength r) requestRules in
        if held && negb (room reserved) then mkExchange (HttpError 503) [] None
        else
          let acquired := if held then [Acq reserved] else [] in
          let after := λ retained bufferBytes, settle held reserved retained bufferBytes in
          let early := λ reply retained bufferBytes,
            let '(holding, settled) := after retained bufferBytes in
            mkExchange reply (acquired ++ settled ++ returned holding) None in
          match prepareModuleRequestWithRules (λ m rule message, execute cfg m rule message None) r cfg probe requestRules with
          | AbortedRequest => mkExchange ConnectionAborted (acquired ++ returned (if held then Some reserved else None)) None
          | Handled response => early (SyntheticReply response) false 0
          | Refused _ retained bufferBytes => early (HttpError 502) retained bufferBytes
          | Forward outbound candidates retained bufferBytes =>
              let '(holding, settled) := after retained bufferBytes in
              let '(reply, leg) := match upstream outbound with
                                   | None => (HttpError 502, [])
                                   | Some response => serve_response cfg r outbound candidates roomForResponse response
                                   end in
              mkExchange reply (acquired ++ settled ++ leg ++ returned holding) (Some (outbound, default 0 holding))
          end
  end.
End exchange.

(** ** Reservations *)
Definition limits_ok (rs : rules) : Prop := ∀ m, m ∈ rs → 0 < rule_limit m <= maxModuleHTTPBody.

Lemma fold_max_range (p : matchedScriptRule → bool) rs a : limits_ok rs → 0 <= a <= maxModuleHTTPBody →
  0 <= fold_left (λ acc m, if p m && (acc <? rule_limit m) then rule_limit m else acc) rs a <= maxModuleHTTPBody.
Proof.
  revert a. induction rs as [|m rs IH]; intros a Hl Ha; [done|]. cbn [fold_left].
  apply IH; [intros x Hx; apply Hl; by right|]. specialize (Hl m ltac:(left)). destruct (_ && _); lia.
Qed.

Lemma read_limit_range rs : limits_ok rs → 0 < moduleBodyReadLimit rs <= maxModuleHTTPBody.
Proof.
  intros Hl. unfold moduleBodyReadLimit. cbv zeta.
  pose proof (fold_max_range reads_body rs 0 Hl ltac:(unfold maxModuleHTTPBody; lia)) as H.
  set (f := fold_left _ rs 0) in *. destruct ((f <=? 0) || (maxModuleHTTPBody <? f)) eqn:E; [unfold maxModuleHTTPBody; lia|]. bools. lia.
Qed.

Lemma widest_range rs : limits_ok rs → 0 <= widest_limit rs <= maxModuleHTTPBody.
Proof. intros Hl. apply (fold_max_range (λ _, true) rs 0 Hl). unfold maxModuleHTTPBody. lia. Qed.

Lemma request_reservation_range contentLength rs : limits_ok rs → 0 < moduleBodyReservation contentLength rs <= maxModuleHTTPBody.
Proof.
  intros Hl. pose proof (read_limit_range rs Hl). pose proof (widest_range rs Hl). unfold moduleBodyReservation. cbv zeta.
  repeat case_match; bools; lia.
Qed.

Lemma response_reservation_range contentLength rs : limits_ok rs → 0 < moduleResponseBodyReservation contentLength rs <= maxModuleHTTPBody.
Proof.
  intros Hl. pose proof (read_limit_range rs Hl). pose proof (widest_range rs Hl). unfold moduleResponseBodyReservation. cbv zeta.
  repeat case_match; bools; lia.
Qed.

(** Every rule the snapshot can match has a limit that validation accepts. *)
Definition snapshot_limits {U : UnicodeCase} {En : Engines} {Wb : Web} (cfg : Config) : Prop :=
  ∀ phase message b, limits_ok (matchingScriptRulesWithStatus cfg phase message b).

Section facts.
Context {U : UnicodeCase} {En : Engines} {P : TextParsers} {W : UnicodeWords} {R : Regexps} {O : MapOrder} {Wb : Web} {Pr : Programs}.

(** What preparation reports: sizes are not negative, and the candidates come from the snapshot. *)
Definition report_ok (cfg : Config) (p : prepared) : Prop :=
  match p with
  | Forward _ candidates _ bytes => 0 <= bytes ∧ ∃ message b, candidates = matchingScriptRulesWithStatus cfg (&"response") message b
  | Refused _ _ bytes => 0 <= bytes
  | _ => True
  end.

Lemma streamed_report r cfg message retained bytes : 0 <= bytes → report_ok cfg (forwarded (streamingModuleRequest r cfg message) retained bytes).
Proof. intros H. unfold streamingModuleRequest. destruct (request_url _); [|done]. split; [done|]. by eexists _, _. Qed.

Lemma buffered_report r cfg message had retained bytes : 0 <= bytes → report_ok cfg (forwarded (bufferedModuleRequest r cfg message had) retained bytes).
Proof. intros H. unfold bufferedModuleRequest. destruct (request_url _); [|done]. split; [done|]. by eexists _, _. Qed.

Lemma prepared_report run r cfg probe rs : report_ok cfg (prepareModuleRequestWithRules run r cfg probe rs).
Proof.
  unfold prepareModuleRequestWithRules. destruct (_ <? _); [done|]. cbv zeta. destruct (requestCanStreamWithoutModuleBuffer _ _); [by apply streamed_report|].
  set (conditional := requestCanConditionallyStreamWithModuleActions r rs).
  destruct (if conditional then _ else _) as [body|]; [|done]. assert (0 <= if conditional then 0 else len body) as Hb by (destruct conditional; lia).
  destruct (request_actions _ _ _ _ _); try done. destruct conditional; [|by apply buffered_report].
  unfold finish_conditional. destruct (rq_bodyChanged s); [destruct (drainModuleRequestBody r); [by apply buffered_report | done]|].
  destruct (rq_urlChanged s); [destruct (readDecodedModuleRequestBody _ _); [by apply buffered_report | done] | by apply streamed_report].
Qed.

(** The events are balanced: nothing is returned that is not held, nothing is kept, and no reservation exceeds 64 MiB. *)
Definition balanced (l : list budget_event) : Prop :=
  bracketed 0 l ∧ net l = 0 ∧ Forall (λ e, match e with Acq n => n <= maxModuleHTTPBody | Rel _ => True end) l.

Lemma settle_cases held reserved retained bytes : 0 <= bytes → 0 <= reserved →
  settle held reserved retained bytes = (None, if held then [Rel reserved] else [])
  ∨ ∃ n, held = true ∧ 0 <= n <= reserved ∧ settle held reserved retained bytes = (Some n, if n =? reserved then [] else [Rel (reserved - n)]).
Proof.
  intros Hb Hr. unfold settle. destruct held; [|by left]. destruct retained; cbn [negb andb]; [|by left]. right.
  destruct (Z.ltb_spec bytes reserved).
  - exists bytes. rewrite (proj2 (Z.eqb_neq bytes reserved)) by lia. repeat split; lia || done.
  - exists reserved. rewrite Z.eqb_refl. repeat split; lia || done.
Qed.

Ltac balance := unfold balanced, net; cbn; repeat constructor; cbn; lia.

(** The events around a leg of the response. *)
Lemma settled_balanced held reserved retained bytes leg : 0 <= bytes → 0 < reserved <= maxModuleHTTPBody →
  (leg = [] ∨ ∃ n, 0 < n <= maxModuleHTTPBody ∧ leg = [Acq n; Rel n]) →
  balanced ((if held : bool then [Acq reserved] else []) ++ (settle held reserved retained bytes).2 ++ leg
            ++ returned (settle held reserved retained bytes).1).
Proof.
  intros Hb Hr Hleg. destruct (settle_cases held reserved retained bytes Hb ltac:(lia)) as [->|(n & -> & Hn & ->)]; cbn [fst snd returned].
  - destruct held; destruct Hleg as [->|(k & Hk & ->)]; cbn [app]; balance.
  - destruct (Z.eqb_spec n reserved); destruct Hleg as [->|(k & Hk & ->)]; cbn [app]; balance.
Qed.

Lemma serve_response_leg cfg r outbound candidates room response : limits_ok candidates →
  (serve_response cfg r outbound candidates room response).2 = []
  ∨ ∃ n, 0 < n <= maxModuleHTTPBody ∧ (serve_response cfg r outbound candidates room response).2 = [Acq n; Rel n].
Proof.
  intros Hl. unfold serve_response. cbv zeta. destruct (responseRulesStreamable _); [by left|]. destruct (_ && _); [by left|]. cbn [snd].
  destruct (0 <? _); [|by left]. right. eexists. split; [|done]. apply response_reservation_range.
  intros m Hm. apply Hl. unfold responseRulesForStatus in Hm. by apply list_elem_of_In, filter_In in Hm as [Hm%list_elem_of_In _].
Qed.

(** C3 (safety): however an exchange ends, refused, answered by an action, aborted or completed, it
    returns to the body budget exactly what it reserved, never more than it holds at any point, and
    no reservation exceeds 64 MiB. *)
Theorem exchange_balanced current r rawHost room roomForResponse upstream :
  (∀ cfg, current = Some cfg → snapshot_limits cfg) →
  balanced (ex_events (ServeHTTP current r rawHost room roomForResponse upstream)).
Proof.
  intros Hl. unfold ServeHTTP. destruct current as [cfg|]; [|by balance]. specialize (Hl cfg eq_refl).
  destruct (negb _); [by balance|]. cbv zeta.
  set (rs := matchingScriptRulesWithStatus _ _ _ _). set (held := requestNeedsModuleBodyReservation r rs).
  pose proof (request_reservation_range (in_ContentLength r) rs (Hl _ _ _)) as Hres. set (reserved := moduleBodyReservation _ rs) in *.
  destruct (held && negb (room reserved)); [by balance|].
  pose proof (prepared_report (λ m rule message, execute cfg m rule message None) r cfg (moduleRequestProbe r (canonicalHost rawHost)) rs) as Hrep.
  destruct (prepareModuleRequestWithRules _ _ _ _ _) as [outbound candidates retained bytes|response| |reason retained bytes]; cbn [report_ok] in Hrep.
  - destruct Hrep as (Hb & message & b & ->).
    assert (∀ leg, (leg = [] ∨ ∃ n, 0 < n <= maxModuleHTTPBody ∧ leg = [Acq n; Rel n]) → ∀ reply : reply,
      balanced (ex_events (let '(holding, settled) := settle held reserved retained bytes in
                           mkExchange reply ((if held then [Acq reserved] else []) ++ settled ++ leg ++ returned holding) (Some (outbound, default 0 holding))))) as Hgo.
    { intros leg Hleg reply. pose proof (settled_balanced held reserved retained bytes leg Hb Hres Hleg) as Hs.
      by destruct (settle held reserved retained bytes). }
    destruct (upstream outbound) as [response|].
    + pose proof (serve_response_leg cfg r outbound _ roomForResponse response (Hl (&"response") message b)) as Hleg.
      destruct (serve_response _ _ _ _ _ _) as [reply leg]. cbn [snd] in Hleg. specialize (Hgo leg Hleg reply). by destruct (settle _ _ _ _).
    + specialize (Hgo [] ltac:(by left) (HttpError 502)). by destruct (settle _ _ _ _).
  - pose proof (settled_balanced held reserved false 0 [] ltac:(lia) Hres ltac:(by left)) as Hs. by destruct (settle held reserved false 0).
  - destruct held; balance.
  - pose proof (settled_balanced held reserved retained bytes [] Hrep Hres ltac:(by left)) as Hs. by destruct (settle held reserved retained bytes).
Qed.

(** A response that actions matched is relayed as the upstream sent it only when all of
    them edit headers alone, or when its content coding cannot be read; otherwise the client gets
    what every action made of it, or an error. *)
Theorem response_fails_closed cfg r outbound candidates room response status header body :
  (serve_response cfg r outbound candidates room response).1 = Relayed status header body →
  let rs := responseRulesForStatus candidates (up_Status response) in
  rs = [] ∨ Forall (λ m, is_some (sr_Headers (ma_Rule m)) = true) rs
  ∨ normalizedContentEncoding (up_Header response) = None
  ∨ ∃ encoding raw reason, normalizedContentEncoding (up_Header response) = Some encoding ∧ up_Body response = Some raw
      ∧ decodeContentBody raw (if bool_decide (encoding = []) && isGzip raw then &"gzip" else encoding) maxModuleHTTPBody = Err reason.
Proof.
  intros H rs. unfold serve_response in H. fold rs in H. cbv zeta in H. destruct (responseRulesStreamable rs) eqn:Es.
  { right. left. unfold responseRulesStreamable in Es. bools. apply Forall_forall. intros m Hm.
    match goal with Hf : forallb _ _ = true |- _ => rewrite forallb_forall in Hf; apply Hf end. by apply list_elem_of_In. }
  destruct (_ && _); [done|]. cbn [fst] in H. unfold transformModuleResponse in H. case_bool_decide as Er; [by left|]. right. right.
  destruct (normalizedContentEncoding (up_Header response)) as [encoding|]; [|by left]. right. cbv zeta in H.
  destruct (up_Body response) as [raw|] eqn:Eb; cbn [readBounded] in H; [|done].
  destruct (_ <? len raw); [done|]. destruct (decodeContentBody raw _ _) as [decoded|reason] eqn:Ed; [|by exists encoding, raw, reason].
  destruct (wireTrailers _); [|done]. destruct (response_actions _ _ _ _) as [[message|]|]; try done.
  unfold finish_response in H. by destruct (writeBufferedModuleResponse _ _ _ _ _).
Qed.

Lemma conditional_needs_payload r rs : in_hasBody r = false → requestCanConditionallyStreamWithModuleActions r rs = false.
Proof. intros H. unfold requestCanConditionallyStreamWithModuleActions, requestHasPayload. rewrite H. cbn. by rewrite orb_true_r. Qed.

(** The reservation is settled by the length of the body that was read, not of the one
    an action put in its place: a request without a body that an action gives one goes upstream
    with that body in memory and nothing reserved for it. *)
Theorem action_body_unreserved run r cfg probe m result reserved :
  in_hasBody r = false → in_ContentLength r <= maxModuleHTTPBody → in_Trailer r = ∅ →
  is_Some (request_url (sm_URL probe)) → (∀ message, run (ma_Module m) (ma_Rule m) message = Ok result) →
  re_Abort result = false → re_Synthetic result = false → re_ChangedURL result = false → re_ChangedBody result = true →
  re_Body result ≠ [] → validateModuleResultBody (ma_Rule m) result = Ok tt → 0 <= rule_limit m → 0 < reserved →
  ∃ outbound candidates, prepareModuleRequestWithRules run r cfg probe [m] = Forward outbound candidates true 0
    ∧ out_Body outbound = Buffered (re_Body result) ∧ settle true reserved true 0 = (Some 0, [Rel (reserved - 0)]).
Proof.
  intros Hbody Hlen Htr [u Hu] Hrun Ha Hs Hurl Hc Hne Hv Hlim Hr. unfold prepareModuleRequestWithRules.
  rewrite (proj2 (Z.ltb_ge _ _)) by done. cbv zeta.
  replace (requestCanStreamWithoutModuleBuffer r [m]) with false by reflexivity.
  rewrite conditional_needs_payload by done. unfold readDecodedModuleRequestBody. rewrite Hbody. cbn [negb].
  cbn [request_actions]. unfold request_action. cbn [rq_urlChanged rq_message]. unfold body_refused. cbn [sm_Body set_message_headers set_body].
  change (len (@nil Z)) with 0. rewrite (proj2 (Z.ltb_ge (rule_limit m) 0)) by done. rewrite andb_false_r, Hrun. unfold apply_request_result.
  rewrite Ha, Hv, Hs, Hurl, Hc. unfold bufferedModuleRequest.
  destruct (re_ChangedHeaders result); cbn [rq_message rq_retained sm_URL sm_Body set_body set_message_headers set_url]; rewrite Hu;
    (eexists _, _; split; [reflexivity|]); cbn [out_Body];
    (rewrite (proj2 (Z.eqb_neq (len (re_Body result)) 0)) by (destruct (re_Body result); [done | cbn; lia])); cbn [andb];
    (split; [done|]); unfold settle; cbn; by rewrite (proj2 (Z.ltb_lt 0 reserved)).
Qed.

(** An HTTP/3 request of undeclared length whose rules read no body is read up to 64 MiB, while the
    reservation is the widest limit of those rules. *)
Lemma undeclared_body_underreserved m : reads_body m = false → 0 < rule_limit m →
  moduleBodyReadLimit [m] = maxModuleHTTPBody ∧ moduleBodyReservation (-1) [m] = rule_limit m.
Proof.
  intros Hm Hl. unfold moduleBodyReservation, moduleBodyReadLimit, widest_limit. cbn [fold_left]. rewrite Hm. cbn.
  rewrite (proj2 (Z.ltb_lt 0 (rule_limit m))) by done. by rewrite (proj2 (Z.eqb_neq (rule_limit m) 0)) by lia.
Qed.
End facts.

(** ** The theorems at concrete inputs *)
Section witnesses.
#[local] Instance ascii_case : UnicodeCase := {| unicode_ToLower r := r; unicode_ToUpper r := r |}.
#[local] Instance some_engines : Engines :=
  {| regexp_Compile _ := true; regexp_MatchString _ _ := true; goja_Compile _ _ := Some []; gojq_Compile _ := true; render_value _ := [] |}.
#[local] Instance ascii_words : UnicodeWords := {| unicode_IsWord _ := false |}.
#[local] Instance no_regexps : Regexps := {| regexp_find _ _ _ := None; regexp_names _ := [] |}.
#[local] Instance key_order : MapOrder := {| range := map_to_list; range_perm m := Permutation_refl (map_to_list m) |}.
#[local] Instance no_urls : TextParsers := {| url_Parse _ := None; time_Parse_RFC3339 _ := true |}.
#[local] Instance one_host : Web :=
  {| request_url _ := Some (mkURL (&"https") (&"a.example") (&"/") []); url_String _ := []; decompress _ _ := None |}.
(** A script that answers every request of its extension with the body [42]. *)
#[local] Instance body_programs : Programs :=
  {| run_program _ _ _ _ _ := Ok (mkResult [] ∅ ∅ [42] 0 false false false true false false false) |}.

Definition demo_rule (phase mode : bytes) : ScriptRule :=
  mkScriptRule (&"r") phase (mkActionMatch [&"a.example"] [&"https"] [] (&"^/") []) None [] [] (&"x") mode [] [] false None None None None 100 1024 None None ∅.
Definition demo_module : Module_ :=
  mkModule (&"m") [] [] [] true [] (mkModuleSource [] [] []) [&"a.example"] [] [] [] [] [demo_rule (&"request") (&"none"); demo_rule (&"response") (&"text")] false false false [].
Definition demo_config : Config :=
  mkConfig 6 (Some [&"m"]) [] [] [] [] [] (mkProxyConfig [] [] []) (mkMITMSettings true true true) [demo_module] None 0.

Definition get_request : incoming := mkIncoming (&"GET") 0 false [] ∅ ∅ 1 true (&"/") None.
Definition plain_response : upstreamResponse := mkUpstream 200 1 ∅ ∅ 2 (Some [1; 2]).
Definition demo_match : matchedScriptRule := mkMatched demo_module (demo_rule (&"request") (&"none")).

Lemma demo_limits : snapshot_limits demo_config.
Proof.
  intros phase message b m Hm. unfold matchingScriptRulesWithStatus, matchingScriptRulesParsed in Hm. cbn [request_url one_host] in Hm.
  destruct (match cfg_runtime demo_config with Some r => Ok r | None => _ end) as [compiled|e] eqn:Ec; [|by apply elem_of_nil in Hm].
  assert (Forall (λ cm, Forall (λ c, sr_MaxBodyBytes (cr_rule c) = 1024) (cm_rules cm)) (cc_modules compiled)) as Hall.
  { revert Ec. vm_compute. intros [= <-]. repeat constructor. }
  apply list_elem_of_In, in_concat in Hm as (l & (cm & <- & Hcm)%in_map_iff & Hm).
  destruct (negb _); [done|]. apply in_map_iff in Hm as (c & <- & [Hc _]%filter_In).
  rewrite Forall_forall in Hall. specialize (Hall cm (proj2 (list_elem_of_In _ _) Hcm)). rewrite Forall_forall in Hall.
  specialize (Hall c (proj2 (list_elem_of_In _ _) Hc)). unfold rule_limit. cbn. rewrite Hall. unfold maxModuleHTTPBody. lia.
Qed.

Definition demo_exchange : exchange :=
  ServeHTTP (Some demo_config) get_request (&"a.example") (λ _, true) (λ _, true) (λ _, Some plain_response).

Lemma exchange_balanced_witness :
  ex_events demo_exchange = [Acq 1024; Rel 1024; Acq 1024; Rel 1024; Rel 0] ∧ balanced (ex_events demo_exchange).
Proof.
  split; [vm_compute; reflexivity|].
  apply (exchange_balanced (Some demo_config) get_request (&"a.example") (λ _, true) (λ _, true) (λ _, Some plain_response)).
  intros cfg [= <-]. exact demo_limits.
Defined.

Definition odd_coding : upstreamResponse := mkUpstream 200 1 {[ &"Content-Encoding" := [&"zstd"] ]} ∅ 2 (Some [1; 2]).
Definition demo_outbound : outboundRequest := mkOutbound (&"https://a.example/") (&"GET") 1 ∅ ∅ NoBody 0.
Definition response_match : matchedScriptRule := mkMatched demo_module (demo_rule (&"response") (&"text")).

Lemma response_fails_closed_witness :
  ∃ status header body,
    (serve_response demo_config get_request demo_outbound [response_match] (λ _, true) odd_coding).1 = Relayed status header body
    ∧ ∃ encoding raw reason, normalizedContentEncoding (up_Header odd_coding) = Some encoding ∧ up_Body odd_coding = Some raw
      ∧ decodeContentBody raw (if bool_decide (encoding = []) && isGzip raw then &"gzip" else encoding) maxModuleHTTPBody = Err reason.
Proof.
  destruct (serve_response demo_config get_request demo_outbound [response_match] (λ _, true) odd_coding).1 as [?|?|status header body|?|] eqn:E;
    try (vm_compute in E; discriminate E).
  exists status, header, body. split; [done|].
  destruct (response_fails_closed _ _ _ _ _ _ _ _ _ E) as [H|[H|[H|H]]]; [| | |exact H].
  - vm_compute in H. discriminate H.
  - exfalso. vm_compute in H. inversion H. discriminate.
  - vm_compute in H. discriminate H.
Defined.

Lemma action_body_unreserved_witness :
  ∃ outbound candidates,
    prepareModuleRequestWithRules (λ m rule message, execute demo_config m rule message None) get_request demo_config
      (moduleRequestProbe get_request (&"a.example")) [demo_match] = Forward outbound candidates true 0
    ∧ out_Body outbound = Buffered [42].
Proof.
  destruct (action_body_unreserved (λ m rule message, execute demo_config m rule message None) get_request demo_config
              (moduleRequestProbe get_request (&"a.example")) demo_match (mkResult [] ∅ ∅ [42] 0 false false false true false false false) 1024)
    as (outbound & candidates & H1 & H2 & _); try reflexivity; try discriminate.
  - by eexists.
  - by exists outbound, candidates.
Defined.

Lemma forwarded_url_authorized_witness :
  ∃ outbound candidates retained bytes,
    prepareModuleRequestWithRules (λ m rule message, execute demo_config m rule message None) get_request demo_config
      (moduleRequestProbe get_request (&"a.example")) [demo_match] = Forward outbound candidates retained bytes
    ∧ authorized_url demo_config [demo_match] (&"https://a.example/") (out_URL outbound).
Proof.
  destruct (prepareModuleRequestWithRules (λ m rule message, execute demo_config m rule message None) get_request demo_config
              (moduleRequestProbe get_request (&"a.example")) [demo_match]) as [outbound candidates retained bytes| | |] eqn:E;
    try (vm_compute in E; discriminate E).
  exists outbound, candidates, retained, bytes. split; [done|].
  exact (forwarded_url_authorized _ _ _ _ _ _ _ _ _ E).
Defined.

Definition coded_request : incoming :=
  mkIncoming (&"GET") 0 false [] (<[&"Content-Encoding" := [&"identity"]]> (<[&"Accept-Encoding" := [&"br"]]> request_headers)) ∅ 1 true (&"/") None.

Lemma coded_canonical : canonical (in_Header coded_request).
Proof.
  intros k v H. unfold coded_request in H. cbn [in_Header] in H. rewrite !lookup_insert_Some in H.
  destruct H as [[<- _]|[_ [[<- _]|[_ H]]]]; [by vm_compute..|]. by eapply request_headers_canonical.
Qed.

Lemma unedited (result : scriptResult) :
  Ok (E := string) no_result = Ok result → re_ChangedHeaders result = true → canonical (re_Headers result).
Proof. by intros [= <-]. Qed.

Lemma forwarded_headers_exact_witness :
  ∃ outbound candidates retained bytes,
    prepareModuleRequestWithRules (λ _ _ _, Ok no_result) coded_request demo_config (moduleRequestProbe coded_request (&"a.example")) [demo_match]
      = Forward outbound candidates retained bytes
    ∧ map (λ k, out_Header outbound !! k) [&"Accept-Encoding"; &"Te"; &"X-Token"; &"Accept"; &"Content-Encoding"]
      = [Some [&"identity"]; Some [&"trailers"]; None; Some [&"a"; &"b"]; None].
Proof.
  destruct (prepareModuleRequestWithRules (λ _ _ _, Ok no_result) coded_request demo_config
              (moduleRequestProbe coded_request (&"a.example")) [demo_match]) as [outbound candidates retained bytes| | |] eqn:E;
    try (vm_compute in E; discriminate E).
  exists outbound, candidates, retained, bytes. split; [done|].
  destruct (forwarded_headers_exact _ _ _ _ _ _ _ _ _ coded_canonical (λ m message result _, unedited result) E) as (h & [->|Hh] & Hout).
  - cbn [map]. rewrite !Hout. vm_compute in E. injection E as <- _ _ _. vm_compute. reflexivity.
  - exfalso. destruct Hh as (m & message & result & _ & Er & Ec & _). revert Er. intros [= <-]. discriminate Ec.
Defined.

Lemma action_body_bounded_witness :
  transformModuleResponse (λ m rule q message, execute demo_config m rule q (Some message)) demo_outbound plain_response [response_match]
  = transformModuleResponse (λ m rule q message, if 1024 <? len (sm_Body message) then Err "never"%string else execute demo_config m rule q (Some message))
      demo_outbound plain_response [response_match].
Proof.
  assert (∀ cap, transformModuleResponse (λ m rule q message, execute demo_config m rule q (Some message)) demo_outbound plain_response [response_match]
    = transformModuleResponse (λ m rule q message, if negb (bool_decide (sr_BodyMode rule = &"none")) && (sr_MaxBodyBytes rule <? len (sm_Body message))
        then cap else execute demo_config m rule q (Some message)) demo_outbound plain_response [response_match]) as H.
  { intros cap. refine (proj2 (action_body_bounded (λ m rule message, execute demo_config m rule message None)
        (λ m rule message, execute demo_config m rule message None) _ _ get_request demo_config
        (moduleRequestProbe get_request (&"a.example")) [response_match] demo_outbound plain_response _ _)); [done|].
    intros m q message Hw. unfold within_limit, reads_body, rule_mode, rule_limit in Hw.
    destruct (negb _); [|done]. cbn [andb]. rewrite (proj2 (Z.ltb_ge _ _)); [done | by apply Hw]. }
  rewrite (H (Err "never"%string)). vm_compute. reflexivity.
Defined.
End witnesses.
