(* ===== verification/TransportPool.v ===== *)
(** * The upstream transport pool ([proxy.go])

    A transport generation is shared between the proxy and the requests that
    hold a reference, so generations live in a store under the identity of
    their allocation.  What runs under [transportMu] is one step; closing a
    generation happens after the lock is dropped and is a step of its own. *)
From S2P Require Import Prelude GoStrings GoBinary ConfigTypes HostPatterns ScriptConfig TransportProjection.

Record upstreamTransportGeneration := mkGeneration {
  tg_generation : Z;
  tg_projection : upstreamTransportProjection;
  tg_refs : Z;
  tg_retired : bool;
  tg_closed : bool;
}.

Record pool := mkPool {
  po_store : gmap nat upstreamTransportGeneration;
  (** [interceptProxy.upstream]. *)
  po_upstream : option nat;
  (** Generations whose [close] has been decided under the lock and not yet run. *)
  po_closing : list nat;
  po_next : nat;
}.

Definition empty_pool : pool := mkPool ∅ None [] O.

Definition set_refs (refs : Z) (g : upstreamTransportGeneration) : upstreamTransportGeneration :=
  mkGeneration (tg_generation g) (tg_projection g) refs (tg_retired g) (tg_closed g).
Definition set_retired (g : upstreamTransportGeneration) : upstreamTransportGeneration :=
  mkGeneration (tg_generation g) (tg_projection g) (tg_refs g) true (tg_closed g).
Definition set_closed (g : upstreamTransportGeneration) : upstreamTransportGeneration :=
  mkGeneration (tg_generation g) (tg_projection g) (tg_refs g) (tg_retired g) true.
Definition renumber (n : Z) (g : upstreamTransportGeneration) : upstreamTransportGeneration :=
  mkGeneration n (tg_projection g) (tg_refs g) (tg_retired g) (tg_closed g).

Section pool.
Context {U : UnicodeCase}.

Definition newUpstreamTransportGeneration (cfg : Config) : upstreamTransportGeneration :=
  let projection := newUpstreamTransportProjection cfg in
  mkGeneration (up_generation projection) projection 0 false false.

(** A generation of its own for one request: it is retired from the start and never published. *)
Definition private_generation (cfg : Config) (p : pool) : nat * pool :=
  (po_next p, mkPool (<[po_next p := set_refs 1 (set_retired (newUpstreamTransportGeneration cfg))]> (po_store p))
                (po_upstream p) (po_closing p) (S (po_next p))).

Definition retire (id : nat) (p : pool) : pool :=
  match po_store p !! id with
  | None => p
  | Some g => mkPool (<[id := set_retired g]> (po_store p)) (po_upstream p)
                (if tg_refs g =? 0 then id :: po_closing p else po_closing p) (po_next p)
  end.

(** A new generation in place of the published one, which is retired. *)
Definition replace_generation (cfg : Config) (p : pool) : nat * pool :=
  let p := match po_upstream p with Some previous => retire previous p | None => p end in
  (po_next p, mkPool (<[po_next p := set_refs 1 (newUpstreamTransportGeneration cfg)]> (po_store p))
                (Some (po_next p)) (po_closing p) (S (po_next p))).

Definition acquireUpstreamTransportGeneration (cfg : Config) (p : pool) : nat * pool :=
  if cfg_generation cfg =? 0 then private_generation cfg p
  else
    match po_upstream p with
    | None => replace_generation cfg p
    | Some id =>
        match po_store p !! id with
        | None => replace_generation cfg p
        | Some g =>
            if tg_generation g <? cfg_generation cfg then
              if bool_decide (up_fingerprint (newUpstreamTransportProjection cfg) = up_fingerprint (tg_projection g))
              then (id, mkPool (<[id := set_refs (tg_refs g + 1) (renumber (cfg_generation cfg) g)]> (po_store p))
                          (po_upstream p) (po_closing p) (po_next p))
              else replace_generation cfg p
            else if cfg_generation cfg <? tg_generation g then private_generation cfg p
            else (id, mkPool (<[id := set_refs (tg_refs g + 1) g]> (po_store p)) (po_upstream p) (po_closing p) (po_next p))
        end
    end.

(** The cleanup a request runs once. *)
Definition releaseUpstreamTransportGeneration (id : nat) (p : pool) : pool :=
  match po_store p !! id with
  | None => p
  | Some g =>
      let refs := if 0 <? tg_refs g then tg_refs g - 1 else tg_refs g in
      mkPool (<[id := set_refs refs g]> (po_store p)) (po_upstream p)
        (if tg_retired g && (refs =? 0) then id :: po_closing p else po_closing p) (po_next p)
  end.

Definition closeUpstreamTransports (p : pool) : pool :=
  match po_upstream p with
  | None => p
  | Some id => let p := retire id p in mkPool (po_store p) None (po_closing p) (po_next p)
  end.

Definition close_generation (id : nat) (p : pool) : pool :=
  mkPool (alter set_closed id (po_store p)) (po_upstream p) (po_closing p) (po_next p).

(** [getHTTPTransport] and [getHTTP3Transport] refuse a closed generation. *)
Definition usable (id : nat) (p : pool) : bool :=
  match po_store p !! id with Some g => negb (tg_closed g) | None => false end.

(** ** Requests over the pool *)

(** [holders] maps a request in flight to its generation. *)
Record pool_state := mkPoolState { ps_pool : pool; ps_holders : gmap nat nat }.

Inductive pool_step : pool_state → pool_state → Prop :=
| step_acquire request cfg p holders :
    holders !! request = None →
    pool_step (mkPoolState p holders)
      (mkPoolState (acquireUpstreamTransportGeneration cfg p).2 (<[request := (acquireUpstreamTransportGeneration cfg p).1]> holders))
| step_release request id p holders :
    holders !! request = Some id →
    pool_step (mkPoolState p holders) (mkPoolState (releaseUpstreamTransportGeneration id p) (delete request holders))
| step_shutdown p holders : pool_step (mkPoolState p holders) (mkPoolState (closeUpstreamTransports p) holders)
| step_close id before after store upstream next holders :
    pool_step (mkPoolState (mkPool store upstream (before ++ id :: after) next) holders)
      (mkPoolState (close_generation id (mkPool store upstream (before ++ after) next)) holders).

(** ** The invariant *)
Definition holding (holders : gmap nat nat) (id : nat) : Z := Z.of_nat (size (filter (λ kv, kv.2 = id) holders)).

(** What a generation is, given who holds it: the published one is neither retired nor closed nor
    about to be; any other is retired, and closed or about to be exactly when nobody holds it. *)
Definition generation_ok (p : pool) (holders : gmap nat nat) (id : nat) (g : upstreamTransportGeneration) : Prop :=
  tg_refs g = holding holders id
  ∧ (if bool_decide (po_upstream p = Some id) then tg_retired g = false ∧ tg_closed g = false ∧ id ∉ po_closing p
     else tg_retired g = true
          ∧ (tg_refs g = 0 → tg_closed g = true ∨ id ∈ po_closing p)
          ∧ (tg_refs g ≠ 0 → tg_closed g = false ∧ id ∉ po_closing p)).

Definition pool_inv (s : pool_state) : Prop :=
  let p := ps_pool s in
  (∀ id g, po_store p !! id = Some g → (id < po_next p)%nat ∧ generation_ok p (ps_holders s) id g)
  ∧ (∀ id, po_upstream p = Some id → is_Some (po_store p !! id))
  ∧ (∀ request id, ps_holders s !! request = Some id → is_Some (po_store p !! id))
  ∧ (∀ id, id ∈ po_closing p → is_Some (po_store p !! id)).

Lemma holding_insert holders request id j : holders !! request = None →
  holding (<[request := id]> holders) j = holding holders j + (if (j =? id)%nat then 1 else 0).
Proof.
  intros Hn. unfold holding. destruct (Nat.eqb_spec j id) as [->|Hj].
  - rewrite map_filter_insert_True by done. rewrite map_size_insert_None; [lia|]. apply map_lookup_filter_None. by left.
  - rewrite map_filter_insert_False by (cbn; congruence). rewrite delete_id by done. lia.
Qed.

Lemma holding_delete holders request id j : holders !! request = Some id →
  holding (delete request holders) j = holding holders j - (if (j =? id)%nat then 1 else 0).
Proof.
  intros Hs. assert (delete request holders !! request = None) as Hn by apply lookup_delete_eq.
  pose proof (holding_insert (delete request holders) request id j Hn) as E. rewrite insert_delete_id in E by done. lia.
Qed.

Lemma holding_pos holders request id : holders !! request = Some id → 0 < holding holders id.
Proof.
  intros Hs. pose proof (holding_delete holders request id id Hs) as E. rewrite Nat.eqb_refl in E.
  assert (0 <= holding (delete request holders) id) by (unfold holding; lia). lia.
Qed.

Lemma map_empty_filter_all (Q : nat * nat → Prop) `{!∀ x, Decision (Q x)} (m : gmap nat nat) :
  (∀ i j, m !! i = Some j → ¬ Q (i, j)) → filter Q m = ∅.
Proof. intros Hm. apply map_empty. intros i. apply map_lookup_filter_None. right. intros j Hj. by apply Hm. Qed.

Lemma holding_none holders id : (∀ request, holders !! request ≠ Some id) → holding holders id = 0.
Proof.
  intros Hm. unfold holding. rewrite map_empty_filter_all; [done|]. intros request j Hj E. cbn in E. subst. by apply (Hm request).
Qed.

(** *** Every step keeps it *)

(** The invariant, for a change that leaves the other generations as they are. *)
Lemma generation_ok_same p p' holders holders' id g :
  generation_ok p holders id g → holding holders' id = holding holders id →
  (po_upstream p' = Some id ↔ po_upstream p = Some id) → (id ∈ po_closing p' ↔ id ∈ po_closing p) → generation_ok p' holders' id g.
Proof.
  unfold generation_ok. intros [Hr Hb] Eh Eu Ec. split; [congruence|].
  rewrite (bool_decide_ext _ _ Eu). destruct (bool_decide _); by rewrite Ec.
Qed.

Lemma fresh_unheld s : pool_inv s → holding (ps_holders s) (po_next (ps_pool s)) = 0.
Proof.
  intros (Hs & _ & Hh & _). apply holding_none. intros request E. destruct (Hh _ _ E) as [g Hg].
  destruct (Hs _ _ Hg) as [? _]. lia.
Qed.

Lemma private_inv cfg p holders request : pool_inv (mkPoolState p holders) → holders !! request = None →
  pool_inv (mkPoolState (private_generation cfg p).2 (<[request := (private_generation cfg p).1]> holders)).
Proof.
  intros Hi Hn. pose proof (fresh_unheld _ Hi) as Hz. destruct Hi as (Hs & Hu & Hh & Hc). cbn [ps_pool ps_holders] in *.
  unfold private_generation. cbn [fst snd]. unfold pool_inv. cbn [ps_pool ps_holders po_store po_upstream po_closing po_next].
  assert (∀ id, id ∈ po_closing p → id ≠ po_next p) as Hcl.
  { intros id Hid ->. destruct (Hc _ Hid) as [g Hg]. destruct (Hs _ _ Hg). lia. }
  assert (po_upstream p ≠ Some (po_next p)) as Hun.
  { intros E. destruct (Hu _ E) as [g Hg]. destruct (Hs _ _ Hg). lia. }
  split; [|split; [|split]].
  - intros id g [[<- <-]|[Hne Hg]]%lookup_insert_Some.
    + split; [lia|]. unfold generation_ok. cbn. rewrite holding_insert, Nat.eqb_refl, Hz by done. split; [done|].
      rewrite bool_decide_false by done. split; [done|]. split; [lia|]. intros _. split; [done|]. intros Hin. by apply (Hcl _ Hin).
    + destruct (Hs _ _ Hg) as [Hlt Hok]. split; [lia|]. eapply generation_ok_same; [exact Hok | | done | done].
      rewrite holding_insert by done. rewrite (proj2 (Nat.eqb_neq id (po_next p))) by congruence. lia.
  - intros id E. apply lookup_insert_is_Some'. right. by apply Hu.
  - intros q id [[<- <-]|[_ Hq]]%lookup_insert_Some; apply lookup_insert_is_Some'; [by left | right; by eapply Hh].
  - intros id Hid. apply lookup_insert_is_Some'. right. by apply Hc.
Qed.

(** The published generation retires, and no longer is the published one. *)
Definition unpublish (p : pool) : pool :=
  match po_upstream p with
  | None => p
  | Some id => let p := retire id p in mkPool (po_store p) None (po_closing p) (po_next p)
  end.

Lemma unpublish_inv p holders : pool_inv (mkPoolState p holders) → pool_inv (mkPoolState (unpublish p) holders).
Proof.
  intros Hi. pose proof Hi as (Hs & Hu & Hh & Hc). cbn [ps_pool ps_holders] in Hs, Hu, Hh, Hc. unfold unpublish. destruct (po_upstream p) as [id|] eqn:Eu.
  2: exact Hi.
  destruct (Hu id eq_refl) as [g Hg]. unfold retire. rewrite Hg. destruct (Hs id g Hg) as (Hlt & Hr & Hok).
  rewrite bool_decide_true in Hok by done. destruct Hok as (Hret & Hcl & Hnc).
  unfold pool_inv. cbn [ps_pool ps_holders po_store po_upstream po_closing po_next]. split; [|split; [done|split]].
  - intros j h [[<- <-]|[Hne Hj]]%lookup_insert_Some.
    + split; [done|]. unfold generation_ok. cbn. split; [done|]. split; [done|]. destruct (Z.eqb_spec (tg_refs g) 0) as [E|E].
      * split; [intros _; right; left | done].
      * split; [done|]. by split.
    + destruct (Hs j h Hj) as [? Hok]. split; [done|]. eapply generation_ok_same; [exact Hok | done | |]; cbn.
      * rewrite Eu. split; [done | congruence].
      * destruct (tg_refs g =? 0); [|done]. rewrite elem_of_cons. split; [by intros [?|?] | by right].
  - intros q j Hq. apply lookup_insert_is_Some'. right. by eapply Hh.
  - intros j Hj. apply lookup_insert_is_Some'. right. destruct (tg_refs g =? 0); [|by apply Hc].
    apply elem_of_cons in Hj as [->|?]; [by exists g | by apply Hc].
Qed.

(** A new generation is published where there was none. *)
Lemma publish_inv cfg p holders request : pool_inv (mkPoolState p holders) → holders !! request = None → po_upstream p = None →
  pool_inv (mkPoolState (mkPool (<[po_next p := set_refs 1 (newUpstreamTransportGeneration cfg)]> (po_store p)) (Some (po_next p)) (po_closing p) (S (po_next p)))
              (<[request := po_next p]> holders)).
Proof.
  intros Hi Hn Eu. pose proof (fresh_unheld _ Hi) as Hz. destruct Hi as (Hs & Hu & Hh & Hc). cbn [ps_pool ps_holders] in *.
  unfold pool_inv. cbn [ps_pool ps_holders po_store po_upstream po_closing po_next].
  assert (∀ id, id ∈ po_closing p → id ≠ po_next p) as Hcl.
  { intros id Hid ->. destruct (Hc _ Hid) as [g Hg]. destruct (Hs _ _ Hg). lia. }
  split; [|split; [|split]].
  - intros id g [[<- <-]|[Hne Hg]]%lookup_insert_Some.
    + split; [lia|]. unfold generation_ok. cbn. rewrite holding_insert, Nat.eqb_refl, Hz by done. split; [done|].
      rewrite bool_decide_true by done. split; [done|]. split; [done|]. intros Hin. by apply (Hcl _ Hin).
    + destruct (Hs _ _ Hg) as [Hlt Hok]. split; [lia|]. eapply generation_ok_same; [exact Hok | | |done]; cbn.
      * rewrite holding_insert by done. rewrite (proj2 (Nat.eqb_neq id (po_next p))) by congruence. lia.
      * rewrite Eu. split; [intros [=]; congruence | done].
  - intros id [= <-]. apply lookup_insert_is_Some'. by left.
  - intros q id [[<- <-]|[_ Hq]]%lookup_insert_Some; apply lookup_insert_is_Some'; [by left | right; by eapply Hh].
  - intros id Hid. apply lookup_insert_is_Some'. right. by apply Hc.
Qed.

Lemma replace_unpublish cfg p : replace_generation cfg p =
  (po_next p, mkPool (<[po_next p := set_refs 1 (newUpstreamTransportGeneration cfg)]> (po_store (unpublish p)))
                (Some (po_next p)) (po_closing (unpublish p)) (S (po_next p))).
Proof.
  unfold replace_generation, unpublish. destruct (po_upstream p) as [id|]; [|done]. unfold retire. by destruct (po_store p !! id).
Qed.
Lemma unpublish_next p : po_next (unpublish p) = po_next p.
Proof. unfold unpublish, retire. destruct (po_upstream p) as [id|]; [|done]. by destruct (po_store p !! id). Qed.
Lemma unpublish_none p : po_upstream (unpublish p) = None.
Proof. unfold unpublish. by destruct (po_upstream p) as [id|] eqn:E. Qed.

Lemma replace_inv cfg p holders request : pool_inv (mkPoolState p holders) → holders !! request = None →
  pool_inv (mkPoolState (replace_generation cfg p).2 (<[request := (replace_generation cfg p).1]> holders)).
Proof.
  intros Hi Hn. rewrite replace_unpublish. cbn [fst snd]. rewrite <- (unpublish_next p).
  apply publish_inv; [by apply unpublish_inv | done | apply unpublish_none].
Qed.

(** One more holder of the published generation. *)
Lemma share_inv p holders request id g n : pool_inv (mkPoolState p holders) → holders !! request = None →
  po_upstream p = Some id → po_store p !! id = Some g →
  pool_inv (mkPoolState (mkPool (<[id := set_refs (tg_refs g + 1) (renumber n g)]> (po_store p)) (po_upstream p) (po_closing p) (po_next p))
              (<[request := id]> holders)).
Proof.
  intros (Hs & Hu & Hh & Hc) Hn Eu Hg. cbn [ps_pool ps_holders] in *. unfold pool_inv.
  cbn [ps_pool ps_holders po_store po_upstream po_closing po_next]. split; [|split; [|split]].
  - intros j h [[<- <-]|[Hne Hj]]%lookup_insert_Some.
    + destruct (Hs id g Hg) as (Hlt & Hr & Hok). split; [done|]. split; [cbn; rewrite holding_insert, Nat.eqb_refl by done; lia|].
      rewrite bool_decide_true in Hok by done. cbn [po_upstream]. by rewrite bool_decide_true.
    + destruct (Hs j h Hj) as [? Hok]. split; [done|]. eapply generation_ok_same; [exact Hok | | done | done].
      rewrite holding_insert by done. rewrite (proj2 (Nat.eqb_neq j id)) by congruence. lia.
  - intros j Ej. apply lookup_insert_is_Some'. right. by apply Hu.
  - intros q j [[<- <-]|[_ Hq]]%lookup_insert_Some; apply lookup_insert_is_Some'; [by left | right; by eapply Hh].
  - intros j Hj. apply lookup_insert_is_Some'. right. by apply Hc.
Qed.

Lemma renumber_self g : renumber (tg_generation g) g = g.
Proof. by destruct g. Qed.

Lemma acquire_inv cfg p holders request : pool_inv (mkPoolState p holders) → holders !! request = None →
  pool_inv (mkPoolState (acquireUpstreamTransportGeneration cfg p).2 (<[request := (acquireUpstreamTransportGeneration cfg p).1]> holders)).
Proof.
  intros Hi Hn. unfold acquireUpstreamTransportGeneration. destruct (cfg_generation cfg =? 0); [by apply private_inv|].
  destruct (po_upstream p) as [id|] eqn:Eu; [|by apply replace_inv].
  destruct (po_store p !! id) as [g|] eqn:Eg; [|by apply replace_inv].
  destruct (tg_generation g <? cfg_generation cfg).
  - case_bool_decide; [|by apply replace_inv]. cbn [fst snd]. rewrite <- Eu. by apply share_inv.
  - destruct (cfg_generation cfg <? tg_generation g); [by apply private_inv|]. cbn [fst snd]. rewrite <- Eu.
    rewrite <- (renumber_self g) at 2. by apply share_inv.
Qed.

Lemma release_inv p holders request id : pool_inv (mkPoolState p holders) → holders !! request = Some id →
  pool_inv (mkPoolState (releaseUpstreamTransportGeneration id p) (delete request holders)).
Proof.
  intros Hi Hq. pose proof (holding_pos _ _ _ Hq) as Hp. destruct Hi as (Hs & Hu & Hh & Hc). cbn [ps_pool ps_holders] in *.
  destruct (Hh _ _ Hq) as [g Hg]. unfold releaseUpstreamTransportGeneration. rewrite Hg. destruct (Hs id g Hg) as (Hlt & Hr & Hok).
  rewrite (proj2 (Z.ltb_lt 0 (tg_refs g))) by lia. cbv zeta. unfold pool_inv. cbn [ps_pool ps_holders po_store po_upstream po_closing po_next].
  split; [|split; [|split]].
  - intros j h [[<- <-]|[Hne Hj]]%lookup_insert_Some.
    + split; [done|]. unfold generation_ok. cbn. split; [rewrite (holding_delete _ _ _ _ Hq), Nat.eqb_refl; lia|].
      case_bool_decide.
      * destruct Hok as (Hret & Hok). rewrite Hret. cbn. by split.
      * destruct Hok as (Hret & _ & Hok). rewrite Hret. cbn. split; [done|]. destruct (Z.eqb_spec (tg_refs g - 1) 0); split; [|done|done|].
        -- intros _. right. left.
        -- intros _. apply Hok. lia.
    + destruct (Hs j h Hj) as [? Hokj]. split; [done|]. eapply generation_ok_same; [exact Hokj | | done |].
      * rewrite (holding_delete _ _ _ _ Hq), (proj2 (Nat.eqb_neq j id)) by congruence. lia.
      * cbn. destruct (tg_retired g && _); [|done]. rewrite elem_of_cons. split; [by intros [?|?] | by right].
  - intros j Ej. apply lookup_insert_is_Some'. right. by apply Hu.
  - intros q j [_ Hj]%lookup_delete_Some. apply lookup_insert_is_Some'. right. by eapply Hh.
  - intros j Hj. apply lookup_insert_is_Some'. right. destruct (tg_retired g && _); [|by apply Hc].
    apply elem_of_cons in Hj as [->|?]; [by exists g | by apply Hc].
Qed.

Lemma close_inv p holders id before after : pool_inv (mkPoolState p holders) → po_closing p = before ++ id :: after →
  pool_inv (mkPoolState (close_generation id (mkPool (po_store p) (po_upstream p) (before ++ after) (po_next p))) holders).
Proof.
  intros (Hs & Hu & Hh & Hc) El. cbn [ps_pool ps_holders] in *. unfold pool_inv, close_generation.
  cbn [ps_pool ps_holders po_store po_upstream po_closing po_next].
  assert (id ∈ po_closing p) as Hin by (rewrite El; set_solver).
  assert (∀ j, j ≠ id → (j ∈ before ++ after ↔ j ∈ po_closing p)) as Hsame by (intros j Hj; rewrite El; set_solver).
  split; [|split; [|split]].
  - intros j h [(<- & h' & Hj & ->)|[Hne Hj]]%lookup_alter_Some; [|destruct (Hs j h Hj) as (Hlt & Hok)]; [destruct (Hs id h' Hj) as (Hlt & Hr & Hok)|]; (split; [done|]).
    + split; [done|]. cbn [tg_retired tg_closed tg_refs po_upstream set_closed]. case_bool_decide; [by destruct Hok as (_ & _ & ?)|].
      destruct Hok as (? & _ & Hnz). split; [done|]. split; [by left|]. intros Hz. by destruct (Hnz Hz).
    + eapply generation_ok_same; [exact Hok | done | done |]. by apply Hsame.
  - intros j Ej. apply lookup_alter_is_Some. by apply Hu.
  - intros q j Hq. apply lookup_alter_is_Some. by eapply Hh.
  - intros j Hj. apply lookup_alter_is_Some. apply Hc. rewrite El. set_solver.
Qed.

Lemma pool_step_inv s s' : pool_inv s → pool_step s s' → pool_inv s'.
Proof.
  intros Hi Hst. destruct Hst as [request cfg p holders Hn | request id p holders Hq | p holders | id before after store upstream next holders].
  - by apply acquire_inv.
  - by eapply release_inv.
  - by apply unpublish_inv.
  - by apply (close_inv (mkPool store upstream (before ++ id :: after) next)).
Qed.

Definition pool_start : pool_state := mkPoolState empty_pool ∅.

Lemma pool_reachable_inv s : rtc pool_step pool_start s → pool_inv s.
Proof.
  intros Hr. assert (pool_inv pool_start) as H0 by (repeat split; intros *; cbn; rewrite ?lookup_empty, ?elem_of_nil; done).
  induction Hr; [done|]. by eauto using pool_step_inv.
Qed.

(** ** What the pool guarantees *)

(** C15 (safety): A request in flight holds a generation [getHTTPTransport] does not refuse, however requests,
    reloads, shutdown and the deferred closes interleave; a generation that is not the published one
    and that nobody holds is closed or its close is pending. *)
Theorem held_generations_open (s : pool_state) (Hr : rtc pool_step pool_start s) :
  (∀ request id, ps_holders s !! request = Some id → usable id (ps_pool s) = true)
  ∧ (∀ id g, po_store (ps_pool s) !! id = Some g → po_upstream (ps_pool s) ≠ Some id →
       (∀ request, ps_holders s !! request ≠ Some id) → tg_closed g = true ∨ id ∈ po_closing (ps_pool s)).
Proof.
  destruct (pool_reachable_inv _ Hr) as (Hs & _ & Hh & _). split.
  - intros request id Hq. destruct (Hh _ _ Hq) as [g Hg]. destruct (Hs _ _ Hg) as (_ & Hrefs & Hok). unfold usable. rewrite Hg.
    pose proof (holding_pos _ _ _ Hq). destruct (bool_decide _); [by destruct Hok as (_ & -> & _)|].
    destruct Hok as (_ & _ & Hok). destruct Hok as [-> _]; [lia | done].
  - intros id g Hg Hu Hn. destruct (Hs _ _ Hg) as (_ & Hrefs & Hok). rewrite bool_decide_false in Hok by done.
    destruct Hok as (_ & Hok & _). apply Hok. by rewrite Hrefs, (holding_none _ _ Hn).
Qed.

(** A request gets connections its own configuration allows: the generation it is given has the
    fingerprint of the request's configuration, or is the published one of the same number. *)
Theorem acquired_generation_matches (cfg : Config) (p : pool) :
  let r := acquireUpstreamTransportGeneration cfg p in
  ∃ g, po_store r.2 !! r.1 = Some g
  ∧ (up_fingerprint (tg_projection g) = up_fingerprint (newUpstreamTransportProjection cfg)
     ∨ po_upstream p = Some r.1 ∧ tg_generation g = cfg_generation cfg).
Proof.
  assert (∃ g, po_store (replace_generation cfg p).2 !! (replace_generation cfg p).1 = Some g ∧ up_fingerprint (tg_projection g) = up_fingerprint (newUpstreamTransportProjection cfg)) as (gr & Er & Fr).
  { eexists. split; [apply lookup_insert_eq | done]. }
  assert (∃ g, po_store (private_generation cfg p).2 !! (private_generation cfg p).1 = Some g ∧ up_fingerprint (tg_projection g) = up_fingerprint (newUpstreamTransportProjection cfg)) as (gp & Ep & Fp).
  { eexists. split; [apply lookup_insert_eq | done]. }
  cbv zeta. unfold acquireUpstreamTransportGeneration. destruct (cfg_generation cfg =? 0); [by eauto|].
  destruct (po_upstream p) as [id|] eqn:Eu; [|by eauto]. destruct (po_store p !! id) as [g|] eqn:Eg; [|by eauto].
  destruct (Z.ltb_spec (tg_generation g) (cfg_generation cfg)).
  - case_bool_decide as Ef; [|by eauto]. eexists. split; [apply lookup_insert_eq|]. left. by rewrite Ef.
  - destruct (Z.ltb_spec (cfg_generation cfg) (tg_generation g)); [by eauto|].
    eexists. split; [apply lookup_insert_eq|]. right. split; [done|]. cbn. lia.
Qed.
End pool.

(** ** A reload while a request is in flight *)
Section witness.
#[local] Instance pool_case : UnicodeCase := {| unicode_ToLower r := r; unicode_ToUpper r := r |}.

Definition pool_config (generation : Z) (address : bytes) : Config :=
  mkConfig 6 (Some []) [] [] [] [] [] (mkProxyConfig address [] []) (mkMITMSettings true true true) [] None generation.

(** The first request holds the generation of one proxy, the second that of another: the first
    generation is retired, not closed, and closes once its request returns it. *)
Definition reloaded : pool_state :=
  let p := (acquireUpstreamTransportGeneration (pool_config 1 (&"127.0.0.1:1")) empty_pool).2 in
  mkPoolState (acquireUpstreamTransportGeneration (pool_config 2 (&"127.0.0.1:2")) p).2 (<[2 := 1]> (<[1 := 0]> ∅))%nat.

Lemma held_generations_open_witness :
  (∀ request id, ps_holders reloaded !! request = Some id → usable id (ps_pool reloaded) = true)
  ∧ (∀ id g, po_store (ps_pool reloaded) !! id = Some g → po_upstream (ps_pool reloaded) ≠ Some id →
       (∀ request, ps_holders reloaded !! request ≠ Some id) → tg_closed g = true ∨ id ∈ po_closing (ps_pool reloaded)).
Proof.
  apply (held_generations_open reloaded). eapply rtc_l; [|apply rtc_once].
  - apply (step_acquire 1 (pool_config 1 (&"127.0.0.1:1")) empty_pool ∅). reflexivity.
  - assert ((acquireUpstreamTransportGeneration (pool_config 2 (&"127.0.0.1:2"))
               (acquireUpstreamTransportGeneration (pool_config 1 (&"127.0.0.1:1")) empty_pool).2).1 = 1%nat) as E by (vm_compute; reflexivity).
    pose proof (step_acquire 2 (pool_config 2 (&"127.0.0.1:2"))
                  (acquireUpstreamTransportGeneration (pool_config 1 (&"127.0.0.1:1")) empty_pool).2 (<[1 := 0]> ∅)%nat eq_refl) as Hst.
    rewrite E in Hst. exact Hst.
Defined.

Example first_generation_retired :
  (λ g, (tg_retired g, tg_closed g, tg_refs g)) <$> po_store (ps_pool reloaded) !! 0%nat = Some (true, false, 1)
  ∧ po_closing (releaseUpstreamTransportGeneration 0 (ps_pool reloaded)) = [0%nat].
Proof. vm_compute. done. Qed.
End witness.
