(* ===== verification/TransportContents.v ===== *)
(** * What a generation of transports holds ([proxy.go])

    The HTTP transport and the HTTP/3 transports of one generation, made when
    they are first asked for and handed over to be closed once.  Each method
    takes the generation's lock; what [close] does after it has let go of the
    lock, transport by transport, interleaves with everything else.  A nil map
    is [None]: reading it finds nothing, writing to it panics. *)
From stdpp Require Import gmap.
From S2P Require Import Prelude.

(** Transports by their numbers. *)
Record contents := mkContents {
  tc_closed : bool;
  tc_closeOnce : bool;
  tc_http : option nat;
  tc_http3 : option (gmap Z nat);
  tc_next : nat;
  (** Being closed, and closed. *)
  tc_closing : list nat;
  tc_done : list nat;
}.
Definition new_contents : contents := mkContents false false None (Some ∅) 0 [] [].

Inductive transport_answer := Transport (t : nat) | GenerationIsClosed | NilMapPanic.

Definition getHTTPTransport (c : contents) : transport_answer * contents :=
  if tc_closed c then (GenerationIsClosed, c)
  else match tc_http c with
       | Some t => (Transport t, c)
       | None => (Transport (tc_next c), mkContents (tc_closed c) (tc_closeOnce c) (Some (tc_next c)) (tc_http3 c) (S (tc_next c)) (tc_closing c) (tc_done c))
       end.

Definition getHTTP3Transport (version : Z) (c : contents) : transport_answer * contents :=
  if tc_closed c then (GenerationIsClosed, c)
  else match tc_http3 c ≫= (λ m, m !! version) with
       | Some t => (Transport t, c)
       | None =>
           match tc_http3 c with
           | None => (NilMapPanic, c)
           | Some m => (Transport (tc_next c), mkContents (tc_closed c) (tc_closeOnce c) (tc_http c) (Some (<[version := tc_next c]> m)) (S (tc_next c)) (tc_closing c) (tc_done c))
           end
       end.

Definition held3 (c : contents) : list nat := match tc_http3 c with Some m => (map_to_list m).*2 | None => [] end.
Definition tc_held (c : contents) : list nat := option_list (tc_http c) ++ held3 c.

(** [close], up to the unlock; the idle connections of the HTTP transport and the HTTP/3 transports follow. *)
Definition close_begin (c : contents) : contents :=
  if tc_closeOnce c then c else mkContents true true None None (tc_next c) (tc_closing c ++ tc_held c) (tc_done c).
Definition close_one (t : nat) (before after : list nat) (c : contents) : contents :=
  mkContents (tc_closed c) (tc_closeOnce c) (tc_http c) (tc_http3 c) (tc_next c) (before ++ after) (t :: tc_done c).

(** What [closeIdleConnections] and [closeIdleHTTP3Connections] recycle. *)
Definition closeIdleConnections (c : contents) : list nat := if tc_closed c then [] else option_list (tc_http c).
Definition closeIdleHTTP3Connections (c : contents) : list nat := if tc_closed c then [] else held3 c.

Inductive contents_step : contents → contents → Prop :=
| cs_http c : contents_step c (getHTTPTransport c).2
| cs_http3 version c : contents_step c (getHTTP3Transport version c).2
| cs_close c : contents_step c (close_begin c)
| cs_close_one t before after c : tc_closing c = before ++ t :: after → contents_step c (close_one t before after c).

(** ** The invariant *)
(** Every transport made is held, being closed or closed, and in one place only. *)
Record contents_inv (c : contents) : Prop := mkContentsInv {
  ci_once : tc_closed c = tc_closeOnce c;
  ci_closed : tc_closed c = true → tc_http c = None ∧ tc_http3 c = None;
  ci_map : tc_closed c = false → is_Some (tc_http3 c);
  ci_places : tc_held c ++ tc_closing c ++ tc_done c ≡ₚ seq 0 (tc_next c);
}.

Lemma seq_next n l : l ≡ₚ seq 0 n → n :: l ≡ₚ seq 0 (S n).
Proof. intros Hl. rewrite seq_S, Hl. cbn. apply Permutation_cons_append. Qed.

Lemma held3_insert version t m c : tc_http3 c = Some m → m !! version = None →
  (map_to_list (<[version := t]> m)).*2 ≡ₚ t :: held3 c.
Proof. intros Hm Hn. unfold held3. rewrite Hm, map_to_list_insert by done. done. Qed.

Lemma contents_step_inv c c' : contents_step c c' → contents_inv c → contents_inv c'.
Proof.
  intros Hs Hi. pose proof Hi as [H1 H2 H3 H4]. destruct Hs as [c|version c|c|t before after c Hc].
  - unfold getHTTPTransport. destruct (tc_closed c) eqn:Ec; [exact Hi|]. destruct (tc_http c) as [t|] eqn:Eh; [exact Hi|].
    split; cbn; [congruence | congruence | done|]. unfold tc_held, held3 in *. cbn. rewrite Eh in H4. cbn in H4. by apply seq_next.
  - unfold getHTTP3Transport. destruct (tc_closed c) eqn:Ec; [exact Hi|]. destruct (H3 eq_refl) as [m Hm]. rewrite Hm. cbn [mbind option_bind].
    destruct (m !! version) as [t|] eqn:Ev; [exact Hi|]. split; cbn; [congruence | congruence | by eexists|].
    rewrite <- (seq_next _ _ H4). unfold tc_held at 1, held3 at 1. cbn. rewrite (held3_insert version (tc_next c) m c Hm Ev). unfold tc_held.
    rewrite !app_assoc. rewrite <- Permutation_middle. done.
  - unfold close_begin. destruct (tc_closeOnce c) eqn:Eo; [exact Hi|]. split; cbn; [done | done | done|].
    rewrite <- H4. rewrite app_assoc. f_equiv. apply Permutation_app_comm.
  - split; cbn; [done | done | done|]. rewrite <- H4, Hc. unfold tc_held, held3. cbn. f_equiv. rewrite <- !app_assoc. cbn. f_equiv. symmetry. apply Permutation_middle.
Qed.

(** No transport leaks.  However requests ask for transports while the
    generation is closed: the transports made are, each of them once, held by
    the generation, being closed, or closed, so a generation whose close has
    run out has closed all of them; a closed one holds and makes none; nothing
    is ever written to the map that close has taken away; and while it is open a
    transport is made at most once for each protocol version. *)
Theorem transports_do_not_leak c : rtc contents_step new_contents c →
  tc_held c ++ tc_closing c ++ tc_done c ≡ₚ seq 0 (tc_next c)
  ∧ (∀ version, (getHTTP3Transport version c).1 ≠ NilMapPanic)
  ∧ (tc_closed c = true → tc_held c = [] ∧ (getHTTPTransport c).1 = GenerationIsClosed ∧ ∀ version, (getHTTP3Transport version c).1 = GenerationIsClosed)
  ∧ (tc_closed c = true → tc_closing c = [] → ∀ t, (t < tc_next c)%nat → t ∈ tc_done c)
  ∧ (tc_closed c = false → (getHTTPTransport (getHTTPTransport c).2).1 = (getHTTPTransport c).1
       ∧ ∀ version, (getHTTP3Transport version (getHTTP3Transport version c).2).1 = (getHTTP3Transport version c).1).
Proof.
  intros Hr. assert (contents_inv c) as [H1 H2 H3 H4].
  { assert (∀ a b, rtc contents_step a b → contents_inv a → contents_inv b) as Hall by (induction 1; eauto using contents_step_inv). apply (Hall _ _ Hr).
    by split. }
  split; [done|]. split; [|split; [|split]].
  - intros version. unfold getHTTP3Transport. destruct (tc_closed c) eqn:Ec; [done|]. destruct (H3 eq_refl) as [m Hm]. rewrite Hm. cbn. by destruct (m !! version).
  - intros Hc. destruct (H2 Hc) as [E1 E2]. unfold tc_held, held3, getHTTPTransport, getHTTP3Transport. by rewrite E1, E2, Hc.
  - intros Hc Hn t Ht. destruct (H2 Hc) as [E1 E2]. unfold tc_held, held3 in H4. rewrite E1, E2, Hn in H4. cbn in H4. rewrite H4. apply elem_of_seq. lia.
  - intros Hc. destruct (H3 Hc) as [m Hm]. split.
    + unfold getHTTPTransport. rewrite Hc. destruct (tc_http c) as [t|] eqn:Eh; cbn; by rewrite ?Hc, ?Eh.
    + intros version. unfold getHTTP3Transport. rewrite Hc, Hm. cbn [mbind option_bind]. destruct (m !! version) as [t|] eqn:Ev; cbn; rewrite ?Hc, ?Hm; cbn; rewrite ?Ev; [done|].
      by rewrite lookup_insert_eq.
Qed.

(** Two transports are made, and the generation closes one after the other. *)
Definition two_made : contents := (getHTTP3Transport 1 (getHTTPTransport new_contents).2).2.
Lemma transports_do_not_leak_witness :
  let c := close_one 0 [] [1%nat] (close_begin two_made) in
  tc_closing c = [1%nat] ∧ tc_held c ++ tc_closing c ++ tc_done c ≡ₚ seq 0 (tc_next c).
Proof.
  intros c. split; [vm_compute; reflexivity|]. apply (transports_do_not_leak c).
  eapply rtc_l; [apply cs_http|]. eapply rtc_l; [apply (cs_http3 1)|]. eapply rtc_l; [apply cs_close|]. apply rtc_once. apply cs_close_one. vm_compute. reflexivity.
Defined.
