(* ===== verification/ProxyServe.v ===== *)
(** * The accept loop and its end ([proxy.go], [Serve])

    The loop, the goroutine that closes the listener, and two goroutines for
    each connection: its session, and the one that closes the connection when
    the process stops.  A session is what [handleSOCKSConnection] does; here it
    runs, ends, and closes its connection.  The group the loop waits for is a
    counter, as [sync.WaitGroup] is. *)
From stdpp Require Import gmap relations.
From S2P Require Import Prelude.

(** What [Accept] may fail with. *)
Inductive accept_error := ListenerClosed | AcceptFailed.
#[export] Instance accept_error_eq_dec : EqDecision accept_error.
Proof. solve_decision. Defined.

(** A connection: its session runs; its connection is closed; its watcher is still there. *)
Record session := mkSession { ss_running : bool; ss_closed : bool; ss_watched : bool }.
Definition new_session : session := mkSession true false true.

Inductive serve_loop := Accepting | Waiting (result : option accept_error) | Returned (result : option accept_error).

Record serving := mkServing {
  sv_done : bool;            (** the context is done *)
  sv_listener : bool;        (** the listener is open *)
  sv_count : Z;              (** [connections] *)
  sv_sessions : gmap nat session;
  sv_next : nat;
  sv_loop : serve_loop;
  sv_transports : bool;      (** the transports are not closed yet *)
}.
Definition start_serving : serving := mkServing false true 0 ∅ 0 Accepting true.

(** What [Serve] makes of a failed [Accept]. *)
Definition serve_result (done : bool) (e : accept_error) : option accept_error :=
  if done || bool_decide (e = ListenerClosed) then None else Some e.

Definition with_sessions (count : Z) (m : gmap nat session) (s : serving) : serving :=
  mkServing (sv_done s) (sv_listener s) count m (sv_next s) (sv_loop s) (sv_transports s).
Definition with_loop (l : serve_loop) (transports : bool) (s : serving) : serving :=
  mkServing (sv_done s) (sv_listener s) (sv_count s) (sv_sessions s) (sv_next s) l transports.
Definition cancelled (s : serving) : serving :=
  mkServing true (sv_listener s) (sv_count s) (sv_sessions s) (sv_next s) (sv_loop s) (sv_transports s).
Definition listener_closed (s : serving) : serving :=
  mkServing (sv_done s) false (sv_count s) (sv_sessions s) (sv_next s) (sv_loop s) (sv_transports s).
Definition accepted (s : serving) : serving :=
  mkServing (sv_done s) (sv_listener s) (sv_count s + 1) (<[sv_next s := new_session]> (sv_sessions s)) (S (sv_next s)) (sv_loop s) (sv_transports s).

(** What the environment does: stop the process, connect, fail an accept, end a
    session; and what the goroutines of the process do by themselves. *)
Inductive serve_event := Outside | Inside.
Inductive serve_step : serve_event → serving → serving → Prop :=
| serve_cancel s : serve_step Outside s (cancelled s)
| serve_accept s : sv_loop s = Accepting → sv_listener s = true → serve_step Outside s (accepted s)
| serve_accept_fails s : sv_loop s = Accepting → serve_step Outside s (with_loop (Waiting (serve_result (sv_done s) AcceptFailed)) (sv_transports s) s)
| serve_session_ends id x s : sv_sessions s !! id = Some x → ss_running x = true →
    serve_step Outside s (with_sessions (sv_count s - 1) (<[id := mkSession false true (ss_watched x)]> (sv_sessions s)) s)
| serve_close_listener s : sv_done s = true → sv_listener s = true → serve_step Inside s (listener_closed s)
| serve_accept_closed s : sv_loop s = Accepting → sv_listener s = false →
    serve_step Inside s (with_loop (Waiting (serve_result (sv_done s) ListenerClosed)) (sv_transports s) s)
| serve_watch_closes id x s : sv_sessions s !! id = Some x → ss_watched x = true → sv_done s = true →
    serve_step Inside s (with_sessions (sv_count s) (<[id := mkSession (ss_running x) true false]> (sv_sessions s)) s)
| serve_watch_leaves id x s : sv_sessions s !! id = Some x → ss_watched x = true → ss_running x = false →
    serve_step Inside s (with_sessions (sv_count s) (<[id := mkSession false (ss_closed x) false]> (sv_sessions s)) s)
(** A session whose connection is closed under it ends. *)
| serve_session_cut id x s : sv_sessions s !! id = Some x → ss_running x = true → ss_closed x = true →
    serve_step Inside s (with_sessions (sv_count s - 1) (<[id := mkSession false true (ss_watched x)]> (sv_sessions s)) s)
| serve_returns r s : sv_loop s = Waiting r → sv_count s = 0 → serve_step Inside s (with_loop (Returned r) false s).

Definition any_step (s s' : serving) : Prop := ∃ ev, serve_step ev s s'.
Definition serve_reach : serving → Prop := rtc any_step start_serving.

(** [discardQUICAssociation]: what ended the association. *)
Inductive discard_end := ContextDone | ControlClosed | ReadFailed (closed : bool).
Definition discardQUICAssociation (e : discard_end) : option unit := match e with ReadFailed false => Some tt | _ => None end.

(** ** The invariant *)
Abbreviation counted f m := (size (filter (λ kv : nat * session, f kv.2 = true) m)).
Definition live (m : gmap nat session) : nat := counted ss_running m.

Record serve_inv (s : serving) : Prop := mkServeInv {
  si_count : sv_count s = Z.of_nat (live (sv_sessions s));
  si_fresh : ∀ id x, sv_sessions s !! id = Some x → (id < sv_next s)%nat;
  si_listener : sv_listener s = false → sv_done s = true;
  (** A connection is closed by its session at its end, or by its watcher, which has then left. *)
  si_closed : ∀ id x, sv_sessions s !! id = Some x → ss_running x = false → ss_closed x = true;
  si_watched : ∀ id x, sv_sessions s !! id = Some x → ss_running x = true → ss_watched x = false → ss_closed x = true ∧ sv_done s = true;
  si_result : ∀ r, sv_loop s = Waiting (Some r) ∨ sv_loop s = Returned (Some r) → r = AcceptFailed;
  si_returned : (sv_transports s = false ↔ ∃ r, sv_loop s = Returned r) ∧ (sv_transports s = false → sv_count s = 0);
}.

Lemma counted_same f (m : gmap nat session) id x y : m !! id = Some x → f x = f y → counted f (<[id := y]> m) = counted f m.
Proof.
  intros Hx Hr. destruct (f y) eqn:Ey.
  - rewrite map_filter_insert_True by done. rewrite map_size_insert_Some; [done|]. exists x. by apply map_lookup_filter_Some.
  - rewrite map_filter_insert_False by (cbn; by rewrite Ey). by rewrite map_filter_delete_not by (intros z Hz; rewrite Hz in Hx; injection Hx as ->; cbn; by rewrite Hr).
Qed.
Lemma counted_less f (m : gmap nat session) id x y : m !! id = Some x → f x = true → f y = false → counted f m = S (counted f (<[id := y]> m)).
Proof.
  intros Hx Hr Hy. rewrite map_filter_insert_False by (cbn; by rewrite Hy). rewrite map_filter_delete.
  assert (filter (λ kv : nat * session, f kv.2 = true) m !! id = Some x) as Hin by (by apply map_lookup_filter_Some).
  rewrite map_size_delete_Some by (by exists x). assert (counted f m ≠ 0%nat) as Hne by (intros Hz%map_size_empty_inv; by rewrite Hz in Hin).
  lia.
Qed.
Lemma live_pos m id x : m !! id = Some x → ss_running x = true → 0 < Z.of_nat (live m).
Proof.
  intros Hx Hr. unfold live. rewrite (counted_less ss_running m id x (mkSession false true true) Hx Hr eq_refl). lia.
Qed.
Lemma live_exists m : live m ≠ 0%nat → ∃ id x, m !! id = Some x ∧ ss_running x = true.
Proof.
  unfold live. intros Hne. destruct (map_choose (filter (λ kv : nat * session, ss_running kv.2 = true) m)) as (id & x & Hx); [intros Hz; by rewrite Hz, map_size_empty in Hne|].
  apply map_lookup_filter_Some in Hx as [Hx Hr]. by exists id, x.
Qed.

Lemma step_inv ev s s' : serve_step ev s s' → serve_inv s → serve_inv s'.
Proof.
  intros Hs [H1 H2 H3 H4 H5 H6 [H7 H8]]. destruct Hs; split; cbn in *; try done.
  all: try (unfold live; rewrite (counted_same ss_running _ _ _ _ H) by done; done).
  all: try (unfold live in *; pose proof (counted_less ss_running _ _ _ (mkSession false true (ss_watched x)) H H0 eq_refl); lia).
  all: try (intros i y [[<- <-]|[Hne Hy]]%lookup_insert_Some; cbn; eauto; fail).
  all: try (pose proof (live_pos _ _ _ H H0); split; [done | intros Ht%H8; lia]).
  all: try (split; [split; [intros Ht; apply H7 in Ht as [r Hr]; congruence | intros [r Hr]; congruence] | done]).
  all: try (intros r0 [Hr|Hr]; try discriminate Hr; unfold serve_result in Hr; destruct (sv_done s); naive_solver).
  - intros i y Hy Hr Hw. split; [by apply (H5 i y) | done].
  - assert (sv_sessions s !! sv_next s = None) as Hfresh by (destruct (sv_sessions s !! sv_next s) as [y|] eqn:E; [apply H2 in E; lia | done]).
    assert (live (<[sv_next s := new_session]> (sv_sessions s)) = S (live (sv_sessions s))) as ->; [|lia].
    unfold live. rewrite map_filter_insert_True by done. apply map_size_insert_None. apply map_lookup_filter_None. by left.
  - intros i y [[<- _]|[_ Hy%H2]]%lookup_insert_Some; lia.
  - split; [done|]. intros Ht. apply H7 in Ht as [r Hr]. congruence.
  - intros i y [[<- <-]|[Hne Hy]]%lookup_insert_Some; cbn; [done | by apply (H5 i y)].
  - intros i y [[<- <-]|[Hne Hy]]%lookup_insert_Some; cbn; [done | by apply (H5 i y)].
  - split; [|done]. split; [by exists r | done].
Qed.

Lemma serving_start_inv : serve_inv start_serving.
Proof.
  split; cbn; try done; try (by intros id x; rewrite lookup_empty).
  - intros r [?|?]; done.
  - split; [|done]. split; [done | by intros [r ?]].
Qed.
Lemma reach_inv s : serve_reach s → serve_inv s.
Proof.
  intros Hr. unfold serve_reach in Hr. revert Hr. generalize serving_start_inv. generalize start_serving as s0. intros s0 H0 Hr.
  induction Hr as [|s0 s1 s2 [ev Hs] _ IH]; [done|]. apply IH. by apply (step_inv ev s0).
Qed.

(** ** Stopping *)
(** What the process has left to do by itself. *)
Definition loop_left (l : serve_loop) : nat := match l with Accepting => 2 | Waiting _ => 1 | Returned _ => 0 end.
Definition left_to_do (s : serving) : nat :=
  (Nat.b2n (sv_listener s) + loop_left (sv_loop s) + live (sv_sessions s) + counted ss_watched (sv_sessions s))%nat.

Lemma inside_less s s' : serve_step Inside s s' → (left_to_do s' < left_to_do s)%nat ∧ (sv_done s = true → sv_done s' = true).
Proof.
  intros Hs. split; [|by inversion Hs; subst; cbn]. unfold left_to_do, live. inversion Hs; subst; cbn [sv_listener sv_loop sv_sessions listener_closed with_loop with_sessions].
  - destruct (sv_listener s); [cbn; lia | done].
  - rewrite H. cbn. lia.
  - rewrite (counted_same ss_running _ id x _ H) by done. rewrite (counted_less ss_watched _ id x (mkSession (ss_running x) true false) H H0 eq_refl). lia.
  - rewrite (counted_same ss_running _ id x _ H) by done. rewrite (counted_less ss_watched _ id x (mkSession false (ss_closed x) false) H H0 eq_refl). lia.
  - rewrite (counted_same ss_watched _ id x _ H) by done. rewrite (counted_less ss_running _ id x (mkSession false true (ss_watched x)) H H0 eq_refl). lia.
  - rewrite H. cbn. lia.
Qed.

Lemma not_stuck s : serve_inv s → sv_done s = true → (∀ s', ¬ serve_step Inside s s') → ∃ r, sv_loop s = Returned r.
Proof.
  intros Hi Hd Hno. destruct (sv_listener s) eqn:El; [exfalso; eapply Hno; by apply serve_close_listener|].
  destruct (sv_loop s) as [|r|r] eqn:Ep; [exfalso; eapply Hno; by apply serve_accept_closed| |by exists r].
  exfalso. destruct (decide (live (sv_sessions s) = 0%nat)) as [Hz|Hne].
  - eapply Hno. apply (serve_returns r s Ep). rewrite (si_count s Hi), Hz. done.
  - destruct (live_exists _ Hne) as (id & x & Hx & Hr). destruct (ss_watched x) eqn:Ew.
    + eapply Hno. by apply (serve_watch_closes id x s).
    + destruct (si_watched s Hi id x Hx Hr Ew) as [Hc _]. eapply Hno. by apply (serve_session_cut id x s).
Qed.

(** C16 (liveness): the proxy stops, and cleanly.  In any state the accept loop reaches, the
    count of sessions is right, and the transports are closed exactly when
    [Serve] has returned, every session having ended and every connection being
    closed; once the process is told to stop, whatever its goroutines do by
    themselves comes to an end, and where it ends [Serve] has returned. *)
Theorem serve_stops s : serve_reach s →
  sv_count s = Z.of_nat (live (sv_sessions s))
  ∧ (sv_transports s = false ↔ ∃ r, sv_loop s = Returned r)
  ∧ (sv_transports s = false → ∀ id x, sv_sessions s !! id = Some x → ss_running x = false ∧ ss_closed x = true)
  ∧ (sv_done s = true →
       Acc (λ s2 s1, serve_step Inside s1 s2) s
       ∧ ∀ s', rtc (serve_step Inside) s s' → (∀ s2, ¬ serve_step Inside s' s2) → ∃ r, sv_loop s' = Returned r).
Proof.
  intros Hr. pose proof (reach_inv s Hr) as Hi. split; [apply (si_count s Hi)|]. split; [apply (si_returned s Hi)|]. split.
  - intros Ht id x Hx. assert (ss_running x = false) as Hn; [|split; [done | by apply (si_closed s Hi id x)]].
    destruct (ss_running x) eqn:E; [|done]. pose proof (live_pos _ _ _ Hx E). pose proof (proj2 (si_returned s Hi) Ht). rewrite (si_count s Hi) in *. lia.
  - intros Hd. split.
    + clear. remember (left_to_do s) as n eqn:Hn. revert s Hn. induction (lt_wf n) as [n _ IH]. intros s ->. constructor. intros s2 [Hl _]%inside_less. by apply (IH (left_to_do s2)).
    + intros s' Hs'. clear Hr. induction Hs' as [s|s s1 s2 Hstep _ IH]; [by apply not_stuck|]. intros Hno. apply IH; [by apply (step_inv Inside s) | by apply (inside_less s) | done].
Qed.

(** A failed accept leaves the process deaf: the loop waits for its sessions,
    the listener stays open, and no session is taken any more. *)
Definition deaf : serving := with_loop (Waiting (Some AcceptFailed)) true (accepted start_serving).
Lemma deaf_reached : serve_reach deaf.
Proof.
  apply (rtc_l _ _ (accepted start_serving)); [exists Outside; by apply serve_accept|]. apply rtc_once. exists Outside. by apply (serve_accept_fails (accepted start_serving)).
Qed.
Theorem deaf_until_idle ev s s' : serve_step ev s s' → ∀ r, sv_loop s = Waiting r →
  sv_next s' = sv_next s ∧ (sv_loop s' = Waiting r ∨ sv_loop s' = Returned r ∧ sv_count s = 0).
Proof. intros Hs r Hr. destruct Hs; cbn; try (split; [done | by left]); try congruence. split; [done|]. right. split; [congruence | done]. Qed.

Lemma serve_stops_witness :
  let s := cancelled deaf in
  sv_count s = 1 ∧ ∀ s', rtc (serve_step Inside) s s' → (∀ s2, ¬ serve_step Inside s' s2) → ∃ r, sv_loop s' = Returned r.
Proof.
  intros s. split; [vm_compute; reflexivity|]. apply (serve_stops s).
  - apply (rtc_r _ deaf); [apply deaf_reached | exists Outside; apply serve_cancel].
  - reflexivity.
Defined.
