(* ===== verification/UpstreamHTTP3.v ===== *)
(** * HTTP/3 to the origin ([proxy.go])

    A request over HTTP/3 first tries the QUIC version remembered for its
    authority, and falls back to version 2 when the origin offers it.  The round
    trip is [quic-go]'s and a parameter; what it consumes is the reader of the
    body.  Connections take a slot of the process while they live; a step on the
    slots is what happens between two operations on the channel. *)
From stdpp Require Import gmap.
From S2P Require Import Prelude GoStrings GoNet ConfigTypes HostPatterns.

(** ** The version of a request *)
Definition Version1 : Z := 1.
Definition Version2 : Z := 0x6b3343cf.

Record h3request := mkH3Request {
  hq_Hostname : bytes;
  hq_Port : bytes;
  (** The content the reader of the body still gives; none for a nil body. *)
  hq_Body : option bytes;
  hq_ContentLength : Z;
  hq_TransferEncoding : bool;
  hq_Trailer : bool;
  (** [GetBody]: absent, failed, or a fresh reader. *)
  hq_GetBody : option (option bytes);
}.

Inductive h3error := BadAuthority | GenerationClosed | NotReplayable | GetBodyFailed | VersionNegotiation (theirs : list Z) | OtherFailure.

Record h3generation := mkH3Generation {
  hg_closed : bool;
  hg_transports : gset Z;             (** the versions with a transport *)
  hg_versions : gmap bytes Z;         (** [http3Versions] *)
}.

Section round_trip.
Context {U : UnicodeCase} {Response : Type}.
(** [Transport.RoundTrip] with a version, for the body it is given. *)
Context (RoundTrip : Z → option bytes → res h3error Response).

Definition request_has_section (r : h3request) : bool :=
  bool_decide (is_Some (hq_Body r)) && (negb (hq_ContentLength r =? 0) || hq_TransferEncoding r) || hq_Trailer r.

Definition canonicalHTTP3Authority (r : h3request) : option bytes :=
  let host := canonicalHost (hq_Hostname r) in
  if bool_decide (host = []) then None
  else Some (JoinHostPort host (if bool_decide (hq_Port r = []) then &"443" else hq_Port r)).

Definition containsQUICVersion (versions : list Z) (want : Z) : bool := existsb (λ v, v =? want) versions.

Definition preferredHTTP3Version (authority : bytes) (g : h3generation) : Z :=
  match hg_versions g !! authority with Some v => if v =? 0 then Version1 else v | None => Version1 end.
Definition preferHTTP3Version2 (authority : bytes) (g : h3generation) : h3generation :=
  mkH3Generation (hg_closed g) (hg_transports g) (<[authority := Version2]> (hg_versions g)).

Definition getHTTP3Transport (version : Z) (g : h3generation) : option h3generation :=
  if hg_closed g then None else Some (mkH3Generation false ({[version]} ∪ hg_transports g) (hg_versions g)).

(** The body of the second attempt. *)
Definition resetHTTP3RequestBodyForReplay (r : h3request) : res h3error (option bytes) :=
  if negb (request_has_section r) then Ok None
  else match hq_GetBody r with
       | None => Err NotReplayable
       | Some None => Err GetBodyFailed
       | Some (Some body) => Ok (Some body)
       end.

(** [closes] is whether the generation is closed while the first attempt runs. *)
Definition roundTripHTTP3 (r : h3request) (closes : bool) (g : h3generation)
    : res h3error Response * list (Z * option bytes) * h3generation :=
  match canonicalHTTP3Authority r with
  | None => (Err BadAuthority, [], g)
  | Some authority =>
      let version := preferredHTTP3Version authority g in
      match getHTTP3Transport version g with
      | None => (Err GenerationClosed, [], g)
      | Some g =>
          let first := (version, hq_Body r) in
          let outcome := RoundTrip version (hq_Body r) in
          let g := if closes then mkH3Generation true ∅ (hg_versions g) else g in
          match outcome with
          | Ok _ => (outcome, [first], g)
          | Err e =>
              if version =? Version2 then (outcome, [first], g)
              else
                match e with
                | VersionNegotiation theirs =>
                    if negb (containsQUICVersion theirs Version2) then (Err e, [first], g)
                    else
                      match resetHTTP3RequestBodyForReplay r with
                      | Err bodyErr => (Err bodyErr, [first], g)
                      | Ok body =>
                          match getHTTP3Transport Version2 g with
                          | None => (Err GenerationClosed, [first], g)
                          | Some g =>
                              let second := RoundTrip Version2 body in
                              (second, [first; (Version2, body)],
                               match second with Ok _ => preferHTTP3Version2 authority g | Err _ => g end)
                          end
                      end
                | _ => (Err e, [first], g)
                end
          end
      end
  end.

(** The version memory of a generation: only version 2, and only where it has worked. *)
Definition versions_ok (g : h3generation) : Prop := map_Forall (λ _ v, v = Version2) (hg_versions g).

Lemma preferred_cases authority g : versions_ok g → preferredHTTP3Version authority g = Version2 ∨ preferredHTTP3Version authority g = Version1 ∧ hg_versions g !! authority = None.
Proof.
  intros Hv. unfold preferredHTTP3Version. destruct (hg_versions g !! authority) as [v|] eqn:E; [|by right]. rewrite (Hv _ _ E). by left.
Qed.
Lemma containsQUICVersion_true versions want : containsQUICVersion versions want = true → want ∈ versions.
Proof. unfold containsQUICVersion. rewrite existsb_exists. intros (v & Hv%list_elem_of_In & ->%Z.eqb_eq). done. Qed.
Lemma reset_exact r : match resetHTTP3RequestBodyForReplay r with
  | Ok body => if request_has_section r then hq_GetBody r = Some body ∧ is_Some body else body = None
  | Err e => e = NotReplayable ∧ hq_GetBody r = None ∨ e = GetBodyFailed ∧ hq_GetBody r = Some None
  end.
Proof. unfold resetHTTP3RequestBodyForReplay. destruct (request_has_section r); [|done]. cbn. destruct (hq_GetBody r) as [[body|]|]; auto. Qed.
Lemma preferred_after authority g : versions_ok g → versions_ok (preferHTTP3Version2 authority g) ∧ preferredHTTP3Version authority (preferHTTP3Version2 authority g) = Version2.
Proof.
  intros Hv. split; [by apply map_Forall_insert_2|]. unfold preferredHTTP3Version. cbn. by rewrite lookup_insert_eq.
Qed.

(** The shape of an answer after one attempt. *)
Ltac one_attempt := split; [done|]; split; [by left|]; left; split; [done|]; split; [done | by left].

(** C29 (functional): A request makes at most two attempts.  The first is with the version remembered for its authority;
    a second one is with version 2, only after the first failed with a version negotiation that offers
    it, and it sends the whole body again, from [GetBody], or none when there is none to send.  What is
    answered is the outcome of the last attempt, or why there was no second.  Version 2 is remembered
    exactly when the second attempt worked, and then the next request tries it first. *)
Theorem http3_fallback_exact (r : h3request) (closes : bool) (g : h3generation) (authority : bytes)
    (Ha : canonicalHTTP3Authority r = Some authority) (Hv : versions_ok g) (Ho : hg_closed g = false) :
  let '(answer, attempts, g') := roundTripHTTP3 r closes g in
  let version := preferredHTTP3Version authority g in
  versions_ok g'
  ∧ (hg_versions g' = hg_versions g ∨ hg_versions g' = <[authority := Version2]> (hg_versions g))
  ∧ ((attempts = [(version, hq_Body r)]
      ∧ hg_versions g' = hg_versions g
      ∧ (answer = RoundTrip version (hq_Body r)
         ∨ version = Version1 ∧ ∃ theirs, RoundTrip Version1 (hq_Body r) = Err (VersionNegotiation theirs) ∧ Version2 ∈ theirs
           ∧ (answer = Err NotReplayable ∧ hq_GetBody r = None ∨ answer = Err GetBodyFailed ∧ hq_GetBody r = Some None
              ∨ answer = Err GenerationClosed ∧ closes = true)))
     ∨ ∃ theirs body, version = Version1 ∧ RoundTrip Version1 (hq_Body r) = Err (VersionNegotiation theirs) ∧ Version2 ∈ theirs
         ∧ attempts = [(Version1, hq_Body r); (Version2, body)] ∧ answer = RoundTrip Version2 body
         ∧ (if request_has_section r then hq_GetBody r = Some body ∧ is_Some body else body = None)
         ∧ ((∃ response, answer = Ok response) ↔ preferredHTTP3Version authority g' = Version2)).
Proof.
  unfold roundTripHTTP3. rewrite Ha. unfold getHTTP3Transport at 1. rewrite Ho. cbv zeta.
  set (g1 := if closes then _ else _).
  assert (hg_versions g1 = hg_versions g ∧ (hg_closed g1 = true → closes = true)) as [E1 Hc1] by (unfold g1; destruct closes; done).
  assert (versions_ok g1) as Hv1 by (unfold versions_ok; by rewrite E1).
  clearbody g1. pose proof (preferred_cases authority g Hv) as Hp.
  destruct (RoundTrip (preferredHTTP3Version authority g) (hq_Body r)) as [response|e] eqn:Er; [one_attempt|].
  destruct (Z.eqb_spec (preferredHTTP3Version authority g) Version2) as [E2|E2]; [one_attempt|].
  destruct Hp as [?|[Ev Hnone]]; [done|]. rewrite Ev in *.
  destruct e as [| | | |theirs|]; try one_attempt.
  destruct (containsQUICVersion theirs Version2) eqn:Ec; cbn [negb]; [|one_attempt].
  apply containsQUICVersion_true in Ec. pose proof (reset_exact r) as Hreset. destruct (resetHTTP3RequestBodyForReplay r) as [body|e].
  2: { split; [done|]. split; [by left|]. left. split; [done|]. split; [done|]. right. split; [done|]. exists theirs. split; [done|]. split; [done|].
       destruct Hreset as [[-> ?]|[-> ?]]; auto. }
  unfold getHTTP3Transport. destruct (hg_closed g1) eqn:Ec1.
  { split; [done|]. split; [by left|]. left. split; [done|]. split; [done|]. right. split; [done|]. exists theirs. split; [done|]. split; [done|]. auto. }
  set (g2 := mkH3Generation _ _ _). assert (versions_ok g2) as Hv2 by exact Hv1.
  assert (preferredHTTP3Version authority g2 = Version1) as Hp2 by (unfold preferredHTTP3Version; cbn; by rewrite E1, Hnone).
  destruct (RoundTrip Version2 body) as [response|e] eqn:Er2.
  - destruct (preferred_after authority g2 Hv2) as [? Hpref]. split; [done|]. split; [right; cbn; by rewrite E1|]. right. exists theirs, body.
    repeat split; try done. by exists response.
  - split; [done|]. split; [by left|]. right. exists theirs, body. repeat split; try done; [by intros [? ?] | by rewrite Hp2].
Qed.
End round_trip.

(** ** Connections and slots *)
Module Slots.
Definition maxUpstreamHTTP3Connections : nat := 64.

(** A dial that found every slot taken, one that holds a slot, a connection, and one that has ended
    but whose goroutine has not given the slot back. *)
Inductive h3phase := Recycling | Dialing | Live | Ended.
Record h3slots := mkH3Slots { hs_used : nat; hs_dials : gmap nat h3phase }.
Definition no_dials : h3slots := mkH3Slots 0 ∅.

Definition takes (c : nat) (s : h3slots) : h3slots := mkH3Slots (S (hs_used s)) (<[c := Dialing]> (hs_dials s)).
Definition moves (c : nat) (p : h3phase) (s : h3slots) : h3slots := mkH3Slots (hs_used s) (<[c := p]> (hs_dials s)).
Definition gives (c : nat) (s : h3slots) : h3slots := mkH3Slots (pred (hs_used s)) (delete c (hs_dials s)).

(** The start of [acquireHTTP3ConnectionSlot]: [refs] is the count of requests of the generation.  The
    second component tells whether its idle connections are to be closed. *)
Definition acquire_slot (c : nat) (refs : Z) (s : h3slots) : option (h3slots * bool) :=
  match hs_dials s !! c with
  | Some _ => None
  | None => if (hs_used s <? maxUpstreamHTTP3Connections)%nat then Some (takes c s, false)
            else if negb (refs =? 1) then Some (s, false)
            else Some (moves c Recycling s, true)
  end.

Inductive h3event :=
| HAcquire (c : nat) (refs : Z) | HRecycled (c : nat) | HGiveUp (c : nat) | HDialFailed (c : nat) | HDialed (c : nat) | HEnded (c : nat) | HReleased (c : nat).

Definition h3_step (s : h3slots) (e : h3event) : option h3slots :=
  match e with
  | HAcquire c refs => fst <$> acquire_slot c refs s
  | HRecycled c => match hs_dials s !! c with
                   | Some Recycling => if (hs_used s <? maxUpstreamHTTP3Connections)%nat then Some (takes c s) else None
                   | _ => None
                   end
  | HGiveUp c => match hs_dials s !! c with Some Recycling => Some (mkH3Slots (hs_used s) (delete c (hs_dials s))) | _ => None end
  | HDialFailed c => match hs_dials s !! c with Some Dialing => Some (gives c s) | _ => None end
  | HDialed c => match hs_dials s !! c with Some Dialing => Some (moves c Live s) | _ => None end
  | HEnded c => match hs_dials s !! c with Some Live => Some (moves c Ended s) | _ => None end
  | HReleased c => match hs_dials s !! c with Some Ended => Some (gives c s) | _ => None end
  end.
Fixpoint h3_run (s : h3slots) (es : list h3event) : option h3slots :=
  match es with [] => Some s | e :: es => s' ← h3_step s e; h3_run s' es end.

Definition has_slot (p : h3phase) : bool := match p with Recycling => false | _ => true end.
Definition holders (m : gmap nat h3phase) : nat := size (filter (λ kv, has_slot kv.2 = true) m).
Definition balanced (s : h3slots) : Prop := hs_used s = holders (hs_dials s) ∧ (hs_used s <= maxUpstreamHTTP3Connections)%nat.

Lemma holders_insert c p m : holders (<[c := p]> m) = (Nat.b2n (has_slot p) + holders (delete c m))%nat.
Proof.
  unfold holders. rewrite map_filter_insert, map_filter_delete. cbn [snd].
  destruct (has_slot p); [rewrite decide_True by done | rewrite decide_False by done].
  - rewrite <- insert_delete_eq, map_size_insert_None by apply lookup_delete_eq. done.
  - done.
Qed.
Lemma holders_delete c p m : m !! c = Some p → holders m = (Nat.b2n (has_slot p) + holders (delete c m))%nat.
Proof. intros Hc. rewrite <- (insert_id m c p Hc) at 1. apply holders_insert. Qed.

Lemma balanced_takes c s : balanced s → (hs_used s < maxUpstreamHTTP3Connections)%nat → holders (delete c (hs_dials s)) = holders (hs_dials s) → balanced (takes c s).
Proof. intros [Hu Hm] Hlt Hc. split; cbn [takes hs_used hs_dials]; [rewrite holders_insert, Hc, Hu; done | lia]. Qed.
Lemma balanced_gives c p s : balanced s → hs_dials s !! c = Some p → has_slot p = true → balanced (gives c s).
Proof. intros [Hu Hm] Hc Hp. rewrite (holders_delete _ _ _ Hc), Hp in Hu. cbn [Nat.b2n] in Hu. split; cbn [gives hs_used hs_dials]; lia. Qed.
Lemma balanced_moves c p q s : balanced s → hs_dials s !! c = Some q → has_slot p = has_slot q → balanced (moves c p s).
Proof. intros [Hu Hm] Hc Hp. split; [|done]. cbn [moves hs_used hs_dials]. by rewrite holders_insert, Hp, <- holders_delete. Qed.

Lemma balanced_step s e s' : balanced s → h3_step s e = Some s' → balanced s'.
Proof.
  intros Hb. assert (balanced s) as [Hu Hm] by done. destruct e as [c refs|c|c|c|c|c|c]; cbn [h3_step]; unfold acquire_slot;
    destruct (hs_dials s !! c) as [p|] eqn:Hc; try done.
  - destruct (Nat.ltb_spec (hs_used s) maxUpstreamHTTP3Connections); [|destruct (negb (refs =? 1))]; intros [= <-]; [|done|].
    + apply balanced_takes; [done..|]. by rewrite delete_id.
    + split; [|done]. cbn [moves hs_used hs_dials]. by rewrite holders_insert, delete_id.
  - destruct p; try done. destruct (Nat.ltb_spec (hs_used s) maxUpstreamHTTP3Connections); [|done]. intros [= <-].
    apply balanced_takes; [done..|]. by rewrite (holders_delete _ _ _ Hc).
  - destruct p; try done. intros [= <-]. split; [|done]. cbn [hs_used hs_dials]. by rewrite Hu, (holders_delete _ _ _ Hc).
  - destruct p; try done. intros [= <-]. by eapply balanced_gives.
  - destruct p; try done. intros [= <-]. by eapply balanced_moves.
  - destruct p; try done. intros [= <-]. by eapply balanced_moves.
  - destruct p; try done. intros [= <-]. by eapply balanced_gives.
Qed.

(** The slots in use are those of the dials, connections and endings under way, at most 64; so once
    every connection has ended and given its slot back, all are free. *)
Theorem slots_balanced (es : list h3event) (s : h3slots) (Hrun : h3_run no_dials es = Some s) :
  hs_used s = holders (hs_dials s) ∧ (hs_used s <= 64)%nat ∧ (hs_dials s = ∅ → hs_used s = O).
Proof.
  assert (balanced s) as [Hu Hm].
  { revert Hrun. assert (balanced no_dials) as H0 by (split; [reflexivity | cbn; lia]). revert H0. generalize no_dials.
    induction es as [|e es IH]; intros s0 H0; cbn [h3_run]; [by intros [= <-]|].
    destruct (h3_step s0 e) as [s1|] eqn:E; [|done]. apply IH. by eapply balanced_step. }
  split; [exact Hu|]. split; [exact Hm|]. intros E. rewrite Hu, E. reflexivity.
Qed.

(** A full pool, whose one connection ends while a dial waits for it. *)
Definition recycle : list h3event :=
  concat (map (λ c, [HAcquire c 1; HDialed c]) (seq 0 64)) ++ [HAcquire 64 1; HEnded 7; HReleased 7; HRecycled 64; HAcquire 65 2].
Lemma slots_balanced_witness : ∃ s, h3_run no_dials recycle = Some s ∧ (hs_used s <= 64)%nat ∧ hs_dials s !! 65%nat = None.
Proof.
  destruct (h3_run no_dials recycle) as [s|] eqn:E; [|vm_compute in E; discriminate E].
  exists s. split; [reflexivity|]. destruct (slots_balanced recycle s E) as (_ & Hm & _). split; [exact Hm|].
  vm_compute in E. injection E as <-. vm_compute. reflexivity.
Defined.
End Slots.

(** An origin that refuses version 1 and offers version 2. *)
Section witness.
#[local] Instance ascii_case : UnicodeCase := {| unicode_ToLower r := r; unicode_ToUpper r := r |}.
Definition offers_version2 (version : Z) (body : option bytes) : res h3error bytes :=
  if version =? Version2 then Ok (default [] body) else Err (VersionNegotiation [Version2]).
Definition posted_request : h3request := mkH3Request (&"a.example") [] (Some (&"x")) 1 false false (Some (Some (&"x"))).
Lemma http3_fallback_exact_witness :
  (roundTripHTTP3 offers_version2 posted_request false (mkH3Generation false ∅ ∅)).1.1 = Ok (&"x")
  ∧ preferredHTTP3Version (&"a.example:443") (roundTripHTTP3 offers_version2 posted_request false (mkH3Generation false ∅ ∅)).2 = Version2.
Proof.
  pose proof (http3_fallback_exact offers_version2 posted_request false (mkH3Generation false ∅ ∅) (&"a.example:443") eq_refl
    ltac:(intros k v Hk; cbn in Hk; rewrite lookup_empty in Hk; discriminate Hk) eq_refl) as H.
  assert ((roundTripHTTP3 offers_version2 posted_request false (mkH3Generation false ∅ ∅)).1 =
    (Ok (&"x"), [(Version1, Some (&"x")); (Version2, Some (&"x"))])) as E by (vm_compute; reflexivity).
  destruct (roundTripHTTP3 offers_version2 posted_request false (mkH3Generation false ∅ ∅)) as [[answer attempts] g']. cbn [fst snd] in *.
  injection E as -> ->. split; [reflexivity|]. destruct H as (_ & _ & [(Hone & _)|(theirs & body & _ & _ & _ & _ & _ & _ & Hiff)]); [discriminate Hone|].
  apply Hiff. exists (&"x"). reflexivity.
Defined.
End witness.
